(** * N-dimensional convolution by decomposition along the leading axis

    A shallow embedding of [FunctionsNd.py]: the two operator classes
    [ConvNd] and [ConvTransposeNd], their constructors and their
    [forward] methods, over a small model of the tensor engine the
    classes are written against.

    Numbers are exact integers ([Z]); floating-point rounding is not part
    of the model.  Python integers are [Z], list positions are [nat]. *)

From stdpp Require Import base list numbers strings sets.
From Stdlib Require Import ZArith Lia ZifyBool.

Local Open Scope Z_scope.
Set Warnings "-register-all,-clear-no-such-hyp".

(** ** Exceptions and fallible computations *)

(** The exceptions the Python code can raise.  The asserts of the
    constructors raise [AssertionError] (the specification's
    ConfigurationError); failures inside the tensor engine are
    [RuntimeError] (the specification's ShapeError). *)
Inductive exn :=
| AssertionError (msg : string)
| IndexError
| ZeroDivisionError
| AttributeError
| TypeError
| ValueError
| RuntimeError
| RecursionError.

Inductive result (A : Type) :=
| Ok (a : A)
| Raise (e : exn).
Arguments Ok {A} a.
Arguments Raise {A} e.

#[global] Instance result_ret : MRet result := @Ok.
#[global] Instance result_bind : MBind result := fun A B f m =>
  match m with Ok a => f a | Raise e => Raise e end.
#[global] Instance result_fmap : FMap result := fun A B f m =>
  match m with Ok a => Ok (f a) | Raise e => Raise e end.

(** [for x in xs: st = body x st], stopping at the first exception. *)
Fixpoint for_each {A S : Type} (xs : list A) (body : A → S → result S) (st : S)
  : result S :=
  match xs with
  | [] => Ok st
  | x :: xs' => st' ← body x st; for_each xs' body st'
  end.

(** [[f x for x in xs]], stopping at the first exception. *)
Fixpoint comprehension {A B : Type} (f : A → result B) (xs : list A)
  : result (list B) :=
  match xs with
  | [] => Ok []
  | x :: xs' => y ← f x; ys ← comprehension f xs'; Ok (y :: ys)
  end.

(** ** Python sequences *)

(** [range(n)]: empty when [n <= 0]. *)
Definition range (n : Z) : list nat := seq 0 (Z.to_nat n).

(** [l[i]] on a tuple or list: a negative index counts from the end, an
    index outside [-len, len) raises [IndexError]. *)
Definition py_index {A : Type} (l : list A) (i : Z) : result A :=
  let n := Z.of_nat (length l) in
  let pos := if i <? 0 then n + i else i in
  if (0 <=? pos) && (pos <? n)
  then match l !! Z.to_nat pos with Some x => Ok x | None => Raise IndexError end
  else Raise IndexError.

(** [n * [x]]: empty when [n <= 0]. *)
Definition py_repeat {A : Type} (n : Z) (x : A) : list A := replicate (Z.to_nat n) x.

(** ** Tensors *)

(** A tensor is a scalar or a sequence of tensors (its rows along the
    leading axis). *)
Inductive tensor :=
| Scalar (v : Z)
| Tensor (rs : list tensor).

#[global] Instance tensor_inhabited : Inhabited tensor := populate (Scalar 0).

Definition rows (t : tensor) : list tensor :=
  match t with Tensor rs => rs | Scalar _ => [] end.

Definition item (t : tensor) : Z :=
  match t with Scalar v => v | Tensor _ => 0 end.

(** [t[i]] for an in-range position (a default scalar otherwise). *)
Definition row (i : nat) (t : tensor) : tensor := rows t !!! i.

(** The element at a multi-index. *)
Fixpoint tget (t : tensor) (idx : list nat) : Z :=
  match idx with
  | [] => item t
  | i :: idx' => tget (row i t) idx'
  end.

(** The tensor of a given shape whose element at [idx] is [f idx]. *)
Fixpoint tabulate (sh : list nat) (f : list nat → Z) : tensor :=
  match sh with
  | [] => Scalar (f [])
  | n :: sh' => Tensor (fmap (fun i => tabulate sh' (fun idx => f (i :: idx))) (seq 0 n))
  end.

(** An index within the extents of a shape. *)
Definition in_shape (idx sh : list nat) : Prop :=
  Forall2 (fun i n : nat => (i < n)%nat) idx sh.

(** [t.shape], read along the first rows. *)
Fixpoint tshape_nat (t : tensor) : list nat :=
  match t with
  | Scalar _ => []
  | Tensor rs => length rs :: match rs with
                              | r :: _ => tshape_nat r
                              | [] => []
                              end
  end.

Definition tshape (t : tensor) : list Z := fmap Z.of_nat (tshape_nat t).

(** A tensor is well shaped when it is rectangular with the given extents. *)
Fixpoint has_shape (sh : list nat) (t : tensor) : bool :=
  match sh, t with
  | [], Scalar _ => true
  | n :: sh', Tensor rs => (length rs =? n)%nat && forallb (has_shape sh') rs
  | _, _ => false
  end.

(** Elementwise sum; rows are paired off in order. *)
Fixpoint tadd (a b : tensor) : tensor :=
  match a, b with
  | Scalar x, Scalar y => Scalar (x + y)
  | Tensor xs, Tensor ys =>
      Tensor ((fix go (xs ys : list tensor) : list tensor :=
                 match xs, ys with
                 | x :: xs', y :: ys' => tadd x y :: go xs' ys'
                 | _, _ => []
                 end) xs ys)
  | _, _ => Tensor []
  end.

(** Adding a number to every element. *)
Fixpoint tadd_scalar (c : Z) (t : tensor) : tensor :=
  match t with
  | Scalar v => Scalar (v + c)
  | Tensor rs => Tensor (fmap (tadd_scalar c) rs)
  end.

Definition shape_eqb (s1 s2 : list Z) : bool := bool_decide (s1 = s2).

(** Sum of a list of integers. *)
Definition Zsum (l : list Z) : Z := foldr Z.add 0 l.

(** ** The tensor engine

    Modelled from the spec: the tensor engine (external to the source
    file) with the capabilities the specification lists for it:
    zero-filled tensors, padding of an axis in zero-fill and reflect mode,
    in-place elementwise addition, stacking along an axis, and the base
    1D/2D/3D convolution and transposed-convolution primitives.  The
    primitives compute the textbook cross-correlation sums; their output
    extents are the standard size formulas. *)

Inductive pad_mode := mode_zeros | mode_reflect.

Inductive base_prim :=
| Conv1d | Conv2d | Conv3d
| ConvTranspose1d | ConvTranspose2d | ConvTranspose3d.

Definition spatial_dims (f : base_prim) : nat :=
  match f with
  | Conv1d | ConvTranspose1d => 1
  | Conv2d | ConvTranspose2d => 2
  | Conv3d | ConvTranspose3d => 3
  end%nat.

Definition is_transposed (f : base_prim) : bool :=
  match f with
  | Conv1d | Conv2d | Conv3d => false
  | _ => true
  end.

(** Modelled from the spec: an instance of a base primitive, its
    configuration and parameters. *)
Record BaseConv := {
  prim : base_prim;
  b_in_channels : Z;
  b_out_channels : Z;
  b_kernel_size : list Z;
  b_stride : list Z;
  b_padding : list Z;
  b_padding_mode : pad_mode;
  b_groups : Z;
  weight : tensor;
  b_bias : option tensor
}.

(** Modelled from the spec: a shape has no negative extent. *)
Definition nonneg (sh : list Z) : bool := forallb (Z.leb 0) sh.

(** Modelled from the spec: [torch.zeros(shape)], the zero-filled tensor
    of a shape. *)
Definition torch_zeros (sh : list Z) : result tensor :=
  if nonneg sh then Ok (tabulate (fmap Z.to_nat sh) (fun _ => 0))
  else Raise RuntimeError.

(** Modelled from the spec: position [i] of an axis of length [len]
    padded by [p] on both sides reads row [j] of the unpadded axis
    ([Some j]) or the zero fill ([None]). *)
Definition padded_index (mode : pad_mode) (p : Z) (len : nat) (i : Z) : option nat :=
  match mode with
  | mode_zeros =>
      if (p <=? i) && (i <? p + Z.of_nat len) then Some (Z.to_nat (i - p)) else None
  | mode_reflect =>
      if i <? p then Some (Z.to_nat (p - i))
      else if i <? p + Z.of_nat len then Some (Z.to_nat (i - p))
      else Some (Z.to_nat (2 * Z.of_nat len - 2 - (i - p)))
  end.

(** Modelled from the spec: the rows of an axis after padding it by [p]
    on both sides; [z] is the zero row. *)
Definition pad_rows (mode : pad_mode) (p : nat) (z : tensor) (rs : list tensor)
  : list tensor :=
  match mode with
  | mode_zeros => replicate p z ++ rs ++ replicate p z
  | mode_reflect => reverse (take p (drop 1 rs)) ++ rs ++ take p (drop 1 (reverse rs))
  end.

(** Modelled from the spec:
    [F.pad(input.view(b, c, l, -1), (0, 0, p, p), mode).view(shape)], axis 2
    of a [(b, c, l, ...)] tensor padded by [p] on both sides.  Negative
    widths are outside the modelled domain; reflection needs [p < l]. *)
Definition F_pad (mode : pad_mode) (p : Z) (input : tensor) : result tensor :=
  let sh := tshape_nat input in
  let l := Z.of_nat (sh !!! 2%nat) in
  if (p <? 0) || (match mode with mode_reflect => l <=? p | mode_zeros => false end)
  then Raise RuntimeError
  else
    let z := tabulate (drop 3 sh) (fun _ => 0) in
    Ok (Tensor (fmap (fun xb =>
          Tensor (fmap (fun xc => Tensor (pad_rows mode (Z.to_nat p) z (rows xc)))
                      (rows xb)))
        (rows input))).

(** Modelled from the spec: [input[:, :, j]], the slice at position [j]
    of axis 2. *)
Definition slice2 (j : nat) (input : tensor) : tensor :=
  Tensor (fmap (fun xb => Tensor (fmap (row j) (rows xb))) (rows input)).

(** Modelled from the spec: the stack along axis 2 of frames of shape
    [(b, c, ...)]. *)
Definition stack2 (b c : nat) (frames : list tensor) : tensor :=
  Tensor ((fun ib =>
             Tensor ((fun ic => Tensor ((fun f => row ic (row ib f)) <$> frames))
                       <$> seq 0 c))
            <$> seq 0 b).

(** Modelled from the spec: [torch.stack(frames, dim=2)] for frames of
    one shape [(b, c, ...)]. *)
Definition torch_stack2 (frames : list tensor) : result tensor :=
  match frames with
  | [] => Raise RuntimeError
  | f0 :: _ =>
      if forallb (fun f => shape_eqb (tshape f) (tshape f0)) frames
      then Ok (stack2 (length (rows f0)) (length (rows (row 0 f0))) frames)
      else Raise RuntimeError
  end.

(** Modelled from the spec: [a += b] on tensors of one shape. *)
Definition iadd (a b : tensor) : result tensor :=
  if shape_eqb (tshape a) (tshape b) then Ok (tadd a b) else Raise RuntimeError.

(** Modelled from the spec: output extent of a convolution and of a
    transposed convolution along one axis (dilation 1, no output
    padding). *)
Definition conv_out_len (l k s p : Z) : Z := (l + 2 * p - k) / s + 1.
Definition convT_out_len (l k s p : Z) : Z := (l - 1) * s - 2 * p + (k - 1) + 1.

(** Per-axis configuration [(kernel, stride, padding)]. *)
Definition axis_cfg : Type := Z * Z * Z.

Definition axes (ks ss ps : list Z) : list axis_cfg :=
  zip_with (fun ks_ p => (ks_, p)) (zip_with (fun k s => (k, s)) ks ss) ps.

(** Modelled from the spec: cross-correlation of one kernel [w] with one
    (implicitly padded) channel [x], at output position [os]. *)
Fixpoint xcorr_at (mode : pad_mode) (cfg : list axis_cfg) (w x : tensor)
  (os : list nat) : Z :=
  match cfg, os with
  | (k, s, p) :: cfg', o :: os' =>
      Zsum (fmap (fun i : nat =>
                   match padded_index mode p (length (rows x)) (s * Z.of_nat o + Z.of_nat i) with
                   | Some j => xcorr_at mode cfg' (row i w) (row j x) os'
                   | None => 0
                   end)
                (range k))
  | _, _ => item w * item x
  end.

(** Modelled from the spec: transposed correlation, where input position
    [j] and kernel offset [i] reach output position [j * s + i - p]. *)
Fixpoint tcorr_at (cfg : list axis_cfg) (w x : tensor) (os : list nat) : Z :=
  match cfg, os with
  | (k, s, p) :: cfg', o :: os' =>
      Zsum (fmap (fun i : nat =>
                   let t := Z.of_nat o + p - Z.of_nat i in
                   if (t mod s =? 0) && (0 <=? t / s) && (t / s <? Z.of_nat (length (rows x)))
                   then tcorr_at cfg' (row i w) (row (Z.to_nat (t / s)) x) os'
                   else 0)
                (range k))
  | _, _ => item w * item x
  end.

(** Modelled from the spec: the input lengths a primitive accepts along
    one axis. *)
Definition axis_ok (transposed : bool) (mode : pad_mode) (l : Z) (a : axis_cfg) : bool :=
  let '(k, s, p) := a in
  (1 <=? l) && (1 <=? k) && (1 <=? s) && (0 <=? p) &&
  (if transposed then 1 <=? convT_out_len l k s p
   else (k <=? l + 2 * p) &&
        match mode with mode_reflect => p <? l | mode_zeros => true end).

(** Modelled from the spec: the spatial output extents of a primitive on
    spatial input extents [size_i]. *)
Definition out_sizes (transposed : bool) (size_i ks ss ps : list Z) : list Z :=
  (fun x : nat =>
     (if transposed then convT_out_len else conv_out_len)
       (size_i !!! x) (ks !!! x) (ss !!! x) (ps !!! x))
    <$> seq 0 (length size_i).

(** Modelled from the spec: the inputs a base primitive accepts, which
    have rank [2 + d], matching channel count, one kernel/stride/padding entry per spatial axis, and a
    non-empty output. *)
Definition base_accepts (c : BaseConv) (xs : list Z) : bool :=
  let d := spatial_dims (prim c) in
  (length xs =? 2 + d)%nat &&
  (length (b_kernel_size c) =? d)%nat &&
  (length (b_stride c) =? d)%nat &&
  (length (b_padding c) =? d)%nat &&
  (1 <=? xs !!! 0%nat) &&
  (xs !!! 1%nat =? b_in_channels c) &&
  (1 <=? b_groups c) &&
  (b_in_channels c mod b_groups c =? 0) &&
  (b_out_channels c mod b_groups c =? 0) &&
  (1 <=? b_out_channels c) &&
  forallb (fun x : nat =>
             axis_ok (is_transposed (prim c)) (b_padding_mode c) (drop 2 xs !!! x)
               (b_kernel_size c !!! x, b_stride c !!! x, b_padding c !!! x))
          (seq 0 d).

(** Modelled from the spec: the element at [idx] of the output of a base
    primitive, the sum over the input channels of the output channel's group of the
    correlations with that channel, plus the bias of the output
    channel. *)
Definition base_elem (c : BaseConv) (x : tensor) (idx : list nat) : Z :=
  match idx with
  | ib :: co :: os =>
      let cfg := axes (b_kernel_size c) (b_stride c) (b_padding c) in
      let cg := b_in_channels c / b_groups c in
      let og := b_out_channels c / b_groups c in
      let g := Z.of_nat co / og in
      Zsum ((fun ci : nat =>
               let cin := Z.to_nat (g * cg + Z.of_nat ci) in
               if is_transposed (prim c)
               then tcorr_at cfg
                      (row (Z.to_nat (Z.of_nat co mod og)) (row cin (weight c)))
                      (row cin (row ib x)) os
               else xcorr_at (b_padding_mode c) cfg
                      (row ci (row co (weight c)))
                      (row cin (row ib x)) os)
              <$> range cg)
      + match b_bias c with Some bt => tget bt [co] | None => 0 end
  | _ => 0
  end.

(** Modelled from the spec: the shape of the output of a base primitive
    on an input of shape [xs]. *)
Definition base_out_shape (c : BaseConv) (xs : list Z) : list Z :=
  xs !!! 0%nat :: b_out_channels c
  :: out_sizes (is_transposed (prim c)) (drop 2 xs)
       (b_kernel_size c) (b_stride c) (b_padding c).

(** Modelled from the spec: applying a base primitive to an input. *)
Definition base_forward (c : BaseConv) (x : tensor) : result tensor :=
  let xs := tshape x in
  if base_accepts c xs
  then Ok (tabulate (Z.to_nat <$> base_out_shape c xs) (base_elem c x))
  else Raise RuntimeError.

(** ** Operator instances *)

Inductive nd_class := ConvNd | ConvTransposeNd.

(** An initializer callback rewrites the contents of a parameter tensor
    in place: the new element at [idx] is [f old idx]. *)
Definition initializer : Type := tensor → list nat → Z.

Definition apply_initializer (f : initializer) (t : tensor) : tensor :=
  tabulate (tshape_nat t) (f t).

(** The attributes stored on [self] by the constructors. *)
Record attrs := {
  rank : Z;
  in_channels : Z;
  out_channels : Z;
  num_dims : Z;
  kernel_size : list Z;
  stride : list Z;
  padding : list Z;
  padding_mode : pad_mode;
  groups : Z;
  use_bias : bool;
  bias_initializer : option initializer;
  kernel_initializer : option initializer;
  conv_f : base_prim
}.

(** A module is a base primitive of the engine or an instance of one of
    the two classes, with its [bias] parameter and its [conv_layers]. *)
Inductive module :=
| Base (c : BaseConv)
| Nd (cls : nd_class) (self : attrs) (bias : option tensor) (conv_layers : list module).

(** ** Construction *)

(** The engine state a constructor runs against: the contents the engine
    gives to the parameter tensors it allocates (the [n]-th allocation
    holds [fresh n idx] at [idx]), the number of allocations so far, and
    the classes of the base primitives instantiated so far, latest first. *)
Record engine := {
  fresh : nat → list nat → Z;
  allocated : nat;
  instantiated : list base_prim
}.

(** Constructors run in a state-and-exception monad over the engine. *)
Definition build (A : Type) : Type := engine → result A * engine.

Definition build_ret {A : Type} (a : A) : build A := fun e => (Ok a, e).

Definition build_bind {A B : Type} (m : build A) (k : A → build B) : build B :=
  fun e => match m e with
           | (Ok a, e') => k a e'
           | (Raise x, e') => (Raise x, e')
           end.

Definition lift {A : Type} (r : result A) : build A := fun e => (r, e).

Notation "x <~ m ;; k" := (build_bind m (fun x => k))
  (at level 100, m at next level, right associativity).

Definition py_assert (b : bool) (msg : string) : build unit :=
  lift (if b then Ok tt else Raise (AssertionError msg)).

(** A fresh parameter tensor of the given shape. *)
Definition alloc_param (sh : list Z) : build tensor := fun e =>
  if nonneg sh
  then (Ok (tabulate (fmap Z.to_nat sh) (fresh e (allocated e))),
        {| fresh := fresh e; allocated := S (allocated e);
           instantiated := instantiated e |})
  else (Raise RuntimeError, e).

Definition log_instance (f : base_prim) : build unit := fun e =>
  (Ok tt, {| fresh := fresh e; allocated := allocated e;
             instantiated := f :: instantiated e |}).

(** Modelled from the spec: instantiating a base primitive
    [conv_f(in_channels, out_channels, bias=False, kernel_size, stride,
    padding, padding_mode, groups)].  The engine rejects channel counts
    the groups do not divide and, for the transposed primitives, any
    padding mode but zero fill; the weight has shape
    [(out, in / groups, *kernel_size)], or [(in, out / groups, *kernel_size)]
    when transposed. *)
Definition base_init (f : base_prim) (cin cout : Z) (ks ss ps : list Z)
  (mode : pad_mode) (g : Z) : build BaseConv :=
  if (g <=? 0) || negb (cin mod g =? 0) || negb (cout mod g =? 0)
     || (is_transposed f && match mode with mode_zeros => false | _ => true end)
  then lift (Raise ValueError)
  else
    w <~ alloc_param (if is_transposed f then cin :: cout / g :: ks
                      else cout :: cin / g :: ks) ;;
    let c := {| prim := f; b_in_channels := cin; b_out_channels := cout;
                b_kernel_size := ks; b_stride := ss; b_padding := ps;
                b_padding_mode := mode; b_groups := g;
                weight := w; b_bias := None |} in
    _ <~ log_instance f ;;
    build_ret c.

(** A constructor argument that may be a tuple or a single number. *)
Inductive tuple_arg :=
| Tup (l : list Z)
| Num (v : Z).

(** [x if isinstance(x, Tuple) else tuple(x for _ in range(num_dims))]. *)
Definition as_tuple (x : tuple_arg) (num_dims : Z) : list Z :=
  match x with
  | Tup l => l
  | Num v => fmap (fun _ => v) (range num_dims)
  end.

(** The constructor arguments, with the defaults of the signature. *)
Record ctor_args := {
  a_in_channels : Z;
  a_out_channels : Z;
  a_num_dims : Z;
  a_kernel_size : tuple_arg;
  a_stride : tuple_arg;
  a_padding : tuple_arg;
  a_padding_mode : pad_mode;
  a_dilation : Z;
  a_groups : Z;
  a_rank : Z;
  a_use_bias : bool;
  a_bias_initializer : option initializer;
  a_kernel_initializer : option initializer
}.

(** The tuple the base primitive is picked from. *)
Definition base_prims (cls : nd_class) : list base_prim :=
  match cls with
  | ConvNd => [Conv1d; Conv2d; Conv3d]
  | ConvTransposeNd => [ConvTranspose1d; ConvTranspose2d; ConvTranspose3d]
  end.

Definition size_msg (cls : nd_class) (what : string) : string :=
  match cls with
  | ConvNd => "nD " +:+ what +:+ " size expected!"
  | ConvTransposeNd => "4D " +:+ what +:+ " size expected!"
  end.

Definition dilation_msg : string := "Dilation rate other than 1 not yet implemented!".

(** [kernel_initializer(conv_layer.weight)]: only base primitives have a
    [weight] attribute. *)
Definition init_weight (f : initializer) (conv_layer : module) : result module :=
  match conv_layer with
  | Base c =>
      Ok (Base {| prim := prim c; b_in_channels := b_in_channels c;
                  b_out_channels := b_out_channels c;
                  b_kernel_size := b_kernel_size c; b_stride := b_stride c;
                  b_padding := b_padding c; b_padding_mode := b_padding_mode c;
                  b_groups := b_groups c;
                  weight := apply_initializer f (weight c); b_bias := b_bias c |})
  | Nd _ _ _ _ => Raise AttributeError
  end.

(** [for _ in range(n): layers.append(make())]. *)
Fixpoint build_layers (n : nat) (make : build module) (layers : list module)
  : build (list module) :=
  match n with
  | O => build_ret layers
  | S n' => conv_layer <~ make ;; build_layers n' make (layers ++ [conv_layer])
  end.

(** The attributes a constructor stores on [self]: its arguments, the
    tuples normalized, and the base primitive it picked. *)
Definition store_args (args : ctor_args) (f : base_prim) : attrs :=
  {| rank := a_rank args;
     in_channels := a_in_channels args;
     out_channels := a_out_channels args;
     num_dims := a_num_dims args;
     kernel_size := as_tuple (a_kernel_size args) (a_num_dims args);
     stride := as_tuple (a_stride args) (a_num_dims args);
     padding := as_tuple (a_padding args) (a_num_dims args);
     padding_mode := a_padding_mode args;
     groups := a_groups args;
     use_bias := a_use_bias args;
     bias_initializer := a_bias_initializer args;
     kernel_initializer := a_kernel_initializer args;
     conv_f := f |}.

(** The arguments of the nested constructor call of the recursive branch. *)
Definition child_args (self : attrs) : ctor_args :=
  {| a_in_channels := in_channels self;
     a_out_channels := out_channels self;
     a_num_dims := num_dims self - 1;
     a_kernel_size := Tup (drop 1 (kernel_size self));
     a_stride := Tup (drop 1 (stride self));
     a_padding := Tup (drop 1 (padding self));
     a_padding_mode := padding_mode self;
     a_dilation := 1;
     a_groups := groups self;
     a_rank := rank self - 1;
     a_use_bias := use_bias self;
     a_bias_initializer := None;
     a_kernel_initializer := None |}.

(** The body of [ConvNd.__init__] and of [ConvTransposeNd.__init__]: the
    two differ only in the tuple of base primitives, the class of a
    recursive child and the text of the assertion messages.  [nested] is
    the constructor of the class itself, for the recursive branch. *)
Definition nd_init_body (nested : ctor_args → build module) (cls : nd_class)
  (args : ctor_args) : build module :=
  let num_dims := a_num_dims args in
  let kernel_size := as_tuple (a_kernel_size args) num_dims in
  let stride := as_tuple (a_stride args) num_dims in
  let padding := as_tuple (a_padding args) num_dims in
  let max_dims := num_dims - 1 in
  conv_f <~ lift (py_index (base_prims cls) (max_dims - 1)) ;;
  _ <~ py_assert (Z.of_nat (length kernel_size) =? num_dims) (size_msg cls "kernel") ;;
  _ <~ py_assert (Z.of_nat (length stride) =? num_dims) (size_msg cls "stride") ;;
  _ <~ py_assert (Z.of_nat (length padding) =? num_dims) (size_msg cls "padding") ;;
  _ <~ py_assert (a_dilation args =? 1) dilation_msg ;;
  let self := store_args args conv_f in
  bias <~ (if use_bias self
           then b <~ alloc_param [out_channels self] ;; build_ret (Some b)
           else build_ret None) ;;
  let bias := match bias_initializer self with
              | Some f => if use_bias self then apply_initializer f <$> bias else bias
              | None => bias
              end in
  next_dim_len <~ lift (py_index kernel_size 0) ;;
  conv_layers <~ build_layers (Z.to_nat next_dim_len)
    (conv_layer <~
       (if negb (num_dims - 1 =? max_dims)
        then nested (child_args self)
        else
          c <~ base_init conv_f (in_channels self) (out_channels self)
                 (drop 1 kernel_size) (drop 1 stride) (drop 1 padding)
                 (padding_mode self) (groups self) ;;
          build_ret (Base c)) ;;
     match kernel_initializer self with
     | Some f => lift (init_weight f conv_layer)
     | None => build_ret conv_layer
     end)
    [] ;;
  build_ret (Nd cls self bias conv_layers).

(** The constructors; [fuel] bounds the depth of nested constructor
    calls. *)
Fixpoint nd_init (fuel : nat) (cls : nd_class) (args : ctor_args) : build module :=
  match fuel with
  | O => lift (Raise RecursionError)
  | S fuel' => nd_init_body (nd_init fuel' cls) cls args
  end.

Definition ConvNd_init (fuel : nat) : ctor_args → build module := nd_init fuel ConvNd.
Definition ConvTransposeNd_init (fuel : nat) : ctor_args → build module :=
  nd_init fuel ConvTransposeNd.

(** ** Forward evaluation *)

(** [self.conv_layers[i](conv_input)], given the forward functions of the
    layers. *)
Definition call (layers : list (tensor → result tensor)) (i : nat) (x : tensor)
  : result tensor :=
  match layers !! i with
  | Some f => f x
  | None => Raise IndexError
  end.

(** The two accumulator lists of [forward]: [frame_results] and
    [empty_frames].  Every slot of [frame_results] starts out as the one
    zero tensor; a slot is rebound to a layer's fresh output before
    anything is added to it in place, so the slots never share a tensor
    that is written to. *)
Definition frames : Type := list tensor * list (option Z).

(** The body that stores [frame_conv] at [out_frame]:
    assign on the first write, add in place afterwards. *)
Definition store_frame (out_frame : nat) (frame_conv : tensor) (st : frames)
  : result frames :=
  let '(frame_results, empty_frames) := st in
  match empty_frames !! out_frame with
  | Some None =>
      Ok (<[out_frame := frame_conv]> frame_results,
          <[out_frame := Some 1]> empty_frames)
  | Some (Some _) =>
      match frame_results !! out_frame with
      | Some fr =>
          r ← iadd fr frame_conv;
          Ok (<[out_frame := r]> frame_results, empty_frames)
      | None => Raise IndexError
      end
  | None => Raise IndexError
  end.

(** [result[:, k, :] += v] on the [(b, c, -1)] view of [result]. *)
Definition add_to_channel (k : nat) (v : Z) (res : tensor) : tensor :=
  Tensor (fmap (fun rb => Tensor (alter (tadd_scalar v) k (rows rb))) (rows res)).

(** The closing bias step shared by the two [forward] methods:
    [result.view(b, resultShape[1], -1)], then [result[:, k, :] += bias[k]]
    for every [k] in [range(out_channels)]. *)
Definition add_bias (self : attrs) (bias : option tensor) (res : tensor)
  : result tensor :=
  if use_bias self then
    let resultShape := tshape res in
    channels ← py_index resultShape 1;
    for_each (range (out_channels self))
      (fun k res =>
         if Z.of_nat k <? channels then
           match bias with
           | Some bt =>
               match rows bt !! k with
               | Some v => Ok (add_to_channel k (item v) res)
               | None => Raise IndexError
               end
           | None => Raise TypeError
           end
         else Raise IndexError)
      res
  else Ok res.

(** The body of the two nested loops of [forward], at kernel offset [i]
    and input position [j]; [target i j] is the output frame the pair
    writes to, or [None] when the pair is skipped. *)
Definition overlap_add_body (layers : list (tensor → result tensor)) (input : tensor)
  (target : nat → nat → option nat) (i j : nat) (st : frames) : result frames :=
  match target i j with
  | None => Ok st
  | Some out_frame =>
      let conv_input := slice2 j input in
      frame_conv ← call layers i conv_input;
      store_frame out_frame frame_conv st
  end.

(** The two nested loops of [forward] over kernel offset and input
    position. *)
Definition overlap_add (layers : list (tensor → result tensor)) (input : tensor)
  (target : nat → nat → option nat) (size_k0 size_i0 : Z) (st : frames)
  : result frames :=
  for_each (range size_k0)
    (fun i st => for_each (range size_i0) (overlap_add_body layers input target i) st)
    st.

(** The frame index computed by [ConvNd.forward] for the pair [(i, j)];
    [math.floor(a / s)] is floor division. *)
Definition ConvNd_target (size_k0 size_i0 size_ons0 stride0 size_o0 : Z) (i j : nat)
  : option nat :=
  let out_frame := Z.of_nat j - (Z.of_nat i - size_k0 / 2)
                   - (size_i0 - size_ons0) / 2 - (1 - size_k0 mod 2) in
  let k_center_position := out_frame mod stride0 in
  let out_frame := out_frame / stride0 in
  if (out_frame <? 0) || (size_o0 <=? out_frame) || negb (k_center_position =? 0)
  then None
  else Some (Z.to_nat out_frame).

(** The frame index computed by [ConvTransposeNd.forward]. *)
Definition ConvTransposeNd_target (size_k0 padding0 size_o0 : Z) (i j : nat)
  : option nat :=
  let out_frame := (Z.of_nat i + size_k0 / 2) + Z.of_nat j - size_k0 / 2 - padding0 in
  if (out_frame <? 0) || (size_o0 <=? out_frame)
  then None
  else Some (Z.to_nat out_frame).

(** [ConvNd.forward], given the forward functions of [self.conv_layers]. *)
Definition ConvNd_forward_body (self : attrs) (bias : option tensor)
  (layers : list (tensor → result tensor)) (input : tensor) : result tensor :=
  let padding0 := padding self in
  '(input, padding) ←
     (if rank self =? 0 then
        let inputShape := tshape input in
        _ ← py_index inputShape 2;
        p0 ← py_index (padding self) 0;
        let padding := <[0%nat := 0]> padding0 in
        input ← F_pad (padding_mode self) p0 input;
        Ok (input, padding)
      else Ok (input, padding0));
  let shape := tshape input in
  _ ← (if (length shape <? 2)%nat then Raise ValueError else Ok tt);
  let b := shape !!! 0%nat in
  let size_i := drop 2 shape in
  let size_k := kernel_size self in
  size_o ← comprehension
    (fun x : nat =>
       si ← py_index size_i (Z.of_nat x);
       p ← py_index padding (Z.of_nat x);
       k ← py_index size_k (Z.of_nat x);
       s ← py_index (stride self) (Z.of_nat x);
       if s =? 0 then Raise ZeroDivisionError
       else Ok ((si + 2 * p - k) / s + 1))
    (seq 0 (length size_i));
  size_ons ← comprehension
    (fun x : nat =>
       si ← py_index size_i (Z.of_nat x);
       k ← py_index size_k (Z.of_nat x);
       Ok (si - k + 1))
    (seq 0 (length size_i));
  size_o0 ← py_index size_o 0;
  zero_frame ← torch_zeros (b :: out_channels self :: drop 1 size_o);
  let frame_results := py_repeat size_o0 zero_frame in
  let empty_frames := py_repeat size_o0 (None : option Z) in
  size_k0 ← py_index size_k 0;
  size_i0 ← py_index size_i 0;
  size_ons0 ← py_index size_ons 0;
  stride0 ← py_index (stride self) 0;
  '(frame_results, _) ←
     overlap_add layers input
       (ConvNd_target size_k0 size_i0 size_ons0 stride0 size_o0)
       size_k0 size_i0 (frame_results, empty_frames);
  res ← torch_stack2 frame_results;
  add_bias self bias res.

(** [ConvTransposeNd.forward], given the forward functions of
    [self.conv_layers].  The device of the accumulators is not modelled. *)
Definition ConvTransposeNd_forward_body (self : attrs) (bias : option tensor)
  (layers : list (tensor → result tensor)) (input : tensor) : result tensor :=
  let shape := tshape input in
  _ ← (if (length shape <? 2)%nat then Raise ValueError else Ok tt);
  let b := shape !!! 0%nat in
  let size_i := drop 2 shape in
  let size_k := kernel_size self in
  size_o ← comprehension
    (fun x : nat =>
       si ← py_index size_i (Z.of_nat x);
       s ← py_index (stride self) (Z.of_nat x);
       p ← py_index (padding self) (Z.of_nat x);
       k ← py_index size_k (Z.of_nat x);
       Ok ((si - 1) * s - 2 * p + (k - 1) + 1))
    (seq 0 (length size_i));
  size_o0 ← py_index size_o 0;
  zero_frame ← torch_zeros (b :: out_channels self :: drop 1 size_o);
  let frame_results := py_repeat size_o0 zero_frame in
  let empty_frames := py_repeat size_o0 (None : option Z) in
  size_k0 ← py_index size_k 0;
  size_i0 ← py_index size_i 0;
  padding0 ← py_index (padding self) 0;
  '(frame_results, _) ←
     overlap_add layers input
       (ConvTransposeNd_target size_k0 padding0 size_o0)
       size_k0 size_i0 (frame_results, empty_frames);
  res ← torch_stack2 frame_results;
  add_bias self bias res.

(** Calling a module: the engine's primitive for a base layer, the
    class's [forward] for an operator instance. *)
Fixpoint forward (m : module) : tensor → result tensor :=
  match m with
  | Base c => base_forward c
  | Nd cls self bias conv_layers =>
      let layers := fmap forward conv_layers in
      match cls with
      | ConvNd => ConvNd_forward_body self bias layers
      | ConvTransposeNd => ConvTransposeNd_forward_body self bias layers
      end
  end.

(** ** Notions used in the statements *)

Definition is_base (m : module) : bool :=
  match m with Base _ => true | Nd _ _ _ _ => false end.

(** The base layer an operator with attributes [self] builds, holding
    weight [w]: the trailing kernel sizes, strides and paddings, the
    operator's channels, groups and padding mode, and no bias. *)
Definition layer_of (self : attrs) (w : tensor) : BaseConv :=
  {| prim := conv_f self;
     b_in_channels := in_channels self;
     b_out_channels := out_channels self;
     b_kernel_size := drop 1 (kernel_size self);
     b_stride := drop 1 (stride self);
     b_padding := drop 1 (padding self);
     b_padding_mode := padding_mode self;
     b_groups := groups self;
     weight := w;
     b_bias := None |}.

(** The base primitive of a class with [d] spatial dimensions. *)
Definition prim_of (cls : nd_class) (d : Z) : option base_prim :=
  base_prims cls !! Z.to_nat (d - 1).


(** ** Concrete operators and inputs *)

(** An engine whose fresh parameters hold 7 everywhere. *)
Definition example_engine : engine :=
  {| fresh := fun _ _ => 7; allocated := 0; instantiated := [] |}.

(** Arguments with unit strides, no padding, one channel in and out,
    weights initialized to 1 and bias to 0. *)
Definition example_args (n : Z) (ks : list Z) : ctor_args :=
  {| a_in_channels := 1; a_out_channels := 1; a_num_dims := n;
     a_kernel_size := Tup ks;
     a_stride := Num 1; a_padding := Num 0;
     a_padding_mode := mode_zeros; a_dilation := 1; a_groups := 1;
     a_rank := 0; a_use_bias := true;
     a_bias_initializer := Some (fun _ _ => 0);
     a_kernel_initializer := Some (fun _ _ => 1) |}.

Definition ones (sh : list nat) : tensor := tabulate sh (fun _ => 1).

(** The operator a constructor call returns, if it returns one. *)
Definition built (r : result module * engine) : option module :=
  match r.1 with Ok m => Some m | Raise _ => None end.

(** ** What the overlap-add loops compute *)

(** [at_axis2 j f]: the elements of the slice at position [j] of axis 2;
    [from_axis2 F]: the elements of the stack of the frames [F o] along
    axis 2. *)
Definition at_axis2 (j : nat) (f : list nat → Z) (idx : list nat) : Z :=
  match idx with
  | ib :: ic :: rest => f (ib :: ic :: j :: rest)
  | _ => 0
  end.

Definition from_axis2 (F : nat → list nat → Z) (idx : list nat) : Z :=
  match idx with
  | ib :: ic :: o :: rest => F o (ib :: ic :: rest)
  | _ => 0
  end.

(** The sum, over the pairs [(i, j)] of kernel offset and input position
    that [target] sends to frame [o], of the element at [idx] of layer
    [i]'s output [G i j] on slice [j]. *)
Definition overlap_sum (target : nat → nat → option nat)
  (G : nat → nat → list nat → Z) (k l : nat) (o : nat) (idx : list nat) : Z :=
  Zsum ((fun i =>
           Zsum ((fun j => if decide (target i j = Some o) then G i j idx else 0)
                   <$> seq 0 l))
          <$> seq 0 k).

(** The accumulators holding the frames [A o], with markers [marks]. *)
Definition frames_of (sh : list nat) (n : nat) (A : nat → list nat → Z)
  (marks : list (option Z)) : frames :=
  ((fun o => tabulate sh (A o)) <$> seq 0 n, marks).

(** A frame not yet written holds zeros. *)
Definition frames_inv (n : nat) (A : nat → list nat → Z) (marks : list (option Z)) : Prop :=
  length marks = n ∧ ∀ o, marks !! o = Some None → ∀ idx, A o idx = 0.

(** The elements of axis 2 padded by [p] on both sides, for a tensor with
    elements [f] whose axis 2 has length [l]. *)
Definition padded (mode : pad_mode) (p : Z) (l : nat) (f : list nat → Z)
  (idx : list nat) : Z :=
  match idx with
  | ib :: ic :: j :: rest =>
      match padded_index mode p l (Z.of_nat j) with
      | Some j' => f (ib :: ic :: j' :: rest)
      | None => 0
      end
  | _ => 0
  end.

(** The bias of the channel of an index. *)
Definition bias_at (bf : list nat → Z) (idx : list nat) : Z :=
  match idx with
  | _ :: k :: _ => bf [k]
  | _ => 0
  end.

(** The frames of a strided convolution along the leading axis: frame [o]
    sums, over the kernel offsets [i], layer [i]'s output on the slice at
    position [s * o + i] of the padded input. *)
Definition conv_frames (G : nat → nat → list nat → Z) (s k : nat)
  (o : nat) (idx : list nat) : Z :=
  Zsum ((fun i => G i (s * o + i)%nat idx) <$> seq 0 k).

(** The frames of [ConvTransposeNd.forward]: frame [o] sums the outputs
    of the layers over every pair of a kernel offset [i < k] and an input
    position [j < l] whose frame index
    [(i + k0 // 2) + j - k0 // 2 - p0] is [o]. *)
Definition transpose_frames (G : nat → nat → list nat → Z) (k0 p0 : Z) (k l : nat)
  (o : nat) (idx : list nat) : Z :=
  Zsum ((fun i =>
           Zsum ((fun j =>
                    if decide ((Z.of_nat i + k0 / 2) + Z.of_nat j - k0 / 2 - p0 = Z.of_nat o)
                    then G i j idx else 0)
                   <$> seq 0 l))
          <$> seq 0 k).

(** ** Valid inputs *)

(** The inputs of shape [xs] an operator with attributes [self] is meant
    for: one kernel size, stride and padding per spatial axis; layers of
    the primitive with one dimension less; positive extents; the
    operator's input channels; groups dividing the channel counts; on
    every axis a kernel of positive size that fits the padded input (a
    non-empty output for the transposed class), a positive stride, a
    padding that is not negative and, in reflect mode, smaller than the
    input.  A [ConvNd] operator is moreover called at the top level
    ([rank = 0]). *)
Definition nd_accepts (cls : nd_class) (self : attrs) (xs : list Z) : bool :=
  let d := length (kernel_size self) in
  let transposed := match cls with ConvNd => false | ConvTransposeNd => true end in
  (length xs =? 2 + d)%nat &&
  (length (stride self) =? d)%nat &&
  (length (padding self) =? d)%nat &&
  (spatial_dims (conv_f self) + 1 =? d)%nat &&
  bool_decide (is_transposed (conv_f self) = transposed) &&
  (1 <=? xs !!! 0%nat) &&
  (1 <=? xs !!! 1%nat) &&
  (xs !!! 1%nat =? in_channels self) &&
  (1 <=? groups self) &&
  (in_channels self mod groups self =? 0) &&
  (out_channels self mod groups self =? 0) &&
  (1 <=? out_channels self) &&
  forallb (fun x : nat =>
             axis_ok transposed (padding_mode self) (drop 2 xs !!! x)
               (kernel_size self !!! x, stride self !!! x, padding self !!! x))
          (seq 0 d) &&
  (transposed || (rank self =? 0)).

(** The shape of the output: batch, output channels, and the size formula
    of the class along every spatial axis. *)
Definition nd_out_shape (cls : nd_class) (self : attrs) (xs : list Z) : list Z :=
  xs !!! 0%nat :: out_channels self
  :: out_sizes (match cls with ConvNd => false | ConvTransposeNd => true end)
       (drop 2 xs) (kernel_size self) (stride self) (padding self).

(** The layers of an operator holding the weights [ws]. *)
Definition base_layers (self : attrs) (ws : list tensor) : list module :=
  (fun w => Base (layer_of self w)) <$> ws.

(** The input of a [ConvNd] operator after the padding of its leading
    spatial axis. *)
Definition padded_input (self : attrs) (sh : list nat) (f : list nat → Z) : tensor :=
  let p0 := padding self !!! 0%nat in
  let l0 := sh !!! 2%nat in
  tabulate (<[2%nat := (l0 + 2 * Z.to_nat p0)%nat]> sh) (padded (padding_mode self) p0 l0 f).

(** The output of a [ConvNd] operator whose layers hold the weights [ws]
    and whose bias holds [bf], on the input of shape [sh] with elements
    [f]: frame [o] sums the layers' outputs on the slices
    [stride * o + i] of the padded input, and the bias is added once. *)
Definition ConvNd_output (self : attrs) (ws : list tensor) (bf : list nat → Z)
  (sh : list nat) (f : list nat → Z) : tensor :=
  tabulate (Z.to_nat <$> nd_out_shape ConvNd self (Z.of_nat <$> sh))
    (fun idx =>
       from_axis2
         (conv_frames
            (fun i j => base_elem (layer_of self (ws !!! i)) (slice2 j (padded_input self sh f)))
            (Z.to_nat (stride self !!! 0%nat)) (Z.to_nat (kernel_size self !!! 0%nat)))
         idx
       + if use_bias self then bias_at bf idx else 0).

(** The output of a [ConvTransposeNd] operator, likewise; the slices are
    those of the input itself. *)
Definition ConvTransposeNd_output (self : attrs) (ws : list tensor) (bf : list nat → Z)
  (sh : list nat) (f : list nat → Z) : tensor :=
  tabulate (Z.to_nat <$> nd_out_shape ConvTransposeNd self (Z.of_nat <$> sh))
    (fun idx =>
       from_axis2
         (transpose_frames
            (fun i j => base_elem (layer_of self (ws !!! i)) (slice2 j (tabulate sh f)))
            (kernel_size self !!! 0%nat) (padding self !!! 0%nat)
            (Z.to_nat (kernel_size self !!! 0%nat)) (sh !!! 2%nat))
         idx
       + if use_bias self then bias_at bf idx else 0).

(** ** The direct primitive an operator is compared with *)

(** The weights held by the layers of an operator. *)
Definition layer_weights (layers : list module) : list tensor :=
  (fun l => match l with Base c => weight c | Nd _ _ _ _ => Scalar 0 end) <$> layers.

(** The base primitive [d] configured like the operator, holding the
    layers' weights stacked along the leading kernel axis (layer [i]
    holds the kernel slice at offset [i]) and the operator's bias. *)
Definition direct_conv (d : base_prim) (self : attrs) (bias : option tensor)
  (layers : list module) : BaseConv :=
  {| prim := d;
     b_in_channels := in_channels self;
     b_out_channels := out_channels self;
     b_kernel_size := kernel_size self;
     b_stride := stride self;
     b_padding := padding self;
     b_padding_mode := padding_mode self;
     b_groups := groups self;
     weight := stack2 (Z.to_nat (out_channels self))
                 (Z.to_nat (in_channels self / groups self)) (layer_weights layers);
     b_bias := if use_bias self then bias else None |}.

(** A tensor all of whose elements are zero. *)
Definition zero_tensor (t : tensor) : Prop := ∀ idx, tget t idx = 0.

(** [weight.zero_()] on every layer of an operator. *)
Definition zero_layer (l : module) : module :=
  match l with
  | Base c =>
      Base {| prim := prim c; b_in_channels := b_in_channels c;
              b_out_channels := b_out_channels c;
              b_kernel_size := b_kernel_size c; b_stride := b_stride c;
              b_padding := b_padding c; b_padding_mode := b_padding_mode c;
              b_groups := b_groups c;
              weight := tabulate (tshape_nat (weight c)) (fun _ => 0);
              b_bias := b_bias c |}
  | Nd _ _ _ _ => l
  end.

Definition zero_weights (m : module) : module :=
  match m with
  | Base _ => zero_layer m
  | Nd cls self bias conv_layers => Nd cls self bias (zero_layer <$> conv_layers)
  end.

(** The same operator with its bias switched off. *)
Definition without_bias (m : module) : module :=
  match m with
  | Base _ => m
  | Nd cls self bias conv_layers =>
      Nd cls
        {| rank := rank self; in_channels := in_channels self;
           out_channels := out_channels self; num_dims := num_dims self;
           kernel_size := kernel_size self; stride := stride self;
           padding := padding self; padding_mode := padding_mode self;
           groups := groups self; use_bias := false;
           bias_initializer := bias_initializer self;
           kernel_initializer := kernel_initializer self;
           conv_f := conv_f self |}
        None conv_layers
  end.

(** The output of an operator of either class. *)
Definition nd_output (cls : nd_class) : attrs → list tensor → (list nat → Z) →
                                        list nat → (list nat → Z) → tensor :=
  match cls with
  | ConvNd => ConvNd_output
  | ConvTransposeNd => ConvTransposeNd_output
  end.

(** The size formulas of the two classes along one axis, as the
    specification writes them. *)
Definition spec_out_len (cls : nd_class) (in_len k s p : Z) : Z :=
  match cls with
  | ConvNd => (in_len + 2 * p - k) / s + 1
  | ConvTransposeNd => (in_len - 1) * s - 2 * p + k
  end.

(** Arguments with two channels in and out, kernel [(3, 2)], strides
    [(2, 1)], paddings [(1, 1)] and zero fill; weights and bias are
    initialized from their indices. *)
Definition strided_args : ctor_args :=
  {| a_in_channels := 2; a_out_channels := 2; a_num_dims := 2;
     a_kernel_size := Tup [3; 2];
     a_stride := Tup [2; 1]; a_padding := Tup [1; 1];
     a_padding_mode := mode_zeros; a_dilation := 1; a_groups := 1;
     a_rank := 0; a_use_bias := true;
     a_bias_initializer := Some (fun _ idx => 10 + Zsum (Z.of_nat <$> idx));
     a_kernel_initializer := Some (fun _ idx => 1 + Zsum (Z.of_nat <$> idx)) |}.

(** An input of shape [(1, 2, 4, 3)]. *)
Definition strided_input : tensor :=
  tabulate [1; 2; 4; 3]%nat (fun idx => Zsum ((fun i => Z.of_nat i * Z.of_nat i) <$> idx)).

(** The element at [idx] of the output of an operator before the bias is
    added. *)
Definition nd_elem (cls : nd_class) (self : attrs) (ws : list tensor)
  (sh : list nat) (f : list nat → Z) (idx : list nat) : Z :=
  match cls with
  | ConvNd =>
      from_axis2
        (conv_frames
           (fun i j => base_elem (layer_of self (ws !!! i)) (slice2 j (padded_input self sh f)))
           (Z.to_nat (stride self !!! 0%nat)) (Z.to_nat (kernel_size self !!! 0%nat)))
        idx
  | ConvTransposeNd =>
      from_axis2
        (transpose_frames
           (fun i j => base_elem (layer_of self (ws !!! i)) (slice2 j (tabulate sh f)))
           (kernel_size self !!! 0%nat) (padding self !!! 0%nat)
           (Z.to_nat (kernel_size self !!! 0%nat)) (sh !!! 2%nat))
        idx
  end.

(** Constructor arguments a constructor accepts: one to four dimensions,
    one kernel size, stride and padding per dimension, dilation 1,
    channel counts that are not negative and that the groups divide,
    kernel sizes that are not negative and, for the transposed class,
    zero fill. *)
Definition args_ok (cls : nd_class) (args : ctor_args) : bool :=
  let n := a_num_dims args in
  (1 <=? n) && (n <=? 4) &&
  (Z.of_nat (length (as_tuple (a_kernel_size args) n)) =? n) &&
  (Z.of_nat (length (as_tuple (a_stride args) n)) =? n) &&
  (Z.of_nat (length (as_tuple (a_padding args) n)) =? n) &&
  (a_dilation args =? 1) &&
  (0 <=? a_in_channels args) && (0 <=? a_out_channels args) &&
  (1 <=? a_groups args) &&
  (a_in_channels args mod a_groups args =? 0) &&
  (a_out_channels args mod a_groups args =? 0) &&
  nonneg (as_tuple (a_kernel_size args) n) &&
  match cls, a_padding_mode args with
  | ConvTransposeNd, mode_reflect => false
  | _, _ => true
  end.

(** ** Further notions used in the statements *)

(** Product of a list of integers. *)
Definition Zprod (l : list Z) : Z := foldr Z.mul 1 l.

(** [t.numel()]: the number of elements a tensor holds. *)
Fixpoint numel (t : tensor) : Z :=
  match t with
  | Scalar _ => 1
  | Tensor rs => Zsum (numel <$> rs)
  end.

(** The shape of the weight of a layer of an operator: output channels
    first for a convolution, input channels first for a transposed
    convolution, then the channels of one group and the trailing kernel
    sizes. *)
Definition layer_weight_shape (self : attrs) : list Z :=
  if is_transposed (conv_f self)
  then in_channels self :: out_channels self / groups self :: drop 1 (kernel_size self)
  else out_channels self :: in_channels self / groups self :: drop 1 (kernel_size self).

(** What the constructor does to a freshly allocated parameter: the
    initializer callback, when there is one, rewrites it. *)
Definition initialized (f : option initializer) (t : tensor) : tensor :=
  match f with
  | Some h => apply_initializer h t
  | None => t
  end.

(** The transposed base primitive [d] configured like the operator,
    holding the layers' weights stacked along the leading kernel axis
    (input channels first, as transposed primitives keep them) and the
    operator's bias. *)
Definition direct_convT (d : base_prim) (self : attrs) (bias : option tensor)
  (layers : list module) : BaseConv :=
  {| prim := d;
     b_in_channels := in_channels self;
     b_out_channels := out_channels self;
     b_kernel_size := kernel_size self;
     b_stride := stride self;
     b_padding := padding self;
     b_padding_mode := padding_mode self;
     b_groups := groups self;
     weight := stack2 (Z.to_nat (in_channels self))
                 (Z.to_nat (out_channels self / groups self)) (layer_weights layers);
     b_bias := if use_bias self then bias else None |}.

(** Arguments of a transposed operator with two channels in and out,
    kernel [(3, 2)], strides [(1, 2)], paddings [(1, 0)]; weights and
    bias are initialized from their indices. *)
Definition transposed_args : ctor_args :=
  {| a_in_channels := 2; a_out_channels := 2; a_num_dims := 2;
     a_kernel_size := Tup [3; 2];
     a_stride := Tup [1; 2]; a_padding := Tup [1; 0];
     a_padding_mode := mode_zeros; a_dilation := 1; a_groups := 1;
     a_rank := 0; a_use_bias := true;
     a_bias_initializer := Some (fun _ idx => 10 + Zsum (Z.of_nat <$> idx));
     a_kernel_initializer := Some (fun _ idx => 1 + Zsum (Z.of_nat <$> idx)) |}.

(** The attributes of an operator with [stride[0]] replaced by [s]; the
    layers, which are built from [stride[1:]], are not affected. *)
Definition with_leading_stride (s : Z) (self : attrs) : attrs :=
  {| rank := rank self; in_channels := in_channels self;
     out_channels := out_channels self; num_dims := num_dims self;
     kernel_size := kernel_size self; stride := <[0%nat := s]> (stride self);
     padding := padding self; padding_mode := padding_mode self;
     groups := groups self; use_bias := use_bias self;
     bias_initializer := bias_initializer self;
     kernel_initializer := kernel_initializer self;
     conv_f := conv_f self |}.

(** The attributes of an operator with [rank] replaced by [r]. *)
Definition with_rank (r : Z) (self : attrs) : attrs :=
  {| rank := r; in_channels := in_channels self;
     out_channels := out_channels self; num_dims := num_dims self;
     kernel_size := kernel_size self; stride := stride self;
     padding := padding self; padding_mode := padding_mode self;
     groups := groups self; use_bias := use_bias self;
     bias_initializer := bias_initializer self;
     kernel_initializer := kernel_initializer self;
     conv_f := conv_f self |}.

(** The frames of a strided convolution along a leading axis of length
    [l] that is not padded: frame [o] sums, over the kernel offsets [i]
    whose position [s * o + i] lies within the axis, layer [i]'s output
    on the slice at that position. *)
Definition unpadded_frames (G : nat → nat → list nat → Z) (s k l : nat)
  (o : nat) (idx : list nat) : Z :=
  Zsum ((fun i => if decide (s * o + i < l)%nat then G i (s * o + i)%nat idx else 0)
          <$> seq 0 k).

(** Arguments like [strided_args] for an operator that is not at the top
    level ([rank = -1]). *)
Definition inner_args : ctor_args :=
  {| a_in_channels := 2; a_out_channels := 2; a_num_dims := 2;
     a_kernel_size := Tup [3; 2];
     a_stride := Tup [2; 1]; a_padding := Tup [1; 1];
     a_padding_mode := mode_zeros; a_dilation := 1; a_groups := 1;
     a_rank := -1; a_use_bias := true;
     a_bias_initializer := Some (fun _ idx => 10 + Zsum (Z.of_nat <$> idx));
     a_kernel_initializer := Some (fun _ idx => 1 + Zsum (Z.of_nat <$> idx)) |}.

(** ** The dense block *)

(** Modelled from the spec: a base primitive instantiated with a bias
    (the engine's default, [bias=True]): after the weight, a bias vector
    with one element per output channel is allocated. *)
Definition base_init_bias (f : base_prim) (cin cout : Z) (ks ss ps : list Z)
  (mode : pad_mode) (g : Z) : build BaseConv :=
  c <~ base_init f cin cout ks ss ps mode g ;;
  b <~ alloc_param [cout] ;;
  build_ret {| prim := prim c; b_in_channels := b_in_channels c;
               b_out_channels := b_out_channels c;
               b_kernel_size := b_kernel_size c; b_stride := b_stride c;
               b_padding := b_padding c; b_padding_mode := b_padding_mode c;
               b_groups := b_groups c; weight := weight c; b_bias := Some b |}.

(** [nn.Conv2d(cin, cout, ks, padding=p)]: a number given as kernel size
    or padding stands for both axes; the stride is 1, the fill zeros and
    there is one group. *)
Definition Conv2d_init (cin cout ks p : Z) : build BaseConv :=
  base_init_bias Conv2d cin cout [ks; ks] [1; 1] [p; p] mode_zeros 1.

(** Applying a function to every element of a tensor. *)
Fixpoint tmap (g : Z → Z) (t : tensor) : tensor :=
  match t with
  | Scalar v => Scalar (g v)
  | Tensor rs => Tensor (fmap (tmap g) rs)
  end.

(** [nn.ReLU()], the rectifier of the engine: [max(x, 0)] on every
    element. *)
Definition ReLU (t : tensor) : tensor := tmap (Z.max 0) t.

(** Modelled from the spec: the extent two extents broadcast to: equal
    extents stay, an extent of 1 stretches to the other one. *)
Definition broadcast_dim (m n : nat) : option nat :=
  if (m =? n)%nat then Some m
  else if (m =? 1)%nat then Some n
  else if (n =? 1)%nat then Some m
  else None.

(** Modelled from the spec: broadcasting of two shapes, read from their
    last axes on; the shorter shape is completed by the leading extents
    of the longer one. *)
Fixpoint broadcast_rev (s1 s2 : list nat) : option (list nat) :=
  match s1, s2 with
  | [], s => Some s
  | s, [] => Some s
  | m :: s1', n :: s2' =>
      d ← broadcast_dim m n;
      r ← broadcast_rev s1' s2';
      Some (d :: r)
  end.

Definition broadcast_shape (s1 s2 : list nat) : option (list nat) :=
  reverse <$> broadcast_rev (reverse s1) (reverse s2).

(** The index of the operand of shape [sh] read for the index [idx] of
    the broadcast result: the trailing positions of [idx], with 0 along
    the axes of extent 1. *)
Definition broadcast_index (sh idx : list nat) : list nat :=
  zip_with (fun (n i : nat) => if (n =? 1)%nat then 0%nat else i) sh
    (drop (length idx - length sh) idx).

(** Modelled from the spec: [a + b], the elementwise sum of two tensors
    with broadcasting; shapes that do not broadcast raise. *)
Definition torch_add (a b : tensor) : result tensor :=
  match broadcast_shape (tshape_nat a) (tshape_nat b) with
  | Some sh =>
      Ok (tabulate sh (fun idx => tget a (broadcast_index (tshape_nat a) idx)
                                  + tget b (broadcast_index (tshape_nat b) idx)))
  | None => Raise RuntimeError
  end.

(** The submodules of a [DenseBlock]: the convolutions of the three
    [nn.Sequential(nn.Conv2d(...), nn.ReLU())] and the closing
    convolution. *)
Record DenseBlock := {
  conv1 : BaseConv;
  conv2 : BaseConv;
  conv3 : BaseConv;
  convOut : BaseConv
}.

(** [DenseBlock.__init__]; [math.floor(ks / 2)] is floor division. *)
Definition DenseBlock_init (nChans ks : Z) : build DenseBlock :=
  let padding := ks / 2 in
  conv1 <~ Conv2d_init nChans nChans ks padding ;;
  conv2 <~ Conv2d_init nChans nChans ks padding ;;
  conv3 <~ Conv2d_init nChans nChans ks padding ;;
  convOut <~ Conv2d_init nChans nChans 1 0 ;;
  build_ret {| conv1 := conv1; conv2 := conv2; conv3 := conv3; convOut := convOut |}.

(** Calling [nn.Sequential(conv, nn.ReLU())]. *)
Definition Sequential_forward (conv : BaseConv) (x : tensor) : result tensor :=
  y ← base_forward conv x;
  Ok (ReLU y).

(** [DenseBlock.forward]; [x+x1+x2] is [(x+x1)+x2], and every sum is
    computed where it is written. *)
Definition DenseBlock_forward (self : DenseBlock) (x : tensor) : result tensor :=
  x1 ← Sequential_forward (conv1 self) x;
  s ← torch_add x x1;
  x2 ← Sequential_forward (conv2 self) s;
  s ← torch_add x x1;
  s ← torch_add s x2;
  x3 ← Sequential_forward (conv3 self) s;
  s ← torch_add x x1;
  s ← torch_add s x2;
  s ← torch_add s x3;
  x4 ← base_forward (convOut self) s;
  torch_add x x4.

(** A 2D convolution with [ch] channels in and out, a square kernel of
    size [ks], unit strides, padding [p] filled with zeros, one group. *)
Definition Conv2d_like (c : BaseConv) (ch ks p : Z) : Prop :=
  prim c = Conv2d ∧ b_in_channels c = ch ∧ b_out_channels c = ch ∧
  b_kernel_size c = [ks; ks] ∧ b_stride c = [1; 1] ∧ b_padding c = [p; p] ∧
  b_padding_mode c = mode_zeros ∧ b_groups c = 1.

(** [conv.weight.zero_(); conv.bias.zero_()]. *)
Definition zero_params (c : BaseConv) : BaseConv :=
  {| prim := prim c; b_in_channels := b_in_channels c;
     b_out_channels := b_out_channels c;
     b_kernel_size := b_kernel_size c; b_stride := b_stride c;
     b_padding := b_padding c; b_padding_mode := b_padding_mode c;
     b_groups := b_groups c;
     weight := tabulate (tshape_nat (weight c)) (fun _ => 0);
     b_bias := (fun bt => tabulate (tshape_nat bt) (fun _ => 0)) <$> b_bias c |}.

(** The block with the parameters of its closing convolution set to
    zero. *)
Definition zero_convOut (self : DenseBlock) : DenseBlock :=
  {| conv1 := conv1 self; conv2 := conv2 self; conv3 := conv3 self;
     convOut := zero_params (convOut self) |}.

(** ** The accumulators as shared objects *)

(** [forward] fills [frame_results] with [size_o[0]] references to one
    zero tensor and later adds to its slots in place.  In this second
    reading of the loops the list holds references into a store of
    tensor objects, so that an in-place addition is seen through every
    reference to its target: [objects] is the store, a reference is a
    position in it. *)
Record accumulators := {
  objects : list tensor;
  frame_results : list nat;
  empty_frames : list (option Z)
}.

(** The accumulators before the loops: the zero tensor is object 0, and
    every slot refers to it. *)
Definition initial_accumulators (size_o0 : Z) (zero_frame : tensor) : accumulators :=
  {| objects := [zero_frame];
     frame_results := py_repeat size_o0 0%nat;
     empty_frames := py_repeat size_o0 None |}.

(** Storing the object [frame_conv] at [out_frame]: the slot is rebound
    on the first write; afterwards the object the slot refers to is
    updated in place. *)
Definition store_frame_shared (out_frame : nat) (frame_conv : nat) (st : accumulators)
  : result accumulators :=
  match empty_frames st !! out_frame with
  | Some None =>
      Ok {| objects := objects st;
            frame_results := <[out_frame := frame_conv]> (frame_results st);
            empty_frames := <[out_frame := Some 1]> (empty_frames st) |}
  | Some (Some _) =>
      match frame_results st !! out_frame with
      | Some a =>
          match objects st !! a, objects st !! frame_conv with
          | Some fr, Some fc =>
              r ← iadd fr fc;
              Ok {| objects := <[a := r]> (objects st);
                    frame_results := frame_results st;
                    empty_frames := empty_frames st |}
          | _, _ => Raise IndexError
          end
      | None => Raise IndexError
      end
  | None => Raise IndexError
  end.

(** The loop body: the output of the layer is a new object. *)
Definition overlap_add_body_shared (layers : list (tensor → result tensor))
  (input : tensor) (target : nat → nat → option nat) (i j : nat) (st : accumulators)
  : result accumulators :=
  match target i j with
  | None => Ok st
  | Some out_frame =>
      let conv_input := slice2 j input in
      frame_conv ← call layers i conv_input;
      store_frame_shared out_frame (length (objects st))
        {| objects := objects st ++ [frame_conv];
           frame_results := frame_results st;
           empty_frames := empty_frames st |}
  end.

Definition overlap_add_shared (layers : list (tensor → result tensor)) (input : tensor)
  (target : nat → nat → option nat) (size_k0 size_i0 : Z) (st : accumulators)
  : result accumulators :=
  for_each (range size_k0)
    (fun i st =>
       for_each (range size_i0) (overlap_add_body_shared layers input target i) st)
    st.

(** The tensors the slots refer to, as [torch.stack] reads them. *)
Definition frames_read (st : accumulators) : list tensor :=
  (fun a => objects st !!! a) <$> frame_results st.

(** The accumulators of the two readings agree: same markers, every
    slot refers to an object holding the slot's value, object 0 is the
    zero tensor, a slot not yet written refers to object 0, and a written
    slot refers to an object of its own. *)
Definition accumulators_agree (zero_frame : tensor) (st : frames) (sh : accumulators)
  : Prop :=
  empty_frames sh = st.2 ∧
  length st.1 = length st.2 ∧
  length (frame_results sh) = length st.1 ∧
  (∀ o a, frame_results sh !! o = Some a → objects sh !! a = st.1 !! o) ∧
  objects sh !! 0%nat = Some zero_frame ∧
  (∀ o a, frame_results sh !! o = Some a →
          (st.2 !! o = Some None → a = 0%nat) ∧
          (st.2 !! o ≠ Some None →
           a ≠ 0%nat ∧ ∀ o', o' ≠ o → frame_results sh !! o' ≠ Some a)).

(** ** Calls on a heap of objects

    A second reading of the two [forward] methods in which the tuples,
    the lists and the tensors are objects on a heap, and an attribute or
    a variable holds a reference to an object: an assignment to an item
    of a list and an addition in place update the object a reference
    points to, whoever else holds a reference to it.  The operator keeps
    [self.kernel_size], [self.stride], [self.padding], [self.bias] and
    the weights of [self.conv_layers] on the heap. *)

Inductive object :=
| TupleObject (items : list Z)
| ListObject (items : list Z)
| TensorObject (value : tensor).

(** The heap is the list of its objects; a reference is a position. *)
Abbreviation heap := (list object) (only parsing).

(** A new object takes the next free position. *)
Definition new (o : object) (h : heap) : nat * heap := (length h, h ++ [o]).

(** The items of the tuple or list at [r]. *)
Definition items_at (r : nat) (h : heap) : result (list Z) :=
  match h !! r with
  | Some (TupleObject l) => Ok l
  | Some (ListObject l) => Ok l
  | _ => Raise TypeError
  end.

(** The value of the tensor at [r]. *)
Definition tensor_at (r : nat) (h : heap) : result tensor :=
  match h !! r with
  | Some (TensorObject t) => Ok t
  | _ => Raise TypeError
  end.

(** [list(seq)]: a new list holding the items of [seq]. *)
Definition py_list (r : nat) (h : heap) : result (nat * heap) :=
  l ← items_at r h;
  Ok (new (ListObject l) h).

(** [seq[i]]. *)
Definition getitem (r : nat) (i : Z) (h : heap) : result Z :=
  l ← items_at r h;
  py_index l i.

(** [seq[i] = v]: the list at [r] is updated in place; a tuple does not
    support item assignment. *)
Definition setitem (r : nat) (i : Z) (v : Z) (h : heap) : result heap :=
  match h !! r with
  | Some (ListObject l) =>
      let n := Z.of_nat (length l) in
      let pos := if i <? 0 then n + i else i in
      if (0 <=? pos) && (pos <? n)
      then Ok (<[r := ListObject (<[Z.to_nat pos := v]> l)]> h)
      else Raise IndexError
  | _ => Raise TypeError
  end.

(** [a += b] on tensors: the tensor at [a] is updated in place. *)
Definition iadd_at (a b : nat) (h : heap) : result heap :=
  x ← tensor_at a h;
  y ← tensor_at b h;
  r ← iadd x y;
  Ok (<[a := TensorObject r]> h).

(** An operator instance on the heap: its class, the attributes that
    hold numbers, flags and the base primitive, and the references its
    other attributes hold.  [i_weights] are the weights of
    [self.conv_layers], which are base primitives configured as
    [layer_of] describes. *)
Record instance := {
  i_class : nd_class;
  i_attrs : attrs;
  i_kernel_size : nat;
  i_stride : nat;
  i_padding : nat;
  i_bias : option nat;
  i_weights : list nat
}.

(** [self.conv_layers[i](conv_input)]: the layer reads its weight and
    returns a new tensor. *)
Definition call_at (self : instance) (i : nat) (conv_input : tensor) (h : heap)
  : result (nat * heap) :=
  match i_weights self !! i with
  | Some w =>
      wt ← tensor_at w h;
      frame_conv ← base_forward (layer_of (i_attrs self) wt) conv_input;
      Ok (new (TensorObject frame_conv) h)
  | None => Raise IndexError
  end.

(** The two accumulator lists, [frame_results] holding references. *)
Definition frame_refs : Type := list nat * list (option Z).

(** Storing the object [frame_conv] at [out_frame]: the slot is rebound
    on the first write; afterwards the object the slot refers to is
    updated in place. *)
Definition store_frame_at (out_frame : nat) (frame_conv : nat) (st : frame_refs * heap)
  : result (frame_refs * heap) :=
  let '((frame_results, empty_frames), h) := st in
  match empty_frames !! out_frame with
  | Some None =>
      Ok ((<[out_frame := frame_conv]> frame_results,
           <[out_frame := Some 1]> empty_frames), h)
  | Some (Some _) =>
      match frame_results !! out_frame with
      | Some a =>
          h ← iadd_at a frame_conv h;
          Ok ((frame_results, empty_frames), h)
      | None => Raise IndexError
      end
  | None => Raise IndexError
  end.

(** The body of the two nested loops: [conv_input] is a view of the
    tensor [input] refers to. *)
Definition overlap_add_body_at (self : instance) (input : nat)
  (target : nat → nat → option nat) (i j : nat) (st : frame_refs * heap)
  : result (frame_refs * heap) :=
  match target i j with
  | None => Ok st
  | Some out_frame =>
      let '(refs, h) := st in
      x ← tensor_at input h;
      let conv_input := slice2 j x in
      '(frame_conv, h) ← call_at self i conv_input h;
      store_frame_at out_frame frame_conv (refs, h)
  end.

(** The two nested loops over kernel offset and input position. *)
Definition overlap_add_at (self : instance) (input : nat)
  (target : nat → nat → option nat) (size_k0 size_i0 : Z) (st : frame_refs * heap)
  : result (frame_refs * heap) :=
  for_each (range size_k0)
    (fun i st => for_each (range size_i0) (overlap_add_body_at self input target i) st)
    st.

(** The closing bias step: [result[:, k, :] += self.bias[k]] updates the
    tensor [result] refers to in place. *)
Definition add_bias_at (self : instance) (res : nat) (h : heap) : result heap :=
  if use_bias (i_attrs self) then
    r ← tensor_at res h;
    let resultShape := tshape r in
    channels ← py_index resultShape 1;
    for_each (range (out_channels (i_attrs self)))
      (fun k h =>
         if Z.of_nat k <? channels then
           match i_bias self with
           | Some bias =>
               bt ← tensor_at bias h;
               match rows bt !! k with
               | Some v =>
                   r ← tensor_at res h;
                   Ok (<[res := TensorObject (add_to_channel k (item v) r)]> h)
               | None => Raise IndexError
               end
           | None => Raise TypeError
           end
         else Raise IndexError)
      h
  else Ok h.

(** [torch.stack(frame_results, dim=2)]: a new tensor. *)
Definition torch_stack2_at (frame_results : list nat) (h : heap) : result (nat * heap) :=
  frames ← comprehension (fun a => tensor_at a h) frame_results;
  res ← torch_stack2 frames;
  Ok (new (TensorObject res) h).

(** [ConvNd.forward] on the heap, statement by statement as
    [ConvNd_forward_body]: [input] refers to the input tensor, the
    result is a reference to the output.  [padding = list(self.padding)]
    creates a list, and [padding[0] = 0] writes to whatever [padding]
    refers to; [F.pad], the layers, [torch.zeros] and [torch.stack]
    return new tensors; the two [+=] write to the tensor their target
    refers to. *)
Definition ConvNd_forward_at (self : instance) (input : nat) (h : heap)
  : result (nat * heap) :=
  '(padding, h) ← py_list (i_padding self) h;
  '(input, h) ←
     (if rank (i_attrs self) =? 0 then
        x ← tensor_at input h;
        let inputShape := tshape x in
        _ ← py_index inputShape 2;
        p0 ← getitem (i_padding self) 0 h;
        h ← setitem padding 0 0 h;
        x ← F_pad (padding_mode (i_attrs self)) p0 x;
        Ok (new (TensorObject x) h)
      else Ok (input, h));
  x ← tensor_at input h;
  let shape := tshape x in
  _ ← (if (length shape <? 2)%nat then Raise ValueError else Ok tt);
  let b := shape !!! 0%nat in
  let size_i := drop 2 shape in
  let size_k := i_kernel_size self in
  size_o ← comprehension
    (fun x : nat =>
       si ← py_index size_i (Z.of_nat x);
       p ← getitem padding (Z.of_nat x) h;
       k ← getitem size_k (Z.of_nat x) h;
       s ← getitem (i_stride self) (Z.of_nat x) h;
       if s =? 0 then Raise ZeroDivisionError
       else Ok ((si + 2 * p - k) / s + 1))
    (seq 0 (length size_i));
  size_ons ← comprehension
    (fun x : nat =>
       si ← py_index size_i (Z.of_nat x);
       k ← getitem size_k (Z.of_nat x) h;
       Ok (si - k + 1))
    (seq 0 (length size_i));
  size_o0 ← py_index size_o 0;
  zero_frame ← torch_zeros (b :: out_channels (i_attrs self) :: drop 1 size_o);
  let '(zero_frame, h) := new (TensorObject zero_frame) h in
  let frame_results := py_repeat size_o0 zero_frame in
  let empty_frames := py_repeat size_o0 (None : option Z) in
  size_k0 ← getitem size_k 0 h;
  size_i0 ← py_index size_i 0;
  size_ons0 ← py_index size_ons 0;
  stride0 ← getitem (i_stride self) 0 h;
  '((frame_results, _), h) ←
     overlap_add_at self input
       (ConvNd_target size_k0 size_i0 size_ons0 stride0 size_o0)
       size_k0 size_i0 ((frame_results, empty_frames), h);
  '(res, h) ← torch_stack2_at frame_results h;
  h ← add_bias_at self res h;
  Ok (res, h).

(** [ConvTransposeNd.forward] on the heap, statement by statement as
    [ConvTransposeNd_forward_body]. *)
Definition ConvTransposeNd_forward_at (self : instance) (input : nat) (h : heap)
  : result (nat * heap) :=
  x ← tensor_at input h;
  let shape := tshape x in
  _ ← (if (length shape <? 2)%nat then Raise ValueError else Ok tt);
  let b := shape !!! 0%nat in
  let size_i := drop 2 shape in
  let size_k := i_kernel_size self in
  size_o ← comprehension
    (fun x : nat =>
       si ← py_index size_i (Z.of_nat x);
       s ← getitem (i_stride self) (Z.of_nat x) h;
       p ← getitem (i_padding self) (Z.of_nat x) h;
       k ← getitem size_k (Z.of_nat x) h;
       Ok ((si - 1) * s - 2 * p + (k - 1) + 1))
    (seq 0 (length size_i));
  size_o0 ← py_index size_o 0;
  zero_frame ← torch_zeros (b :: out_channels (i_attrs self) :: drop 1 size_o);
  let '(zero_frame, h) := new (TensorObject zero_frame) h in
  let frame_results := py_repeat size_o0 zero_frame in
  let empty_frames := py_repeat size_o0 (None : option Z) in
  size_k0 ← getitem size_k 0 h;
  size_i0 ← py_index size_i 0;
  padding0 ← getitem (i_padding self) 0 h;
  '((frame_results, _), h) ←
     overlap_add_at self input
       (ConvTransposeNd_target size_k0 padding0 size_o0)
       size_k0 size_i0 ((frame_results, empty_frames), h);
  '(res, h) ← torch_stack2_at frame_results h;
  h ← add_bias_at self res h;
  Ok (res, h).

(** Calling an operator instance on the heap. *)
Definition forward_at (self : instance) (input : nat) (h : heap) : result (nat * heap) :=
  match i_class self with
  | ConvNd => ConvNd_forward_at self input h
  | ConvTransposeNd => ConvTransposeNd_forward_at self input h
  end.

(** The attributes with the three sequences replaced. *)
Definition with_sequences (ks ss ps : list Z) (self : attrs) : attrs :=
  {| rank := rank self; in_channels := in_channels self;
     out_channels := out_channels self; num_dims := num_dims self;
     kernel_size := ks; stride := ss; padding := ps;
     padding_mode := padding_mode self;
     groups := groups self; use_bias := use_bias self;
     bias_initializer := bias_initializer self;
     kernel_initializer := kernel_initializer self;
     conv_f := conv_f self |}.

(** The items of the tuple or list a reference points to, if it points
    to one. *)
Definition sequence_in (h : heap) (r : nat) : option (list Z) :=
  match h !! r with
  | Some (TupleObject l) => Some l
  | Some (ListObject l) => Some l
  | _ => None
  end.

(** The value of the tensor a reference points to, if it points to
    one. *)
Definition tensor_in (h : heap) (r : nat) : option tensor :=
  match h !! r with
  | Some (TensorObject t) => Some t
  | _ => None
  end.

(** The operator an instance stands for in a heap: the sequences, the
    bias and the weights are read through its references.  A call that
    changed one of these objects would change the operator. *)
Definition operator_at (self : instance) (h : heap) : option module :=
  ks ← sequence_in h (i_kernel_size self);
  ss ← sequence_in h (i_stride self);
  ps ← sequence_in h (i_padding self);
  ws ← mapM (tensor_in h) (i_weights self);
  bias ← match i_bias self with
         | Some r => Some <$> tensor_in h r
         | None => Some None
         end;
  Some (Nd (i_class self) (with_sequences ks ss ps (i_attrs self)) bias
          (base_layers (i_attrs self) ws)).

(** Every object of [h] is in [h'], at its position and unchanged. *)
Definition preserved (h h' : heap) : Prop :=
  ∀ r o, h !! r = Some o → h' !! r = Some o.

(** A heap holding an operator with attributes [self], bias [bias] and
    layer weights [ws], and an input [x]: the sequences are tuples, as
    the constructors store them. *)
Definition heap_of (self : attrs) (bias : option tensor) (ws : list tensor) (x : tensor)
  : heap :=
  [TupleObject (kernel_size self); TupleObject (stride self); TupleObject (padding self);
   TensorObject x]
  ++ (TensorObject <$> ws)
  ++ match bias with Some bt => [TensorObject bt] | None => [] end.

(** The instance whose references point into [heap_of]; the input is at
    position 3. *)
Definition instance_of (cls : nd_class) (self : attrs) (bias : option tensor)
  (ws : list tensor) : instance :=
  {| i_class := cls; i_attrs := self;
     i_kernel_size := 0; i_stride := 1; i_padding := 2;
     i_bias := match bias with Some _ => Some (4 + length ws)%nat | None => None end;
     i_weights := seq 4 (length ws) |}.

(** The accumulators of the two readings agree: same markers; every slot
    refers to a tensor holding the slot's value; a slot not yet written
    refers to the zero tensor at [zero]; a written slot refers to an
    object of its own that was created after the heap [h1] the loops
    started from, whose objects are all unchanged. *)
Definition frames_agree_at (h1 : heap) (zero : nat) (st : frames)
  (sr : frame_refs * heap) : Prop :=
  sr.1.2 = st.2 ∧
  length st.1 = length st.2 ∧
  length sr.1.1 = length st.1 ∧
  preserved h1 sr.2 ∧
  ∀ o a, sr.1.1 !! o = Some a →
    (∃ v, st.1 !! o = Some v ∧ sr.2 !! a = Some (TensorObject v)) ∧
    (st.2 !! o = Some None → a = zero) ∧
    (st.2 !! o ≠ Some None →
     (length h1 ≤ a)%nat ∧ ∀ o', o' ≠ o → sr.1.1 !! o' ≠ Some a).

(** A computation of the second reading follows one of the first: it
    raises the same exception, or returns a related result. *)
Definition refines {A B : Type} (R : A → B → Prop) (m : result A) (m' : result B) : Prop :=
  match m with
  | Ok a => ∃ b, m' = Ok b ∧ R a b
  | Raise e => m' = Raise e
  end.

(** * Properties *)

(** ** The exception monad and Python indexing *)

Lemma bind_Ok {A B : Type} (m : result A) (k : A → result B) (b : B) :
  m ≫= k = Ok b → ∃ a, m = Ok a ∧ k a = Ok b.
Proof. destruct m as [a|e]; simpl; [eauto | discriminate]. Qed.

Lemma py_index_Ok {A : Type} (l : list A) (i : Z) (x : A) :
  py_index l i = Ok x →
  -Z.of_nat (length l) ≤ i < Z.of_nat (length l) ∧
  l !! Z.to_nat (if i <? 0 then Z.of_nat (length l) + i else i) = Some x.
Proof.
  unfold py_index. intros H.
  destruct (_ && _) eqn:Hb; [| discriminate].
  destruct (l !! _) eqn:Hl; [| discriminate].
  inversion H; subst. split; [| done].
  destruct (i <? 0) eqn:Hi; lia.
Qed.

Lemma py_index_nat {A : Type} (l : list A) (i : nat) (x : A) :
  l !! i = Some x → py_index l (Z.of_nat i) = Ok x.
Proof.
  intros H. unfold py_index.
  pose proof (lookup_lt_Some _ _ _ H) as Hlt.
  destruct (Z.of_nat i <? 0) eqn:Hi; [lia |].
  replace (_ && _) with true by (symmetry; apply andb_true_iff; lia).
  by rewrite Nat2Z.id, H.
Qed.

Lemma py_index_0 {A : Type} (x : A) (l : list A) : py_index (x :: l) 0 = Ok x.
Proof. apply (py_index_nat (x :: l) 0 x). done. Qed.

Lemma py_index_out {A : Type} (l : list A) (i : Z) :
  Z.of_nat (length l) ≤ i → py_index l i = Raise IndexError.
Proof.
  intros H. unfold py_index.
  destruct (i <? 0) eqn:Hi; [lia |].
  replace (_ && _) with false; [done |].
  symmetry. apply andb_false_iff. right. lia.
Qed.

(** ** Construction *)

Lemma tshape_nat_vector n g : tshape_nat (tabulate [n] g) = [n].
Proof. destruct n; simpl; by rewrite ?length_fmap, ?length_seq. Qed.

Lemma apply_initializer_vector (f : initializer) n g :
  apply_initializer f (tabulate [n] g) = tabulate [n] (f (tabulate [n] g)).
Proof. unfold apply_initializer. by rewrite tshape_nat_vector. Qed.

Lemma build_layers_inv (P : module → Prop) (make : build module) :
  (∀ e1 m e2, make e1 = (Ok m, e2) → P m) →
  ∀ n layers e res e',
    build_layers n make layers e = (Ok res, e') →
    ∃ news, res = layers ++ news ∧ length news = n ∧ Forall P news.
Proof.
  intros Hmake. induction n as [|n IH]; intros layers e res e' H; simpl in H.
  - inversion H; subst. exists []. by rewrite app_nil_r.
  - unfold build_bind in H. destruct (make e) as [[m|x] e1] eqn:Hm; [| discriminate].
    apply IH in H as (news & -> & Hlen & HP).
    exists (m :: news). rewrite <- app_assoc. simpl.
    split; [done |]. split; [by rewrite Hlen |].
    constructor; [by eapply Hmake | done].
Qed.

Lemma base_init_inv f cin cout ks ss ps mode g e c e' :
  base_init f cin cout ks ss ps mode g e = (Ok c, e') →
  ∃ w, c = {| prim := f; b_in_channels := cin; b_out_channels := cout;
              b_kernel_size := ks; b_stride := ss; b_padding := ps;
              b_padding_mode := mode; b_groups := g; weight := w; b_bias := None |}.
Proof.
  unfold base_init. destruct (_ || _); [discriminate |].
  unfold build_bind, alloc_param, log_instance, build_ret.
  destruct (nonneg _); [| discriminate].
  intros H. inversion H; subst. eauto.
Qed.

Lemma build_bind_Ok {A B : Type} (m : build A) (k : A → build B) e b e' :
  build_bind m k e = (Ok b, e') → ∃ a e1, m e = (Ok a, e1) ∧ k a e1 = (Ok b, e').
Proof.
  unfold build_bind. destruct (m e) as [[a|x] e1]; [eauto | discriminate].
Qed.

Lemma lift_Ok {A : Type} (r : result A) e a e' :
  lift r e = (Ok a, e') → r = Ok a ∧ e' = e.
Proof. unfold lift. by inversion 1. Qed.

Lemma py_assert_Ok b msg e u e' :
  py_assert b msg e = (Ok u, e') → b = true ∧ e' = e.
Proof. unfold py_assert, lift. destruct b; by inversion 1. Qed.

(** What a constructor that returns has built: an instance of its class
    holding the stored arguments, its bias, and one base layer per
    position of the leading kernel axis. *)
Lemma nd_init_body_inv nested cls args e m e' :
  nd_init_body nested cls args e = (Ok m, e') →
  ∃ f bias ws k0,
    py_index (base_prims cls) (a_num_dims args - 1 - 1) = Ok f ∧
    m = Nd cls (store_args args f) bias (base_layers (store_args args f) ws) ∧
    Z.of_nat (length (as_tuple (a_kernel_size args) (a_num_dims args))) = a_num_dims args ∧
    Z.of_nat (length (as_tuple (a_stride args) (a_num_dims args))) = a_num_dims args ∧
    Z.of_nat (length (as_tuple (a_padding args) (a_num_dims args))) = a_num_dims args ∧
    a_dilation args = 1 ∧
    py_index (as_tuple (a_kernel_size args) (a_num_dims args)) 0 = Ok k0 ∧
    length ws = Z.to_nat k0 ∧
    (if a_use_bias args
     then ∃ g, bias = Some (tabulate [Z.to_nat (a_out_channels args)] g)
     else bias = None).
Proof.
  unfold nd_init_body. cbv zeta. intros H.
  apply build_bind_Ok in H as (f & e0 & [Hf ->]%lift_Ok & H).
  apply build_bind_Ok in H as (? & ? & [Hk ->]%py_assert_Ok & H).
  apply build_bind_Ok in H as (? & ? & [Hs ->]%py_assert_Ok & H).
  apply build_bind_Ok in H as (? & ? & [Hp ->]%py_assert_Ok & H).
  apply build_bind_Ok in H as (? & ? & [Hd ->]%py_assert_Ok & H).
  apply build_bind_Ok in H as (bias & e1 & Hb & H).
  apply build_bind_Ok in H as (k0 & ? & [Hk0 ->]%lift_Ok & H).
  apply build_bind_Ok in H as (layers & e2 & Hl & H).
  unfold build_ret in H. inversion H; subst; clear H.
  eapply (build_layers_inv (fun m => ∃ w, m = Base (layer_of (store_args args f) w)))
    in Hl as (news & -> & Hlen & HP).
  - apply Forall_exists_Forall2_l in HP as (ws & HF).
    exists f, (match a_bias_initializer args with
               | Some g => if a_use_bias args then apply_initializer g <$> bias else bias
               | None => bias end), ws, k0.
    split; [done |]. split.
    { f_equal. simpl. clear -HF. induction HF as [|?? ?? ->]; simpl; [done | by f_equal]. }
    repeat (split; [lia || done |]).
    split; [by rewrite <- (Forall2_length _ _ _ HF) |].
    cbn [use_bias store_args out_channels] in Hb.
    unfold build_bind, alloc_param, build_ret in Hb.
    destruct (a_use_bias args).
    + destruct (nonneg _); [| discriminate]. inversion Hb; subst.
      change (Z.to_nat <$> [a_out_channels args]) with [Z.to_nat (a_out_channels args)].
      destruct (a_bias_initializer args); [| eauto].
      cbn [fmap option_fmap option_map].
      eexists. f_equal.
      exact (apply_initializer_vector i (Z.to_nat (a_out_channels args)) (fresh e (allocated e))).
    + inversion Hb; subst. by destruct (a_bias_initializer args).
  - intros e3 m1 e4. rewrite Z.eqb_refl. simpl. intros Hm.
    apply build_bind_Ok in Hm as (l & e5 & Hc & Hm).
    apply build_bind_Ok in Hc as (c0 & e6 & Hc & Hr).
    apply base_init_inv in Hc as (w & ->).
    unfold build_ret in Hr. inversion Hr; subst.
    destruct (a_kernel_initializer args) as [g|]; simpl in Hm;
      unfold lift, build_ret in Hm; simpl in Hm;
      inversion Hm; subst; eexists; reflexivity.
Qed.

(** ** Which children a constructor builds *)

Lemma py_index_base_prims cls n f :
  py_index (base_prims cls) (n - 1 - 1) = Ok f →
  -1 ≤ n ≤ 4 ∧
  (2 ≤ n → prim_of cls (n - 1) = Some f ∧ Z.of_nat (spatial_dims f) = n - 1 ∧
           is_transposed f = match cls with ConvNd => false | ConvTransposeNd => true end).
Proof.
  intros H. pose proof (py_index_Ok _ _ _ H) as [Hr Hl].
  assert (length (base_prims cls) = 3%nat) as Hlen by by destruct cls.
  rewrite Hlen in Hr, Hl. split; [lia |]. intros Hn.
  destruct (n - 1 - 1 <? 0) eqn:Hneg; [lia |].
  unfold prim_of. replace (Z.to_nat (n - 1 - 1)) with (Z.to_nat (n - 1 - 1)) in Hl by done.
  rewrite Hl. split; [done |].
  assert (n = 2 ∨ n = 3 ∨ n = 4) as [-> | [-> | ->]] by lia;
    destruct cls; simpl in Hl; inversion Hl; subst; done.
Qed.

Lemma forallb_is_base_layers self ws :
  forallb is_base (base_layers self ws) = true.
Proof. unfold base_layers. induction ws; simpl; done. Qed.

Lemma nd_init_body_nested nested1 nested2 cls args e :
  nd_init_body nested1 cls args e = nd_init_body nested2 cls args e.
Proof. unfold nd_init_body. cbv zeta. by rewrite Z.eqb_refl. Qed.

Lemma nd_init_fuel fuel cls args e :
  nd_init (S fuel) cls args e = nd_init 1 cls args e.
Proof. simpl. apply nd_init_body_nested. Qed.

Lemma nd_init_index_error fuel cls args e :
  py_index (base_prims cls) (a_num_dims args - 1 - 1) = Raise IndexError →
  nd_init (S fuel) cls args e = (Raise IndexError, e).
Proof.
  intros H. simpl. unfold nd_init_body. cbv zeta. unfold build_bind, lift.
  by rewrite H.
Qed.

Lemma build_layers_succeeds (make : build module) :
  (∀ e1, ∃ m e2, make e1 = (Ok m, e2)) →
  ∀ n layers e, ∃ res e', build_layers n make layers e = (Ok res, e').
Proof.
  intros Hmake. induction n as [|n IH]; intros layers e; simpl.
  - by eexists _, _.
  - unfold build_bind. destruct (Hmake e) as (m & e1 & ->). apply IH.
Qed.

Lemma base_init_succeeds f cin cout ks ss ps mode g e :
  1 ≤ g → cin mod g = 0 → cout mod g = 0 → 0 ≤ cin → 0 ≤ cout → nonneg ks = true →
  (is_transposed f = true → mode = mode_zeros) →
  ∃ c e', base_init f cin cout ks ss ps mode g e = (Ok c, e').
Proof.
  intros Hg Hi Ho Hcin Hcout Hks Hm. unfold base_init.
  replace (_ || _) with false.
  2:{ symmetry. repeat (apply orb_false_iff; split); try lia.
      destruct (is_transposed f); [by rewrite Hm | done]. }
  unfold build_bind, alloc_param, log_instance, build_ret.
  replace (nonneg _) with true; [by eexists _, _ |].
  symmetry. pose proof (Z.div_pos cin g ltac:(lia) ltac:(lia)).
  pose proof (Z.div_pos cout g ltac:(lia) ltac:(lia)).
  unfold nonneg in Hks |- *.
  destruct (is_transposed f); cbn [forallb]; rewrite Hks; lia.
Qed.

Lemma py_index_base_prims_Ok cls n :
  -1 ≤ n ≤ 4 →
  ∃ f, py_index (base_prims cls) (n - 1 - 1) = Ok f ∧
       is_transposed f = match cls with ConvNd => false | ConvTransposeNd => true end.
Proof.
  intros Hn.
  assert (n = -1 ∨ n = 0 ∨ n = 1 ∨ n = 2 ∨ n = 3 ∨ n = 4) as Hc by lia.
  destruct Hc as [-> | [-> | [-> | [-> | [-> | ->]]]]]; destruct cls;
    eexists; split; reflexivity.
Qed.

Lemma nonneg_drop n l : nonneg l = true → nonneg (drop n l) = true.
Proof.
  unfold nonneg. rewrite !forallb_forall. intros H x Hx%list_elem_of_In.
  apply H, list_elem_of_In. by eapply subseteq_drop.
Qed.

(** Accepted arguments are accepted: the constructor returns. *)
Lemma nd_init_succeeds fuel cls args e :
  args_ok cls args = true → ∃ m e', nd_init (S fuel) cls args e = (Ok m, e').
Proof.
  intros Hok. unfold args_ok in Hok. cbv zeta in Hok.
  repeat rewrite andb_true_iff in Hok.
  destruct Hok as [[[[[[[[[[[[Hn1 Hn4] Hlk] Hls] Hlp] Hdil] Hcin] Hcout] Hg] Hmi] Hmo] Hks] Hmode].
  destruct (py_index_base_prims_Ok cls (a_num_dims args) ltac:(lia)) as (f & Hf & Ht).
  simpl. unfold nd_init_body. cbv zeta.
  unfold build_bind at 1. unfold lift at 1. rewrite Hf.
  unfold py_assert, lift.
  unfold build_bind at 1. rewrite Hlk.
  unfold build_bind at 1. rewrite Hls.
  unfold build_bind at 1. rewrite Hlp.
  unfold build_bind at 1. rewrite Hdil.
  unfold build_bind at 1.
  match goal with
  | |- context [match ?b e with _ => _ end] =>
      assert (∃ bias e1, b e = (Ok bias, e1)) as (bias & e1 & ->)
  end.
  { cbn [use_bias store_args out_channels]. destruct (a_use_bias args).
    - unfold build_bind, alloc_param, build_ret.
      replace (nonneg [a_out_channels args]) with true
        by (cbn [nonneg forallb]; lia).
      by eexists _, _.
    - by eexists _, _. }
  unfold build_bind at 1.
  destruct (as_tuple (a_kernel_size args) (a_num_dims args)) as [|k0 ks] eqn:Hkseq;
    [cbn [length] in Hlk; lia |].
  rewrite py_index_0.
  unfold build_bind at 1.
  match goal with
  | |- context [build_layers ?len ?mk [] e1] =>
      assert (∀ e3, ∃ m e4, mk e3 = (Ok m, e4)) as Hmk;
        [| destruct (build_layers_succeeds mk Hmk len [] e1) as (layers & e2 & ->);
           by eexists _, _]
  end.
  intros e3. rewrite Z.eqb_refl. cbn [negb].
  cbn [store_args in_channels out_channels padding_mode groups kernel_initializer].
  destruct (base_init_succeeds f (a_in_channels args) (a_out_channels args)
              (drop 1 (k0 :: ks))
              (drop 1 (as_tuple (a_stride args) (a_num_dims args)))
              (drop 1 (as_tuple (a_padding args) (a_num_dims args)))
              (a_padding_mode args) (a_groups args) e3)
    as (c & e4 & Hc); try lia.
  { apply nonneg_drop. exact Hks. }
  { intros Htr. rewrite Htr in Ht. destruct cls; [discriminate |].
    by destruct (a_padding_mode args). }
  unfold build_bind. rewrite Hc. unfold build_ret.
  destruct (a_kernel_initializer args); by eexists _, _.
Qed.

(** For [num_dims] 2, 3 or 4 (at most three spatial dimensions remain)
    and arguments it accepts, a [ConvNd] constructor returns an operator
    whose children are base primitives: there is one per
    position of the leading kernel axis, each the convolution primitive
    with [num_dims - 1] spatial dimensions, holding the trailing kernel
    sizes, strides and paddings, the operator's padding mode, groups and
    channels, and no bias. *)
Theorem ConvNd_init_children fuel args e :
  2 ≤ a_num_dims args ≤ 4 →
  args_ok ConvNd args = true →
  ∃ self bias conv_layers e' k0,
    ConvNd_init (S fuel) args e = (Ok (Nd ConvNd self bias conv_layers), e') ∧
    py_index (kernel_size self) 0 = Ok k0 ∧
    length conv_layers = Z.to_nat k0 ∧
    Forall (fun l => ∃ c,
              l = Base c ∧
              prim_of ConvNd (num_dims self - 1) = Some (prim c) ∧
              Z.of_nat (spatial_dims (prim c)) = num_dims self - 1 ∧
              is_transposed (prim c) = false ∧
              b_kernel_size c = drop 1 (kernel_size self) ∧
              b_stride c = drop 1 (stride self) ∧
              b_padding c = drop 1 (padding self) ∧
              b_padding_mode c = padding_mode self ∧
              b_groups c = groups self ∧
              b_in_channels c = in_channels self ∧
              b_out_channels c = out_channels self ∧
              b_bias c = None)
           conv_layers.
Proof.
  intros Hn Hok. destruct (nd_init_succeeds fuel ConvNd args e Hok) as (m & e' & H).
  unfold ConvNd_init. rewrite H. simpl in H.
  apply nd_init_body_inv in H
    as (f & bias & ws & k0 & Hf & -> & _ & _ & _ & _ & Hk0 & Hlen & _).
  apply py_index_base_prims in Hf as [_ Hf]. destruct (Hf ltac:(lia)) as (Hp & Hd & Ht).
  eexists _, _, _, _, k0. split; [reflexivity |]. split; [exact Hk0 |].
  split; [unfold base_layers; by rewrite length_fmap |].
  apply Forall_forall. intros l [w [-> _]]%list_elem_of_fmap.
  eexists. split; [reflexivity |]. simpl. done.
Qed.

Lemma ConvNd_init_children_witness :
  ∃ self bias conv_layers k0,
    built (ConvNd_init 1 (example_args 3 [2; 2; 2]) example_engine)
      = Some (Nd ConvNd self bias conv_layers) ∧
    py_index (kernel_size self) 0 = Ok k0 ∧
    length conv_layers = Z.to_nat k0 ∧
    Forall (fun l => ∃ c, l = Base c ∧ Z.of_nat (spatial_dims (prim c)) = 2 ∧ b_bias c = None)
      conv_layers.
Proof.
  destruct (ConvNd_init_children 0 (example_args 3 [2; 2; 2]) example_engine
              ltac:(simpl; lia) ltac:(vm_compute; reflexivity))
    as (self & bias & layers & e' & k0 & E & Hk & Hlen & HF).
  exists self, bias, layers, k0. split; [unfold built; by rewrite E |].
  split; [done |]. split; [done |].
  assert (num_dims self = 3) as Hnd by (vm_compute in E; by injection E as <- _ _ _).
  eapply Forall_impl; [exact HF |].
  intros l (c & -> & _ & Hd & _ & _ & _ & _ & _ & _ & _ & _ & Hb).
  exists c. repeat split; try done. rewrite Hd, Hnd. done.
Defined.

(** C1 does not hold of the code.  When more than three spatial
    dimensions remain after the leading one ([num_dims - 1 > 3]), the
    [ConvNd] constructor builds no child at all: the selection of the base
    primitive indexes the three-entry tuple at [num_dims - 2] and raises
    [IndexError], leaving the engine as it was.  The test
    [self.num_dims-1 != max_dims] of the loop compares [num_dims - 1]
    with itself, so the branch that would build instances of the class is
    never taken: the constructor's outcome is the same whatever the
    nested constructor does, and every operator it returns has at most
    three remaining dimensions and only base primitives as children. *)
Theorem ConvNd_init_never_recurses fuel args e :
  (3 < a_num_dims args - 1 →
   py_index (base_prims ConvNd) (a_num_dims args - 1 - 1) = Raise IndexError ∧
   ConvNd_init (S fuel) args e = (Raise IndexError, e)) ∧
  (∀ nested, nd_init_body nested ConvNd args e = ConvNd_init (S fuel) args e) ∧
  (∀ m e',
     ConvNd_init fuel args e = (Ok m, e') →
     a_num_dims args - 1 ≤ 3 ∧
     ∃ self bias conv_layers,
       m = Nd ConvNd self bias conv_layers ∧
       Forall (fun l => (∀ cls s b ls, l ≠ Nd cls s b ls) ∧
                        ∃ c, l = Base c ∧ prim c = conv_f self) conv_layers).
Proof.
  split; [| split].
  - intros Hn.
    assert (py_index (base_prims ConvNd) (a_num_dims args - 1 - 1) = Raise IndexError) as Hi
      by (apply py_index_out; simpl; lia).
    split; [exact Hi |]. by apply nd_init_index_error.
  - intros nested. unfold ConvNd_init. simpl. apply nd_init_body_nested.
  - intros m e' H. unfold ConvNd_init in H. destruct fuel as [|fuel]; [discriminate |].
    simpl in H. apply nd_init_body_inv in H as (f & bias & ws & ? & Hf & -> & _).
    apply py_index_base_prims in Hf as [Hf _]. split; [lia |].
    eexists _, _, _. split; [reflexivity |].
    apply Forall_forall. intros l [w [-> _]]%list_elem_of_fmap.
    split; [discriminate |]. eexists. split; reflexivity.
Qed.

Lemma ConvNd_init_never_recurses_witness :
  3 < a_num_dims (example_args 5 [2; 2; 2; 2; 2]) - 1 ∧
  ConvNd_init 1 (example_args 5 [2; 2; 2; 2; 2]) example_engine
    = (Raise IndexError, example_engine) ∧
  ∃ self bias conv_layers,
    built (ConvNd_init 2 (example_args 4 [2; 2; 2; 2]) example_engine)
      = Some (Nd ConvNd self bias conv_layers) ∧
    length conv_layers = 2%nat ∧
    Forall (fun l => ∃ c, l = Base c ∧ prim c = Conv3d) conv_layers.
Proof.
  split; [simpl; lia |]. split.
  - exact (proj2 (proj1 (ConvNd_init_never_recurses 0 (example_args 5 [2; 2; 2; 2; 2])
                           example_engine) ltac:(simpl; lia))).
  - destruct (ConvNd_init 2 (example_args 4 [2; 2; 2; 2]) example_engine)
      as [[m|x] e'] eqn:E; [| vm_compute in E; discriminate].
    destruct (proj2 (proj2 (ConvNd_init_never_recurses 2 (example_args 4 [2; 2; 2; 2])
                              example_engine)) m e' E)
      as (_ & self & bias & layers & -> & HF).
    exists self, bias, layers. split; [reflexivity |].
    assert (conv_f self = Conv3d ∧ length layers = 2%nat) as [Hf Hl]
      by (vm_compute in E; by injection E as <- _ <- _).
    split; [exact Hl |].
    eapply Forall_impl; [exact HF |]. intros l (_ & c & -> & Hc).
    exists c. split; [reflexivity |]. by rewrite Hc.
Defined.

(** C2.  From five dimensions on, both constructors raise [IndexError] at
    the selection of the base primitive and leave the engine as it was: no
    parameter allocated, no primitive instantiated.  Whenever a
    constructor returns an operator, it has made no nested constructor
    call (a depth budget of one call gives the same outcome) and every
    child is a base primitive. *)
Theorem nd_init_five_dims_or_leaves cls args e :
  (5 ≤ a_num_dims args →
   py_index (base_prims cls) (a_num_dims args - 1 - 1) = Raise IndexError ∧
   ∀ fuel, nd_init (S fuel) cls args e = (Raise IndexError, e)) ∧
  (∀ fuel m e',
     nd_init fuel cls args e = (Ok m, e') →
     a_num_dims args ≤ 4 ∧
     nd_init 1 cls args e = (Ok m, e') ∧
     ∃ self bias conv_layers,
       m = Nd cls self bias conv_layers ∧ forallb is_base conv_layers = true).
Proof.
  split.
  - intros Hn.
    assert (py_index (base_prims cls) (a_num_dims args - 1 - 1) = Raise IndexError) as Hi.
    { apply py_index_out. destruct cls; simpl; lia. }
    split; [exact Hi |]. intros fuel. by apply nd_init_index_error.
  - intros fuel m e' H. destruct fuel as [|fuel]; [discriminate |].
    rewrite nd_init_fuel in H. split; [| split; [exact H |]].
    + simpl in H. apply nd_init_body_inv in H as (f & ? & ? & ? & Hf & _).
      apply py_index_base_prims in Hf. lia.
    + simpl in H. apply nd_init_body_inv in H as (f & bias & ws & ? & _ & -> & _).
      eexists _, _, _. split; [reflexivity |]. apply forallb_is_base_layers.
Qed.

Lemma nd_init_five_dims_or_leaves_witness :
  ConvNd_init 1 (example_args 5 [2; 2; 2; 2; 2]) example_engine
    = (Raise IndexError, example_engine) ∧
  ConvTransposeNd_init 1 (example_args 5 [2; 2; 2; 2; 2]) example_engine
    = (Raise IndexError, example_engine) ∧
  ∃ self bias conv_layers,
    built (ConvNd_init 4 (example_args 4 [2; 2; 2; 2]) example_engine)
      = Some (Nd ConvNd self bias conv_layers) ∧
    forallb is_base conv_layers = true.
Proof.
  split; [| split].
  - apply (nd_init_five_dims_or_leaves ConvNd (example_args 5 [2; 2; 2; 2; 2])
             example_engine); simpl; lia.
  - apply (nd_init_five_dims_or_leaves ConvTransposeNd (example_args 5 [2; 2; 2; 2; 2])
             example_engine); simpl; lia.
  - destruct (ConvNd_init 4 (example_args 4 [2; 2; 2; 2]) example_engine)
      as [[m|x] e'] eqn:E; [| vm_compute in E; discriminate].
    destruct (proj2 (nd_init_five_dims_or_leaves ConvNd (example_args 4 [2; 2; 2; 2])
                       example_engine) 4%nat m e' E)
      as (_ & _ & self & bias & layers & -> & Hb).
    by exists self, bias, layers.
Defined.

(** ** Configuration errors are construction-time errors *)

























(** ** Tensors as tabulated functions *)


Lemma fmap_seq_ext {A : Type} (f g : nat → A) (start len : nat) :
  (∀ i, (start ≤ i < start + len)%nat → f i = g i) →
  f <$> seq start len = g <$> seq start len.
Proof.
  intros H. apply list_eq. intros i. rewrite !list_lookup_fmap.
  destruct (decide (i < len)%nat) as [Hi|Hi].
  - rewrite lookup_seq_lt by done. simpl. f_equal. apply H. lia.
  - rewrite lookup_seq_ge by lia. done.
Qed.

Lemma lookup_fmap_seq {A : Type} (f : nat → A) (n i : nat) :
  (i < n)%nat → (f <$> seq 0 n) !! i = Some (f i).
Proof. intros Hi. by rewrite list_lookup_fmap, lookup_seq_lt. Qed.

Lemma lookup_total_fmap_seq `{!Inhabited A} (f : nat → A) (n i : nat) :
  (i < n)%nat → (f <$> seq 0 n) !!! i = f i.
Proof. intros Hi. apply list_lookup_total_correct. by apply lookup_fmap_seq. Qed.

Lemma tabulate_ext sh f g :
  (∀ idx, in_shape idx sh → f idx = g idx) → tabulate sh f = tabulate sh g.
Proof.
  revert f g. induction sh as [|n sh IH]; intros f g H; simpl.
  - f_equal. apply H. constructor.
  - f_equal. apply fmap_seq_ext. intros i Hi. apply IH.
    intros idx Hidx. apply H. constructor; [lia | done].
Qed.

Lemma row_tabulate n sh f i :
  (i < n)%nat → row i (tabulate (n :: sh) f) = tabulate sh (fun idx => f (i :: idx)).
Proof. intros Hi. unfold row. simpl. by rewrite lookup_total_fmap_seq. Qed.

Lemma rows_tabulate n sh f :
  rows (tabulate (n :: sh) f) = (fun i => tabulate sh (fun idx => f (i :: idx))) <$> seq 0 n.
Proof. reflexivity. Qed.

Lemma tget_tabulate sh f idx : in_shape idx sh → tget (tabulate sh f) idx = f idx.
Proof.
  unfold in_shape. intros H.
  revert f. induction H as [|i n idx sh Hi _ IH]; intros f; [done |].
  cbn [tget]. rewrite row_tabulate by done. apply IH.
Qed.

Lemma tshape_nat_tabulate_indep sh f g :
  tshape_nat (tabulate sh f) = tshape_nat (tabulate sh g).
Proof.
  revert f g. induction sh as [|n sh IH]; intros f g; [done |].
  simpl. rewrite !length_fmap. f_equal. destruct n; simpl; [done | apply IH].
Qed.

Lemma tshape_nat_tabulate sh f :
  Forall (fun n => (0 < n)%nat) sh → tshape_nat (tabulate sh f) = sh.
Proof.
  intros H. revert f. induction H as [|n sh Hn _ IH]; intros f; [done |].
  simpl. rewrite length_fmap, length_seq. f_equal.
  destruct n; [lia |]. simpl. apply IH.
Qed.

Lemma has_shape_tabulate sh f : has_shape sh (tabulate sh f) = true.
Proof.
  revert f. induction sh as [|n sh IH]; intros f; [done |].
  simpl. rewrite length_fmap, length_seq, Nat.eqb_refl. simpl.
  apply forallb_forall. intros t [i [<- _]]%in_map_iff. apply IH.
Qed.

Lemma has_shape_eq sh t : has_shape sh t = true → t = tabulate sh (tget t).
Proof.
  revert t. induction sh as [|n sh IH]; intros [v|rs] H; try discriminate; [done |].
  simpl in H. apply andb_true_iff in H as [Hn Hrs]. apply Nat.eqb_eq in Hn.
  simpl. f_equal. apply list_eq. intros i.
  destruct (decide (i < n)%nat) as [Hi|Hi].
  - rewrite lookup_fmap_seq by done.
    destruct (rs !! i) as [r|] eqn:Hr; [| apply lookup_ge_None in Hr; lia].
    f_equal. unfold row. simpl. rewrite (list_lookup_total_correct _ _ _ Hr).
    apply IH. rewrite forallb_forall in Hrs. apply Hrs.
    apply list_elem_of_In. by eapply list_elem_of_lookup_2.
  - rewrite (lookup_ge_None_2 rs) by lia.
    rewrite list_lookup_fmap, lookup_seq_ge by lia. done.
Qed.

Lemma tadd_Tensor xs ys : tadd (Tensor xs) (Tensor ys) = Tensor (zip_with tadd xs ys).
Proof.
  reflexivity.
Qed.

Lemma zip_with_fmap_seq {A B C : Type} (h : A → B → C) (f : nat → A) (g : nat → B) start n :
  zip_with h (f <$> seq start n) (g <$> seq start n) = (fun i => h (f i) (g i)) <$> seq start n.
Proof. revert start. induction n as [|n IH]; intros start; simpl; [done | by rewrite IH]. Qed.

Lemma tadd_tabulate sh f g :
  tadd (tabulate sh f) (tabulate sh g) = tabulate sh (fun idx => f idx + g idx).
Proof.
  revert f g. induction sh as [|n sh IH]; intros f g; [done |].
  cbn [tabulate]. rewrite tadd_Tensor, zip_with_fmap_seq. f_equal.
  apply fmap_seq_ext. intros i _. apply IH.
Qed.

Lemma tadd_scalar_tabulate c sh f :
  tadd_scalar c (tabulate sh f) = tabulate sh (fun idx => f idx + c).
Proof.
  revert f. induction sh as [|n sh IH]; intros f; [done |].
  cbn [tabulate tadd_scalar]. f_equal. rewrite <- list_fmap_compose.
  apply fmap_seq_ext. intros i _. apply IH.
Qed.

Lemma shape_eqb_tabulate sh f g :
  shape_eqb (tshape (tabulate sh f)) (tshape (tabulate sh g)) = true.
Proof.
  unfold shape_eqb, tshape. rewrite (tshape_nat_tabulate_indep sh f g).
  by apply bool_decide_eq_true.
Qed.

Lemma iadd_tabulate sh f g :
  iadd (tabulate sh f) (tabulate sh g) = Ok (tabulate sh (fun idx => f idx + g idx)).
Proof. unfold iadd. by rewrite shape_eqb_tabulate, tadd_tabulate. Qed.

(** Slices and stacks of tabulated tensors. *)

Lemma slice2_tabulate b c l sh f j :
  (j < l)%nat →
  slice2 j (tabulate (b :: c :: l :: sh) f) = tabulate (b :: c :: sh) (at_axis2 j f).
Proof.
  intros Hj. unfold slice2. cbn [tabulate rows]. f_equal.
  rewrite <- list_fmap_compose. apply fmap_seq_ext. intros ib _. simpl. f_equal.
  rewrite <- list_fmap_compose. apply fmap_seq_ext. intros ic _. simpl.
  apply (row_tabulate l sh (fun idx => f (ib :: ic :: idx)) j Hj).
Qed.

Lemma forallb_fmap_true {A B : Type} (P : B → bool) (f : A → B) (l : list A) :
  (∀ x, P (f x) = true) → forallb P (f <$> l) = true.
Proof.
  intros H. induction l as [|x l IH]; [done |].
  rewrite fmap_cons. cbn [forallb]. by rewrite H, IH.
Qed.

Lemma torch_stack2_tabulate b c n sh (F : nat → list nat → Z) :
  (0 < b)%nat → (0 < n)%nat →
  torch_stack2 ((fun o => tabulate (b :: c :: sh) (F o)) <$> seq 0 n)
  = Ok (tabulate (b :: c :: n :: sh) (from_axis2 F)).
Proof.
  intros Hb Hn. unfold torch_stack2.
  destruct (_ <$> seq 0 n) as [|f0 fs] eqn:Hfs.
  { destruct n; [lia | discriminate]. }
  assert (f0 = tabulate (b :: c :: sh) (F 0%nat)) as Hf0.
  { destruct n; [lia |]. by inversion Hfs. }
  rewrite <- Hfs. rewrite forallb_fmap_true.
  2:{ intros o. rewrite Hf0. apply shape_eqb_tabulate. }
  f_equal. rewrite Hf0. rewrite rows_tabulate, length_fmap, length_seq.
  rewrite row_tabulate by done. rewrite rows_tabulate, length_fmap, length_seq.
  cbn [tabulate]. unfold stack2. f_equal. apply fmap_seq_ext. intros ib Hib. f_equal.
  apply fmap_seq_ext. intros ic Hic. f_equal.
  rewrite <- list_fmap_compose. apply fmap_seq_ext. intros o Ho.
  unfold compose, row. cbn [rows]. rewrite lookup_total_fmap_seq by lia.
  cbn [rows]. rewrite lookup_total_fmap_seq by lia. done.
Qed.

(** ** The overlap-add loops *)

Lemma Zsum_app l1 l2 : Zsum (l1 ++ l2) = Zsum l1 + Zsum l2.
Proof. unfold Zsum. induction l1 as [|x l1 IH]; simpl; [done | rewrite IH; lia]. Qed.

Lemma Zsum_cons x l : Zsum (x :: l) = x + Zsum l.
Proof. reflexivity. Qed.

Lemma Zsum_zero {A : Type} (f : A → Z) (l : list A) :
  (∀ x, x ∈ l → f x = 0) → Zsum (f <$> l) = 0.
Proof.
  intros H. induction l as [|x l IH]; [done |].
  rewrite fmap_cons, Zsum_cons, H, IH; [done | | ]; set_solver.
Qed.

Lemma Zsum_ext {A : Type} (f g : A → Z) (l : list A) :
  (∀ x, x ∈ l → f x = g x) → Zsum (f <$> l) = Zsum (g <$> l).
Proof.
  intros H. induction l as [|x l IH]; [done |].
  rewrite !fmap_cons, !Zsum_cons, H, IH; [done | | ]; set_solver.
Qed.

Lemma Zsum_add {A : Type} (f g : A → Z) (l : list A) :
  Zsum ((fun x => f x + g x) <$> l) = Zsum (f <$> l) + Zsum (g <$> l).
Proof.
  induction l as [|x l IH]; [done |]. rewrite !fmap_cons, !Zsum_cons, IH. lia.
Qed.

Lemma Zsum_exchange {A B : Type} (f : A → B → Z) (la : list A) (lb : list B) :
  Zsum ((fun a => Zsum ((fun b => f a b) <$> lb)) <$> la)
  = Zsum ((fun b => Zsum ((fun a => f a b) <$> la)) <$> lb).
Proof.
  induction la as [|a la IH].
  - simpl. symmetry. by apply Zsum_zero.
  - rewrite fmap_cons, Zsum_cons, IH, <- Zsum_add. done.
Qed.

(** The one position [x0] of a duplicate-free list at which [f] may be
    non-zero carries the whole sum. *)
Lemma Zsum_single {A : Type} `{EqDecision A} (f : A → Z) (l : list A) (x0 : A) :
  NoDup l → x0 ∈ l → (∀ x, x ∈ l → x ≠ x0 → f x = 0) → Zsum (f <$> l) = f x0.
Proof.
  intros Hnd. induction Hnd as [|x l Hx Hnd IH]; intros Hmem Hz; [set_solver |].
  rewrite fmap_cons, Zsum_cons. destruct (decide (x = x0)) as [-> | Hne].
  - rewrite Zsum_zero; [lia |]. intros y Hy. apply Hz; set_solver.
  - rewrite Hz by set_solver. rewrite IH; [lia | set_solver |].
    intros y Hy. apply Hz. set_solver.
Qed.

Lemma insert_fmap_seq {A : Type} (F : nat → A) (n o : nat) (x : A) :
  <[o := x]> (F <$> seq 0 n) = (fun o' => if decide (o' = o) then x else F o') <$> seq 0 n.
Proof.
  apply list_eq. intros i.
  destruct (decide (i < n)%nat) as [Hi|Hi].
  - rewrite lookup_fmap_seq by done. destruct (decide (i = o)) as [-> | Hne].
    + rewrite list_lookup_insert_eq; [done |]. by rewrite length_fmap, length_seq.
    + rewrite list_lookup_insert_ne by done. by rewrite lookup_fmap_seq.
  - rewrite !lookup_ge_None_2; [done | |]; rewrite ?length_insert, length_fmap, length_seq; lia.
Qed.

Lemma replicate_fmap_seq {A : Type} (x : A) (n : nat) :
  replicate n x = (fun _ => x) <$> seq 0 n.
Proof.
  apply list_eq. intros i. destruct (decide (i < n)%nat) as [Hi|Hi].
  - by rewrite lookup_replicate_2, lookup_fmap_seq.
  - rewrite !lookup_ge_None_2; [done | |]; rewrite ?length_fmap, ?length_seq, ?length_replicate; lia.
Qed.

Lemma for_each_app {A S : Type} (xs ys : list A) (body : A → S → result S) st :
  for_each (xs ++ ys) body st = st' ← for_each xs body st; for_each ys body st'.
Proof.
  revert st. induction xs as [|x xs IH]; intros st; simpl; [done |].
  destruct (body x st); simpl; [apply IH | done].
Qed.

Section overlap_add_frames.
Variables (layers : list (tensor → result tensor)) (input : tensor).
Variables (target : nat → nat → option nat) (G : nat → nat → list nat → Z).
Variables (sh : list nat) (n k l : nat).

Hypothesis target_in_range : ∀ i j o, target i j = Some o → (o < n)%nat.
Hypothesis layer_output : ∀ i j o,
  (i < k)%nat → (j < l)%nat → target i j = Some o →
  call layers i (slice2 j input) = Ok (tabulate sh (G i j)).

Lemma store_frame_frames o g A marks :
  (o < n)%nat → frames_inv n A marks →
  ∃ A' marks',
    store_frame o (tabulate sh g) (frames_of sh n A marks) = Ok (frames_of sh n A' marks') ∧
    frames_inv n A' marks' ∧
    ∀ o' idx, A' o' idx = A o' idx + (if decide (o' = o) then g idx else 0).
Proof.
  intros Ho [Hlen Hz]. unfold store_frame, frames_of.
  destruct (marks !! o) as [mk|] eqn:Hmk; [| apply lookup_ge_None in Hmk; lia].
  destruct mk as [v|].
  - rewrite lookup_fmap_seq by done. rewrite iadd_tabulate. simpl.
    exists (fun o' => if decide (o' = o) then (fun idx => A o idx + g idx) else A o'), marks.
    split; [| split].
    + f_equal. f_equal. rewrite insert_fmap_seq. apply fmap_seq_ext.
      intros o' _. by destruct (decide (o' = o)).
    + split; [done |]. intros o' Ho' idx. destruct (decide (o' = o)) as [-> | Hne].
      * rewrite Hmk in Ho'. discriminate.
      * by apply Hz.
    + intros o' idx. destruct (decide (o' = o)) as [-> | Hne]; lia.
  - exists (fun o' => if decide (o' = o) then g else A o'), (<[o := Some 1]> marks).
    split; [| split].
    + f_equal. f_equal. rewrite insert_fmap_seq. apply fmap_seq_ext.
      intros o' _. by destruct (decide (o' = o)).
    + split; [by rewrite length_insert |]. intros o' Ho' idx.
      destruct (decide (o' = o)) as [-> | Hne].
      * rewrite list_lookup_insert_eq in Ho' by lia. discriminate.
      * rewrite list_lookup_insert_ne in Ho' by done. by apply Hz.
    + intros o' idx. destruct (decide (o' = o)) as [-> | Hne]; [| lia].
      rewrite (Hz o Hmk idx). lia.
Qed.

Lemma overlap_add_body_some i j o fc st :
  target i j = Some o → call layers i (slice2 j input) = Ok fc →
  overlap_add_body layers input target i j st = store_frame o fc st.
Proof. intros Ht Hc. unfold overlap_add_body. by rewrite Ht, Hc. Qed.

Lemma overlap_add_body_none i j st :
  target i j = None → overlap_add_body layers input target i j st = Ok st.
Proof. intros Ht. unfold overlap_add_body. by rewrite Ht. Qed.

Lemma inner_loop_frames i js A marks :
  (i < k)%nat → Forall (fun j => (j < l)%nat) js → frames_inv n A marks →
  ∃ A' marks',
    for_each js (overlap_add_body layers input target i) (frames_of sh n A marks) = Ok (frames_of sh n A' marks') ∧
    frames_inv n A' marks' ∧
    ∀ o idx, A' o idx
             = A o idx + Zsum ((fun j => if decide (target i j = Some o) then G i j idx else 0)
                                 <$> js).
Proof.
  intros Hi Hjs. revert A marks.
  induction Hjs as [|j js Hj _ IH]; intros A marks Hinv.
  - exists A, marks. repeat split; try apply Hinv. intros. simpl. lia.
  - cbn [for_each].
    destruct (target i j) as [o|] eqn:Ht.
    + rewrite (overlap_add_body_some i j o _ _ Ht (layer_output i j o Hi Hj Ht)).
      destruct (store_frame_frames o (G i j) A marks (target_in_range _ _ _ Ht) Hinv)
        as (A1 & marks1 & -> & Hinv1 & HA1).
      cbn [mbind result_bind].
      destruct (IH A1 marks1 Hinv1) as (A2 & marks2 & -> & Hinv2 & HA2).
      exists A2, marks2. split; [done |]. split; [done |].
      intros o' idx. rewrite HA2, HA1, fmap_cons, Zsum_cons.
      destruct (decide (o' = o)) as [-> | Hne].
      * rewrite decide_True by done. lia.
      * rewrite decide_False by congruence. lia.
    + rewrite (overlap_add_body_none i j _ Ht). cbn [mbind result_bind].
      destruct (IH A marks Hinv) as (A2 & marks2 & -> & Hinv2 & HA2).
      exists A2, marks2. split; [done |]. split; [done |].
      intros o' idx. rewrite HA2, fmap_cons, Zsum_cons.
      rewrite decide_False by congruence. lia.
Qed.

Lemma outer_loop_frames is_ A marks :
  Forall (fun i => (i < k)%nat) is_ → frames_inv n A marks →
  ∃ A' marks',
    for_each is_ (fun i st => for_each (seq 0 l) (overlap_add_body layers input target i) st) (frames_of sh n A marks)
      = Ok (frames_of sh n A' marks') ∧
    frames_inv n A' marks' ∧
    ∀ o idx, A' o idx
             = A o idx
               + Zsum ((fun i =>
                          Zsum ((fun j => if decide (target i j = Some o) then G i j idx else 0)
                                  <$> seq 0 l))
                         <$> is_).
Proof.
  intros His. revert A marks.
  induction His as [|i is_ Hi _ IH]; intros A marks Hinv.
  - exists A, marks. repeat split; try apply Hinv. intros. simpl. lia.
  - cbn [for_each].
    destruct (inner_loop_frames i (seq 0 l) A marks Hi) as (A1 & marks1 & -> & Hinv1 & HA1);
      [apply Forall_forall; intros j Hj%elem_of_seq; lia | done |].
    cbn [mbind result_bind].
    destruct (IH A1 marks1 Hinv1) as (A2 & marks2 & -> & Hinv2 & HA2).
    exists A2, marks2. split; [done |]. split; [done |].
    intros o idx. rewrite HA2, HA1, fmap_cons, Zsum_cons. lia.
Qed.

(** Started on [n] zero frames, the two loops end with frame [o]
    holding the sum of the layer outputs sent to it. *)
Lemma overlap_add_frames :
  ∃ marks',
    overlap_add layers input target (Z.of_nat k) (Z.of_nat l)
      (replicate n (tabulate sh (fun _ => 0)), replicate n None)
    = Ok ((fun o => tabulate sh (overlap_sum target G k l o)) <$> seq 0 n, marks').
Proof.
  unfold overlap_add, range. rewrite !Nat2Z.id.
  destruct (outer_loop_frames (seq 0 k) (fun _ _ => 0) (replicate n None))
    as (A' & marks' & Hrun & _ & HA').
  { apply Forall_forall. intros i Hi%elem_of_seq. lia. }
  { split; [by rewrite length_replicate | done]. }
  exists marks'. unfold frames_of in Hrun. rewrite <- replicate_fmap_seq in Hrun.
  rewrite Hrun. f_equal. f_equal.
  apply fmap_seq_ext. intros o _. apply tabulate_ext. intros idx _.
  rewrite HA'. unfold overlap_sum. lia.
Qed.
End overlap_add_frames.

(** ** The engine's operations on tabulated tensors *)

Lemma comprehension_fmap {A B : Type} (f : A → result B) (g : A → B) (l : list A) :
  (∀ x, x ∈ l → f x = Ok (g x)) → comprehension f l = Ok (g <$> l).
Proof.
  intros H. induction l as [|x l IH]; [done |].
  simpl. rewrite H by set_solver. simpl. rewrite IH by set_solver. done.
Qed.

Lemma py_index_total `{!Inhabited A} (l : list A) (x : nat) :
  (x < length l)%nat → py_index l (Z.of_nat x) = Ok (l !!! x).
Proof.
  intros Hx. apply py_index_nat. by apply list_lookup_lookup_total_lt.
Qed.

Lemma tshape_tabulate sh f :
  Forall (fun n => (0 < n)%nat) sh → tshape (tabulate sh f) = Z.of_nat <$> sh.
Proof. intros H. unfold tshape. by rewrite tshape_nat_tabulate. Qed.

Lemma alter_fmap_seq {A : Type} (h : A → A) (F : nat → A) (n k : nat) :
  alter h k (F <$> seq 0 n) = (fun i => if decide (i = k) then h (F i) else F i) <$> seq 0 n.
Proof.
  apply list_eq. intros i.
  destruct (decide (i < n)%nat) as [Hi|Hi].
  - rewrite lookup_fmap_seq by done. destruct (decide (i = k)) as [-> | Hne].
    + by rewrite list_lookup_alter_eq, lookup_fmap_seq.
    + rewrite list_lookup_alter_ne by done. by rewrite lookup_fmap_seq.
  - rewrite !lookup_ge_None_2; [done | |]; rewrite ?length_alter, length_fmap, length_seq; lia.
Qed.

Lemma pad_rows_lookup mode (p : nat) z (F : nat → tensor) (l i : nat) :
  (i < l + 2 * p)%nat →
  (mode = mode_reflect → (p < l)%nat) →
  pad_rows mode p z (F <$> seq 0 l) !! i
  = Some (match padded_index mode (Z.of_nat p) l (Z.of_nat i) with
          | Some j => F j
          | None => z
          end).
Proof.
  intros Hi Hm. unfold pad_rows, padded_index. destruct mode.
  - destruct (decide (i < p)%nat) as [H1|H1].
    { rewrite lookup_app_l by (rewrite length_replicate; lia).
      rewrite lookup_replicate_2 by done.
      replace (_ && _) with false by lia. done. }
    rewrite lookup_app_r by (rewrite length_replicate; lia). rewrite length_replicate.
    destruct (decide (i < p + l)%nat) as [H2|H2].
    { rewrite lookup_app_l by (rewrite length_fmap, length_seq; lia).
      rewrite lookup_fmap_seq by lia.
      replace (_ && _) with true by lia. do 2 f_equal. lia. }
    rewrite lookup_app_r by (rewrite length_fmap, length_seq; lia).
    rewrite length_fmap, length_seq. rewrite lookup_replicate_2 by lia.
    replace (_ && _) with false by lia. done.
  - specialize (Hm eq_refl).
    assert (length (F <$> seq 0 l) = l) as Hlen by by rewrite length_fmap, length_seq.
    destruct (decide (i < p)%nat) as [H1|H1].
    { rewrite lookup_app_l by (rewrite length_reverse, length_take, length_drop, Hlen; lia).
      rewrite reverse_lookup by (rewrite length_take, length_drop, Hlen; lia).
      rewrite length_take, length_drop, Hlen.
      rewrite lookup_take_lt by lia. rewrite lookup_drop.
      rewrite lookup_fmap_seq by lia.
      replace (Z.of_nat i <? Z.of_nat p) with true by lia. do 2 f_equal. lia. }
    rewrite lookup_app_r by (rewrite length_reverse, length_take, length_drop, Hlen; lia).
    rewrite length_reverse, length_take, length_drop, Hlen.
    replace (Z.of_nat i <? Z.of_nat p) with false by lia.
    destruct (decide (i < p + l)%nat) as [H2|H2].
    { rewrite lookup_app_l by (rewrite Hlen; lia).
      rewrite lookup_fmap_seq by lia.
      replace (_ <? _) with true by lia. do 2 f_equal. lia. }
    rewrite lookup_app_r by (rewrite Hlen; lia). rewrite Hlen.
    rewrite lookup_take_lt by lia. rewrite lookup_drop.
    rewrite reverse_lookup by (rewrite Hlen; lia). rewrite Hlen.
    rewrite lookup_fmap_seq by lia.
    replace (_ <? _) with false by lia. do 2 f_equal. lia.
Qed.

Lemma pad_rows_length mode (p : nat) z (rs : list tensor) :
  (mode = mode_reflect → (p < length rs)%nat) →
  length (pad_rows mode p z rs) = (length rs + 2 * p)%nat.
Proof.
  intros Hm. unfold pad_rows. destruct mode.
  - rewrite !length_app, !length_replicate. lia.
  - specialize (Hm eq_refl).
    rewrite !length_app, length_reverse, !length_take, !length_drop, length_reverse. lia.
Qed.

Lemma F_pad_tabulate mode p b c l sh f :
  Forall (fun n => (0 < n)%nat) (b :: c :: l :: sh) →
  0 ≤ p → (mode = mode_reflect → p < Z.of_nat l) →
  F_pad mode p (tabulate (b :: c :: l :: sh) f)
  = Ok (tabulate (b :: c :: (l + 2 * Z.to_nat p)%nat :: sh) (padded mode p l f)).
Proof.
  intros Hpos Hp Hm. unfold F_pad. rewrite tshape_nat_tabulate by done.
  change ((b :: c :: l :: sh) !!! 2%nat) with l.
  change (drop 3 (b :: c :: l :: sh)) with sh.
  replace (_ || _) with false by (destruct mode; [lia | specialize (Hm eq_refl); lia]).
  f_equal. cbn [tabulate rows]. f_equal.
  rewrite <- list_fmap_compose. apply fmap_seq_ext. intros ib _. simpl. f_equal.
  rewrite <- list_fmap_compose. apply fmap_seq_ext. intros ic _. simpl. f_equal.
  apply list_eq. intros i.
  destruct (decide (i < l + 2 * Z.to_nat p)%nat) as [Hi|Hi].
  - rewrite (pad_rows_lookup mode (Z.to_nat p) _
               (fun j => tabulate sh (fun idx => f (ib :: ic :: j :: idx))) l i Hi)
      by (intros Hr; specialize (Hm Hr); lia).
    rewrite lookup_fmap_seq by done. f_equal.
    rewrite Z2Nat.id by done.
    destruct (padded_index mode p l (Z.of_nat i)); done.
  - rewrite !lookup_ge_None_2; [done | |].
    + rewrite length_fmap, length_seq. lia.
    + rewrite pad_rows_length; rewrite length_fmap, length_seq; [lia |].
      intros Hr. specialize (Hm Hr). lia.
Qed.

Lemma add_to_channel_tabulate k v b c sh F :
  add_to_channel k v (tabulate (b :: c :: sh) F)
  = tabulate (b :: c :: sh)
      (fun idx => F idx + match idx with
                          | _ :: k' :: _ => if decide (k' = k) then v else 0
                          | _ => 0
                          end).
Proof.
  unfold add_to_channel. cbn [tabulate rows]. f_equal.
  rewrite <- list_fmap_compose. apply fmap_seq_ext. intros ib _. simpl. f_equal.
  rewrite alter_fmap_seq. apply fmap_seq_ext. intros ic _.
  destruct (decide (ic = k)) as [-> | Hne].
  - rewrite tadd_scalar_tabulate. done.
  - apply tabulate_ext. intros idx _. lia.
Qed.

Lemma add_bias_tabulate self bias bf b co sh F :
  Forall (fun n => (0 < n)%nat) (b :: co :: sh) →
  out_channels self = Z.of_nat co →
  (use_bias self = true → bias = Some (tabulate [co] bf)) →
  add_bias self bias (tabulate (b :: co :: sh) F)
  = Ok (tabulate (b :: co :: sh)
          (fun idx => F idx + if use_bias self then bias_at bf idx else 0)).
Proof.
  intros Hpos Hco Hbias. unfold add_bias.
  destruct (use_bias self); [| f_equal; apply tabulate_ext; intros; lia].
  rewrite (Hbias eq_refl). rewrite tshape_tabulate by done.
  rewrite Hco. unfold range. rewrite Nat2Z.id.
  replace (py_index (Z.of_nat <$> b :: co :: sh) 1) with (Ok (Z.of_nat co))
    by (symmetry; by apply (py_index_nat _ 1%nat)).
  cbn [mbind result_bind].
  assert (∀ m, (m ≤ co)%nat →
    for_each (seq 0 m)
      (fun k res =>
         if Z.of_nat k <? Z.of_nat co
         then match rows (tabulate [co] bf) !! k with
              | Some v => Ok (add_to_channel k (item v) res)
              | None => Raise IndexError
              end
         else Raise IndexError)
      (tabulate (b :: co :: sh) F)
    = Ok (tabulate (b :: co :: sh)
            (fun idx => F idx + match idx with
                                | _ :: k :: _ => if decide (k < m)%nat then bf [k] else 0
                                | _ => 0
                                end))) as Hloop.
  { induction m as [|m IH]; intros Hm.
    - cbn [seq for_each]. f_equal. apply tabulate_ext.
      intros [|? [|? ?]] _; repeat case_decide; lia.
    - rewrite seq_S, for_each_app, IH by lia. cbn [mbind result_bind for_each].
      replace (Z.of_nat (0 + m) <? Z.of_nat co) with true by lia.
      rewrite rows_tabulate, lookup_fmap_seq by lia. simpl item.
      rewrite add_to_channel_tabulate. cbn [mbind result_bind]. f_equal.
      apply tabulate_ext. intros [|ib [|k rest]] _; try lia.
      change (0 + m)%nat with m.
      destruct (decide (k = m)) as [-> | Hne]; repeat case_decide; lia. }
  rewrite Hloop by done. f_equal. apply tabulate_ext.
  intros idx Hidx. unfold bias_at, in_shape in *.
  destruct idx as [|ib [|k rest]]; try done.
  inversion Hidx as [|???? _ Hrest]; subst. inversion Hrest; subst.
  rewrite decide_True by done. done.
Qed.

(** ** Frame indices *)

Lemma ConvNd_raw_frame (k0 L : Z) (i j : nat) :
  Z.of_nat j - (Z.of_nat i - k0 / 2) - (L - (L - k0 + 1)) / 2 - (1 - k0 mod 2)
  = Z.of_nat j - Z.of_nat i.
Proof.
  replace (L - (L - k0 + 1)) with (k0 - 1) by lia.
  Z.div_mod_to_equations. lia.
Qed.

(** The pair [(i, j)] contributes to frame [o] exactly when [j] is the
    input position [stride * o + i]. *)
Lemma ConvNd_target_Some k0 L s0 n (i j o : nat) :
  1 ≤ s0 →
  ConvNd_target k0 L (L - k0 + 1) s0 n i j = Some o
  ↔ Z.of_nat j = s0 * Z.of_nat o + Z.of_nat i ∧ Z.of_nat o < n.
Proof.
  intros Hs. unfold ConvNd_target. rewrite ConvNd_raw_frame.
  pose proof (Z.div_mod (Z.of_nat j - Z.of_nat i) s0 ltac:(lia)) as Hdm.
  pose proof (Z.mod_pos_bound (Z.of_nat j - Z.of_nat i) s0 ltac:(lia)) as Hmod.
  set (q := (Z.of_nat j - Z.of_nat i) / s0) in *.
  set (r := (Z.of_nat j - Z.of_nat i) mod s0) in *.
  destruct (_ || _) eqn:Hc.
  - split; [discriminate |]. intros [Hj Ho]. exfalso.
    assert (q = Z.of_nat o) by nia. lia.
  - split.
    + intros [= <-]. rewrite Z2Nat.id by lia. split; lia.
    + intros [Hj Ho]. f_equal. assert (q = Z.of_nat o) by nia. lia.
Qed.

Lemma ConvNd_target_in_range k0 L s0 n (i j o : nat) :
  ConvNd_target k0 L (L - k0 + 1) s0 (Z.of_nat n) i j = Some o → (o < n)%nat.
Proof.
  unfold ConvNd_target. destruct (_ || _) eqn:Hc; [discriminate |].
  intros [= <-]. lia.
Qed.

Lemma ConvNd_overlap_sum G (k0 s0 n : Z) (L o : nat) idx :
  1 ≤ s0 → 1 ≤ k0 ≤ Z.of_nat L →
  n = (Z.of_nat L - k0) / s0 + 1 →
  Z.of_nat o < n →
  overlap_sum (ConvNd_target k0 (Z.of_nat L) (Z.of_nat L - k0 + 1) s0 n) G (Z.to_nat k0) L o idx
  = conv_frames G (Z.to_nat s0) (Z.to_nat k0) o idx.
Proof.
  intros Hs Hk Hn Ho. unfold overlap_sum, conv_frames.
  apply Zsum_ext. intros i Hi%elem_of_seq.
  pose proof (Z.mul_div_le (Z.of_nat L - k0) s0 ltac:(lia)) as Hle.
  rewrite (Zsum_single _ _ (Z.to_nat s0 * o + i)%nat).
  - rewrite decide_True; [done |]. apply ConvNd_target_Some; lia.
  - apply NoDup_seq.
  - apply elem_of_seq. nia.
  - intros j _ Hne. rewrite decide_False; [done |].
    intros [Hj _]%ConvNd_target_Some; lia.
Qed.

Lemma ConvTransposeNd_target_Some k0 p0 n (i j o : nat) :
  ConvTransposeNd_target k0 p0 n i j = Some o
  ↔ Z.of_nat o = Z.of_nat i + Z.of_nat j - p0 ∧ Z.of_nat o < n.
Proof.
  unfold ConvTransposeNd_target.
  replace (Z.of_nat i + k0 / 2 + Z.of_nat j - k0 / 2 - p0)
    with (Z.of_nat i + Z.of_nat j - p0) by lia.
  destruct (_ || _) eqn:Hc.
  - split; [discriminate |]. lia.
  - split; [intros [= <-]; lia |]. intros [Ho _]. f_equal. lia.
Qed.

Lemma ConvTransposeNd_target_in_range k0 p0 n (i j o : nat) :
  ConvTransposeNd_target k0 p0 (Z.of_nat n) i j = Some o → (o < n)%nat.
Proof. intros [_ H]%ConvTransposeNd_target_Some. lia. Qed.

(** ** The forward pass of [ConvNd] over arbitrary layers *)

Lemma out_sizes_length tr size_i ks ss ps :
  length (out_sizes tr size_i ks ss ps) = length size_i.
Proof. unfold out_sizes. by rewrite length_fmap, length_seq. Qed.

Lemma drop_1_fmap_seq {A : Type} (F : nat → A) (n : nat) :
  drop 1 (F <$> seq 0 (S n)) = (fun x => F (S x)) <$> seq 0 n.
Proof. cbn [seq fmap list_fmap drop]. rewrite <- fmap_S_seq, <- list_fmap_compose. done. Qed.

Lemma out_sizes_cons tr a size_i ks ss ps :
  out_sizes tr (a :: size_i) ks ss ps
  = (if tr then convT_out_len else conv_out_len)
      a (ks !!! 0%nat) (ss !!! 0%nat) (ps !!! 0%nat)
    :: out_sizes tr size_i (drop 1 ks) (drop 1 ss) (drop 1 ps).
Proof.
  unfold out_sizes. cbn [length seq]. rewrite fmap_cons. f_equal.
  rewrite <- fmap_S_seq, <- list_fmap_compose. apply fmap_seq_ext. intros x _.
  unfold compose. by rewrite !lookup_total_drop.
Qed.

Lemma drop_1_insert_0 {A : Type} (x : A) (l : list A) : drop 1 (<[0%nat := x]> l) = drop 1 l.
Proof. by destruct l. Qed.

Lemma lookup_total_insert_0 (x : Z) (l : list Z) :
  (0 < length l)%nat → <[0%nat := x]> l !!! 0%nat = x.
Proof. destruct l; simpl; [lia | done]. Qed.

Lemma torch_zeros_Ok sh :
  Forall (fun n => 0 ≤ n) sh → torch_zeros sh = Ok (tabulate (Z.to_nat <$> sh) (fun _ => 0)).
Proof.
  intros H. unfold torch_zeros, nonneg.
  rewrite (proj2 (forallb_forall _ _)); [done |].
  intros x Hx%list_elem_of_In. rewrite Forall_forall in H. specialize (H x Hx). lia.
Qed.

Lemma py_index_head (l : list Z) : (0 < length l)%nat → py_index l 0 = Ok (l !!! 0%nat).
Proof. intros H. by apply (py_index_total l 0). Qed.

(** The output sizes the two [forward] methods compute, in closed form. *)
Lemma ConvNd_size_o size_i ps ks ss :
  (length size_i ≤ length ps)%nat → (length size_i ≤ length ks)%nat →
  (length size_i ≤ length ss)%nat → Forall (fun s => s ≠ 0) ss →
  comprehension
    (fun x : nat =>
       si ← py_index size_i (Z.of_nat x);
       p ← py_index ps (Z.of_nat x);
       k ← py_index ks (Z.of_nat x);
       s ← py_index ss (Z.of_nat x);
       if s =? 0 then Raise ZeroDivisionError else Ok ((si + 2 * p - k) / s + 1))
    (seq 0 (length size_i))
  = Ok (out_sizes false size_i ks ss ps).
Proof.
  intros Hp Hk Hs Hnz. apply comprehension_fmap. intros x Hx%elem_of_seq.
  rewrite !py_index_total by lia. cbn [mbind result_bind].
  assert (ss !!! x ≠ 0) as Hne.
  { rewrite Forall_forall in Hnz. apply Hnz. apply list_elem_of_lookup_total_2. lia. }
  replace (ss !!! x =? 0) with false by lia. reflexivity.
Qed.

Lemma ConvNd_size_ons size_i ks :
  (length size_i ≤ length ks)%nat →
  comprehension
    (fun x : nat =>
       si ← py_index size_i (Z.of_nat x);
       k ← py_index ks (Z.of_nat x);
       Ok (si - k + 1))
    (seq 0 (length size_i))
  = Ok ((fun x => size_i !!! x - ks !!! x + 1) <$> seq 0 (length size_i)).
Proof.
  intros Hk. apply comprehension_fmap. intros x Hx%elem_of_seq.
  rewrite !py_index_total by lia. reflexivity.
Qed.

Lemma ConvTransposeNd_size_o size_i ps ks ss :
  (length size_i ≤ length ps)%nat → (length size_i ≤ length ks)%nat →
  (length size_i ≤ length ss)%nat →
  comprehension
    (fun x : nat =>
       si ← py_index size_i (Z.of_nat x);
       s ← py_index ss (Z.of_nat x);
       p ← py_index ps (Z.of_nat x);
       k ← py_index ks (Z.of_nat x);
       Ok ((si - 1) * s - 2 * p + (k - 1) + 1))
    (seq 0 (length size_i))
  = Ok (out_sizes true size_i ks ss ps).
Proof.
  intros Hp Hk Hs. apply comprehension_fmap. intros x Hx%elem_of_seq.
  rewrite !py_index_total by lia. reflexivity.
Qed.

Section ConvNd_body.
Variables (self : attrs) (bias : option tensor) (layers : list (tensor → result tensor)).
Variables (b c l0 : nat) (sh_in : list nat) (f : list nat → Z).
Variables (G : nat → nat → list nat → Z) (bf : list nat → Z).

Let mode := padding_mode self.
Let p0 := padding self !!! 0%nat.
Let k0 := kernel_size self !!! 0%nat.
Let s0 := stride self !!! 0%nat.
Let lp := (l0 + 2 * Z.to_nat p0)%nat.
Let inner := out_sizes false (Z.of_nat <$> sh_in) (drop 1 (kernel_size self))
               (drop 1 (stride self)) (drop 1 (padding self)).
Let n := (Z.of_nat lp - k0) / s0 + 1.
Let co := Z.to_nat (out_channels self).
Let xp := tabulate (b :: c :: lp :: sh_in) (padded mode p0 l0 f).

Hypothesis top_level : rank self = 0.
Hypothesis input_extents : Forall (fun m => (0 < m)%nat) (b :: c :: l0 :: sh_in).
Hypothesis kernel_length : length (kernel_size self) = S (length sh_in).
Hypothesis stride_length : length (stride self) = S (length sh_in).
Hypothesis padding_length : length (padding self) = S (length sh_in).
Hypothesis padding_nonneg : 0 ≤ p0.
Hypothesis reflect_fits : mode = mode_reflect → p0 < Z.of_nat l0.
Hypothesis stride_pos : 1 ≤ s0.
Hypothesis strides_nonzero : Forall (fun s => s ≠ 0) (stride self).
Hypothesis kernel_fits : 1 ≤ k0 ≤ Z.of_nat lp.
Hypothesis channels_pos : 1 ≤ out_channels self.
Hypothesis inner_pos : Forall (fun o => 1 ≤ o) inner.
Hypothesis layer_output : ∀ i j,
  (i < Z.to_nat k0)%nat → (j < lp)%nat →
  call layers i (slice2 j xp) = Ok (tabulate (b :: co :: (Z.to_nat <$> inner)) (G i j)).
Hypothesis bias_shape : use_bias self = true → bias = Some (tabulate [co] bf).

Lemma ConvNd_forward_body_frames :
  ConvNd_forward_body self bias layers (tabulate (b :: c :: l0 :: sh_in) f)
  = Ok (tabulate (b :: co :: Z.to_nat n :: (Z.to_nat <$> inner))
          (fun idx => from_axis2 (conv_frames G (Z.to_nat s0) (Z.to_nat k0)) idx
                      + if use_bias self then bias_at bf idx else 0)).
Proof.
  unfold ConvNd_forward_body. rewrite top_level. cbn [Z.eqb].
  rewrite tshape_tabulate by done.
  replace (py_index (Z.of_nat <$> b :: c :: l0 :: sh_in) 2) with (Ok (Z.of_nat l0))
    by (symmetry; by apply (py_index_nat _ 2%nat)).
  cbn [mbind result_bind].
  rewrite (py_index_head (padding self)) by lia. cbn [mbind result_bind]. fold p0 mode.
  rewrite F_pad_tabulate by done. cbn [mbind result_bind]. fold lp xp.
  assert (Forall (fun m => (0 < m)%nat) (b :: c :: lp :: sh_in)) as Hpos.
  { inversion input_extents as [|?? Hb H1]; subst. inversion H1 as [|?? Hc H2]; subst.
    inversion H2 as [|?? Hl H3]; subst. repeat constructor; try done. lia. }
  assert (tshape xp = Z.of_nat <$> b :: c :: lp :: sh_in) as Hshape
    by (unfold xp; by rewrite tshape_tabulate).
  rewrite !Hshape.
  change (drop 2 (Z.of_nat <$> b :: c :: lp :: sh_in))
    with (Z.of_nat lp :: (Z.of_nat <$> sh_in)).
  change ((Z.of_nat <$> b :: c :: lp :: sh_in) !!! 0%nat) with (Z.of_nat b).
  assert (length (Z.of_nat lp :: (Z.of_nat <$> sh_in)) = S (length sh_in)) as Hlen_i
    by (cbn [length]; by rewrite length_fmap).
  replace (length (Z.of_nat <$> b :: c :: lp :: sh_in) <? 2)%nat with false
    by (rewrite length_fmap; cbn [length]; lia).
  cbn [mbind result_bind].
  rewrite ConvNd_size_o by (rewrite ?length_insert; (lia || done)).
  cbn [mbind result_bind].
  rewrite ConvNd_size_ons by lia. cbn [mbind result_bind].
  rewrite out_sizes_cons, drop_1_insert_0.
  rewrite lookup_total_insert_0 by lia. fold inner k0 s0.
  replace (conv_out_len (Z.of_nat lp) k0 s0 0) with n
    by (unfold n, conv_out_len; f_equal; f_equal; lia).
  rewrite (py_index_0 n inner). cbn [mbind result_bind]. cbn [drop].
  assert (1 ≤ n) as Hn.
  { unfold n. pose proof (Z.div_pos (Z.of_nat lp - k0) s0 ltac:(lia) ltac:(lia)). lia. }
  rewrite torch_zeros_Ok.
  2:{ constructor; [lia |]. constructor; [lia |].
      eapply Forall_impl; [exact inner_pos |]. simpl. lia. }
  cbn [mbind result_bind].
  rewrite fmap_cons, fmap_cons, Nat2Z.id. fold co.
  rewrite (py_index_head (kernel_size self)) by lia. cbn [mbind result_bind]. fold k0.
  rewrite (py_index_0 (Z.of_nat lp)). cbn [mbind result_bind].
  rewrite Hlen_i. cbn [seq]. rewrite fmap_cons.
  rewrite py_index_0. cbn [mbind result_bind].
  rewrite (py_index_head (stride self)) by lia. cbn [mbind result_bind]. fold s0 k0.
  change ((Z.of_nat lp :: (Z.of_nat <$> sh_in)) !!! 0%nat) with (Z.of_nat lp).
  change (drop 0 inner) with inner. unfold py_repeat.
  destruct (overlap_add_frames layers xp
              (ConvNd_target k0 (Z.of_nat lp) (Z.of_nat lp - k0 + 1) s0
                 (Z.of_nat (Z.to_nat n)))
              G (b :: co :: (Z.to_nat <$> inner)) (Z.to_nat n) (Z.to_nat k0) lp)
    as [marks' Hrun].
  { intros i j o. apply ConvNd_target_in_range. }
  { intros i j o Hi Hj _. by apply layer_output. }
  rewrite !Z2Nat.id in Hrun by lia. rewrite Hrun. cbn [mbind result_bind].
  assert (Forall (fun m => (0 < m)%nat) (b :: co :: Z.to_nat n :: (Z.to_nat <$> inner)))
    as Hpos_o.
  { inversion Hpos; subst. constructor; [done |]. constructor; [lia |].
    constructor; [lia |]. apply Forall_fmap. eapply Forall_impl; [exact inner_pos |].
    simpl. lia. }
  rewrite torch_stack2_tabulate by (inversion Hpos; subst; (done || lia)).
  cbn [mbind result_bind].
  rewrite (add_bias_tabulate self bias bf) by (done || lia).
  f_equal. apply tabulate_ext. intros idx Hidx. f_equal.
  unfold in_shape in Hidx.
  destruct idx as [|ib [|ic [|o rest]]]; try done.
  inversion Hidx as [|???? _ H1]; subst. inversion H1 as [|???? _ H2]; subst.
  inversion H2 as [|???? Ho _]; subst.
  unfold from_axis2. apply ConvNd_overlap_sum; try done. lia.
Qed.
End ConvNd_body.

(** ** The forward pass of [ConvTransposeNd] over arbitrary layers *)

Lemma ConvTransposeNd_overlap_sum G (k0 p0 n : Z) (k l o : nat) idx :
  Z.of_nat o < n →
  overlap_sum (ConvTransposeNd_target k0 p0 n) G k l o idx
  = transpose_frames G k0 p0 k l o idx.
Proof.
  intros Ho. unfold overlap_sum, transpose_frames.
  apply Zsum_ext. intros i _. apply Zsum_ext. intros j _.
  destruct (decide (ConvTransposeNd_target k0 p0 n i j = Some o)) as [Ht|Ht].
  - apply ConvTransposeNd_target_Some in Ht as [Ht _].
    rewrite decide_True by lia. done.
  - rewrite decide_False; [done |]. intros Heq. apply Ht.
    apply ConvTransposeNd_target_Some. lia.
Qed.

Section ConvTransposeNd_body.
Variables (self : attrs) (bias : option tensor) (layers : list (tensor → result tensor)).
Variables (b c l0 : nat) (sh_in : list nat) (f : list nat → Z).
Variables (G : nat → nat → list nat → Z) (bf : list nat → Z).

Let p0 := padding self !!! 0%nat.
Let k0 := kernel_size self !!! 0%nat.
Let s0 := stride self !!! 0%nat.
Let inner := out_sizes true (Z.of_nat <$> sh_in) (drop 1 (kernel_size self))
               (drop 1 (stride self)) (drop 1 (padding self)).
Let n := convT_out_len (Z.of_nat l0) k0 s0 p0.
Let co := Z.to_nat (out_channels self).
Let x := tabulate (b :: c :: l0 :: sh_in) f.

Hypothesis input_extents : Forall (fun m => (0 < m)%nat) (b :: c :: l0 :: sh_in).
Hypothesis kernel_length : length (kernel_size self) = S (length sh_in).
Hypothesis stride_length : length (stride self) = S (length sh_in).
Hypothesis padding_length : length (padding self) = S (length sh_in).
Hypothesis kernel_pos : 1 ≤ k0.
Hypothesis frames_pos : 1 ≤ n.
Hypothesis channels_pos : 1 ≤ out_channels self.
Hypothesis inner_pos : Forall (fun o => 1 ≤ o) inner.
Hypothesis layer_output : ∀ i j,
  (i < Z.to_nat k0)%nat → (j < l0)%nat →
  call layers i (slice2 j x) = Ok (tabulate (b :: co :: (Z.to_nat <$> inner)) (G i j)).
Hypothesis bias_shape : use_bias self = true → bias = Some (tabulate [co] bf).

Lemma ConvTransposeNd_forward_body_frames :
  ConvTransposeNd_forward_body self bias layers x
  = Ok (tabulate (b :: co :: Z.to_nat n :: (Z.to_nat <$> inner))
          (fun idx => from_axis2 (transpose_frames G k0 p0 (Z.to_nat k0) l0) idx
                      + if use_bias self then bias_at bf idx else 0)).
Proof.
  unfold ConvTransposeNd_forward_body.
  assert (tshape x = Z.of_nat <$> b :: c :: l0 :: sh_in) as Hshape
    by (unfold x; by rewrite tshape_tabulate).
  rewrite !Hshape.
  change (drop 2 (Z.of_nat <$> b :: c :: l0 :: sh_in))
    with (Z.of_nat l0 :: (Z.of_nat <$> sh_in)).
  change ((Z.of_nat <$> b :: c :: l0 :: sh_in) !!! 0%nat) with (Z.of_nat b).
  assert (length (Z.of_nat l0 :: (Z.of_nat <$> sh_in)) = S (length sh_in)) as Hlen_i
    by (cbn [length]; by rewrite length_fmap).
  replace (length (Z.of_nat <$> b :: c :: l0 :: sh_in) <? 2)%nat with false
    by (rewrite length_fmap; cbn [length]; lia).
  cbn [mbind result_bind].
  rewrite ConvTransposeNd_size_o by lia. cbn [mbind result_bind].
  rewrite out_sizes_cons. fold inner k0 s0 p0 n.
  rewrite (py_index_0 n inner). cbn [mbind result_bind]. cbn [drop].
  rewrite torch_zeros_Ok.
  2:{ constructor; [lia |]. constructor; [lia |].
      eapply Forall_impl; [exact inner_pos |]. simpl. lia. }
  cbn [mbind result_bind].
  rewrite fmap_cons, fmap_cons, Nat2Z.id. fold co.
  rewrite (py_index_head (kernel_size self)) by lia. cbn [mbind result_bind]. fold k0.
  rewrite (py_index_0 (Z.of_nat l0)). cbn [mbind result_bind].
  rewrite (py_index_head (padding self)) by lia. cbn [mbind result_bind]. fold p0.
  change (drop 0 inner) with inner. unfold py_repeat.
  destruct (overlap_add_frames layers x
              (ConvTransposeNd_target k0 p0 (Z.of_nat (Z.to_nat n)))
              G (b :: co :: (Z.to_nat <$> inner)) (Z.to_nat n) (Z.to_nat k0) l0)
    as [marks' Hrun].
  { intros i j o. apply ConvTransposeNd_target_in_range. }
  { intros i j o Hi Hj _. by apply layer_output. }
  rewrite !Z2Nat.id in Hrun by lia. rewrite Hrun. cbn [mbind result_bind].
  assert (Forall (fun m => (0 < m)%nat) (b :: co :: Z.to_nat n :: (Z.to_nat <$> inner)))
    as Hpos_o.
  { inversion input_extents; subst. constructor; [done |]. constructor; [lia |].
    constructor; [lia |]. apply Forall_fmap. eapply Forall_impl; [exact inner_pos |].
    simpl. lia. }
  rewrite torch_stack2_tabulate by (inversion input_extents; subst; (done || lia)).
  cbn [mbind result_bind].
  rewrite (add_bias_tabulate self bias bf) by (done || lia).
  f_equal. apply tabulate_ext. intros idx Hidx. f_equal.
  unfold in_shape in Hidx.
  destruct idx as [|ib [|ic [|o rest]]]; try done.
  inversion Hidx as [|???? _ H1]; subst. inversion H1 as [|???? _ H2]; subst.
  inversion H2 as [|???? Ho _]; subst.
  unfold from_axis2. apply ConvTransposeNd_overlap_sum. lia.
Qed.
End ConvTransposeNd_body.

(** ** Operators over base layers *)

Ltac split_andb H :=
  repeat match type of H with
         | (_ && _) = true =>
             let H1 := fresh "Hacc" in
             apply andb_true_iff in H as [H H1]
         end.

Lemma call_base_layers self ws i y :
  (i < length ws)%nat →
  call (forward <$> base_layers self ws) i y = base_forward (layer_of self (ws !!! i)) y.
Proof.
  intros Hi. unfold call, base_layers.
  rewrite !list_lookup_fmap. rewrite (list_lookup_lookup_total_lt ws i Hi). done.
Qed.

Lemma axis_ok_out_pos tr mode l k s p :
  axis_ok tr mode l (k, s, p) = true →
  1 ≤ (if tr then convT_out_len else conv_out_len) l k s p.
Proof.
  unfold axis_ok. intros H. destruct tr.
  - lia.
  - unfold conv_out_len.
    assert (0 ≤ (l + 2 * p - k) / s) by (apply Z.div_pos; lia). lia.
Qed.

Section nd_accepts_facts.
Variables (cls : nd_class) (self : attrs) (b c l0 : nat) (sh_in : list nat).
Let tr := match cls with ConvNd => false | ConvTransposeNd => true end.
Hypothesis accepted : nd_accepts cls self (Z.of_nat <$> b :: c :: l0 :: sh_in) = true.

Lemma accepted_lengths :
  length (kernel_size self) = S (length sh_in) ∧
  length (stride self) = S (length sh_in) ∧
  length (padding self) = S (length sh_in) ∧
  spatial_dims (conv_f self) = length sh_in ∧
  is_transposed (conv_f self) = tr.
Proof.
  pose proof accepted as H. unfold nd_accepts in H. cbv zeta in H. split_andb H.
  rewrite length_fmap in H. cbn [length] in H.
  apply bool_decide_eq_true in Hacc8. repeat split; (lia || done).
Qed.

Lemma accepted_channels :
  (0 < b)%nat ∧ (0 < c)%nat ∧ Z.of_nat c = in_channels self ∧ 1 ≤ groups self ∧
  in_channels self mod groups self = 0 ∧ out_channels self mod groups self = 0 ∧
  1 ≤ out_channels self ∧ (cls = ConvNd → rank self = 0).
Proof.
  pose proof accepted as H. unfold nd_accepts in H. cbv zeta in H. split_andb H.
  change ((Z.of_nat <$> b :: c :: l0 :: sh_in) !!! 0%nat) with (Z.of_nat b) in *.
  change ((Z.of_nat <$> b :: c :: l0 :: sh_in) !!! 1%nat) with (Z.of_nat c) in *.
  repeat split; try lia. intros ->. simpl in Hacc. lia.
Qed.

Lemma accepted_axis x :
  (x < S (length sh_in))%nat →
  axis_ok tr (padding_mode self) ((Z.of_nat <$> l0 :: sh_in) !!! x)
    (kernel_size self !!! x, stride self !!! x, padding self !!! x) = true.
Proof.
  intros Hx. pose proof accepted as H. unfold nd_accepts in H. cbv zeta in H. split_andb H.
  rewrite forallb_forall in Hacc0. apply (Hacc0 x).
  apply in_seq. destruct accepted_lengths as (-> & _). lia.
Qed.

Lemma accepted_extents : Forall (fun m => (0 < m)%nat) (b :: c :: l0 :: sh_in).
Proof.
  destruct accepted_channels as (Hb & Hc & _).
  constructor; [done |]. constructor; [done |].
  apply Forall_lookup. intros x m Hm.
  pose proof (lookup_lt_Some _ _ _ Hm) as Hx. cbn [length] in Hx.
  pose proof (accepted_axis x Hx) as Hax.
  rewrite (list_lookup_total_correct (Z.of_nat <$> l0 :: sh_in) x (Z.of_nat m)) in Hax
    by (by rewrite list_lookup_fmap, Hm).
  unfold axis_ok in Hax. lia.
Qed.

Lemma accepted_inner_pos :
  Forall (fun o => 1 ≤ o)
    (out_sizes tr (Z.of_nat <$> sh_in) (drop 1 (kernel_size self))
       (drop 1 (stride self)) (drop 1 (padding self))).
Proof.
  unfold out_sizes. apply Forall_fmap, Forall_forall.
  intros x Hx%elem_of_seq. rewrite length_fmap in Hx. simpl.
  rewrite !lookup_total_drop.
  apply (axis_ok_out_pos tr (padding_mode self)).
  pose proof (accepted_axis (S x) ltac:(lia)) as Hax. exact Hax.
Qed.

Lemma accepted_layer w :
  base_accepts (layer_of self w) (Z.of_nat <$> b :: c :: sh_in) = true.
Proof.
  destruct accepted_lengths as (Hk & Hs & Hp & Hd & Ht).
  destruct accepted_channels as (Hb & Hc & Hcin & Hg & Hig & Hog & Hco & _).
  unfold base_accepts. cbn [layer_of prim b_kernel_size b_stride b_padding
    b_in_channels b_out_channels b_groups b_padding_mode].
  rewrite length_fmap, !length_drop. cbn [length].
  change ((Z.of_nat <$> b :: c :: sh_in) !!! 0%nat) with (Z.of_nat b).
  change ((Z.of_nat <$> b :: c :: sh_in) !!! 1%nat) with (Z.of_nat c).
  repeat (apply andb_true_iff; split); try lia.
  apply forallb_forall. intros x Hx%in_seq. rewrite !lookup_total_drop.
  rewrite Ht. apply (accepted_axis (S x)). lia.
Qed.

Lemma layer_forward w g :
  base_forward (layer_of self w) (tabulate (b :: c :: sh_in) g)
  = Ok (tabulate (b :: Z.to_nat (out_channels self)
                    :: (Z.to_nat <$> out_sizes tr (Z.of_nat <$> sh_in)
                                       (drop 1 (kernel_size self))
                                       (drop 1 (stride self))
                                       (drop 1 (padding self))))
          (base_elem (layer_of self w) (tabulate (b :: c :: sh_in) g))).
Proof.
  destruct accepted_lengths as (_ & _ & _ & _ & Ht).
  pose proof accepted_extents as Hpos.
  unfold base_forward. rewrite tshape_tabulate.
  2:{ inversion Hpos as [|?? ? H1]; subst. inversion H1 as [|?? ? H2]; subst.
      inversion H2; subst. by repeat constructor. }
  rewrite accepted_layer. f_equal. f_equal.
  unfold base_out_shape. cbn [layer_of prim b_kernel_size b_stride b_padding b_out_channels].
  rewrite Ht.
  change ((Z.of_nat <$> b :: c :: sh_in) !!! 0%nat) with (Z.of_nat b).
  change (drop 2 (Z.of_nat <$> b :: c :: sh_in)) with (Z.of_nat <$> sh_in).
  rewrite !fmap_cons, Nat2Z.id. done.
Qed.
End nd_accepts_facts.

(** ** Closed forms of the two forward passes *)

Lemma accepted_shape cls self sh :
  nd_accepts cls self (Z.of_nat <$> sh) = true →
  ∃ b c l0 sh_in, sh = b :: c :: l0 :: sh_in.
Proof.
  intros H. unfold nd_accepts in H. cbv zeta in H. split_andb H.
  rewrite length_fmap in H.
  destruct sh as [|b [|c [|l0 sh_in]]]; cbn [length] in H; try lia; eauto.
Qed.

Lemma conv_out_len_padded (l0 : nat) k0 s0 p0 :
  0 ≤ p0 →
  (Z.of_nat (l0 + 2 * Z.to_nat p0) - k0) / s0 + 1 = conv_out_len (Z.of_nat l0) k0 s0 p0.
Proof. intros Hp. unfold conv_out_len. do 2 f_equal. lia. Qed.

(** On the inputs it accepts, a [ConvNd] operator over base layers
    returns the overlap-add of its layers' outputs on the slices of the
    padded input, plus its bias. *)
Lemma ConvNd_forward_closed self bias ws sh f bf :
  nd_accepts ConvNd self (Z.of_nat <$> sh) = true →
  length ws = Z.to_nat (kernel_size self !!! 0%nat) →
  (use_bias self = true → bias = Some (tabulate [Z.to_nat (out_channels self)] bf)) →
  forward (Nd ConvNd self bias (base_layers self ws)) (tabulate sh f)
  = Ok (ConvNd_output self ws bf sh f).
Proof.
  intros Hacc Hws Hbias.
  destruct (accepted_shape _ _ _ Hacc) as (b & c & l0 & sh_in & ->).
  destruct (accepted_lengths _ _ _ _ _ _ Hacc) as (Hk & Hs & Hp & Hd & Ht).
  destruct (accepted_channels _ _ _ _ _ _ Hacc) as (Hb & Hc & Hcin & Hg & Hig & Hog & Hco & Hr).
  pose proof (accepted_axis _ _ _ _ _ _ Hacc 0 ltac:(lia)) as Hax0.
  change ((Z.of_nat <$> l0 :: sh_in) !!! 0%nat) with (Z.of_nat l0) in Hax0.
  unfold axis_ok in Hax0.
  cbn [forward].
  rewrite (ConvNd_forward_body_frames self bias _ b c l0 sh_in f
             (fun i j => base_elem (layer_of self (ws !!! i))
                           (slice2 j (padded_input self (b :: c :: l0 :: sh_in) f))) bf).
  - unfold ConvNd_output. f_equal.
    unfold nd_out_shape.
    change (drop 2 (Z.of_nat <$> b :: c :: l0 :: sh_in)) with (Z.of_nat l0 :: (Z.of_nat <$> sh_in)).
    change ((Z.of_nat <$> b :: c :: l0 :: sh_in) !!! 0%nat) with (Z.of_nat b).
    rewrite out_sizes_cons, !fmap_cons, Nat2Z.id.
    rewrite conv_out_len_padded by lia. done.
  - by apply Hr.
  - by apply (accepted_extents ConvNd self).
  - done.
  - done.
  - done.
  - lia.
  - intros Hm. destruct (padding_mode self); [done | lia].
  - lia.
  - apply Forall_lookup. intros x s Hx.
    pose proof (lookup_lt_Some _ _ _ Hx) as Hlt.
    pose proof (accepted_axis _ _ _ _ _ _ Hacc x ltac:(lia)) as Hax.
    rewrite (list_lookup_total_correct _ _ _ Hx) in Hax. unfold axis_ok in Hax. lia.
  - lia.
  - lia.
  - by apply (accepted_inner_pos ConvNd self b c l0).
  - intros i j Hi Hj. rewrite call_base_layers by lia.
    unfold padded_input.
    change ((b :: c :: l0 :: sh_in) !!! 2%nat) with l0.
    change (<[2%nat := (l0 + 2 * Z.to_nat (padding self !!! 0%nat))%nat]> (b :: c :: l0 :: sh_in))
      with (b :: c :: (l0 + 2 * Z.to_nat (padding self !!! 0%nat))%nat :: sh_in).
    rewrite slice2_tabulate by done.
    apply (layer_forward ConvNd self b c l0 sh_in Hacc).
  - done.
Qed.

(** On the inputs it accepts, a [ConvTransposeNd] operator over base
    layers returns the overlap-add of its layers' outputs on the slices
    of its input, plus its bias. *)
Lemma ConvTransposeNd_forward_closed self bias ws sh f bf :
  nd_accepts ConvTransposeNd self (Z.of_nat <$> sh) = true →
  length ws = Z.to_nat (kernel_size self !!! 0%nat) →
  (use_bias self = true → bias = Some (tabulate [Z.to_nat (out_channels self)] bf)) →
  forward (Nd ConvTransposeNd self bias (base_layers self ws)) (tabulate sh f)
  = Ok (ConvTransposeNd_output self ws bf sh f).
Proof.
  intros Hacc Hws Hbias.
  destruct (accepted_shape _ _ _ Hacc) as (b & c & l0 & sh_in & ->).
  destruct (accepted_lengths _ _ _ _ _ _ Hacc) as (Hk & Hs & Hp & Hd & Ht).
  destruct (accepted_channels _ _ _ _ _ _ Hacc) as (Hb & Hc & Hcin & Hg & Hig & Hog & Hco & Hr).
  pose proof (accepted_axis _ _ _ _ _ _ Hacc 0 ltac:(lia)) as Hax0.
  change ((Z.of_nat <$> l0 :: sh_in) !!! 0%nat) with (Z.of_nat l0) in Hax0.
  unfold axis_ok in Hax0.
  cbn [forward].
  rewrite (ConvTransposeNd_forward_body_frames self bias _ b c l0 sh_in f
             (fun i j => base_elem (layer_of self (ws !!! i))
                           (slice2 j (tabulate (b :: c :: l0 :: sh_in) f))) bf).
  - unfold ConvTransposeNd_output. f_equal.
    unfold nd_out_shape.
    change (drop 2 (Z.of_nat <$> b :: c :: l0 :: sh_in)) with (Z.of_nat l0 :: (Z.of_nat <$> sh_in)).
    change ((Z.of_nat <$> b :: c :: l0 :: sh_in) !!! 0%nat) with (Z.of_nat b).
    rewrite out_sizes_cons, !fmap_cons, Nat2Z.id. done.
  - by apply (accepted_extents ConvTransposeNd self).
  - done.
  - done.
  - done.
  - lia.
  - lia.
  - lia.
  - by apply (accepted_inner_pos ConvTransposeNd self b c l0).
  - intros i j Hi Hj. rewrite call_base_layers by lia.
    rewrite slice2_tabulate by done.
    apply (layer_forward ConvTransposeNd self b c l0 sh_in Hacc).
  - done.
Qed.

(** ** The decomposition against the direct primitive *)

Lemma axes_cons ks ss ps :
  (0 < length ks)%nat → (0 < length ss)%nat → (0 < length ps)%nat →
  axes ks ss ps
  = (ks !!! 0%nat, ss !!! 0%nat, ps !!! 0%nat) :: axes (drop 1 ks) (drop 1 ss) (drop 1 ps).
Proof.
  destruct ks as [|k ks], ss as [|s ss], ps as [|p ps]; cbn [length]; try lia. done.
Qed.

Lemma row_zeros j sh : ∃ sh', row j (tabulate sh (fun _ => 0)) = tabulate sh' (fun _ => 0).
Proof.
  destruct sh as [|n sh].
  - exists []. done.
  - destruct (decide (j < n)%nat) as [Hj|Hj].
    + exists sh. by rewrite row_tabulate.
    + exists []. unfold row. rewrite rows_tabulate.
      rewrite list_lookup_total_alt, lookup_ge_None_2; [done |].
      rewrite length_fmap, length_seq. lia.
Qed.

Lemma item_zeros sh : item (tabulate sh (fun _ => 0)) = 0.
Proof. by destruct sh. Qed.

(** A correlation with a zero channel is zero. *)
Lemma xcorr_at_zero_input mode cfg w sh os :
  xcorr_at mode cfg w (tabulate sh (fun _ => 0)) os = 0.
Proof.
  revert w sh os. induction cfg as [|[[k s] p] cfg IH]; intros w sh os.
  - cbn [xcorr_at]. rewrite item_zeros. lia.
  - destruct os as [|o os]; cbn [xcorr_at]; [rewrite item_zeros; lia |].
    apply Zsum_zero. intros i _.
    destruct (padded_index _ _ _ _) as [j|]; [| done].
    destruct (row_zeros j sh) as [sh' ->]. apply IH.
Qed.

Lemma zero_tensor_row t i : zero_tensor t → zero_tensor (row i t).
Proof. intros H idx. apply (H (i :: idx)). Qed.

Lemma zero_tensor_item t : zero_tensor t → item t = 0.
Proof. intros H. apply (H []). Qed.

Lemma zero_tensor_zeros sh : zero_tensor (tabulate sh (fun _ => 0)).
Proof.
  intros idx. revert sh. induction idx as [|i idx IH]; intros sh.
  - apply item_zeros.
  - cbn [tget]. destruct (row_zeros i sh) as [sh' ->]. apply IH.
Qed.

(** A correlation with a zero kernel is zero. *)
Lemma xcorr_at_zero_weight mode cfg w x os :
  zero_tensor w → xcorr_at mode cfg w x os = 0.
Proof.
  revert w x os. induction cfg as [|[[k s] p] cfg IH]; intros w x os Hw.
  - cbn [xcorr_at]. rewrite zero_tensor_item by done. lia.
  - destruct os as [|o os]; cbn [xcorr_at]; [rewrite zero_tensor_item by done; lia |].
    apply Zsum_zero. intros i _.
    destruct (padded_index _ _ _ _) as [j|]; [| done].
    apply IH. by apply zero_tensor_row.
Qed.

Lemma tcorr_at_zero_weight cfg w x os :
  zero_tensor w → tcorr_at cfg w x os = 0.
Proof.
  revert w x os. induction cfg as [|[[k s] p] cfg IH]; intros w x os Hw.
  - cbn [tcorr_at]. rewrite zero_tensor_item by done. lia.
  - destruct os as [|o os]; cbn [tcorr_at]; [rewrite zero_tensor_item by done; lia |].
    apply Zsum_zero. intros i _. cbv zeta.
    destruct (_ && _); [| done].
    apply IH. by apply zero_tensor_row.
Qed.

Lemma row_stack2 b c (frames : list tensor) ib ic i :
  (ib < b)%nat → (ic < c)%nat → (i < length frames)%nat →
  row i (row ic (row ib (stack2 b c frames))) = row ic (row ib (frames !!! i)).
Proof.
  intros Hb Hc Hi. unfold stack2, row at 1 2 3. cbn [rows].
  rewrite lookup_total_fmap_seq by done. cbn [rows].
  rewrite lookup_total_fmap_seq by done. cbn [rows].
  apply list_lookup_total_correct. rewrite list_lookup_fmap.
  by rewrite (list_lookup_lookup_total_lt frames i Hi).
Qed.

Lemma padded_index_lt mode p (l : nat) i j :
  0 ≤ p → (mode = mode_reflect → p < Z.of_nat l) →
  0 ≤ i < Z.of_nat l + 2 * p →
  padded_index mode p l i = Some j → (j < l)%nat.
Proof.
  intros Hp Hm Hi. unfold padded_index. destruct mode.
  - destruct (_ && _) eqn:Hc; [| discriminate]. intros [= <-]. lia.
  - specialize (Hm eq_refl). repeat case_match; intros [= <-]; lia.
Qed.

(** The input channel read for output channel [co] at offset [ci] within
    its group is a channel of the input. *)
Lemma group_channel_lt (cin cout g : Z) (co ci : nat) :
  1 ≤ g → cin mod g = 0 → cout mod g = 0 → 1 ≤ cout →
  Z.of_nat co < cout → Z.of_nat ci < cin / g →
  0 ≤ Z.of_nat co / (cout / g) * (cin / g) + Z.of_nat ci < cin.
Proof.
  intros Hg Hi Ho Hc Hco Hci.
  pose proof (Z.div_exact cin g ltac:(lia)) as [_ Hcin]. specialize (Hcin Hi).
  pose proof (Z.div_exact cout g ltac:(lia)) as [_ Hcout]. specialize (Hcout Ho).
  set (cg := cin / g) in *. set (og := cout / g) in *.
  assert (1 ≤ og) by nia.
  assert (0 ≤ Z.of_nat co / og) by (apply Z.div_pos; lia).
  assert (Z.of_nat co / og < g).
  { apply Z.div_lt_upper_bound; [lia |]. nia. }
  nia.
Qed.

Lemma layer_weights_base_layers self ws : layer_weights (base_layers self ws) = ws.
Proof.
  unfold layer_weights, base_layers. rewrite <- list_fmap_compose.
  rewrite <- (list_fmap_id ws) at 2. by apply list_fmap_ext.
Qed.

Section direct_elem.
Variables (self : attrs) (bias : option tensor) (ws : list tensor) (d : base_prim).
Variables (b c l0 : nat) (sh_in : list nat) (f : list nat → Z) (bf : list nat → Z).

Let sh := b :: c :: l0 :: sh_in.
Let k0 := kernel_size self !!! 0%nat.
Let s0 := stride self !!! 0%nat.
Let p0 := padding self !!! 0%nat.
Let cout := Z.to_nat (out_channels self).

Hypothesis accepted : nd_accepts ConvNd self (Z.of_nat <$> sh) = true.
Hypothesis one_weight_per_offset : length ws = Z.to_nat k0.
Hypothesis bias_shape : use_bias self = true → bias = Some (tabulate [cout] bf).
Hypothesis direct_is_convolution : is_transposed d = false.

Lemma direct_conv_elem ib co o os :
  (ib < b)%nat → (co < cout)%nat →
  Z.of_nat o < conv_out_len (Z.of_nat l0) k0 s0 p0 →
  base_elem (direct_conv d self bias (base_layers self ws)) (tabulate sh f)
    (ib :: co :: o :: os)
  = conv_frames
      (fun i j => base_elem (layer_of self (ws !!! i)) (slice2 j (padded_input self sh f)))
      (Z.to_nat s0) (Z.to_nat k0) o (ib :: co :: os)
    + (if use_bias self then bf [co] else 0).
Proof.
  intros Hib Hco Ho.
  destruct (accepted_lengths _ _ _ _ _ _ accepted) as (Hk & Hs & Hp & Hd & Ht).
  destruct (accepted_channels _ _ _ _ _ _ accepted)
    as (Hb & Hc & Hcin & Hg & Hig & Hog & Hcout & Hr).
  pose proof (accepted_axis _ _ _ _ _ _ accepted 0 ltac:(lia)) as Hax0.
  change ((Z.of_nat <$> l0 :: sh_in) !!! 0%nat) with (Z.of_nat l0) in Hax0.
  unfold axis_ok in Hax0. fold k0 s0 p0 in Hax0.
  unfold base_elem at 1.
  cbn [direct_conv prim b_kernel_size b_stride b_padding b_in_channels b_out_channels
         b_groups b_padding_mode weight b_bias].
  cbv zeta. rewrite direct_is_convolution, layer_weights_base_layers.
  rewrite axes_cons by lia. fold k0 s0 p0.
  f_equal.
  2:{ destruct (use_bias self); [| done]. rewrite (bias_shape eq_refl).
      apply (tget_tabulate [cout] bf [co]). by repeat constructor. }
  unfold conv_frames.
  rewrite (Zsum_ext _
    (fun i => Zsum ((fun ci : nat =>
       xcorr_at (padding_mode self)
         (axes (drop 1 (kernel_size self)) (drop 1 (stride self)) (drop 1 (padding self)))
         (row ci (row co (ws !!! i)))
         (row (Z.to_nat (Z.of_nat co / (out_channels self / groups self)
                         * (in_channels self / groups self) + Z.of_nat ci))
            (row ib (slice2 (Z.to_nat s0 * o + i)%nat (padded_input self sh f)))) os)
       <$> range (in_channels self / groups self))) (seq 0 (Z.to_nat k0))).
  2:{ intros i _. unfold base_elem.
      cbn [layer_of prim b_kernel_size b_stride b_padding b_in_channels b_out_channels
             b_groups b_padding_mode weight b_bias].
      cbv zeta. rewrite Ht. lia. }
  rewrite Zsum_exchange. unfold range.
  apply Zsum_ext. intros ci Hci%elem_of_seq.
  pose proof (group_channel_lt (in_channels self) (out_channels self) (groups self) co ci
                Hg Hig Hog Hcout ltac:(lia) ltac:(lia)) as Hch.
  set (cin := Z.to_nat (Z.of_nat co / (out_channels self / groups self)
                        * (in_channels self / groups self) + Z.of_nat ci)) in *.
  assert (cin < c)%nat as Hcin_lt by lia.
  cbn [xcorr_at]. unfold range. apply Zsum_ext. intros i Hi%elem_of_seq.
  unfold sh. rewrite (row_tabulate b) by done. rewrite (row_tabulate c) by done.
  rewrite rows_tabulate, length_fmap, length_seq.
  rewrite row_stack2 by lia.
  unfold padded_input.
  change ((b :: c :: l0 :: sh_in) !!! 2%nat) with l0.
  change (<[2%nat := (l0 + 2 * Z.to_nat (padding self !!! 0%nat))%nat]> (b :: c :: l0 :: sh_in))
    with (b :: c :: (l0 + 2 * Z.to_nat (padding self !!! 0%nat))%nat :: sh_in).
  fold p0.
  pose proof (Z.mul_div_le (Z.of_nat l0 + 2 * p0 - k0) s0 ltac:(lia)) as Hle.
  unfold conv_out_len in Ho.
  assert (Z.to_nat s0 * o + i < l0 + 2 * Z.to_nat p0)%nat as Hj by nia.
  rewrite slice2_tabulate by done.
  rewrite (row_tabulate b) by done. rewrite (row_tabulate c) by done.
  unfold at_axis2, padded.
  replace (Z.of_nat (Z.to_nat s0 * o + i)) with (s0 * Z.of_nat o + Z.of_nat i) by lia.
  destruct (padded_index (padding_mode self) p0 l0 (s0 * Z.of_nat o + Z.of_nat i))
    as [j|] eqn:Hpi.
  - apply padded_index_lt in Hpi as Hjl; [| lia | | lia].
    2:{ intros Hm. rewrite Hm in Hax0. lia. }
    by rewrite (row_tabulate l0) by done.
  - by rewrite xcorr_at_zero_input.
Qed.
End direct_elem.

(** ** Constructed operators *)

Lemma py_index_head_lookup (l : list Z) k : py_index l 0 = Ok k → l !!! 0%nat = k.
Proof.
  intros H. apply py_index_Ok in H as [_ H]. simpl in H.
  by apply list_lookup_total_correct.
Qed.

(** What the constructors return, in the terms the forward pass is stated
    in. *)
Lemma nd_init_inv fuel cls args e m e' :
  nd_init fuel cls args e = (Ok m, e') →
  ∃ self bias ws bf,
    m = Nd cls self bias (base_layers self ws) ∧
    length ws = Z.to_nat (kernel_size self !!! 0%nat) ∧
    (use_bias self = true → bias = Some (tabulate [Z.to_nat (out_channels self)] bf)) ∧
    (use_bias self = false → bias = None) ∧
    num_dims self = a_num_dims args ∧
    Z.of_nat (length (kernel_size self)) = num_dims self ∧
    py_index (base_prims cls) (num_dims self - 1 - 1) = Ok (conv_f self).
Proof.
  intros H. destruct fuel as [|fuel]; [discriminate |]. simpl in H.
  apply nd_init_body_inv in H
    as (f & bias & ws & k0 & Hf & -> & Hk & _ & _ & _ & Hk0 & Hlen & Hbias).
  apply py_index_head_lookup in Hk0.
  destruct (a_use_bias args) eqn:Hub.
  - destruct Hbias as [g ->]. exists (store_args args f), (Some (tabulate [Z.to_nat (a_out_channels args)] g)), ws, g.
    cbn [store_args kernel_size use_bias out_channels num_dims conv_f].
    rewrite Hk0, Hub. repeat split; try done.
  - subst bias. exists (store_args args f), None, ws, (fun _ => 0).
    cbn [store_args kernel_size use_bias out_channels num_dims conv_f].
    rewrite Hk0, Hub. repeat split; try done.
Qed.

Lemma nd_forward_closed cls self bias ws sh f bf :
  nd_accepts cls self (Z.of_nat <$> sh) = true →
  length ws = Z.to_nat (kernel_size self !!! 0%nat) →
  (use_bias self = true → bias = Some (tabulate [Z.to_nat (out_channels self)] bf)) →
  forward (Nd cls self bias (base_layers self ws)) (tabulate sh f)
  = Ok (nd_output cls self ws bf sh f).
Proof.
  destruct cls; [apply ConvNd_forward_closed | apply ConvTransposeNd_forward_closed].
Qed.

Lemma nd_out_shape_pos cls self sh :
  nd_accepts cls self (Z.of_nat <$> sh) = true →
  Forall (fun o => 1 ≤ o) (nd_out_shape cls self (Z.of_nat <$> sh)).
Proof.
  intros Hacc. destruct (accepted_shape _ _ _ Hacc) as (b & c & l0 & sh_in & ->).
  destruct (accepted_lengths _ _ _ _ _ _ Hacc) as (Hk & Hs & Hp & Hd & Ht).
  destruct (accepted_channels _ _ _ _ _ _ Hacc) as (Hb & Hc & _ & _ & _ & _ & Hco & _).
  unfold nd_out_shape.
  change ((Z.of_nat <$> b :: c :: l0 :: sh_in) !!! 0%nat) with (Z.of_nat b).
  change (drop 2 (Z.of_nat <$> b :: c :: l0 :: sh_in)) with (Z.of_nat <$> l0 :: sh_in).
  constructor; [lia |]. constructor; [lia |].
  unfold out_sizes. apply Forall_fmap, Forall_forall.
  intros x Hx%elem_of_seq. rewrite length_fmap in Hx. cbn [length] in Hx. simpl.
  apply (axis_ok_out_pos _ (padding_mode self)).
  apply (accepted_axis _ _ _ _ _ _ Hacc x). lia.
Qed.

Lemma to_nat_shape_pos (zs : list Z) :
  Forall (fun o => 1 ≤ o) zs →
  Forall (fun m => (0 < m)%nat) (Z.to_nat <$> zs) ∧ Z.of_nat <$> (Z.to_nat <$> zs) = zs.
Proof.
  intros H. split.
  - apply Forall_fmap. eapply Forall_impl; [exact H |]. simpl. lia.
  - rewrite <- list_fmap_compose. rewrite <- (list_fmap_id zs) at 2.
    induction H as [|z zs Hz _ IH]; [done |].
    rewrite !fmap_cons, IH. simpl. f_equal. unfold compose. lia.
Qed.

(** ** Output shapes *)

Lemma nd_output_shape cls self ws bf sh f :
  nd_accepts cls self (Z.of_nat <$> sh) = true →
  tshape (nd_output cls self ws bf sh f) = nd_out_shape cls self (Z.of_nat <$> sh).
Proof.
  intros Hacc.
  destruct (to_nat_shape_pos _ (nd_out_shape_pos _ _ _ Hacc)) as [Hpos Hid].
  destruct cls; unfold nd_output, ConvNd_output, ConvTransposeNd_output;
    by rewrite tshape_tabulate.
Qed.

Lemma nd_out_shape_axis cls self xs (a : nat) :
  (a < length (drop 2 xs))%nat →
  nd_out_shape cls self xs !!! (2 + a)%nat
  = spec_out_len cls (xs !!! (2 + a)%nat) (kernel_size self !!! a)
      (stride self !!! a) (padding self !!! a).
Proof.
  intros Ha. unfold nd_out_shape, out_sizes. cbn [Nat.add].
  rewrite !lookup_total_cons_ne_0 by lia. cbn [Nat.pred].
  rewrite lookup_total_fmap_seq by done. rewrite lookup_total_drop.
  change (2 + a)%nat with (S (S a)).
  destruct cls; cbv iota; unfold spec_out_len, conv_out_len, convT_out_len; [done | lia].
Qed.

(** C4.  On every input it accepts, a constructed operator returns a
    tensor whose batch and channel extents are the input's batch and the
    operator's output channels and whose extent along every spatial axis
    [a], the leading axis of the stacked frames included, is
    [floor((in_len + 2*pad - k)/stride + 1)] for [ConvNd] and
    [(in_len - 1)*stride - 2*pad + k] for [ConvTransposeNd], computed
    from that axis alone. *)
Theorem forward_output_shape fuel cls args e self bias conv_layers e' x sh :
  nd_init fuel cls args e = (Ok (Nd cls self bias conv_layers), e') →
  has_shape sh x = true →
  nd_accepts cls self (Z.of_nat <$> sh) = true →
  ∃ y, forward (Nd cls self bias conv_layers) x = Ok y ∧
       length (tshape y) = length (tshape x) ∧
       tshape y !!! 0%nat = tshape x !!! 0%nat ∧
       tshape y !!! 1%nat = out_channels self ∧
       ∀ a : nat, (a < length (kernel_size self))%nat →
         tshape y !!! (2 + a)%nat
         = spec_out_len cls (tshape x !!! (2 + a)%nat) (kernel_size self !!! a)
             (stride self !!! a) (padding self !!! a).
Proof.
  intros Hinit Hx Hacc.
  apply nd_init_inv in Hinit as (self' & bias' & ws & bf & Hm & Hws & Hb & _).
  injection Hm as <- <- ->.
  rewrite (has_shape_eq _ _ Hx).
  rewrite (nd_forward_closed cls self bias ws sh (tget x) bf Hacc Hws Hb).
  eexists. split; [reflexivity |].
  rewrite nd_output_shape by done.
  destruct (accepted_shape _ _ _ Hacc) as (b & c & l0 & sh_in & ->).
  rewrite tshape_tabulate by by apply (accepted_extents cls self).
  destruct (accepted_lengths _ _ _ _ _ _ Hacc) as (Hk & _).
  split; [| split; [done | split; [done |]]].
  - unfold nd_out_shape. cbn [length]. rewrite out_sizes_length, !length_drop, !length_fmap.
    cbn [length]. lia.
  - intros a Ha. apply nd_out_shape_axis.
    change (drop 2 (Z.of_nat <$> b :: c :: l0 :: sh_in)) with (Z.of_nat <$> l0 :: sh_in).
    rewrite length_fmap. cbn [length]. lia.
Qed.

Lemma forward_output_shape_witness :
  ∃ m y,
    built (ConvNd_init 1 strided_args example_engine) = Some m ∧
    forward m strided_input = Ok y ∧
    tshape y !!! 2%nat = (4 + 2 * 1 - 3) / 2 + 1 ∧
    tshape y !!! 3%nat = (3 + 2 * 1 - 2) / 1 + 1.
Proof.
  eassert (nd_init 1 ConvNd strided_args example_engine = (Ok (Nd ConvNd _ _ _), _)) as E
    by (vm_compute; reflexivity).
  destruct (forward_output_shape _ _ _ _ _ _ _ _ strided_input [1; 2; 4; 3]%nat E
              ltac:(vm_compute; reflexivity) ltac:(vm_compute; reflexivity))
    as (y & Hy & _ & _ & _ & Hax).
  eexists _, y. split; [unfold built, ConvNd_init; rewrite E; reflexivity |].
  split; [exact Hy |]. split.
  - exact (Hax 0%nat ltac:(simpl; lia)).
  - exact (Hax 1%nat ltac:(simpl; lia)).
Defined.

(** ** The frames of the transposed operator *)

(** C7.  A constructed [ConvTransposeNd] operator calls its layers on the
    slices of the input itself (the leading axis is not padded), and the
    element of output frame [o] sums the layer outputs over every pair of
    a kernel offset [i] and an input position [j] with
    [(i + kernel_len//2) + j - kernel_len//2 - padding[0] = o]: pairs
    whose frame index falls outside the output are dropped and no test on
    the stride is made.  The bias of the channel is added to the sum.  The
    output has the shape computed from the input, with
    [size_o[0] = (l - 1) * stride[0] - 2 * padding[0] + kernel_len] frames
    along the leading spatial axis, so the frames described are all the
    frames in [[0, size_o[0])], and it is rectangular, so the elements
    described are all its elements. *)
Theorem ConvTransposeNd_forward_frames fuel args e self bias conv_layers e' x sh :
  ConvTransposeNd_init fuel args e = (Ok (Nd ConvTransposeNd self bias conv_layers), e') →
  has_shape sh x = true →
  nd_accepts ConvTransposeNd self (Z.of_nat <$> sh) = true →
  ∃ (out : nat → nat → tensor) (y : tensor),
    (∀ i j, (Z.of_nat i < kernel_size self !!! 0%nat) → (j < sh !!! 2%nat)%nat →
            call (forward <$> conv_layers) i (slice2 j x) = Ok (out i j)) ∧
    forward (Nd ConvTransposeNd self bias conv_layers) x = Ok y ∧
    tshape y = nd_out_shape ConvTransposeNd self (Z.of_nat <$> sh) ∧
    has_shape (tshape_nat y) y = true ∧
    tshape y !!! 2%nat
    = convT_out_len (Z.of_nat (sh !!! 2%nat)) (kernel_size self !!! 0%nat)
        (stride self !!! 0%nat) (padding self !!! 0%nat) ∧
    ∀ ib co o os,
      in_shape (ib :: co :: o :: os) (tshape_nat y) →
      tget y (ib :: co :: o :: os)
      = transpose_frames (fun i j => tget (out i j))
          (kernel_size self !!! 0%nat) (padding self !!! 0%nat)
          (Z.to_nat (kernel_size self !!! 0%nat)) (sh !!! 2%nat) o (ib :: co :: os)
        + match bias with Some bt => tget bt [co] | None => 0 end.
Proof.
  intros Hinit Hx Hacc.
  apply nd_init_inv in Hinit as (self' & bias' & ws & bf & Hm & Hws & Hb & Hnb & _).
  injection Hm as <- <- ->.
  rewrite (has_shape_eq _ _ Hx).
  destruct (to_nat_shape_pos _ (nd_out_shape_pos _ _ _ Hacc)) as [Hpos Hid].
  destruct (accepted_shape _ _ _ Hacc) as (b & c & l0 & sh_in & ->).
  destruct (accepted_lengths _ _ _ _ _ _ Hacc) as (Hk & Hs & Hp & Hd & Ht).
  pose proof (accepted_extents _ _ _ _ _ _ Hacc) as Hext.
  change ((b :: c :: l0 :: sh_in) !!! 2%nat) with l0.
  set (f := tget x).
  exists (fun i j =>
            tabulate (b :: Z.to_nat (out_channels self)
                        :: (Z.to_nat <$> out_sizes true (Z.of_nat <$> sh_in)
                                           (drop 1 (kernel_size self)) (drop 1 (stride self))
                                           (drop 1 (padding self))))
              (base_elem (layer_of self (ws !!! i))
                 (slice2 j (tabulate (b :: c :: l0 :: sh_in) f)))),
         (ConvTransposeNd_output self ws bf (b :: c :: l0 :: sh_in) f).
  pose proof (nd_output_shape ConvTransposeNd self ws bf _ f Hacc) as Hshape.
  cbn [nd_output] in Hshape.
  split; [| split; [| split; [| split; [| split]]]].
  - intros i j Hi Hj. rewrite call_base_layers by lia.
    rewrite slice2_tabulate by done.
    apply (layer_forward ConvTransposeNd self b c l0 sh_in Hacc).
  - by apply ConvTransposeNd_forward_closed.
  - exact Hshape.
  - unfold ConvTransposeNd_output. rewrite tshape_nat_tabulate by done.
    apply has_shape_tabulate.
  - rewrite Hshape.
    rewrite (nd_out_shape_axis ConvTransposeNd self (Z.of_nat <$> b :: c :: l0 :: sh_in) 0)
      by (cbn [fmap list_fmap drop length]; lia).
    unfold spec_out_len, convT_out_len.
    change ((Z.of_nat <$> b :: c :: l0 :: sh_in) !!! (2 + 0)%nat) with (Z.of_nat l0). lia.
  - intros ib co o os Hidx. unfold ConvTransposeNd_output in *.
    rewrite tshape_nat_tabulate in Hidx by done.
    rewrite tget_tabulate by done.
    unfold nd_out_shape in Hidx.
    change (drop 2 (Z.of_nat <$> b :: c :: l0 :: sh_in))
      with (Z.of_nat l0 :: (Z.of_nat <$> sh_in)) in Hidx.
    rewrite out_sizes_cons, !fmap_cons in Hidx.
    unfold in_shape in Hidx.
    inversion Hidx as [|???? Hib H1]; subst. inversion H1 as [|???? Hco H2]; subst.
    inversion H2 as [|???? Ho Hos]; subst.
    change ((b :: c :: l0 :: sh_in) !!! 2%nat) with l0.
    f_equal.
    + unfold from_axis2, transpose_frames.
      apply Zsum_ext. intros i _. apply Zsum_ext. intros j _.
      case_decide; [| done]. symmetry. apply tget_tabulate.
      change ((Z.of_nat <$> b :: c :: l0 :: sh_in) !!! 0%nat) with (Z.of_nat b) in Hib.
      rewrite Nat2Z.id in Hib. unfold in_shape. by repeat constructor.
    + unfold bias_at. destruct (use_bias self) eqn:Hub.
      * rewrite (Hb eq_refl). symmetry. apply (tget_tabulate [_] bf [co]).
        by repeat constructor.
      * by rewrite (Hnb eq_refl).
Qed.

Lemma ConvTransposeNd_forward_frames_witness :
  ∃ self bias conv_layers (out : nat → nat → tensor) (y : tensor),
    built (ConvTransposeNd_init 1 strided_args example_engine)
    = Some (Nd ConvTransposeNd self bias conv_layers) ∧
    forward (Nd ConvTransposeNd self bias conv_layers) strided_input = Ok y ∧
    tshape y = [1; 2; 7; 2] ∧
    tshape y !!! 2%nat = convT_out_len 4 3 2 1 ∧
    call (forward <$> conv_layers) 1 (slice2 2 strided_input) = Ok (out 1 2)%nat ∧
    tget y [0; 1; 2; 0]%nat
    = transpose_frames (fun i j => tget (out i j)) 3 1 3 4 2 [0; 1; 0]%nat + 11.
Proof.
  eassert (nd_init 1 ConvTransposeNd strided_args example_engine
           = (Ok (Nd ConvTransposeNd _ _ _), _)) as E
    by (vm_compute; reflexivity).
  destruct (ConvTransposeNd_forward_frames _ _ _ _ _ _ _ strided_input [1; 2; 4; 3]%nat E
              ltac:(vm_compute; reflexivity) ltac:(vm_compute; reflexivity))
    as (out & y & Hout & Hy & Hsh & _ & Hfr & Hel).
  eexists _, _, _, out, y.
  split; [unfold built, ConvTransposeNd_init; rewrite E; reflexivity |].
  split; [exact Hy |]. split; [exact Hsh |]. split; [exact Hfr |].
  split; [exact (Hout 1 2 ltac:(vm_compute; reflexivity) ltac:(vm_compute; lia))%nat |].
  apply (Hel 0 1 2 [0])%nat.
  vm_compute in Hy. injection Hy as <-. vm_compute. repeat constructor.
Defined.

(** ** The bias *)

Lemma nd_output_eq cls self ws bf sh f :
  nd_output cls self ws bf sh f
  = tabulate (Z.to_nat <$> nd_out_shape cls self (Z.of_nat <$> sh))
      (fun idx => nd_elem cls self ws sh f idx + if use_bias self then bias_at bf idx else 0).
Proof. by destruct cls. Qed.

Lemma zero_tensor_default : zero_tensor (Scalar 0).
Proof. apply (zero_tensor_zeros []). Qed.

Lemma zero_tensor_lookup ws i : Forall zero_tensor ws → zero_tensor (ws !!! i).
Proof.
  intros H. rewrite list_lookup_total_alt. destruct (ws !! i) as [w|] eqn:Hw; simpl.
  - by eapply Forall_lookup_1.
  - apply zero_tensor_default.
Qed.

(** A primitive without bias whose weight is zero returns zeros. *)
Lemma base_elem_zero c y idx :
  zero_tensor (weight c) → b_bias c = None → base_elem c y idx = 0.
Proof.
  intros Hw Hb. unfold base_elem. destruct idx as [|ib [|co os]]; try done.
  cbv zeta. rewrite Hb. rewrite Zsum_zero; [done |]. intros ci _.
  destruct (is_transposed (prim c)).
  - apply tcorr_at_zero_weight. by do 2 apply zero_tensor_row.
  - apply xcorr_at_zero_weight. by do 2 apply zero_tensor_row.
Qed.

Lemma nd_elem_zero cls self ws sh f idx :
  Forall zero_tensor ws → nd_elem cls self ws sh f idx = 0.
Proof.
  intros Hws.
  assert (∀ i y idx', base_elem (layer_of self (ws !!! i)) y idx' = 0) as Hz.
  { intros i y idx'. apply base_elem_zero; [| done]. by apply zero_tensor_lookup. }
  unfold nd_elem, from_axis2. destruct cls, idx as [|ib [|ic [|o rest]]]; try done.
  - unfold conv_frames. apply Zsum_zero. intros i _. apply Hz.
  - unfold transpose_frames. apply Zsum_zero. intros i _. apply Zsum_zero. intros j _.
    case_decide; [apply Hz | done].
Qed.

Lemma zero_layer_base_layers self ws :
  zero_layer <$> base_layers self ws
  = base_layers self ((fun w => tabulate (tshape_nat w) (fun _ => 0)) <$> ws).
Proof. unfold base_layers. rewrite <- !list_fmap_compose. by apply list_fmap_ext. Qed.

(** C5.  In a constructed operator with [use_bias] the bias is held by
    the operator itself and by none of its layers.  On every input the
    operator accepts, the output is the output of the same operator
    without bias plus [bias[k]] at every position of every channel [k],
    and with all weights set to zero the output is the bias broadcast
    over the channels. *)
Theorem bias_added_once fuel cls args e self bias conv_layers e' x sh :
  nd_init fuel cls args e = (Ok (Nd cls self bias conv_layers), e') →
  use_bias self = true →
  has_shape sh x = true →
  nd_accepts cls self (Z.of_nat <$> sh) = true →
  Forall (fun l => ∃ c, l = Base c ∧ b_bias c = None) conv_layers ∧
  ∃ bt y y0,
    bias = Some bt ∧
    forward (Nd cls self bias conv_layers) x = Ok y ∧
    forward (without_bias (Nd cls self bias conv_layers)) x = Ok y0 ∧
    tshape y0 = tshape y ∧
    (∀ ib k os, in_shape (ib :: k :: os) (tshape_nat y) →
                tget y (ib :: k :: os) = tget y0 (ib :: k :: os) + tget bt [k]) ∧
    forward (zero_weights (Nd cls self bias conv_layers)) x
    = Ok (tabulate (tshape_nat y) (bias_at (tget bt))).
Proof.
  intros Hinit Hub Hx Hacc.
  apply nd_init_inv in Hinit as (self' & bias' & ws & bf & Hm & Hws & Hb & _).
  injection Hm as <- <- ->. specialize (Hb Hub). subst bias.
  split.
  { apply Forall_forall. intros l [w [-> _]]%list_elem_of_fmap. by eexists. }
  destruct (to_nat_shape_pos _ (nd_out_shape_pos _ _ _ Hacc)) as [Hpos Hid].
  set (shape_o := Z.to_nat <$> nd_out_shape cls self (Z.of_nat <$> sh)) in *.
  rewrite (has_shape_eq _ _ Hx). set (f := tget x).
  set (self0 := {| rank := rank self; in_channels := in_channels self;
                   out_channels := out_channels self; num_dims := num_dims self;
                   kernel_size := kernel_size self; stride := stride self;
                   padding := padding self; padding_mode := padding_mode self;
                   groups := groups self; use_bias := false;
                   bias_initializer := bias_initializer self;
                   kernel_initializer := kernel_initializer self;
                   conv_f := conv_f self |}).
  exists (tabulate [Z.to_nat (out_channels self)] bf),
         (nd_output cls self ws bf sh f), (nd_output cls self0 ws bf sh f).
  split; [done |]. split; [by apply nd_forward_closed |]. split.
  { cbn [without_bias]. fold self0.
    change (base_layers self ws) with (base_layers self0 ws).
    by apply nd_forward_closed. }
  rewrite !nd_output_eq. rewrite Hub.
  change (use_bias self0) with false.
  change (nd_out_shape cls self0 (Z.of_nat <$> sh)) with (nd_out_shape cls self (Z.of_nat <$> sh)).
  fold shape_o. rewrite tshape_nat_tabulate by done.
  assert (∀ ib k os, in_shape (ib :: k :: os) shape_o →
                     bias_at bf (ib :: k :: os) = tget (tabulate [Z.to_nat (out_channels self)] bf) [k])
    as Hbias.
  { intros ib k os Hidx. unfold shape_o, nd_out_shape, in_shape in Hidx.
    rewrite !fmap_cons in Hidx.
    inversion Hidx as [|???? _ H1]; subst. inversion H1 as [|???? Hk _]; subst.
    symmetry. apply (tget_tabulate [_] bf [k]). by repeat constructor. }
  split; [| split].
  - unfold tshape. f_equal. apply tshape_nat_tabulate_indep.
  - intros ib k os Hidx. rewrite !tget_tabulate by done.
    rewrite (Hbias ib k os Hidx).
    change (nd_elem cls self0 ws sh f) with (nd_elem cls self ws sh f). lia.
  - cbn [zero_weights]. rewrite zero_layer_base_layers.
    rewrite (nd_forward_closed cls self _ _ sh f bf Hacc); [| by rewrite length_fmap | done].
    f_equal. rewrite nd_output_eq, Hub. fold shape_o.
    apply tabulate_ext. intros idx Hidx.
    rewrite nd_elem_zero.
    2:{ apply Forall_fmap, Forall_forall. intros w _. apply zero_tensor_zeros. }
    destruct idx as [|ib [|k os]]; try done.
    rewrite (Hbias ib k os Hidx). done.
Qed.

Lemma bias_added_once_witness :
  ∃ m y,
    built (ConvNd_init 1 strided_args example_engine) = Some m ∧
    forward m strided_input = Ok y ∧
    forward (zero_weights m) strided_input
    = Ok (tabulate (tshape_nat y) (bias_at (fun idx => 10 + Zsum (Z.of_nat <$> idx)))).
Proof.
  eassert (nd_init 1 ConvNd strided_args example_engine = (Ok (Nd ConvNd _ _ _), _)) as E
    by (vm_compute; reflexivity).
  destruct (bias_added_once _ _ _ _ _ _ _ _ strided_input [1; 2; 4; 3]%nat E
              eq_refl ltac:(vm_compute; reflexivity) ltac:(vm_compute; reflexivity))
    as (_ & bt & y & y0 & Hbt & Hy & _ & _ & _ & Hz).
  eexists _, y. split; [unfold built, ConvNd_init; rewrite E; reflexivity |].
  split; [exact Hy |]. rewrite Hz. injection Hbt as <-. f_equal.
  apply tabulate_ext. intros [|ib [|k os]] Hidx; try done.
  vm_compute in Hy. injection Hy as <-.
  unfold in_shape in Hidx. cbn in Hidx.
  inversion Hidx as [|???? _ H1]; subst. inversion H1 as [|???? Hk _]; subst.
  unfold bias_at.
  assert (k = 0 ∨ k = 1)%nat as [-> | ->] by lia; reflexivity.
Defined.

(** ** The decomposition equals the direct primitive *)

Lemma direct_prim_dims n d :
  n = 2 ∨ n = 3 → prim_of ConvNd n = Some d →
  Z.of_nat (spatial_dims d) = n ∧ is_transposed d = false.
Proof. intros [-> | ->] H; vm_compute in H; injection H as <-; done. Qed.

Lemma direct_accepts d self bias layers b c l0 sh_in :
  nd_accepts ConvNd self (Z.of_nat <$> b :: c :: l0 :: sh_in) = true →
  spatial_dims d = S (length sh_in) → is_transposed d = false →
  base_accepts (direct_conv d self bias layers) (Z.of_nat <$> b :: c :: l0 :: sh_in) = true.
Proof.
  intros Hacc Hd Ht.
  destruct (accepted_lengths _ _ _ _ _ _ Hacc) as (Hk & Hs & Hp & _ & _).
  destruct (accepted_channels _ _ _ _ _ _ Hacc) as (Hb & Hc & Hcin & Hg & Hig & Hog & Hco & _).
  unfold base_accepts.
  cbn [direct_conv prim b_kernel_size b_stride b_padding b_in_channels b_out_channels
         b_groups b_padding_mode].
  rewrite length_fmap. cbn [length].
  change ((Z.of_nat <$> b :: c :: l0 :: sh_in) !!! 0%nat) with (Z.of_nat b).
  change ((Z.of_nat <$> b :: c :: l0 :: sh_in) !!! 1%nat) with (Z.of_nat c).
  repeat (apply andb_true_iff; split); try lia.
  apply forallb_forall. intros x Hx%in_seq. rewrite Ht.
  apply (accepted_axis _ _ _ _ _ _ Hacc x). lia.
Qed.

(** C3.  For [num_dims] 2 and 3, on every input it accepts (any kernel
    sizes, paddings and strides, whether or not a stride divides the
    padded length), a constructed [ConvNd] operator returns what the base
    2D or 3D convolution returns in one call, when that primitive is
    configured like the operator and holds the layers' weights stacked
    along the leading kernel axis and the operator's bias. *)
Theorem ConvNd_matches_direct fuel args e self bias conv_layers e' d x sh :
  ConvNd_init fuel args e = (Ok (Nd ConvNd self bias conv_layers), e') →
  num_dims self = 2 ∨ num_dims self = 3 →
  prim_of ConvNd (num_dims self) = Some d →
  has_shape sh x = true →
  nd_accepts ConvNd self (Z.of_nat <$> sh) = true →
  ∃ y, forward (Nd ConvNd self bias conv_layers) x = Ok y ∧
       base_forward (direct_conv d self bias conv_layers) x = Ok y.
Proof.
  intros Hinit Hn Hd Hx Hacc.
  apply nd_init_inv in Hinit as (self' & bias' & ws & bf & Hm & Hws & Hb & _ & _ & Hlen & _).
  injection Hm as <- <- ->.
  destruct (direct_prim_dims _ _ Hn Hd) as [Hdims Htr].
  rewrite (has_shape_eq _ _ Hx). set (f := tget x).
  exists (ConvNd_output self ws bf sh f).
  split; [by apply ConvNd_forward_closed |].
  destruct (to_nat_shape_pos _ (nd_out_shape_pos _ _ _ Hacc)) as [Hpos Hid].
  destruct (accepted_shape _ _ _ Hacc) as (b & c & l0 & sh_in & ->).
  destruct (accepted_lengths _ _ _ _ _ _ Hacc) as (Hk & _).
  pose proof (accepted_extents _ _ _ _ _ _ Hacc) as Hext.
  unfold base_forward. rewrite tshape_tabulate by done.
  rewrite direct_accepts by (done || lia).
  f_equal. unfold ConvNd_output.
  replace (base_out_shape (direct_conv d self bias (base_layers self ws))
             (Z.of_nat <$> b :: c :: l0 :: sh_in))
    with (nd_out_shape ConvNd self (Z.of_nat <$> b :: c :: l0 :: sh_in))
    by (unfold base_out_shape, nd_out_shape; cbn [direct_conv prim b_kernel_size b_stride
          b_padding b_out_channels]; by rewrite Htr).
  apply tabulate_ext. intros idx Hidx.
  unfold nd_out_shape, in_shape in Hidx.
  change (drop 2 (Z.of_nat <$> b :: c :: l0 :: sh_in))
    with (Z.of_nat l0 :: (Z.of_nat <$> sh_in)) in Hidx.
  change ((Z.of_nat <$> b :: c :: l0 :: sh_in) !!! 0%nat) with (Z.of_nat b) in Hidx.
  rewrite out_sizes_cons, !fmap_cons in Hidx.
  inversion Hidx as [|ib ? idx1 ? Hib H1]; subst.
  inversion H1 as [|co ? idx2 ? Hco H2]; subst.
  inversion H2 as [|o ? os ? Ho Hos]; subst.
  rewrite (direct_conv_elem self bias ws d b c l0 sh_in f bf Hacc Hws Hb Htr ib co o os);
    [done | lia | lia |].
  cbv iota in Ho. lia.
Qed.

Lemma ConvNd_matches_direct_witness :
  ∃ m self bias conv_layers y,
    built (ConvNd_init 1 strided_args example_engine) = Some m ∧
    m = Nd ConvNd self bias conv_layers ∧
    forward m strided_input = Ok y ∧
    base_forward (direct_conv Conv2d self bias conv_layers) strided_input = Ok y.
Proof.
  eassert (ConvNd_init 1 strided_args example_engine = (Ok (Nd ConvNd _ _ _), _)) as E
    by (vm_compute; reflexivity).
  destruct (ConvNd_matches_direct _ _ _ _ _ _ _ Conv2d strided_input [1; 2; 4; 3]%nat E
              ltac:(left; reflexivity) eq_refl
              ltac:(vm_compute; reflexivity) ltac:(vm_compute; reflexivity))
    as (y & Hy & Hd).
  eexists _, _, _, _, y. split; [unfold built; rewrite E; reflexivity |].
  split; [reflexivity |]. split; [exact Hy | exact Hd].
Defined.

(** ** Concrete evaluations *)

(** C10.  The operator built for [num_dims = 3], one channel in and out,
    kernel [(2, 2, 2)], unit strides, no padding, all weights 1 and bias
    0, applied to the all-ones input of spatial shape [(3, 3, 3)],
    returns a tensor of spatial shape [(2, 2, 2)] all of whose elements
    are 8. *)
Theorem ConvNd_3d_all_ones fuel e :
  ∃ m,
    built (ConvNd_init (S fuel) (example_args 3 [2; 2; 2]) e) = Some m ∧
    forward m (ones [1; 1; 3; 3; 3]%nat) = Ok (tabulate [1; 1; 2; 2; 2]%nat (fun _ => 8)) ∧
    tshape (tabulate [1; 1; 2; 2; 2]%nat (fun _ => 8)) = [1; 1; 2; 2; 2].
Proof.
  eexists. split; [vm_compute; reflexivity |]. split; vm_compute; reflexivity.
Qed.

(** C6 does not hold of the code: for [num_dims = 1] the index
    [max_dims - 1 = -1] into the tuple of base primitives picks its last
    entry, the 3D convolution, so the layers are 3D primitives with empty
    kernel tuples; they reject the two-dimensional slices [forward] hands
    them, while the 1D primitive holding the same weights returns the
    convolution. *)
Theorem ConvNd_1d_selects_Conv3d fuel e :
  ∃ self bias conv_layers e',
    ConvNd_init (S fuel) (example_args 1 [2]) e = (Ok (Nd ConvNd self bias conv_layers), e') ∧
    conv_f self = Conv3d ∧
    Forall (fun l => ∃ c, l = Base c ∧ prim c = Conv3d ∧ b_kernel_size c = []) conv_layers ∧
    forward (Nd ConvNd self bias conv_layers) (ones [1; 1; 3]%nat) = Raise RuntimeError ∧
    base_forward (direct_conv Conv1d self bias conv_layers) (ones [1; 1; 3]%nat)
    = Ok (tabulate [1; 1; 2]%nat (fun _ => 2)).
Proof.
  eexists _, _, _, _. split; [vm_compute; reflexivity |].
  split; [reflexivity |]. split.
  - repeat constructor; eexists; (split; [reflexivity |]); split; reflexivity.
  - split; vm_compute; reflexivity.
Qed.

(** * Further properties of the constructors *)

Lemma Zprod_cons x l : Zprod (x :: l) = x * Zprod l.
Proof. done. Qed.

Lemma Zsum_const {A : Type} (c : Z) (l : list A) :
  Zsum ((fun _ => c) <$> l) = Z.of_nat (length l) * c.
Proof. induction l as [|x l IH]; [done |]. rewrite fmap_cons, Zsum_cons, IH. cbn [length]. lia. Qed.

Lemma numel_tabulate sh g : numel (tabulate sh g) = Zprod (Z.of_nat <$> sh).
Proof.
  revert g. induction sh as [|n sh IH]; intros g; [done |].
  cbn [tabulate numel]. rewrite <- list_fmap_compose.
  rewrite (Zsum_ext _ (fun _ => Zprod (Z.of_nat <$> sh))) by (intros i _; apply IH).
  rewrite Zsum_const, length_seq. by rewrite fmap_cons, Zprod_cons.
Qed.

Lemma Zprod_tshape_nat_tabulate sh g :
  Zprod (Z.of_nat <$> tshape_nat (tabulate sh g)) = Zprod (Z.of_nat <$> sh).
Proof.
  revert g. induction sh as [|n sh IH]; intros g; [done |].
  cbn [tabulate tshape_nat]. rewrite length_fmap, length_seq.
  rewrite !fmap_cons, !Zprod_cons.
  destruct n as [|n]; [cbn [seq fmap list_fmap]; lia |].
  cbn [seq fmap list_fmap]. by rewrite IH.
Qed.

Lemma numel_initialized h sh g :
  numel (initialized h (tabulate sh g)) = Zprod (Z.of_nat <$> sh).
Proof.
  destruct h as [h|]; cbn [initialized]; [| apply numel_tabulate].
  unfold apply_initializer. rewrite numel_tabulate. apply Zprod_tshape_nat_tabulate.
Qed.

Lemma Zprod_to_nat sh : nonneg sh = true → Zprod (Z.of_nat <$> (Z.to_nat <$> sh)) = Zprod sh.
Proof.
  unfold nonneg. induction sh as [|x sh IH]; [done |]. cbn [forallb].
  intros [Hx Hsh]%andb_true_iff. rewrite !fmap_cons, !Zprod_cons, IH by done.
  by rewrite Z2Nat.id by lia.
Qed.

(** The weight a base primitive is instantiated with: a fresh tensor of
    the primitive's weight shape, no extent of which is negative. *)
Lemma base_init_weight f cin cout ks ss ps mode g e c e' :
  base_init f cin cout ks ss ps mode g e = (Ok c, e') →
  let sh := if is_transposed f then cin :: cout / g :: ks else cout :: cin / g :: ks in
  nonneg sh = true ∧
  c = {| prim := f; b_in_channels := cin; b_out_channels := cout;
         b_kernel_size := ks; b_stride := ss; b_padding := ps;
         b_padding_mode := mode; b_groups := g;
         weight := tabulate (Z.to_nat <$> sh) (fresh e (allocated e));
         b_bias := None |} ∧
  (is_transposed f = true → mode = mode_zeros).
Proof.
  unfold base_init. destruct (_ || _) eqn:Hc; [discriminate |].
  unfold build_bind, alloc_param, log_instance, build_ret.
  destruct (nonneg _) eqn:Hn; [| discriminate].
  intros H. inversion H; subst. cbv zeta. split; [done |]. split; [done |].
  intros Ht. rewrite Ht in Hc. destruct mode; [done |].
  rewrite !orb_true_r in Hc. discriminate.
Qed.

(** What a constructor that returns has allocated for its layers: every
    layer holds a fresh tensor of the layer weight shape, rewritten by
    the kernel initializer when there is one. *)
Lemma nd_init_weights fuel cls args e m e' :
  nd_init fuel cls args e = (Ok m, e') →
  ∃ f bias ws,
    m = Nd cls (store_args args f) bias (base_layers (store_args args f) ws) ∧
    py_index (base_prims cls) (a_num_dims args - 1 - 1) = Ok f ∧
    length ws = Z.to_nat (kernel_size (store_args args f) !!! 0%nat) ∧
    (0 < length (kernel_size (store_args args f)))%nat ∧
    Forall (fun w => ∃ g,
              nonneg (layer_weight_shape (store_args args f)) = true ∧
              w = initialized (a_kernel_initializer args)
                    (tabulate (Z.to_nat <$> layer_weight_shape (store_args args f)) g))
           ws ∧
    (if a_use_bias args
     then ∃ g, 0 ≤ a_out_channels args ∧
               bias = Some (initialized (a_bias_initializer args)
                              (tabulate [Z.to_nat (a_out_channels args)] g))
     else bias = None).
Proof.
  intros H. destruct fuel as [|fuel]; [discriminate |]. simpl in H.
  unfold nd_init_body in H. cbv zeta in H.
  apply build_bind_Ok in H as (f & e0 & [Hf ->]%lift_Ok & H).
  apply build_bind_Ok in H as (? & ? & [Hk ->]%py_assert_Ok & H).
  apply build_bind_Ok in H as (? & ? & [Hs ->]%py_assert_Ok & H).
  apply build_bind_Ok in H as (? & ? & [Hp ->]%py_assert_Ok & H).
  apply build_bind_Ok in H as (? & ? & [Hd ->]%py_assert_Ok & H).
  apply build_bind_Ok in H as (bias & e1 & Hb & H).
  apply build_bind_Ok in H as (k0 & ? & [Hk0 ->]%lift_Ok & H).
  apply build_bind_Ok in H as (layers & e2 & Hl & H).
  unfold build_ret in H. inversion H; subst; clear H.
  set (self := store_args args f) in *.
  eapply (build_layers_inv
            (fun m => ∃ g, nonneg (layer_weight_shape self) = true ∧
                           m = Base (layer_of self
                                       (initialized (a_kernel_initializer args)
                                          (tabulate (Z.to_nat <$> layer_weight_shape self) g)))))
    in Hl as (news & -> & Hlen & HP).
  - assert (∃ ws, news = base_layers self ws ∧ length ws = length news ∧
                  Forall (fun w => ∃ g,
                            nonneg (layer_weight_shape self) = true ∧
                            w = initialized (a_kernel_initializer args)
                                  (tabulate (Z.to_nat <$> layer_weight_shape self) g)) ws)
      as (ws & -> & Hws & HF).
    { clear -HP. induction HP as [|m news (g & Hn & ->) _ (ws & -> & Hlen & HF)].
      - by exists [].
      - eexists (_ :: ws). split; [reflexivity |]. split; [by cbn [length]; rewrite Hlen |].
        constructor; [eauto | done]. }
    eexists f, _, ws. split; [reflexivity |]. split; [done |].
    split. { apply py_index_head_lookup in Hk0. cbn [self store_args kernel_size]. rewrite Hk0. lia. }
    split. { apply py_index_Ok in Hk0 as [Hr _]. cbn [self store_args kernel_size]. lia. }
    split; [done |].
    cbn [use_bias store_args out_channels bias_initializer self] in Hb |- *.
    unfold build_bind, alloc_param, build_ret in Hb.
    destruct (a_use_bias args).
    + destruct (nonneg _) eqn:Hn; [| discriminate]. inversion Hb; subst.
      exists (fresh e (allocated e)). split; [cbn [nonneg forallb] in Hn; lia |].
      change (Z.to_nat <$> [a_out_channels args]) with [Z.to_nat (a_out_channels args)].
      by destruct (a_bias_initializer args).
    + inversion Hb; subst. by destruct (a_bias_initializer args).
  - intros e3 m1 e4. rewrite Z.eqb_refl. cbn [negb]. intros Hm.
    apply build_bind_Ok in Hm as (l & e5 & Hc & Hm).
    apply build_bind_Ok in Hc as (c0 & e6 & Hc & Hr).
    apply base_init_weight in Hc as (Hn & -> & _).
    unfold build_ret in Hr. inversion Hr; subst.
    exists (fresh e3 (allocated e3)).
    split; [exact Hn |].
    unfold self in Hm. cbn [kernel_initializer store_args] in Hm.
    destruct (a_kernel_initializer args) as [g|];
      unfold lift, build_ret in Hm; cbn [init_weight] in Hm;
      inversion Hm; subst; reflexivity.
Qed.

(** ** The children of the transposed class *)

(** X1.  For [num_dims] 2, 3 or 4 and arguments it accepts, a
    [ConvTransposeNd] constructor returns an operator with one child per
    position of the leading kernel axis; each child is the transposed
    convolution primitive with [num_dims - 1] spatial dimensions,
    holding the trailing kernel sizes, strides and paddings, the
    operator's padding mode, groups and channels, and no bias. *)
Theorem ConvTransposeNd_init_children fuel args e :
  2 ≤ a_num_dims args ≤ 4 →
  args_ok ConvTransposeNd args = true →
  ∃ self bias conv_layers e' k0,
    ConvTransposeNd_init (S fuel) args e
      = (Ok (Nd ConvTransposeNd self bias conv_layers), e') ∧
    py_index (kernel_size self) 0 = Ok k0 ∧
    length conv_layers = Z.to_nat k0 ∧
    Forall (fun l => ∃ c,
              l = Base c ∧
              prim_of ConvTransposeNd (num_dims self - 1) = Some (prim c) ∧
              Z.of_nat (spatial_dims (prim c)) = num_dims self - 1 ∧
              is_transposed (prim c) = true ∧
              b_kernel_size c = drop 1 (kernel_size self) ∧
              b_stride c = drop 1 (stride self) ∧
              b_padding c = drop 1 (padding self) ∧
              b_padding_mode c = mode_zeros ∧
              b_groups c = groups self ∧
              b_in_channels c = in_channels self ∧
              b_out_channels c = out_channels self ∧
              b_bias c = None)
           conv_layers.
Proof.
  intros Hn Hok.
  destruct (nd_init_succeeds fuel ConvTransposeNd args e Hok) as (m & e' & H).
  unfold ConvTransposeNd_init. rewrite H. simpl in H.
  apply nd_init_body_inv in H
    as (f & bias & ws & k0 & Hf & -> & _ & _ & _ & _ & Hk0 & Hlen & _).
  apply py_index_base_prims in Hf as [_ Hf]. destruct (Hf ltac:(lia)) as (Hp & Hd & Ht).
  assert (a_padding_mode args = mode_zeros) as Hmode.
  { unfold args_ok in Hok. cbv zeta in Hok. apply andb_true_iff in Hok as [_ Hok].
    by destruct (a_padding_mode args). }
  eexists _, _, _, _, k0. split; [reflexivity |]. split; [exact Hk0 |].
  split; [unfold base_layers; by rewrite length_fmap |].
  apply Forall_forall. intros l [w [-> _]]%list_elem_of_fmap.
  eexists. split; [reflexivity |]. simpl. done.
Qed.

Lemma ConvTransposeNd_init_children_witness :
  ∃ self bias conv_layers k0,
    built (ConvTransposeNd_init 1 (example_args 3 [2; 2; 2]) example_engine)
      = Some (Nd ConvTransposeNd self bias conv_layers) ∧
    py_index (kernel_size self) 0 = Ok k0 ∧
    length conv_layers = Z.to_nat k0 ∧
    Forall (fun l => ∃ c, l = Base c ∧ is_transposed (prim c) = true ∧ b_bias c = None)
      conv_layers.
Proof.
  destruct (ConvTransposeNd_init_children 0 (example_args 3 [2; 2; 2]) example_engine
              ltac:(simpl; lia) ltac:(vm_compute; reflexivity))
    as (self & bias & layers & e' & k0 & E & Hk & Hlen & HF).
  exists self, bias, layers, k0. split; [unfold built; by rewrite E |].
  split; [done |]. split; [done |].
  eapply Forall_impl; [exact HF |].
  intros l (c & -> & _ & _ & Ht & _ & _ & _ & _ & _ & _ & _ & Hb).
  exists c. done.
Defined.

(** ** Constructors without a dimension *)

(** X2.  No operator has zero or fewer dimensions.  With [num_dims <= -2]
    the selection of the base primitive raises [IndexError]; with
    [num_dims = -1] a primitive is selected (index [-3] counts from the
    end) and the kernel-size assertion fails, no tuple having length
    [-1]; in both cases the engine is left as it was.  With
    [num_dims = 0] every call raises as well; when the three tuples are
    empty, the dilation is 1 and the channel count is not negative, it is
    [kernel_size[0]] that raises [IndexError], after the bias has been
    allocated. *)
Theorem nd_init_no_dims fuel cls args e :
  a_num_dims args ≤ 0 →
  ∃ x e',
    nd_init (S fuel) cls args e = (Raise x, e') ∧
    (a_num_dims args ≤ -2 → x = IndexError ∧ e' = e) ∧
    (a_num_dims args = -1 → x = AssertionError (size_msg cls "kernel") ∧ e' = e) ∧
    (a_num_dims args = 0 →
     as_tuple (a_kernel_size args) 0 = [] →
     as_tuple (a_stride args) 0 = [] →
     as_tuple (a_padding args) 0 = [] →
     a_dilation args = 1 →
     0 ≤ a_out_channels args →
     x = IndexError ∧
     allocated e' = (allocated e + if a_use_bias args then 1 else 0)%nat ∧
     instantiated e' = instantiated e).
Proof.
  intros Hn.
  assert (a_num_dims args ≤ -2 ∨ a_num_dims args = -1 ∨ a_num_dims args = 0)
    as [Hlow | [Hm1 | H0]] by lia.
  - exists IndexError, e. split.
    + apply nd_init_index_error. unfold py_index.
      assert (length (base_prims cls) = 3%nat) as -> by by destruct cls.
      cbv zeta. replace (a_num_dims args - 1 - 1 <? 0) with true by lia.
      replace (_ && _) with false; [done |]. symmetry. apply andb_false_iff. left. lia.
    + repeat split; (done || lia).
  - exists (AssertionError (size_msg cls "kernel")), e. split.
    + simpl. unfold nd_init_body. cbv zeta. rewrite Hm1.
      unfold build_bind at 1. unfold lift at 1.
      assert (∃ f, py_index (base_prims cls) (-1 - 1 - 1) = Ok f) as [f ->]
        by (destruct cls; eexists; reflexivity).
      unfold build_bind at 1. unfold py_assert, lift.
      replace (_ =? -1) with false by lia. done.
    + repeat split; (done || lia).
  - destruct (nd_init (S fuel) cls args e) as [[m|x] e'] eqn:E.
    { exfalso. simpl in E. apply nd_init_body_inv in E
        as (f & bias & ws & k0 & _ & _ & Hk & _ & _ & _ & Hk0 & _).
      apply py_index_Ok in Hk0 as [Hr _]. lia. }
    exists x, e'. split; [done |]. split; [lia |]. split; [lia |].
    intros _ Hks Hss Hps Hd Hout.
    simpl in E. unfold nd_init_body in E. cbv zeta in E. rewrite H0, Hks, Hss, Hps, Hd in E.
    unfold build_bind at 1 in E. unfold lift at 1 in E.
    assert (∃ f, py_index (base_prims cls) (0 - 1 - 1) = Ok f) as [f Hf]
      by (destruct cls; eexists; reflexivity).
    rewrite Hf in E.
    unfold py_assert, lift in E. cbn [length Z.of_nat Z.eqb] in E.
    unfold build_bind at 1 in E. unfold build_bind at 1 in E.
    unfold build_bind at 1 in E. unfold build_bind at 1 in E.
    unfold build_bind at 1 in E.
    cbn [use_bias store_args out_channels] in E.
    unfold build_bind, alloc_param, build_ret in E.
    replace (nonneg [a_out_channels args]) with true in E by (cbn [nonneg forallb]; lia).
    destruct (a_use_bias args); cbn in E; inversion E; subst; cbn; repeat split; lia.
Qed.

Lemma nd_init_no_dims_witness :
  ∃ e',
    ConvNd_init 1 (example_args 0 []) example_engine = (Raise IndexError, e') ∧
    allocated e' = 1%nat ∧ instantiated e' = [].
Proof.
  destruct (nd_init_no_dims 0 ConvNd (example_args 0 []) example_engine
              ltac:(simpl; lia))
    as (x & e' & E & _ & _ & H).
  destruct (H eq_refl eq_refl eq_refl eq_refl eq_refl ltac:(simpl; lia)) as (-> & Ha & Hi).
  exists e'. split; [exact E |]. split; [exact Ha | exact Hi].
Defined.

(** ** The fill mode of the transposed class *)

(** X3.  Arguments that [ConvNd] accepts with reflect fill are rejected by
    [ConvTransposeNd] as soon as a child is to be built: the transposed
    primitives of the engine take zero fill only, and the first child
    raises [ValueError].  Nothing but the bias has been allocated by
    then. *)
Theorem ConvTransposeNd_init_reflect fuel args e :
  args_ok ConvNd args = true →
  a_padding_mode args = mode_reflect →
  1 ≤ as_tuple (a_kernel_size args) (a_num_dims args) !!! 0%nat →
  ∃ e', ConvTransposeNd_init (S fuel) args e = (Raise ValueError, e') ∧
        allocated e' = (allocated e + if a_use_bias args then 1 else 0)%nat ∧
        instantiated e' = instantiated e.
Proof.
  intros Hok Hmode Hk01. unfold args_ok in Hok. cbv zeta in Hok.
  repeat rewrite andb_true_iff in Hok.
  destruct Hok as [[[[[[[[[[[[Hn1 Hn4] Hlk] Hls] Hlp] Hdil] Hcin] Hcout] Hg] Hmi] Hmo] Hks] _].
  destruct (py_index_base_prims_Ok ConvTransposeNd (a_num_dims args) ltac:(lia))
    as (f & Hf & Ht).
  unfold ConvTransposeNd_init. simpl. unfold nd_init_body. cbv zeta.
  unfold build_bind at 1. unfold lift at 1. rewrite Hf.
  unfold py_assert, lift.
  unfold build_bind at 1. rewrite Hlk.
  unfold build_bind at 1. rewrite Hls.
  unfold build_bind at 1. rewrite Hlp.
  unfold build_bind at 1. rewrite Hdil.
  unfold build_bind at 1.
  cbn [use_bias store_args out_channels in_channels padding_mode groups kernel_initializer].
  destruct (as_tuple (a_kernel_size args) (a_num_dims args)) as [|k0 ks] eqn:Hkseq;
    [cbn [length] in Hlk; lia |].
  change ((k0 :: ks) !!! 0%nat) with k0 in Hk01.
  set (e1 := {| fresh := fresh e; allocated := S (allocated e);
                instantiated := instantiated e |}).
  exists (if a_use_bias args then e1 else e).
  split; [| destruct (a_use_bias args); cbn; split; (lia || done)].
  assert (∀ e2, build_layers (Z.to_nat k0)
            (conv_layer <~
               (if negb (a_num_dims args - 1 =? a_num_dims args - 1)
                then nd_init fuel ConvTransposeNd (child_args (store_args args f))
                else c <~ base_init f (a_in_channels args) (a_out_channels args)
                            (drop 1 (k0 :: ks))
                            (drop 1 (as_tuple (a_stride args) (a_num_dims args)))
                            (drop 1 (as_tuple (a_padding args) (a_num_dims args)))
                            (a_padding_mode args) (a_groups args) ;;
                     build_ret (Base c)) ;;
             match a_kernel_initializer args with
             | Some f0 => lift (init_weight f0 conv_layer)
             | None => build_ret conv_layer
             end) [] e2 = (Raise ValueError, e2)) as Hloop.
  { intros e2. destruct (Z.to_nat k0) as [|n] eqn:Hk; [lia |].
    cbn [build_layers]. rewrite Z.eqb_refl. cbn [negb].
    unfold build_bind, base_init. rewrite Ht, Hmode.
    replace (_ || _) with true by (symmetry; apply orb_true_r). done. }
  destruct (a_use_bias args).
  - unfold build_bind at 2. unfold alloc_param.
    replace (nonneg [a_out_channels args]) with true by (cbn [nonneg forallb]; lia).
    unfold build_ret at 1. unfold build_bind at 1. rewrite py_index_0.
    unfold build_bind at 1. fold e1. by rewrite Hloop.
  - unfold build_ret at 1. unfold build_bind at 1. rewrite py_index_0.
    unfold build_bind at 1. by rewrite Hloop.
Qed.

Lemma ConvTransposeNd_init_reflect_witness :
  ∃ e', ConvTransposeNd_init 1
          {| a_in_channels := 1; a_out_channels := 1; a_num_dims := 3;
             a_kernel_size := Tup [2; 2; 2]; a_stride := Num 1; a_padding := Num 1;
             a_padding_mode := mode_reflect; a_dilation := 1; a_groups := 1;
             a_rank := 0; a_use_bias := true;
             a_bias_initializer := None; a_kernel_initializer := None |}
          example_engine
        = (Raise ValueError, e') ∧ instantiated e' = [].
Proof.
  destruct (ConvTransposeNd_init_reflect 0
              {| a_in_channels := 1; a_out_channels := 1; a_num_dims := 3;
                 a_kernel_size := Tup [2; 2; 2]; a_stride := Num 1; a_padding := Num 1;
                 a_padding_mode := mode_reflect; a_dilation := 1; a_groups := 1;
                 a_rank := 0; a_use_bias := true;
                 a_bias_initializer := None; a_kernel_initializer := None |}
              example_engine
              ltac:(vm_compute; reflexivity) eq_refl ltac:(vm_compute; discriminate))
    as (e' & E & _ & Hi).
  exists e'. split; [exact E | exact Hi].
Defined.

(** ** Parameters *)

Lemma py_index_elem_of {A : Type} (l : list A) (i : Z) (x : A) :
  py_index l i = Ok x → x ∈ l.
Proof.
  unfold py_index. cbv zeta. destruct (_ && _); [| discriminate].
  destruct (l !! _) eqn:E; [| discriminate]. intros [= <-].
  by eapply list_elem_of_lookup_2.
Qed.

Lemma base_prims_transposed cls i f :
  py_index (base_prims cls) i = Ok f →
  is_transposed f = match cls with ConvNd => false | ConvTransposeNd => true end.
Proof.
  intros H%py_index_elem_of. destruct cls; cbn [base_prims] in H;
    repeat (apply elem_of_cons in H as [-> | H]; [done |]); by apply elem_of_nil in H.
Qed.

(** X4.  The layers of a constructed operator hold together exactly the
    weights of one kernel over all its dimensions: the channel counts of
    the class times the product of all kernel sizes.  The bias, when
    there is one, holds one element per output channel. *)
Theorem nd_init_parameter_count fuel cls args e self bias conv_layers e' :
  nd_init fuel cls args e = (Ok (Nd cls self bias conv_layers), e') →
  0 ≤ kernel_size self !!! 0%nat →
  Zsum (numel <$> layer_weights conv_layers)
  = match cls with
    | ConvNd => out_channels self * (in_channels self / groups self)
    | ConvTransposeNd => in_channels self * (out_channels self / groups self)
    end * Zprod (kernel_size self) ∧
  match bias with
  | Some bt => use_bias self = true ∧ numel bt = out_channels self
  | None => use_bias self = false
  end.
Proof.
  intros H Hk0.
  apply nd_init_weights in H as (f & bias' & ws & Hm & Hf & Hws & Hlen & HF & Hb).
  injection Hm as -> -> ->. set (self := store_args args f) in *.
  apply base_prims_transposed in Hf as Ht.
  rewrite layer_weights_base_layers. split.
  - rewrite (Zsum_ext _ (fun _ => Zprod (layer_weight_shape self))).
    2:{ intros w Hw. rewrite Forall_forall in HF. destruct (HF w Hw) as (g & Hn & ->).
        rewrite numel_initialized. by apply Zprod_to_nat. }
    rewrite Zsum_const, Hws, Z2Nat.id by done.
    unfold layer_weight_shape. change (conv_f self) with f. rewrite Ht.
    destruct (kernel_size self) as [|k0 ks] eqn:Hks; [cbn [length] in Hlen; lia |].
    change ((k0 :: ks) !!! 0%nat) with k0. cbn [drop].
    destruct cls; rewrite !Zprod_cons. all: rewrite drop_0; ring.
  - cbn [use_bias self store_args out_channels].
    destruct (a_use_bias args).
    + destruct Hb as (g & Hout & ->). split; [done |].
      rewrite numel_initialized. cbn [fmap list_fmap Zprod foldr]. lia.
    + by rewrite Hb.
Qed.

Lemma nd_init_parameter_count_witness :
  ∃ self bias conv_layers,
    built (ConvNd_init 1 strided_args example_engine) = Some (Nd ConvNd self bias conv_layers) ∧
    Zsum (numel <$> layer_weights conv_layers) = 24.
Proof.
  eassert (nd_init 1 ConvNd strided_args example_engine = (Ok (Nd ConvNd _ _ _), _)) as E
    by (vm_compute; reflexivity).
  destruct (nd_init_parameter_count _ _ _ _ _ _ _ _ E ltac:(vm_compute; discriminate))
    as [Hsum _].
  eexists _, _, _. split; [unfold built, ConvNd_init; rewrite E; reflexivity |].
  exact Hsum.
Defined.

(** ** Initializers *)

(** X5.  In a constructed operator every layer weight is a fresh tensor of the
    layer weight shape that the kernel initializer, when there is one,
    has rewritten, and the bias is a fresh vector that the bias
    initializer, when there is one, has rewritten; without [use_bias]
    there is no bias and the bias initializer has no effect. *)
Theorem nd_init_initializers fuel cls args e self bias conv_layers e' :
  nd_init fuel cls args e = (Ok (Nd cls self bias conv_layers), e') →
  Forall (fun l => ∃ w0,
            has_shape (Z.to_nat <$> layer_weight_shape self) w0 = true ∧
            l = Base (layer_of self (initialized (kernel_initializer self) w0)))
         conv_layers ∧
  (use_bias self = true →
   ∃ b0, has_shape [Z.to_nat (out_channels self)] b0 = true ∧
         bias = Some (initialized (bias_initializer self) b0)) ∧
  (use_bias self = false → bias = None).
Proof.
  intros H.
  apply nd_init_weights in H as (f & bias' & ws & Hm & Hf & Hws & _ & HF & Hb).
  injection Hm as -> -> ->. set (self := store_args args f) in *.
  split; [| split].
  - unfold base_layers. apply Forall_fmap. eapply Forall_impl; [exact HF |].
    intros w (g & _ & ->). eexists. split; [apply has_shape_tabulate | done].
  - cbn [use_bias self store_args]. intros Hu. rewrite Hu in Hb.
    destruct Hb as (g & _ & ->). eexists. split; [apply (has_shape_tabulate [_]) | done].
  - cbn [use_bias self store_args]. intros Hu. by rewrite Hu in Hb.
Qed.

Lemma nd_init_initializers_witness :
  ∃ self bias conv_layers,
    built (ConvNd_init 1 (example_args 3 [2; 2; 2]) example_engine)
      = Some (Nd ConvNd self bias conv_layers) ∧
    Forall (fun l => ∃ w0, l = Base (layer_of self (tabulate [1; 1; 2; 2]%nat (fun _ => 1))) ∧
                           has_shape [1; 1; 2; 2]%nat w0 = true)
      conv_layers.
Proof.
  eassert (nd_init 1 ConvNd (example_args 3 [2; 2; 2]) example_engine
           = (Ok (Nd ConvNd _ _ _), _)) as E by (vm_compute; reflexivity).
  destruct (nd_init_initializers _ _ _ _ _ _ _ _ E) as (HF & _).
  eexists _, _, _. split; [unfold built, ConvNd_init; rewrite E; reflexivity |].
  eapply Forall_impl; [exact HF |].
  intros l (w0 & Hw0 & ->). exists w0. split; [| exact Hw0].
  do 2 f_equal. cbn [kernel_initializer initialized]. unfold apply_initializer.
  change (Z.to_nat <$> _) with [1; 1; 2; 2]%nat in Hw0.
  rewrite (has_shape_eq _ _ Hw0).
  rewrite tshape_nat_tabulate by (repeat constructor; lia). reflexivity.
Defined.

(** * Further properties of the forward passes *)

(** ** Inputs and configurations that make [forward] raise *)

Lemma comprehension_raise {A B : Type} (f : A → result B) (l1 l2 : list A) (x : A) (e : exn) :
  (∀ y, y ∈ l1 → ∃ v, f y = Ok v) → f x = Raise e →
  comprehension f (l1 ++ x :: l2) = Raise e.
Proof.
  intros Hok Hx. induction l1 as [|y l1 IH]; cbn [app comprehension].
  - by rewrite Hx.
  - destruct (Hok y ltac:(set_solver)) as [v ->]. cbn [mbind result_bind].
    rewrite IH; [done |]. intros z Hz. apply Hok. set_solver.
Qed.

Lemma drop_all_length {A : Type} (n : nat) (l : list A) : length l = n → drop n l = [].
Proof. intros <-. apply drop_all. Qed.

(** X6.  An input without a spatial axis never reaches a layer.  A top-level
    [ConvNd] raises [IndexError] on every input of fewer than three
    axes, at [inputShape[2]].  A [ConvTransposeNd], and a [ConvNd] of
    non-zero rank, raise [ValueError] on an input of fewer than two axes
    (the unpacking of [input.shape[0:2]]) and [IndexError] on an input of
    two axes (at [size_o[0]], the tuple of output sizes being empty). *)
Theorem forward_too_few_axes cls self bias conv_layers x :
  (length (tshape x) < 3)%nat →
  forward (Nd cls self bias conv_layers) x
  = Raise (match cls with
           | ConvNd =>
               if rank self =? 0 then IndexError
               else if (length (tshape x) <? 2)%nat then ValueError else IndexError
           | ConvTransposeNd =>
               if (length (tshape x) <? 2)%nat then ValueError else IndexError
           end).
Proof.
  intros Hlen. cbn [forward]. destruct cls.
  - unfold ConvNd_forward_body. destruct (rank self =? 0).
    + rewrite (py_index_out (tshape x) 2) by lia. done.
    + cbn [mbind result_bind]. destruct (length (tshape x) <? 2)%nat eqn:H2; [done |].
      cbn [mbind result_bind].
      rewrite (drop_all_length 2 (tshape x)) by lia. done.
  - unfold ConvTransposeNd_forward_body.
    destruct (length (tshape x) <? 2)%nat eqn:H2; [done |].
    cbn [mbind result_bind].
    rewrite (drop_all_length 2 (tshape x)) by lia. done.
Qed.

Lemma forward_too_few_axes_witness :
  forward (Nd ConvTransposeNd (store_args transposed_args ConvTranspose1d) None [])
    (ones [2; 3]%nat) = Raise IndexError ∧
  forward (Nd ConvTransposeNd (store_args transposed_args ConvTranspose1d) None [])
    (ones [2]%nat) = Raise ValueError.
Proof.
  split.
  - apply (forward_too_few_axes ConvTransposeNd (store_args transposed_args ConvTranspose1d)
             None [] (ones [2; 3]%nat)).
    vm_compute. lia.
  - apply (forward_too_few_axes ConvTransposeNd (store_args transposed_args ConvTranspose1d)
             None [] (ones [2]%nat)).
    vm_compute. lia.
Defined.

Lemma comprehension_raise_any {A B : Type} (f : A → result B) (l : list A) (e : exn) :
  (∀ y, y ∈ l → (∃ v, f y = Ok v) ∨ f y = Raise e) →
  (∃ y, y ∈ l ∧ f y = Raise e) →
  comprehension f l = Raise e.
Proof.
  intros Hall (y & Hy & Hfy). induction l as [|z l IH]; [by apply elem_of_nil in Hy |].
  cbn [comprehension].
  destruct (Hall z ltac:(set_solver)) as [[v Hv] | Hz]; [| by rewrite Hz].
  rewrite Hv. cbn [mbind result_bind].
  rewrite IH; [done | intros w Hw; apply Hall; set_solver |].
  apply elem_of_cons in Hy as [-> | Hy]; [congruence | done].
Qed.

(** The output sizes of [ConvNd.forward] when some stride is zero. *)
Lemma ConvNd_size_o_zero_stride size_i ps ks ss :
  (length size_i ≤ length ps)%nat → (length size_i ≤ length ks)%nat →
  length size_i = length ss → 0 ∈ ss →
  comprehension
    (fun x : nat =>
       si ← py_index size_i (Z.of_nat x);
       p ← py_index ps (Z.of_nat x);
       k ← py_index ks (Z.of_nat x);
       s ← py_index ss (Z.of_nat x);
       if s =? 0 then Raise ZeroDivisionError else Ok ((si + 2 * p - k) / s + 1))
    (seq 0 (length size_i))
  = Raise ZeroDivisionError.
Proof.
  intros Hp Hk Hs Hz. apply comprehension_raise_any.
  - intros x Hx%elem_of_seq. rewrite !py_index_total by lia. cbn [mbind result_bind].
    destruct (ss !!! x =? 0); [by right | left; eauto].
  - apply list_elem_of_lookup in Hz as [a Ha]. exists a.
    pose proof (lookup_lt_Some _ _ _ Ha) as Hlt.
    split; [apply elem_of_seq; lia |].
    rewrite !py_index_total by lia. cbn [mbind result_bind].
    by rewrite (list_lookup_total_correct _ _ _ Ha).
Qed.

Lemma ConvNd_forward_body_zero_stride self bias layers b c l0 sh_in f :
  Forall (fun m => (0 < m)%nat) (b :: c :: l0 :: sh_in) →
  length (kernel_size self) = S (length sh_in) →
  length (stride self) = S (length sh_in) →
  length (padding self) = S (length sh_in) →
  (rank self = 0 →
   0 ≤ padding self !!! 0%nat ∧
   (padding_mode self = mode_reflect → padding self !!! 0%nat < Z.of_nat l0)) →
  0 ∈ stride self →
  ConvNd_forward_body self bias layers (tabulate (b :: c :: l0 :: sh_in) f)
  = Raise ZeroDivisionError.
Proof.
  intros Hpos Hlk Hls Hlp Hpad Hz. unfold ConvNd_forward_body.
  destruct (rank self =? 0) eqn:Hr.
  - destruct (Hpad ltac:(lia)) as [Hp0 Hrefl].
    rewrite tshape_tabulate by done.
    replace (py_index (Z.of_nat <$> b :: c :: l0 :: sh_in) 2) with (Ok (Z.of_nat l0))
      by (symmetry; by apply (py_index_nat _ 2%nat)).
    cbn [mbind result_bind].
    rewrite (py_index_head (padding self)) by lia. cbn [mbind result_bind].
    rewrite F_pad_tabulate by done. cbn [mbind result_bind].
    set (lp := (l0 + 2 * Z.to_nat (padding self !!! 0%nat))%nat).
    assert (Forall (fun m => (0 < m)%nat) (b :: c :: lp :: sh_in)) as Hpos'.
    { inversion Hpos as [|?? Hb H1]; subst. inversion H1 as [|?? Hc H2]; subst.
      inversion H2 as [|?? Hl H3]; subst. repeat constructor; try done. lia. }
    rewrite !tshape_tabulate by done.
    change (drop 2 (Z.of_nat <$> b :: c :: lp :: sh_in))
      with (Z.of_nat lp :: (Z.of_nat <$> sh_in)).
    replace (length (Z.of_nat <$> b :: c :: lp :: sh_in) <? 2)%nat with false
      by (rewrite length_fmap; cbn [length]; lia).
    cbn [mbind result_bind].
    rewrite ConvNd_size_o_zero_stride;
      rewrite ?length_insert; cbn [length]; rewrite ?length_fmap; (lia || done).
  - cbn [mbind result_bind].
    rewrite !tshape_tabulate by done.
    change (drop 2 (Z.of_nat <$> b :: c :: l0 :: sh_in))
      with (Z.of_nat l0 :: (Z.of_nat <$> sh_in)).
    replace (length (Z.of_nat <$> b :: c :: l0 :: sh_in) <? 2)%nat with false
      by (rewrite length_fmap; cbn [length]; lia).
    cbn [mbind result_bind].
    rewrite ConvNd_size_o_zero_stride;
      cbn [length]; rewrite ?length_fmap; (lia || done).
Qed.

(** X7.  A zero stride is not rejected at construction: the constructor of
    [ConvNd] returns an operator, and every call of it on an input with
    one spatial axis per dimension (and which the padding step accepts)
    raises [ZeroDivisionError], at the computation of the output sizes,
    before any layer is called. *)
Theorem ConvNd_zero_stride fuel args e :
  args_ok ConvNd args = true →
  0 ∈ as_tuple (a_stride args) (a_num_dims args) →
  ∃ m e',
    ConvNd_init (S fuel) args e = (Ok m, e') ∧
    ∀ b c l0 sh_in f,
      Forall (fun m => (0 < m)%nat) (b :: c :: l0 :: sh_in) →
      Z.of_nat (S (length sh_in)) = a_num_dims args →
      (a_rank args = 0 →
       0 ≤ as_tuple (a_padding args) (a_num_dims args) !!! 0%nat ∧
       (a_padding_mode args = mode_reflect →
        as_tuple (a_padding args) (a_num_dims args) !!! 0%nat < Z.of_nat l0)) →
      forward m (tabulate (b :: c :: l0 :: sh_in) f) = Raise ZeroDivisionError.
Proof.
  intros Hok Hz.
  destruct (nd_init_succeeds fuel ConvNd args e Hok) as (m & e' & H).
  exists m, e'. split; [exact H |].
  simpl in H. apply nd_init_body_inv in H
    as (f0 & bias & ws & k0 & _ & -> & Hlk & Hls & Hlp & _).
  intros b c l0 sh_in f Hpos Hn Hpad. cbn [forward].
  apply ConvNd_forward_body_zero_stride; try done;
    cbn [store_args kernel_size stride padding]; lia.
Qed.

Lemma ConvNd_zero_stride_witness :
  ∃ m, built (ConvNd_init 1
                {| a_in_channels := 1; a_out_channels := 1; a_num_dims := 2;
                   a_kernel_size := Tup [2; 2]; a_stride := Tup [1; 0]; a_padding := Num 0;
                   a_padding_mode := mode_zeros; a_dilation := 1; a_groups := 1;
                   a_rank := 0; a_use_bias := true;
                   a_bias_initializer := None; a_kernel_initializer := None |}
                example_engine) = Some m ∧
       forward m (ones [1; 1; 3; 3]%nat) = Raise ZeroDivisionError.
Proof.
  destruct (ConvNd_zero_stride 0
              {| a_in_channels := 1; a_out_channels := 1; a_num_dims := 2;
                 a_kernel_size := Tup [2; 2]; a_stride := Tup [1; 0]; a_padding := Num 0;
                 a_padding_mode := mode_zeros; a_dilation := 1; a_groups := 1;
                 a_rank := 0; a_use_bias := true;
                 a_bias_initializer := None; a_kernel_initializer := None |}
              example_engine
              ltac:(vm_compute; reflexivity)
              ltac:(simpl; apply elem_of_cons; right; apply elem_of_cons; by left))
    as (m & e' & E & H).
  exists m. split; [unfold built; by rewrite E |].
  apply (H 1%nat 1%nat 3%nat [3%nat] (fun _ => 1)).
  - repeat constructor; lia.
  - reflexivity.
  - intros _. split; [vm_compute; discriminate | discriminate].
Defined.

Lemma for_each_skip {A S : Type} (xs : list A) (body : A → S → result S) st :
  (∀ x st, x ∈ xs → body x st = Ok st) → for_each xs body st = Ok st.
Proof.
  intros H. induction xs as [|x xs IH]; [done |].
  cbn [for_each]. rewrite H by set_solver. cbn [mbind result_bind].
  apply IH. intros y st' Hy. apply H. set_solver.
Qed.

(** When no pair of a kernel offset and an input position has a target
    frame, the loops call no layer and leave the accumulators alone. *)
Lemma overlap_add_no_target layers input target k l st :
  (∀ i j, target i j = None) → overlap_add layers input target k l st = Ok st.
Proof.
  intros H. unfold overlap_add. apply for_each_skip. intros i st1 _.
  apply for_each_skip. intros j st2 _. unfold overlap_add_body. by rewrite H.
Qed.

Lemma torch_zeros_cases sh :
  (∃ z, torch_zeros sh = Ok z) ∨ torch_zeros sh = Raise RuntimeError.
Proof. unfold torch_zeros. destruct (nonneg sh); eauto. Qed.

Lemma ConvNd_target_none k0 L ons s0 n i j : n ≤ 0 → ConvNd_target k0 L ons s0 n i j = None.
Proof.
  intros Hn. unfold ConvNd_target. cbv zeta.
  match goal with |- (if ?c then _ else _) = _ => replace c with true; [done |] end.
  symmetry. rewrite !orb_true_iff. lia.
Qed.

Lemma ConvTransposeNd_target_none k0 p0 n i j : n ≤ 0 → ConvTransposeNd_target k0 p0 n i j = None.
Proof.
  intros Hn. unfold ConvTransposeNd_target. cbv zeta.
  match goal with |- (if ?c then _ else _) = _ => replace c with true; [done |] end.
  symmetry. rewrite !orb_true_iff. lia.
Qed.

Lemma py_repeat_nonpos {A : Type} (n : Z) (x : A) : n ≤ 0 → py_repeat n x = [].
Proof. intros H. unfold py_repeat. by replace (Z.to_nat n) with 0%nat by lia. Qed.

(** The part of [ConvNd.forward] after the padding step, when the
    number of output frames is not positive. *)
Lemma ConvNd_forward_no_frames (self : attrs) bias layers (padding' : list Z)
    (b c lp : nat) (sh_in : list nat) (g : list nat → Z) :
  Forall (fun m => (0 < m)%nat) (b :: c :: lp :: sh_in) →
  length (kernel_size self) = S (length sh_in) →
  length (stride self) = S (length sh_in) →
  length padding' = S (length sh_in) →
  Forall (fun s => s ≠ 0) (stride self) →
  conv_out_len (Z.of_nat lp) (kernel_size self !!! 0%nat) (stride self !!! 0%nat)
    (padding' !!! 0%nat) ≤ 0 →
  (let input := tabulate (b :: c :: lp :: sh_in) g in
   let shape := tshape input in
   _ ← (if (length shape <? 2)%nat then Raise ValueError else Ok tt);
   let b := shape !!! 0%nat in
   let size_i := drop 2 shape in
   let size_k := kernel_size self in
   size_o ← comprehension
     (fun x : nat =>
        si ← py_index size_i (Z.of_nat x);
        p ← py_index padding' (Z.of_nat x);
        k ← py_index size_k (Z.of_nat x);
        s ← py_index (stride self) (Z.of_nat x);
        if s =? 0 then Raise ZeroDivisionError
        else Ok ((si + 2 * p - k) / s + 1))
     (seq 0 (length size_i));
   size_ons ← comprehension
     (fun x : nat =>
        si ← py_index size_i (Z.of_nat x);
        k ← py_index size_k (Z.of_nat x);
        Ok (si - k + 1))
     (seq 0 (length size_i));
   size_o0 ← py_index size_o 0;
   zero_frame ← torch_zeros (b :: out_channels self :: drop 1 size_o);
   let frame_results := py_repeat size_o0 zero_frame in
   let empty_frames := py_repeat size_o0 (None : option Z) in
   size_k0 ← py_index size_k 0;
   size_i0 ← py_index size_i 0;
   size_ons0 ← py_index size_ons 0;
   stride0 ← py_index (stride self) 0;
   '(frame_results, _) ←
      overlap_add layers input
        (ConvNd_target size_k0 size_i0 size_ons0 stride0 size_o0)
        size_k0 size_i0 (frame_results, empty_frames);
   res ← torch_stack2 frame_results;
   add_bias self bias res) = Raise RuntimeError.
Proof.
  intros Hpos Hlk Hls Hlp Hnz Hn. cbv zeta.
  rewrite !tshape_tabulate by done.
  change (drop 2 (Z.of_nat <$> b :: c :: lp :: sh_in))
    with (Z.of_nat lp :: (Z.of_nat <$> sh_in)).
  replace (length (Z.of_nat <$> b :: c :: lp :: sh_in) <? 2)%nat with false
    by (rewrite length_fmap; cbn [length]; lia).
  assert (length (Z.of_nat lp :: (Z.of_nat <$> sh_in)) = S (length sh_in)) as Hlen_i
    by (cbn [length]; by rewrite length_fmap).
  cbn [mbind result_bind].
  rewrite ConvNd_size_o by (lia || done). cbn [mbind result_bind].
  rewrite ConvNd_size_ons by lia. cbn [mbind result_bind].
  rewrite out_sizes_cons. rewrite py_index_0. cbn [mbind result_bind].
  destruct (torch_zeros_cases
              ((Z.of_nat <$> b :: c :: lp :: sh_in) !!! 0%nat :: out_channels self
               :: drop 1 (conv_out_len (Z.of_nat lp) (kernel_size self !!! 0%nat)
                            (stride self !!! 0%nat) (padding' !!! 0%nat)
                          :: out_sizes false (Z.of_nat <$> sh_in) (drop 1 (kernel_size self))
                               (drop 1 (stride self)) (drop 1 padding'))))
    as [[z ->] | ->]; [| done].
  cbn [mbind result_bind].
  rewrite (py_index_head (kernel_size self)) by lia. cbn [mbind result_bind].
  rewrite py_index_0. cbn [mbind result_bind].
  rewrite Hlen_i. cbn [seq]. rewrite fmap_cons. rewrite py_index_0.
  cbn [mbind result_bind].
  rewrite (py_index_head (stride self)) by lia. cbn [mbind result_bind].
  rewrite overlap_add_no_target by (intros i j; by apply ConvNd_target_none).
  cbn [mbind result_bind]. by rewrite py_repeat_nonpos.
Qed.

(** X8.  When the size formula gives no output frame (for [ConvNd], a
    leading kernel size larger than the padded input), [forward] calls no
    layer: whatever the layers are, it raises the engine's
    [RuntimeError], for a tensor with a negative extent or for the
    stack of an empty list of frames. *)
Theorem forward_no_output_frame cls self bias conv_layers b c l0 sh_in f :
  Forall (fun m => (0 < m)%nat) (b :: c :: l0 :: sh_in) →
  length (kernel_size self) = S (length sh_in) →
  length (stride self) = S (length sh_in) →
  length (padding self) = S (length sh_in) →
  (cls = ConvNd →
   Forall (fun s => s ≠ 0) (stride self) ∧
   (rank self = 0 →
    0 ≤ padding self !!! 0%nat ∧
    (padding_mode self = mode_reflect → padding self !!! 0%nat < Z.of_nat l0))) →
  spec_out_len cls (Z.of_nat l0) (kernel_size self !!! 0%nat) (stride self !!! 0%nat)
    (padding self !!! 0%nat) ≤ 0 →
  forward (Nd cls self bias conv_layers) (tabulate (b :: c :: l0 :: sh_in) f)
  = Raise RuntimeError.
Proof.
  intros Hpos Hlk Hls Hlp Hconv Hn. cbn [forward]. destruct cls; cbn [spec_out_len] in Hn.
  - destruct (Hconv eq_refl) as [Hnz Hpad]. unfold ConvNd_forward_body.
    destruct (rank self =? 0) eqn:Hr.
    + destruct (Hpad ltac:(lia)) as [Hp0 Hrefl].
      rewrite tshape_tabulate by done.
      replace (py_index (Z.of_nat <$> b :: c :: l0 :: sh_in) 2) with (Ok (Z.of_nat l0))
        by (symmetry; by apply (py_index_nat _ 2%nat)).
      cbn [mbind result_bind].
      rewrite (py_index_head (padding self)) by lia. cbn [mbind result_bind].
      rewrite F_pad_tabulate by done. cbn [mbind result_bind].
      apply (ConvNd_forward_no_frames self bias _ (<[0%nat := 0]> (padding self)));
        rewrite ?length_insert; try done.
      * inversion Hpos as [|?? Hb H1]; subst. inversion H1 as [|?? Hc H2]; subst.
        inversion H2 as [|?? Hl H3]; subst. repeat constructor; try done. lia.
      * rewrite lookup_total_insert_0 by lia. unfold conv_out_len.
        replace (Z.of_nat (l0 + 2 * Z.to_nat (padding self !!! 0%nat)) + 2 * 0)
          with (Z.of_nat l0 + 2 * padding self !!! 0%nat) by lia.
        done.
    + cbn [mbind result_bind].
      by apply (ConvNd_forward_no_frames self bias _ (padding self)).
  - unfold ConvTransposeNd_forward_body.
    rewrite !tshape_tabulate by done.
    change (drop 2 (Z.of_nat <$> b :: c :: l0 :: sh_in))
      with (Z.of_nat l0 :: (Z.of_nat <$> sh_in)).
    replace (length (Z.of_nat <$> b :: c :: l0 :: sh_in) <? 2)%nat with false
      by (rewrite length_fmap; cbn [length]; lia).
    assert (length (Z.of_nat l0 :: (Z.of_nat <$> sh_in)) = S (length sh_in)) as Hlen_i
      by (cbn [length]; by rewrite length_fmap).
    cbn [mbind result_bind].
    rewrite ConvTransposeNd_size_o by lia. cbn [mbind result_bind].
    rewrite out_sizes_cons. rewrite py_index_0. cbn [mbind result_bind].
    destruct (torch_zeros_cases
                ((Z.of_nat <$> b :: c :: l0 :: sh_in) !!! 0%nat :: out_channels self
                 :: drop 1 (convT_out_len (Z.of_nat l0) (kernel_size self !!! 0%nat)
                              (stride self !!! 0%nat) (padding self !!! 0%nat)
                            :: out_sizes true (Z.of_nat <$> sh_in) (drop 1 (kernel_size self))
                                 (drop 1 (stride self)) (drop 1 (padding self)))))
      as [[z ->] | ->]; [| done].
    cbn [mbind result_bind].
    rewrite (py_index_head (kernel_size self)) by lia. cbn [mbind result_bind].
    rewrite py_index_0. cbn [mbind result_bind].
    rewrite (py_index_head (padding self)) by lia. cbn [mbind result_bind].
    rewrite overlap_add_no_target
      by (intros i j; apply ConvTransposeNd_target_none; unfold convT_out_len; lia).
    cbn [mbind result_bind]. rewrite py_repeat_nonpos; [done |].
    unfold convT_out_len. lia.
Qed.

Lemma forward_no_output_frame_witness :
  forward (Nd ConvNd (store_args (example_args 2 [5; 2]) Conv1d) None [])
    (ones [1; 1; 3; 3]%nat)
  = Raise RuntimeError.
Proof.
  apply (forward_no_output_frame ConvNd (store_args (example_args 2 [5; 2]) Conv1d)
           None [] 1 1 3 [3%nat] (fun _ => 1)).
  - repeat constructor; lia.
  - reflexivity.
  - reflexivity.
  - reflexivity.
  - intros _. split; [repeat constructor; discriminate |].
    intros _. split; [vm_compute; discriminate | discriminate].
  - vm_compute. discriminate.
Defined.

(** ** The transposed decomposition against the direct primitive *)

Section direct_transposed_elem.
Variables (self : attrs) (bias : option tensor) (ws : list tensor) (d : base_prim).
Variables (b c l0 : nat) (sh_in : list nat) (f : list nat → Z) (bf : list nat → Z).

Let sh := b :: c :: l0 :: sh_in.
Let k0 := kernel_size self !!! 0%nat.
Let p0 := padding self !!! 0%nat.
Let cout := Z.to_nat (out_channels self).

Hypothesis accepted : nd_accepts ConvTransposeNd self (Z.of_nat <$> sh) = true.
Hypothesis one_weight_per_offset : length ws = Z.to_nat k0.
Hypothesis bias_shape : use_bias self = true → bias = Some (tabulate [cout] bf).
Hypothesis direct_is_transposed : is_transposed d = true.
Hypothesis unit_stride : stride self !!! 0%nat = 1.

Lemma direct_convT_elem ib co o os :
  (ib < b)%nat → (co < cout)%nat →
  base_elem (direct_convT d self bias (base_layers self ws)) (tabulate sh f)
    (ib :: co :: o :: os)
  = transpose_frames
      (fun i j => base_elem (layer_of self (ws !!! i)) (slice2 j (tabulate sh f)))
      k0 p0 (Z.to_nat k0) l0 o (ib :: co :: os)
    + (if use_bias self then bf [co] else 0).
Proof.
  intros Hib Hco.
  destruct (accepted_lengths _ _ _ _ _ _ accepted) as (Hk & Hs & Hp & Hd & Ht).
  destruct (accepted_channels _ _ _ _ _ _ accepted)
    as (Hb & Hc & Hcin & Hg & Hig & Hog & Hcout & _).
  unfold base_elem at 1.
  cbn [direct_convT prim b_kernel_size b_stride b_padding b_in_channels b_out_channels
         b_groups b_padding_mode weight b_bias].
  cbv zeta. rewrite direct_is_transposed, layer_weights_base_layers.
  rewrite axes_cons by lia. fold k0 p0. rewrite unit_stride.
  f_equal.
  2:{ destruct (use_bias self); [| done]. rewrite (bias_shape eq_refl).
      apply (tget_tabulate [cout] bf [co]). by repeat constructor. }
  unfold transpose_frames.
  pose proof (Z.div_exact (out_channels self) (groups self) ltac:(lia)) as [_ Hoge].
  specialize (Hoge Hog).
  assert (1 ≤ out_channels self / groups self) as Hog1 by nia.
  pose proof (Z.mod_pos_bound (Z.of_nat co) (out_channels self / groups self) ltac:(lia))
    as Hmod.
  (* the layers' side, one offset at a time *)
  rewrite (Zsum_ext _
    (fun i => Zsum ((fun ci : nat =>
       let cin := Z.to_nat (Z.of_nat co / (out_channels self / groups self)
                            * (in_channels self / groups self) + Z.of_nat ci) in
       let t := Z.of_nat o + p0 - Z.of_nat i in
       if (0 <=? t) && (t <? Z.of_nat l0)
       then tcorr_at
              (axes (drop 1 (kernel_size self)) (drop 1 (stride self)) (drop 1 (padding self)))
              (row (Z.to_nat (Z.of_nat co mod (out_channels self / groups self)))
                 (row cin (ws !!! i)))
              (row (Z.to_nat t) (row cin (row ib (tabulate sh f)))) os
       else 0)
       <$> range (in_channels self / groups self))) (seq 0 (Z.to_nat k0))).
  2:{ intros i Hi%elem_of_seq. cbv zeta.
      destruct ((0 <=? Z.of_nat o + p0 - Z.of_nat i)
                && (Z.of_nat o + p0 - Z.of_nat i <? Z.of_nat l0)) eqn:Hin.
      - rewrite (Zsum_single _ _ (Z.to_nat (Z.of_nat o + p0 - Z.of_nat i))).
        + rewrite decide_True by lia.
          unfold base_elem.
          cbn [layer_of prim b_kernel_size b_stride b_padding b_in_channels
                 b_out_channels b_groups b_padding_mode weight b_bias].
          cbv zeta. rewrite Ht. rewrite Z.add_0_r.
          unfold range. apply Zsum_ext. intros ci Hci%elem_of_seq.
          pose proof (group_channel_lt (in_channels self) (out_channels self)
                        (groups self) co ci Hg Hig Hog Hcout ltac:(lia) ltac:(lia)) as Hch.
          f_equal. unfold sh.
          rewrite slice2_tabulate by lia.
          rewrite !(row_tabulate b) by done. rewrite !(row_tabulate c) by lia.
          rewrite (row_tabulate l0) by lia. done.
        + apply NoDup_seq.
        + apply elem_of_seq. lia.
        + intros j _ Hne. rewrite decide_False; [done | lia].
      - rewrite Zsum_zero.
        + symmetry. apply Zsum_zero. done.
        + intros j Hj%elem_of_seq. rewrite decide_False; [done | lia]. }
  rewrite Zsum_exchange. unfold range.
  apply Zsum_ext. intros ci Hci%elem_of_seq.
  pose proof (group_channel_lt (in_channels self) (out_channels self) (groups self) co ci
                Hg Hig Hog Hcout ltac:(lia) ltac:(lia)) as Hch.
  set (cin := Z.to_nat (Z.of_nat co / (out_channels self / groups self)
                        * (in_channels self / groups self) + Z.of_nat ci)) in *.
  assert (cin < c)%nat as Hcin_lt by lia.
  cbn [tcorr_at]. unfold range. apply Zsum_ext. intros i Hi%elem_of_seq. cbv zeta.
  unfold sh. rewrite (row_tabulate b) by done. rewrite (row_tabulate c) by done.
  rewrite rows_tabulate, length_fmap, length_seq.
  rewrite Z.mod_1_r, Z.div_1_r. rewrite Z.eqb_refl. cbn [andb].
  rewrite row_stack2 by lia. done.
Qed.
End direct_transposed_elem.

Lemma direct_transposed_accepts d self bias layers b c l0 sh_in :
  nd_accepts ConvTransposeNd self (Z.of_nat <$> b :: c :: l0 :: sh_in) = true →
  spatial_dims d = S (length sh_in) → is_transposed d = true →
  base_accepts (direct_convT d self bias layers) (Z.of_nat <$> b :: c :: l0 :: sh_in) = true.
Proof.
  intros Hacc Hd Ht.
  destruct (accepted_lengths _ _ _ _ _ _ Hacc) as (Hk & Hs & Hp & _ & _).
  destruct (accepted_channels _ _ _ _ _ _ Hacc) as (Hb & Hc & Hcin & Hg & Hig & Hog & Hco & _).
  unfold base_accepts.
  cbn [direct_convT prim b_kernel_size b_stride b_padding b_in_channels b_out_channels
         b_groups b_padding_mode].
  rewrite length_fmap. cbn [length].
  change ((Z.of_nat <$> b :: c :: l0 :: sh_in) !!! 0%nat) with (Z.of_nat b).
  change ((Z.of_nat <$> b :: c :: l0 :: sh_in) !!! 1%nat) with (Z.of_nat c).
  repeat (apply andb_true_iff; split); try lia.
  apply forallb_forall. intros x Hx%in_seq. rewrite Ht.
  apply (accepted_axis _ _ _ _ _ _ Hacc x). lia.
Qed.

(** X9.  With a unit stride along the leading axis, a constructed
    [ConvTransposeNd] operator computes the transposed convolution over
    all its spatial axes, for every number of dimensions the constructor
    admits, four included: on every input it accepts, the element at
    every index of the output is the sum that defines the engine's
    transposed convolution, taken over all the axes of the kernel
    obtained by stacking the layers' weights along the leading kernel
    axis, plus the bias.  When the transposed primitive [d] has as many
    spatial dimensions as the operator (two or three), the operator
    returns what [d] returns in one call when it is configured like the
    operator and holds that kernel and the operator's bias.  The strides
    of the other axes are free. *)
Theorem ConvTransposeNd_matches_direct fuel args e self bias conv_layers e' d x sh :
  ConvTransposeNd_init fuel args e = (Ok (Nd ConvTransposeNd self bias conv_layers), e') →
  is_transposed d = true →
  has_shape sh x = true →
  nd_accepts ConvTransposeNd self (Z.of_nat <$> sh) = true →
  stride self !!! 0%nat = 1 →
  ∃ y, forward (Nd ConvTransposeNd self bias conv_layers) x = Ok y ∧
       (∀ idx, in_shape idx (tshape_nat y) →
               tget y idx = base_elem (direct_convT d self bias conv_layers) x idx) ∧
       (Z.of_nat (spatial_dims d) = num_dims self →
        base_forward (direct_convT d self bias conv_layers) x = Ok y).
Proof.
  intros Hinit Htr Hx Hacc Hs1.
  apply nd_init_inv in Hinit as (self' & bias' & ws & bf & Hm & Hws & Hb & _ & _ & Hlen & _).
  injection Hm as <- <- ->.
  rewrite (has_shape_eq _ _ Hx). set (f := tget x).
  exists (ConvTransposeNd_output self ws bf sh f).
  split; [by apply ConvTransposeNd_forward_closed |].
  destruct (to_nat_shape_pos _ (nd_out_shape_pos _ _ _ Hacc)) as [Hpos Hid].
  destruct (accepted_shape _ _ _ Hacc) as (b & c & l0 & sh_in & ->).
  destruct (accepted_lengths _ _ _ _ _ _ Hacc) as (Hk & _).
  pose proof (accepted_extents _ _ _ _ _ _ Hacc) as Hext.
  assert (∀ idx,
            in_shape idx (Z.to_nat <$> nd_out_shape ConvTransposeNd self
                                         (Z.of_nat <$> b :: c :: l0 :: sh_in)) →
            from_axis2
              (transpose_frames
                 (fun i j => base_elem (layer_of self (ws !!! i))
                               (slice2 j (tabulate (b :: c :: l0 :: sh_in) f)))
                 (kernel_size self !!! 0%nat) (padding self !!! 0%nat)
                 (Z.to_nat (kernel_size self !!! 0%nat)) ((b :: c :: l0 :: sh_in) !!! 2%nat))
              idx
            + (if use_bias self then bias_at bf idx else 0)
            = base_elem (direct_convT d self bias (base_layers self ws))
                (tabulate (b :: c :: l0 :: sh_in) f) idx) as Helem.
  { intros idx Hidx.
    unfold nd_out_shape, in_shape in Hidx.
    change (drop 2 (Z.of_nat <$> b :: c :: l0 :: sh_in))
      with (Z.of_nat l0 :: (Z.of_nat <$> sh_in)) in Hidx.
    change ((Z.of_nat <$> b :: c :: l0 :: sh_in) !!! 0%nat) with (Z.of_nat b) in Hidx.
    rewrite out_sizes_cons, !fmap_cons in Hidx.
    inversion Hidx as [|ib ? idx1 ? Hib H1]; subst.
    inversion H1 as [|co ? idx2 ? Hco H2]; subst.
    inversion H2 as [|o ? os ? Ho Hos]; subst.
    rewrite (direct_convT_elem self bias ws d b c l0 sh_in f bf Hacc Hws Hb Htr Hs1
               ib co o os); [done | lia | lia]. }
  split.
  - intros idx Hidx. unfold ConvTransposeNd_output in *.
    rewrite tshape_nat_tabulate in Hidx by done.
    rewrite tget_tabulate by done. by apply Helem.
  - intros Hdims. unfold base_forward. rewrite tshape_tabulate by done.
    rewrite direct_transposed_accepts by (done || lia).
    f_equal. unfold ConvTransposeNd_output.
    replace (base_out_shape (direct_convT d self bias (base_layers self ws))
               (Z.of_nat <$> b :: c :: l0 :: sh_in))
      with (nd_out_shape ConvTransposeNd self (Z.of_nat <$> b :: c :: l0 :: sh_in))
      by (unfold base_out_shape, nd_out_shape; cbn [direct_convT prim b_kernel_size b_stride
            b_padding b_out_channels]; by rewrite Htr).
    apply tabulate_ext. intros idx Hidx. symmetry. by apply Helem.
Qed.

Lemma ConvTransposeNd_matches_direct_witness :
  ∃ m self bias conv_layers y,
    built (ConvTransposeNd_init 1 transposed_args example_engine) = Some m ∧
    m = Nd ConvTransposeNd self bias conv_layers ∧
    forward m strided_input = Ok y ∧
    base_forward (direct_convT ConvTranspose2d self bias conv_layers) strided_input = Ok y.
Proof.
  eassert (ConvTransposeNd_init 1 transposed_args example_engine
           = (Ok (Nd ConvTransposeNd _ _ _), _)) as E
    by (vm_compute; reflexivity).
  destruct (ConvTransposeNd_matches_direct _ _ _ _ _ _ _ ConvTranspose2d strided_input
              [1; 2; 4; 3]%nat E eq_refl
              ltac:(vm_compute; reflexivity) ltac:(vm_compute; reflexivity) eq_refl)
    as (y & Hy & _ & Hd).
  eexists _, _, _, _, y. split; [unfold built; rewrite E; reflexivity |].
  split; [reflexivity |]. split; [exact Hy |]. exact (Hd eq_refl).
Defined.

(** ** The frames of [ConvNd] *)



(** ** The leading stride *)

Lemma layer_of_with_leading_stride s self w :
  layer_of (with_leading_stride s self) w = layer_of self w.
Proof.
  unfold layer_of. cbn [with_leading_stride conv_f in_channels out_channels kernel_size
    stride padding padding_mode groups]. by rewrite drop_1_insert_0.
Qed.

Lemma base_layers_with_leading_stride s self ws :
  base_layers (with_leading_stride s self) ws = base_layers self ws.
Proof.
  unfold base_layers. apply list_fmap_ext. intros i w _.
  by rewrite layer_of_with_leading_stride.
Qed.

Lemma lookup_total_insert_0_ne (s : Z) (l : list Z) (x : nat) :
  x ≠ 0%nat → <[0%nat := s]> l !!! x = l !!! x.
Proof. intros Hx. destruct l as [|a l], x as [|x]; done. Qed.

(** An operator that accepts an input accepts it with a unit stride
    along the leading axis as well. *)
Lemma nd_accepts_unit_stride self xs :
  nd_accepts ConvNd self xs = true →
  nd_accepts ConvNd (with_leading_stride 1 self) xs = true.
Proof.
  intros H. unfold nd_accepts in *. cbv zeta in *. split_andb H.
  cbn [with_leading_stride conv_f in_channels out_channels kernel_size stride padding
         padding_mode groups rank].
  rewrite length_insert.
  repeat (apply andb_true_iff; split); try done.
  rewrite forallb_forall in Hacc0 |- *. intros x Hx.
  specialize (Hacc0 x Hx). apply in_seq in Hx.
  destruct (decide (x = 0%nat)) as [-> | Hne].
  - rewrite lookup_total_insert_0 by lia. unfold axis_ok in *.
    repeat (apply andb_true_iff; split); lia.
  - by rewrite lookup_total_insert_0_ne.
Qed.

(** X11.  A stride along the leading axis subsamples: the operator with
    [stride[0] = s] returns, at frame [o], what the same operator (same
    layers, same bias) with [stride[0] = 1] returns at frame [s * o]. *)
Theorem ConvNd_stride_subsamples fuel args e self bias conv_layers e' x sh :
  ConvNd_init fuel args e = (Ok (Nd ConvNd self bias conv_layers), e') →
  has_shape sh x = true →
  nd_accepts ConvNd self (Z.of_nat <$> sh) = true →
  ∃ y y1,
    forward (Nd ConvNd self bias conv_layers) x = Ok y ∧
    forward (Nd ConvNd (with_leading_stride 1 self) bias conv_layers) x = Ok y1 ∧
    ∀ ib co o os,
      in_shape (ib :: co :: o :: os) (tshape_nat y) →
      in_shape (ib :: co :: (Z.to_nat (stride self !!! 0%nat) * o)%nat :: os) (tshape_nat y1) ∧
      tget y (ib :: co :: o :: os)
      = tget y1 (ib :: co :: (Z.to_nat (stride self !!! 0%nat) * o)%nat :: os).
Proof.
  intros Hinit Hx Hacc.
  apply nd_init_inv in Hinit as (self' & bias' & ws & bf & Hm & Hws & Hb & Hnb & _).
  injection Hm as <- <- ->.
  pose proof (nd_accepts_unit_stride _ _ Hacc) as Hacc1.
  rewrite (has_shape_eq _ _ Hx). set (f := tget x).
  exists (ConvNd_output self ws bf sh f),
         (ConvNd_output (with_leading_stride 1 self) ws bf sh f).
  split; [by apply ConvNd_forward_closed |].
  split.
  { rewrite <- (base_layers_with_leading_stride 1 self ws).
    by apply ConvNd_forward_closed. }
  destruct (to_nat_shape_pos _ (nd_out_shape_pos _ _ _ Hacc)) as [Hpos Hid].
  destruct (to_nat_shape_pos _ (nd_out_shape_pos _ _ _ Hacc1)) as [Hpos1 Hid1].
  destruct (accepted_shape _ _ _ Hacc) as (b & c & l0 & sh_in & ->).
  destruct (accepted_lengths _ _ _ _ _ _ Hacc) as (Hk & Hs & Hp & Hd & Ht).
  pose proof (accepted_axis _ _ _ _ _ _ Hacc 0 ltac:(lia)) as Hax0.
  change ((Z.of_nat <$> l0 :: sh_in) !!! 0%nat) with (Z.of_nat l0) in Hax0.
  unfold axis_ok in Hax0.
  intros ib co o os Hidx. unfold ConvNd_output in *.
  rewrite tshape_nat_tabulate in Hidx by done.
  rewrite tshape_nat_tabulate by done.
  assert (in_shape (ib :: co :: (Z.to_nat (stride self !!! 0%nat) * o)%nat :: os)
            (Z.to_nat <$> nd_out_shape ConvNd (with_leading_stride 1 self)
                            (Z.of_nat <$> b :: c :: l0 :: sh_in))) as Hidx1.
  { unfold nd_out_shape in *.
    cbn [with_leading_stride out_channels kernel_size stride padding].
    change (drop 2 (Z.of_nat <$> b :: c :: l0 :: sh_in))
      with (Z.of_nat l0 :: (Z.of_nat <$> sh_in)) in *.
    rewrite out_sizes_cons, !fmap_cons in Hidx |- *.
    rewrite drop_1_insert_0, lookup_total_insert_0 by lia.
    unfold in_shape in *.
    inversion Hidx as [|???? Hib H1]; subst. inversion H1 as [|???? Hco H2]; subst.
    inversion H2 as [|???? Ho Hos]; subst.
    repeat (constructor; [done |]). constructor; [| done].
    unfold conv_out_len in *.
    pose proof (Z.mul_div_le (Z.of_nat l0 + 2 * padding self !!! 0%nat
                              - kernel_size self !!! 0%nat) (stride self !!! 0%nat)
                  ltac:(lia)) as Hle.
    rewrite Z.div_1_r. nia. }
  split; [exact Hidx1 |].
  rewrite !tget_tabulate by done.
  cbn [with_leading_stride use_bias]. f_equal.
  unfold from_axis2, conv_frames.
  cbn [with_leading_stride kernel_size stride].
  rewrite lookup_total_insert_0 by lia.
  apply Zsum_ext. intros i _.
  rewrite layer_of_with_leading_stride.
  change (padded_input (with_leading_stride 1 self)) with (padded_input self).
  do 2 f_equal. lia.
Qed.

Lemma ConvNd_stride_subsamples_witness :
  ∃ m self bias conv_layers y y1,
    built (ConvNd_init 1 strided_args example_engine) = Some m ∧
    m = Nd ConvNd self bias conv_layers ∧
    forward m strided_input = Ok y ∧
    forward (Nd ConvNd (with_leading_stride 1 self) bias conv_layers) strided_input = Ok y1 ∧
    tget y [0; 1; 1; 2]%nat = tget y1 [0; 1; 2; 2]%nat.
Proof.
  eassert (nd_init 1 ConvNd strided_args example_engine
           = (Ok (Nd ConvNd _ _ _), _)) as E
    by (vm_compute; reflexivity).
  destruct (ConvNd_stride_subsamples _ _ _ _ _ _ _ strided_input [1; 2; 4; 3]%nat E
              ltac:(vm_compute; reflexivity) ltac:(vm_compute; reflexivity))
    as (y & y1 & Hy & Hy1 & Hel).
  eexists _, _, _, _, y, y1. split; [unfold built, ConvNd_init; rewrite E; reflexivity |].
  split; [reflexivity |]. split; [exact Hy |]. split; [exact Hy1 |].
  apply (Hel 0 1 1 [2])%nat.
  vm_compute in Hy. injection Hy as <-. vm_compute. repeat constructor.
Defined.

(** ** [ConvNd] below the top level *)

Lemma ConvNd_overlap_sum_unpadded G (k0 s0 n : Z) (L o : nat) idx :
  1 ≤ s0 → Z.of_nat o < n →
  overlap_sum (ConvNd_target k0 (Z.of_nat L) (Z.of_nat L - k0 + 1) s0 n) G (Z.to_nat k0) L o idx
  = unpadded_frames G (Z.to_nat s0) (Z.to_nat k0) L o idx.
Proof.
  intros Hs Ho. unfold overlap_sum, unpadded_frames.
  apply Zsum_ext. intros i Hi%elem_of_seq.
  case_decide as Hin.
  - rewrite (Zsum_single _ _ (Z.to_nat s0 * o + i)%nat).
    + rewrite decide_True; [done |]. apply ConvNd_target_Some; lia.
    + apply NoDup_seq.
    + apply elem_of_seq. lia.
    + intros j _ Hne. rewrite decide_False; [done |].
      intros [Hj _]%ConvNd_target_Some; lia.
  - apply Zsum_zero. intros j Hj%elem_of_seq. rewrite decide_False; [done |].
    intros [Hj' _]%ConvNd_target_Some; lia.
Qed.

Section ConvNd_inner_body.
Variables (self : attrs) (bias : option tensor) (layers : list (tensor → result tensor)).
Variables (b c l0 : nat) (sh_in : list nat) (f : list nat → Z).
Variables (G : nat → nat → list nat → Z) (bf : list nat → Z).

Let p0 := padding self !!! 0%nat.
Let k0 := kernel_size self !!! 0%nat.
Let s0 := stride self !!! 0%nat.
Let inner := out_sizes false (Z.of_nat <$> sh_in) (drop 1 (kernel_size self))
               (drop 1 (stride self)) (drop 1 (padding self)).
Let n := conv_out_len (Z.of_nat l0) k0 s0 p0.
Let co := Z.to_nat (out_channels self).
Let x := tabulate (b :: c :: l0 :: sh_in) f.

Hypothesis below_top : rank self ≠ 0.
Hypothesis input_extents : Forall (fun m => (0 < m)%nat) (b :: c :: l0 :: sh_in).
Hypothesis kernel_length : length (kernel_size self) = S (length sh_in).
Hypothesis stride_length : length (stride self) = S (length sh_in).
Hypothesis padding_length : length (padding self) = S (length sh_in).
Hypothesis kernel_pos : 1 ≤ k0.
Hypothesis stride_pos : 1 ≤ s0.
Hypothesis strides_nonzero : Forall (fun s => s ≠ 0) (stride self).
Hypothesis frames_pos : 1 ≤ n.
Hypothesis channels_pos : 1 ≤ out_channels self.
Hypothesis inner_pos : Forall (fun o => 1 ≤ o) inner.
Hypothesis layer_output : ∀ i j,
  (i < Z.to_nat k0)%nat → (j < l0)%nat →
  call layers i (slice2 j x) = Ok (tabulate (b :: co :: (Z.to_nat <$> inner)) (G i j)).
Hypothesis bias_shape : use_bias self = true → bias = Some (tabulate [co] bf).

Lemma ConvNd_forward_body_unpadded_frames :
  ConvNd_forward_body self bias layers x
  = Ok (tabulate (b :: co :: Z.to_nat n :: (Z.to_nat <$> inner))
          (fun idx => from_axis2 (unpadded_frames G (Z.to_nat s0) (Z.to_nat k0) l0) idx
                      + if use_bias self then bias_at bf idx else 0)).
Proof.
  unfold ConvNd_forward_body.
  replace (rank self =? 0) with false by lia.
  cbn [mbind result_bind].
  assert (tshape x = Z.of_nat <$> b :: c :: l0 :: sh_in) as Hshape
    by (unfold x; by rewrite tshape_tabulate).
  fold x. rewrite !Hshape.
  change (drop 2 (Z.of_nat <$> b :: c :: l0 :: sh_in))
    with (Z.of_nat l0 :: (Z.of_nat <$> sh_in)).
  change ((Z.of_nat <$> b :: c :: l0 :: sh_in) !!! 0%nat) with (Z.of_nat b).
  assert (length (Z.of_nat l0 :: (Z.of_nat <$> sh_in)) = S (length sh_in)) as Hlen_i
    by (cbn [length]; by rewrite length_fmap).
  replace (length (Z.of_nat <$> b :: c :: l0 :: sh_in) <? 2)%nat with false
    by (rewrite length_fmap; cbn [length]; lia).
  cbn [mbind result_bind].
  rewrite ConvNd_size_o by (lia || done).
  cbn [mbind result_bind].
  rewrite ConvNd_size_ons by lia. cbn [mbind result_bind].
  rewrite out_sizes_cons. fold inner k0 s0 p0 n.
  rewrite (py_index_0 n inner). cbn [mbind result_bind]. cbn [drop].
  rewrite torch_zeros_Ok.
  2:{ constructor; [lia |]. constructor; [lia |].
      eapply Forall_impl; [exact inner_pos |]. simpl. lia. }
  cbn [mbind result_bind].
  rewrite fmap_cons, fmap_cons, Nat2Z.id. fold co.
  rewrite (py_index_head (kernel_size self)) by lia. cbn [mbind result_bind]. fold k0.
  rewrite (py_index_0 (Z.of_nat l0)). cbn [mbind result_bind].
  rewrite Hlen_i. cbn [seq]. rewrite fmap_cons.
  rewrite py_index_0. cbn [mbind result_bind].
  rewrite (py_index_head (stride self)) by lia. cbn [mbind result_bind]. fold s0 k0.
  change ((Z.of_nat l0 :: (Z.of_nat <$> sh_in)) !!! 0%nat) with (Z.of_nat l0).
  change (drop 0 inner) with inner. unfold py_repeat.
  destruct (overlap_add_frames layers x
              (ConvNd_target k0 (Z.of_nat l0) (Z.of_nat l0 - k0 + 1) s0
                 (Z.of_nat (Z.to_nat n)))
              G (b :: co :: (Z.to_nat <$> inner)) (Z.to_nat n) (Z.to_nat k0) l0)
    as [marks' Hrun].
  { intros i j o. apply ConvNd_target_in_range. }
  { intros i j o Hi Hj _. by apply layer_output. }
  rewrite !Z2Nat.id in Hrun by lia. rewrite Hrun. cbn [mbind result_bind].
  assert (Forall (fun m => (0 < m)%nat) (b :: co :: Z.to_nat n :: (Z.to_nat <$> inner)))
    as Hpos_o.
  { inversion input_extents; subst. constructor; [done |]. constructor; [lia |].
    constructor; [lia |]. apply Forall_fmap. eapply Forall_impl; [exact inner_pos |].
    simpl. lia. }
  rewrite torch_stack2_tabulate by (inversion input_extents; subst; (done || lia)).
  cbn [mbind result_bind].
  rewrite (add_bias_tabulate self bias bf) by (done || lia).
  f_equal. apply tabulate_ext. intros idx Hidx. f_equal.
  unfold in_shape in Hidx.
  destruct idx as [|ib [|ic [|o rest]]]; try done.
  inversion Hidx as [|???? _ H1]; subst. inversion H1 as [|???? _ H2]; subst.
  inversion H2 as [|???? Ho _]; subst.
  unfold from_axis2. apply ConvNd_overlap_sum_unpadded; try done. lia.
Qed.
End ConvNd_inner_body.

(** X12.  A [ConvNd] operator of non-zero rank takes its input as it is: the
    leading axis is not padded, yet the number of output frames is the
    one the size formula gives with [padding[0]].  Output frame [o] sums
    layer [i]'s output on the slice at position [stride[0] * o + i] over
    the kernel offsets [i] for which that position lies within the
    input; the other offsets contribute nothing, so that a frame with
    [stride[0] * o] beyond the input holds the bias alone.  The operator
    is one that would accept the input at the top level. *)
Theorem ConvNd_below_top_level fuel args e self bias conv_layers e' x sh :
  ConvNd_init fuel args e = (Ok (Nd ConvNd self bias conv_layers), e') →
  rank self ≠ 0 →
  has_shape sh x = true →
  nd_accepts ConvNd (with_rank 0 self) (Z.of_nat <$> sh) = true →
  ∃ (out : nat → nat → tensor) (y : tensor),
    (∀ i j, (Z.of_nat i < kernel_size self !!! 0%nat) → (j < sh !!! 2%nat)%nat →
            call (forward <$> conv_layers) i (slice2 j x) = Ok (out i j)) ∧
    forward (Nd ConvNd self bias conv_layers) x = Ok y ∧
    tshape y = nd_out_shape ConvNd self (Z.of_nat <$> sh) ∧
    ∀ ib co o os,
      in_shape (ib :: co :: o :: os) (tshape_nat y) →
      tget y (ib :: co :: o :: os)
      = unpadded_frames (fun i j => tget (out i j))
          (Z.to_nat (stride self !!! 0%nat)) (Z.to_nat (kernel_size self !!! 0%nat))
          (sh !!! 2%nat) o (ib :: co :: os)
        + match bias with Some bt => tget bt [co] | None => 0 end.
Proof.
  intros Hinit Hrank Hx Hacc.
  apply nd_init_inv in Hinit as (self' & bias' & ws & bf & Hm & Hws & Hb & Hnb & _).
  injection Hm as <- <- ->.
  rewrite (has_shape_eq _ _ Hx).
  destruct (to_nat_shape_pos _ (nd_out_shape_pos _ _ _ Hacc)) as [Hpos Hid].
  destruct (accepted_shape _ _ _ Hacc) as (b & c & l0 & sh_in & ->).
  destruct (accepted_lengths _ _ _ _ _ _ Hacc) as (Hk & Hs & Hp & Hd & Ht).
  destruct (accepted_channels _ _ _ _ _ _ Hacc) as (Hb0 & Hc & Hcin & Hg & Hig & Hog & Hco & _).
  pose proof (accepted_extents _ _ _ _ _ _ Hacc) as Hext.
  pose proof (accepted_inner_pos _ _ _ _ _ _ Hacc) as Hinner.
  pose proof (accepted_axis _ _ _ _ _ _ Hacc 0 ltac:(lia)) as Hax0.
  pose proof (axis_ok_out_pos _ _ _ _ _ _ Hax0) as Hn.
  change ((Z.of_nat <$> l0 :: sh_in) !!! 0%nat) with (Z.of_nat l0) in Hax0, Hn.
  unfold axis_ok in Hax0.
  cbn [with_rank kernel_size stride padding padding_mode out_channels conv_f] in *.
  change ((b :: c :: l0 :: sh_in) !!! 2%nat) with l0.
  set (f := tget x).
  set (inner := out_sizes false (Z.of_nat <$> sh_in) (drop 1 (kernel_size self))
                  (drop 1 (stride self)) (drop 1 (padding self))) in *.
  set (G := fun i j => base_elem (layer_of self (ws !!! i))
                         (slice2 j (tabulate (b :: c :: l0 :: sh_in) f))).
  assert (∀ i j, (i < Z.to_nat (kernel_size self !!! 0%nat))%nat → (j < l0)%nat →
            call (forward <$> base_layers self ws) i
              (slice2 j (tabulate (b :: c :: l0 :: sh_in) f))
            = Ok (tabulate (b :: Z.to_nat (out_channels self) :: (Z.to_nat <$> inner)) (G i j)))
    as Hlayers.
  { intros i j Hi Hj. rewrite call_base_layers by lia. unfold G.
    rewrite slice2_tabulate by done.
    exact (layer_forward ConvNd (with_rank 0 self) b c l0 sh_in Hacc (ws !!! i)
             (at_axis2 j f)). }
  assert (Forall (fun s => s ≠ 0) (stride self)) as Hnz.
  { apply Forall_lookup. intros a s Ha.
    pose proof (lookup_lt_Some _ _ _ Ha) as Hlt.
    pose proof (accepted_axis _ _ _ _ _ _ Hacc a ltac:(lia)) as Hax.
    cbn [with_rank kernel_size stride padding padding_mode] in Hax.
    rewrite (list_lookup_total_correct _ _ _ Ha) in Hax. unfold axis_ok in Hax. lia. }
  pose proof (ConvNd_forward_body_unpadded_frames self bias (forward <$> base_layers self ws)
                b c l0 sh_in f G bf Hrank Hext Hk Hs Hp ltac:(lia) ltac:(lia) Hnz Hn Hco
                Hinner Hlayers Hb) as Hrun.
  eexists (fun i j => tabulate _ (G i j)), _.
  split; [| split; [exact Hrun |]].
  { intros i j Hi Hj. apply Hlayers; lia. }
  assert (Z.to_nat <$> nd_out_shape ConvNd self (Z.of_nat <$> b :: c :: l0 :: sh_in)
          = b :: Z.to_nat (out_channels self)
              :: Z.to_nat (conv_out_len (Z.of_nat l0) (kernel_size self !!! 0%nat)
                             (stride self !!! 0%nat) (padding self !!! 0%nat))
              :: (Z.to_nat <$> inner)) as Hshape.
  { unfold nd_out_shape.
    change (drop 2 (Z.of_nat <$> b :: c :: l0 :: sh_in))
      with (Z.of_nat l0 :: (Z.of_nat <$> sh_in)).
    change ((Z.of_nat <$> b :: c :: l0 :: sh_in) !!! 0%nat) with (Z.of_nat b).
    rewrite out_sizes_cons, !fmap_cons, Nat2Z.id. done. }
  change (nd_out_shape ConvNd (with_rank 0 self)) with (nd_out_shape ConvNd self) in Hpos, Hid.
  rewrite Hshape in Hpos.
  split.
  { rewrite tshape_tabulate by done. by rewrite <- Hid, Hshape. }
  intros ib co o os Hidx.
  rewrite tshape_nat_tabulate in Hidx by done.
  rewrite tget_tabulate by done.
  unfold in_shape in Hidx.
  inversion Hidx as [|???? Hib H1]; subst. inversion H1 as [|???? Hco' H2]; subst.
  inversion H2 as [|???? Ho Hos]; subst.
  f_equal.
  - unfold from_axis2, unpadded_frames.
    apply Zsum_ext. intros i _. case_decide; [| done].
    symmetry. apply tget_tabulate. unfold in_shape. by repeat constructor.
  - unfold bias_at. destruct (use_bias self) eqn:Hub.
    + rewrite (Hb eq_refl). symmetry. apply (tget_tabulate [_] bf [co]).
      by repeat constructor.
    + by rewrite (Hnb eq_refl).
Qed.

Lemma ConvNd_below_top_level_witness :
  ∃ m (out : nat → nat → tensor) (y : tensor),
    built (ConvNd_init 1 inner_args example_engine) = Some m ∧
    forward m strided_input = Ok y ∧
    tshape y = [1; 2; 2; 4] ∧
    tget y [0; 1; 1; 0]%nat
    = unpadded_frames (fun i j => tget (out i j)) 2 3 4 1 [0; 1; 0]%nat + 11.
Proof.
  eassert (nd_init 1 ConvNd inner_args example_engine
           = (Ok (Nd ConvNd _ _ _), _)) as E
    by (vm_compute; reflexivity).
  destruct (ConvNd_below_top_level _ _ _ _ _ _ _ strided_input [1; 2; 4; 3]%nat E
              ltac:(vm_compute; discriminate)
              ltac:(vm_compute; reflexivity) ltac:(vm_compute; reflexivity))
    as (out & y & _ & Hy & Hsh & Hel).
  eexists _, out, y. split; [unfold built, ConvNd_init; rewrite E; reflexivity |].
  split; [exact Hy |]. split; [exact Hsh |].
  apply (Hel 0 1 1 [0])%nat.
  vm_compute in Hy. injection Hy as <-. vm_compute. repeat constructor.
Defined.

(** * The dense block *)

(** ** The engine's operations used by the block *)

Lemma tmap_tabulate g sh f : tmap g (tabulate sh f) = tabulate sh (fun idx => g (f idx)).
Proof.
  revert f. induction sh as [|n sh IH]; intros f; [done |].
  cbn [tabulate tmap]. f_equal. rewrite <- list_fmap_compose.
  apply list_fmap_ext. intros i j _. apply IH.
Qed.

Lemma broadcast_dim_refl n : broadcast_dim n n = Some n.
Proof. unfold broadcast_dim. by rewrite Nat.eqb_refl. Qed.

Lemma broadcast_rev_refl s : broadcast_rev s s = Some s.
Proof.
  induction s as [|n s IH]; [done |].
  cbn [broadcast_rev]. rewrite broadcast_dim_refl. cbn. by rewrite IH.
Qed.

Lemma broadcast_shape_refl s : broadcast_shape s s = Some s.
Proof.
  unfold broadcast_shape. rewrite broadcast_rev_refl. cbn. by rewrite reverse_involutive.
Qed.

Lemma broadcast_index_id sh idx : in_shape idx sh → broadcast_index sh idx = idx.
Proof.
  intros H. unfold broadcast_index.
  rewrite (Forall2_length _ _ _ H), Nat.sub_diag, drop_0.
  induction H as [|i n idx sh Hi _ IH]; [done |].
  cbn [zip_with]. rewrite IH. f_equal.
  destruct (n =? 1)%nat eqn:E; [lia | done].
Qed.

(** The sum of two tensors of one shape. *)
Lemma torch_add_tabulate sh f g :
  Forall (fun n => (0 < n)%nat) sh →
  torch_add (tabulate sh f) (tabulate sh g) = Ok (tabulate sh (fun idx => f idx + g idx)).
Proof.
  intros Hpos. unfold torch_add. rewrite !tshape_nat_tabulate by done.
  rewrite broadcast_shape_refl. f_equal. apply tabulate_ext. intros idx Hidx.
  rewrite broadcast_index_id by done. by rewrite !tget_tabulate.
Qed.

(** The sum of two tensors whose shapes do not broadcast. *)
Lemma torch_add_mismatch s1 s2 f g :
  Forall (fun n => (0 < n)%nat) s1 → Forall (fun n => (0 < n)%nat) s2 →
  broadcast_shape s1 s2 = None →
  torch_add (tabulate s1 f) (tabulate s2 g) = Raise RuntimeError.
Proof.
  intros H1 H2 Hb. unfold torch_add. rewrite !tshape_nat_tabulate by done. by rewrite Hb.
Qed.

Lemma base_forward_tabulate c sh f :
  Forall (fun n => (0 < n)%nat) sh →
  base_accepts c (Z.of_nat <$> sh) = true →
  base_forward c (tabulate sh f)
  = Ok (tabulate (Z.to_nat <$> base_out_shape c (Z.of_nat <$> sh))
          (base_elem c (tabulate sh f))).
Proof.
  intros Hpos Hacc. unfold base_forward. rewrite tshape_tabulate by done. by rewrite Hacc.
Qed.

(** A 2D convolution of the block on an input it fits. *)
Lemma Conv2d_like_forward c ch ks p (b h w : nat) f :
  Conv2d_like c ch ks p →
  1 ≤ ch → 1 ≤ ks → 0 ≤ p →
  (0 < b)%nat → (0 < h)%nat → (0 < w)%nat →
  ks ≤ Z.of_nat h + 2 * p → ks ≤ Z.of_nat w + 2 * p →
  base_forward c (tabulate [b; Z.to_nat ch; h; w] f)
  = Ok (tabulate [b; Z.to_nat ch; Z.to_nat (Z.of_nat h + 2 * p - ks + 1);
                  Z.to_nat (Z.of_nat w + 2 * p - ks + 1)]
          (base_elem c (tabulate [b; Z.to_nat ch; h; w] f))).
Proof.
  intros (Hprim & Hin & Hout & Hks & Hss & Hps & Hmode & Hg) Hch Hk Hp Hb Hh Hw Hfh Hfw.
  rewrite base_forward_tabulate.
  - f_equal. f_equal. unfold base_out_shape, out_sizes.
    rewrite Hprim, Hout, Hks, Hss, Hps. cbn. unfold conv_out_len.
    rewrite !Z.div_1_r, Nat2Z.id. done.
  - repeat constructor; lia.
  - unfold base_accepts. rewrite Hprim, Hin, Hout, Hks, Hss, Hps, Hmode, Hg.
    cbn. rewrite Z2Nat.id by lia. rewrite !Z.mod_1_r.
    repeat (apply andb_true_iff; split); lia.
Qed.

(** ** Construction *)

Lemma Conv2d_init_Ok cin cout ks p e :
  0 ≤ cin → 0 ≤ cout → 0 ≤ ks →
  ∃ c e', Conv2d_init cin cout ks p e = (Ok c, e') ∧
          prim c = Conv2d ∧ b_in_channels c = cin ∧ b_out_channels c = cout ∧
          b_kernel_size c = [ks; ks] ∧ b_stride c = [1; 1] ∧ b_padding c = [p; p] ∧
          b_padding_mode c = mode_zeros ∧ b_groups c = 1 ∧
          (∃ g, weight c = tabulate [Z.to_nat cout; Z.to_nat cin; Z.to_nat ks; Z.to_nat ks] g) ∧
          (∃ g, b_bias c = Some (tabulate [Z.to_nat cout] g)).
Proof.
  intros Hcin Hcout Hks. unfold Conv2d_init, base_init_bias, base_init.
  replace (_ || _) with false.
  2:{ symmetry. cbn [is_transposed andb]. rewrite !Z.mod_1_r. done. }
  unfold build_bind, alloc_param, log_instance, build_ret. cbn [is_transposed].
  rewrite Z.div_1_r.
  replace (nonneg [cout; cin; ks; ks]) with true by (cbn [nonneg forallb]; lia).
  cbn [fresh allocated instantiated].
  replace (nonneg [cout]) with true by (cbn [nonneg forallb]; lia).
  eexists _, _. split; [reflexivity |]. cbn. repeat split; eauto.
Qed.

(** What the constructor of the block builds. *)
Lemma DenseBlock_init_Ok nChans ks e :
  0 ≤ nChans → 0 ≤ ks →
  ∃ blk e', DenseBlock_init nChans ks e = (Ok blk, e') ∧
            Conv2d_like (conv1 blk) nChans ks (ks / 2) ∧
            Conv2d_like (conv2 blk) nChans ks (ks / 2) ∧
            Conv2d_like (conv3 blk) nChans ks (ks / 2) ∧
            Conv2d_like (convOut blk) nChans 1 0 ∧
            (∃ g, weight (convOut blk)
                  = tabulate [Z.to_nat nChans; Z.to_nat nChans; 1; 1]%nat g) ∧
            (∃ g, b_bias (convOut blk) = Some (tabulate [Z.to_nat nChans] g)).
Proof.
  intros Hc Hk. unfold DenseBlock_init. cbv zeta.
  destruct (Conv2d_init_Ok nChans nChans ks (ks / 2) e Hc Hc Hk)
    as (c1 & e1 & E1 & ? & ? & ? & ? & ? & ? & ? & ? & _).
  destruct (Conv2d_init_Ok nChans nChans ks (ks / 2) e1 Hc Hc Hk)
    as (c2 & e2 & E2 & ? & ? & ? & ? & ? & ? & ? & ? & _).
  destruct (Conv2d_init_Ok nChans nChans ks (ks / 2) e2 Hc Hc Hk)
    as (c3 & e3 & E3 & ? & ? & ? & ? & ? & ? & ? & ? & _).
  destruct (Conv2d_init_Ok nChans nChans 1 0 e3 Hc Hc ltac:(lia))
    as (c4 & e4 & E4 & ? & ? & ? & ? & ? & ? & ? & ? & Hw & Hb).
  unfold build_bind. rewrite E1, E2, E3, E4. unfold build_ret.
  eexists _, _. split; [reflexivity |]. cbn [conv1 conv2 conv3 convOut].
  unfold Conv2d_like. repeat split; done.
Qed.

(** ** The forward pass *)

(** With an odd kernel size [ks] and the padding [ks // 2], a convolution
    of the block keeps the shape of its input. *)
Lemma Conv2d_like_same c ch ks (b h w : nat) f :
  Conv2d_like c ch ks (ks / 2) →
  1 ≤ ch → 1 ≤ ks → ks mod 2 = 1 →
  (0 < b)%nat → (0 < h)%nat → (0 < w)%nat →
  base_forward c (tabulate [b; Z.to_nat ch; h; w] f)
  = Ok (tabulate [b; Z.to_nat ch; h; w] (base_elem c (tabulate [b; Z.to_nat ch; h; w] f))).
Proof.
  intros Hc Hch Hk Hodd Hb Hh Hw.
  assert (2 * (ks / 2) = ks - 1) as Hp by (Z.div_mod_to_equations; lia).
  rewrite (Conv2d_like_forward c ch ks (ks / 2)) by (done || lia).
  replace (Z.to_nat (Z.of_nat h + 2 * (ks / 2) - ks + 1)) with h by lia.
  replace (Z.to_nat (Z.of_nat w + 2 * (ks / 2) - ks + 1)) with w by lia.
  done.
Qed.

Lemma Sequential_forward_same c ch ks (b h w : nat) f :
  Conv2d_like c ch ks (ks / 2) →
  1 ≤ ch → 1 ≤ ks → ks mod 2 = 1 →
  (0 < b)%nat → (0 < h)%nat → (0 < w)%nat →
  ∃ g, Sequential_forward c (tabulate [b; Z.to_nat ch; h; w] f)
       = Ok (tabulate [b; Z.to_nat ch; h; w] g).
Proof.
  intros Hc Hch Hk Hodd Hb Hh Hw. unfold Sequential_forward.
  rewrite (Conv2d_like_same c ch ks) by done. cbn [mbind result_bind].
  unfold ReLU. rewrite tmap_tabulate. eauto.
Qed.

(** The block as a residual: with an odd kernel size, the output is the
    input plus what the closing convolution returns on a tensor of the
    input's shape. *)
Lemma DenseBlock_forward_odd blk ch ks (b h w : nat) f :
  Conv2d_like (conv1 blk) ch ks (ks / 2) →
  Conv2d_like (conv2 blk) ch ks (ks / 2) →
  Conv2d_like (conv3 blk) ch ks (ks / 2) →
  Conv2d_like (convOut blk) ch 1 0 →
  1 ≤ ch → 1 ≤ ks → ks mod 2 = 1 →
  (0 < b)%nat → (0 < h)%nat → (0 < w)%nat →
  ∃ g, DenseBlock_forward blk (tabulate [b; Z.to_nat ch; h; w] f)
       = Ok (tabulate [b; Z.to_nat ch; h; w]
               (fun idx => f idx
                           + base_elem (convOut blk) (tabulate [b; Z.to_nat ch; h; w] g) idx)).
Proof.
  intros H1 H2 H3 H4 Hch Hk Hodd Hb Hh Hw.
  assert (Forall (fun n => (0 < n)%nat) [b; Z.to_nat ch; h; w]) as Hpos
    by (repeat constructor; lia).
  unfold DenseBlock_forward.
  destruct (Sequential_forward_same _ ch ks b h w f H1) as [g1 ->]; try done.
  cbn [mbind result_bind]. rewrite !torch_add_tabulate by done. cbn [mbind result_bind].
  destruct (Sequential_forward_same _ ch ks b h w (fun idx => f idx + g1 idx) H2)
    as [g2 ->]; try done.
  cbn [mbind result_bind]. rewrite !torch_add_tabulate by done. cbn [mbind result_bind].
  destruct (Sequential_forward_same _ ch ks b h w
              (fun idx => f idx + g1 idx + g2 idx) H3) as [g3 ->]; try done.
  cbn [mbind result_bind]. rewrite !torch_add_tabulate by done. cbn [mbind result_bind].
  rewrite (Conv2d_like_same (convOut blk) ch 1) by (done || lia).
  cbn [mbind result_bind]. rewrite torch_add_tabulate by done.
  eexists. reflexivity.
Qed.

(** X13.  With an odd kernel size the block keeps the shape of its input: for
    at least one channel and an input of shape [(b, nChans, h, w)], the
    constructor returns a block and [forward] returns a tensor of the
    input's shape. *)
Theorem DenseBlock_keeps_shape nChans ks e (b h w : nat) x :
  1 ≤ nChans → 1 ≤ ks → ks mod 2 = 1 →
  (0 < b)%nat → (0 < h)%nat → (0 < w)%nat →
  has_shape [b; Z.to_nat nChans; h; w] x = true →
  ∃ blk e' y,
    DenseBlock_init nChans ks e = (Ok blk, e') ∧
    DenseBlock_forward blk x = Ok y ∧
    has_shape [b; Z.to_nat nChans; h; w] y = true.
Proof.
  intros Hch Hk Hodd Hb Hh Hw Hx.
  destruct (DenseBlock_init_Ok nChans ks e ltac:(lia) ltac:(lia))
    as (blk & e' & E & H1 & H2 & H3 & H4 & _).
  rewrite (has_shape_eq _ _ Hx).
  destruct (DenseBlock_forward_odd blk nChans ks b h w (tget x) H1 H2 H3 H4)
    as [g Hrun]; try done.
  eexists blk, e', _. split; [exact E |]. split; [exact Hrun |].
  apply has_shape_tabulate.
Qed.

Lemma DenseBlock_keeps_shape_witness :
  ∃ blk e' y,
    DenseBlock_init 2 3 example_engine = (Ok blk, e') ∧
    DenseBlock_forward blk (ones [1; 2; 3; 2]%nat) = Ok y ∧
    has_shape [1; 2; 3; 2]%nat y = true.
Proof.
  exact (DenseBlock_keeps_shape 2 3 example_engine 1 3 2 (ones [1; 2; 3; 2]%nat)
           ltac:(lia) ltac:(lia) ltac:(reflexivity) ltac:(lia) ltac:(lia) ltac:(lia)
           ltac:(vm_compute; reflexivity)).
Defined.

(** ** The block as a residual *)

Lemma base_elem_zero_params c y idx : base_elem (zero_params c) y idx = 0.
Proof.
  unfold base_elem. destruct idx as [|ib [|co os]]; try done.
  cbv zeta. cbn [zero_params weight b_bias prim b_kernel_size b_stride b_padding
    b_in_channels b_out_channels b_groups b_padding_mode].
  rewrite Zsum_zero.
  - destruct (b_bias c) as [bt|]; [| done]. cbn [fmap option_fmap option_map].
    apply zero_tensor_zeros.
  - intros ci _. destruct (is_transposed (prim c)).
    + apply tcorr_at_zero_weight. do 2 apply zero_tensor_row. apply zero_tensor_zeros.
    + apply xcorr_at_zero_weight. do 2 apply zero_tensor_row. apply zero_tensor_zeros.
Qed.

Lemma Conv2d_like_zero_params c ch ks p : Conv2d_like c ch ks p → Conv2d_like (zero_params c) ch ks p.
Proof. done. Qed.

(** X14.  The block is a residual block: when the parameters of its closing
    convolution are zero, a block with an odd kernel size returns its
    input unchanged, whatever the other three convolutions hold. *)
Theorem DenseBlock_residual nChans ks e (b h w : nat) x :
  1 ≤ nChans → 1 ≤ ks → ks mod 2 = 1 →
  (0 < b)%nat → (0 < h)%nat → (0 < w)%nat →
  has_shape [b; Z.to_nat nChans; h; w] x = true →
  ∃ blk e',
    DenseBlock_init nChans ks e = (Ok blk, e') ∧
    DenseBlock_forward (zero_convOut blk) x = Ok x.
Proof.
  intros Hch Hk Hodd Hb Hh Hw Hx.
  destruct (DenseBlock_init_Ok nChans ks e ltac:(lia) ltac:(lia))
    as (blk & e' & E & H1 & H2 & H3 & H4 & _).
  exists blk, e'. split; [exact E |].
  pose proof (has_shape_eq _ _ Hx) as Hxeq. set (f := tget x) in Hxeq. clearbody f. subst x.
  destruct (DenseBlock_forward_odd (zero_convOut blk) nChans ks b h w f H1 H2 H3
              (Conv2d_like_zero_params _ _ _ _ H4)) as [g ->]; try done.
  f_equal. apply tabulate_ext. intros idx _.
  cbn [zero_convOut convOut]. rewrite base_elem_zero_params. lia.
Qed.

Lemma DenseBlock_residual_witness :
  ∃ blk e',
    DenseBlock_init 2 3 example_engine = (Ok blk, e') ∧
    DenseBlock_forward (zero_convOut blk) strided_input = Ok strided_input.
Proof.
  exact (DenseBlock_residual 2 3 example_engine 1 4 3 strided_input
           ltac:(lia) ltac:(lia) ltac:(reflexivity) ltac:(lia) ltac:(lia) ltac:(lia)
           ltac:(vm_compute; reflexivity)).
Defined.

(** ** Even kernel sizes *)

Lemma broadcast_shape4 (b c h1 w1 h2 w2 : nat) :
  broadcast_shape [b; c; h1; w1] [b; c; h2; w2]
  = match broadcast_dim w1 w2, broadcast_dim h1 h2 with
    | Some w, Some h => Some [b; c; h; w]
    | _, _ => None
    end.
Proof.
  unfold broadcast_shape. cbn [reverse rev_append broadcast_rev].
  destruct (broadcast_dim w1 w2) as [w|]; [| done].
  destruct (broadcast_dim h1 h2) as [h|]; [| done].
  cbn. by rewrite !broadcast_dim_refl.
Qed.

Lemma broadcast_dim_succ n :
  (0 < n)%nat → broadcast_dim n (S n) = if (n =? 1)%nat then Some 2%nat else None.
Proof.
  intros Hn. unfold broadcast_dim.
  replace (n =? S n)%nat with false by lia.
  destruct (n =? 1)%nat eqn:E; [f_equal; lia |].
  by replace (S n =? 1)%nat with false by lia.
Qed.

Lemma torch_add_broadcast s1 s2 sh f g :
  Forall (fun n => (0 < n)%nat) s1 → Forall (fun n => (0 < n)%nat) s2 →
  broadcast_shape s1 s2 = Some sh →
  ∃ k, torch_add (tabulate s1 f) (tabulate s2 g) = Ok (tabulate sh k).
Proof.
  intros H1 H2 Hb. unfold torch_add. rewrite !tshape_nat_tabulate by done. rewrite Hb. eauto.
Qed.

(** With an even kernel size [ks] and the padding [ks // 2], a
    convolution of the block returns one row and one column more than it
    is given. *)
Lemma Sequential_forward_even c ch ks (b h w : nat) f :
  Conv2d_like c ch ks (ks / 2) →
  1 ≤ ch → 2 ≤ ks → ks mod 2 = 0 →
  (0 < b)%nat → (0 < h)%nat → (0 < w)%nat →
  ∃ g, Sequential_forward c (tabulate [b; Z.to_nat ch; h; w] f)
       = Ok (tabulate [b; Z.to_nat ch; S h; S w] g).
Proof.
  intros Hc Hch Hk Heven Hb Hh Hw. unfold Sequential_forward.
  assert (2 * (ks / 2) = ks) as Hp by (Z.div_mod_to_equations; lia).
  rewrite (Conv2d_like_forward c ch ks (ks / 2)) by (done || lia).
  replace (Z.to_nat (Z.of_nat h + 2 * (ks / 2) - ks + 1)) with (S h) by lia.
  replace (Z.to_nat (Z.of_nat w + 2 * (ks / 2) - ks + 1)) with (S w) by lia.
  cbn [mbind result_bind]. unfold ReLU. rewrite tmap_tabulate. eauto.
Qed.

(** X15.  A block with an even kernel size cannot be applied: the constructor
    returns a block, but its convolutions return one row and one column
    more than they are given, and the sums of [forward] raise the
    engine's [RuntimeError] on every input of shape [(b, nChans, h, w)]:
    at [x + x1], or, when [h = w = 1] lets that sum broadcast, at
    [x + x1 + x2]. *)
Theorem DenseBlock_even_kernel nChans ks e (b h w : nat) x :
  1 ≤ nChans → 2 ≤ ks → ks mod 2 = 0 →
  (0 < b)%nat → (0 < h)%nat → (0 < w)%nat →
  has_shape [b; Z.to_nat nChans; h; w] x = true →
  ∃ blk e',
    DenseBlock_init nChans ks e = (Ok blk, e') ∧
    DenseBlock_forward blk x = Raise RuntimeError.
Proof.
  intros Hch Hk Heven Hb Hh Hw Hx.
  destruct (DenseBlock_init_Ok nChans ks e ltac:(lia) ltac:(lia))
    as (blk & e' & E & H1 & H2 & H3 & H4 & _).
  exists blk, e'. split; [exact E |].
  rewrite (has_shape_eq _ _ Hx). set (f := tget x). clearbody f.
  pose (c := Z.to_nat nChans).
  change (Z.to_nat nChans) with c.
  assert (∀ h' w', (0 < h')%nat → (0 < w')%nat →
            Forall (fun n => (0 < n)%nat) [b; c; h'; w']) as Hpos
    by (intros; repeat constructor; lia).
  unfold DenseBlock_forward.
  destruct (Sequential_forward_even _ nChans ks b h w f H1) as [g1 Hs1]; try done.
  fold c in Hs1. rewrite Hs1.
  cbn [mbind result_bind].
  destruct (decide (h = 1 ∧ w = 1)%nat) as [[-> ->] | Hne].
  - destruct (torch_add_broadcast [b; c; 1; 1]%nat [b; c; 2; 2]%nat [b; c; 2; 2]%nat f g1)
      as [s ->]; [apply Hpos; lia | apply Hpos; lia | |].
    { rewrite broadcast_shape4. reflexivity. }
    cbn [mbind result_bind].
    destruct (Sequential_forward_even _ nChans ks b 2 2 s H2) as [g2 Hs2]; try (done || lia).
    fold c in Hs2. rewrite Hs2.
    cbn [mbind result_bind].
    rewrite (torch_add_mismatch [b; c; 2; 2]%nat [b; c; 3; 3]%nat); [done | | |].
    + apply Hpos; lia.
    + apply Hpos; lia.
    + rewrite broadcast_shape4. reflexivity.
  - rewrite torch_add_mismatch; [done | apply Hpos; lia | apply Hpos; lia |].
    rewrite broadcast_shape4, !broadcast_dim_succ by done.
    destruct (w =? 1)%nat eqn:Ew; [| done].
    destruct (h =? 1)%nat eqn:Eh; [| done]. lia.
Qed.

Lemma DenseBlock_even_kernel_witness :
  ∃ blk e',
    DenseBlock_init 2 2 example_engine = (Ok blk, e') ∧
    DenseBlock_forward blk (ones [1; 2; 1; 1]%nat) = Raise RuntimeError.
Proof.
  exact (DenseBlock_even_kernel 2 2 example_engine 1 1 1 (ones [1; 2; 1; 1]%nat)
           ltac:(lia) ltac:(lia) ltac:(reflexivity) ltac:(lia) ltac:(lia) ltac:(lia)
           ltac:(vm_compute; reflexivity)).
Defined.

(** * The shared zero tensor *)

(** Two loops whose bodies keep a relation between their states keep it
    themselves, and raise together. *)
Lemma for_each_sim {A S T : Type} (R : S → T → Prop) (xs : list A)
    (body1 : A → S → result S) (body2 : A → T → result T) :
  (∀ x s t, R s t →
     match body1 x s with
     | Ok s' => ∃ t', body2 x t = Ok t' ∧ R s' t'
     | Raise e => body2 x t = Raise e
     end) →
  ∀ s t, R s t →
    match for_each xs body1 s with
    | Ok s' => ∃ t', for_each xs body2 t = Ok t' ∧ R s' t'
    | Raise e => for_each xs body2 t = Raise e
    end.
Proof.
  intros Hbody. induction xs as [|x xs IH]; intros s t HR; cbn [for_each].
  - eauto.
  - specialize (Hbody x s t HR). destruct (body1 x s) as [s'|e]; cbn [mbind result_bind].
    + destruct Hbody as (t' & -> & HR'). cbn [mbind result_bind]. by apply IH.
    + by rewrite Hbody.
Qed.

Lemma accumulators_agree_initial zero_frame size_o0 :
  accumulators_agree zero_frame (py_repeat size_o0 zero_frame, py_repeat size_o0 None)
    (initial_accumulators size_o0 zero_frame).
Proof.
  unfold accumulators_agree, initial_accumulators, py_repeat.
  cbn [fst snd objects frame_results empty_frames].
  rewrite !length_replicate.
  split; [done |]. split; [done |]. split; [done |]. split; [| split; [done |]].
  - intros o a Ha. apply lookup_replicate in Ha as [-> Ho].
    by rewrite lookup_replicate_2 by done.
  - intros o a Ha. apply lookup_replicate in Ha as [-> Ho].
    split; [done |]. intros Hw. exfalso. apply Hw. by apply lookup_replicate_2.
Qed.

(** A reference held by a slot points into the store. *)
Lemma accumulators_agree_ref zero_frame st sh o a :
  accumulators_agree zero_frame st sh →
  frame_results sh !! o = Some a →
  (a < length (objects sh))%nat ∧ ∃ v, st.1 !! o = Some v ∧ objects sh !! a = Some v.
Proof.
  intros (_ & _ & Hlen & Hval & _) Ha.
  pose proof (lookup_lt_Some _ _ _ Ha) as Ho. rewrite Hlen in Ho.
  apply lookup_lt_is_Some_2 in Ho as [v Hv].
  pose proof (Hval o a Ha) as Hobj. rewrite Hv in Hobj.
  split; [by eapply lookup_lt_Some | eauto].
Qed.

(** One step of the loops in the two readings. *)
Lemma overlap_add_body_sim zero_frame layers input target i j st sh :
  accumulators_agree zero_frame st sh →
  match overlap_add_body layers input target i j st with
  | Ok st' =>
      ∃ sh', overlap_add_body_shared layers input target i j sh = Ok sh' ∧
             accumulators_agree zero_frame st' sh'
  | Raise e => overlap_add_body_shared layers input target i j sh = Raise e
  end.
Proof.
  intros Hagree. unfold overlap_add_body, overlap_add_body_shared.
  destruct (target i j) as [o|]; [| eauto].
  cbv zeta. destruct (call layers i (slice2 j input)) as [fc|e]; [| done].
  cbn [mbind result_bind].
  destruct st as [frs marks].
  pose proof Hagree as (Hmarks & Hlm & Hlen & Hval & Hzero & Hown).
  cbn [fst snd] in *.
  unfold store_frame, store_frame_shared. cbn [objects frame_results empty_frames].
  rewrite Hmarks.
  destruct (marks !! o) as [[z|]|] eqn:Hmo; [| | done].
  - (* the slot has been written: add in place *)
    pose proof (lookup_lt_Some _ _ _ Hmo) as Ho.
    destruct (lookup_lt_is_Some_2 (frame_results sh) o ltac:(lia)) as [a Ha].
    destruct (accumulators_agree_ref _ _ _ _ _ Hagree Ha) as (Halt & v & Hv & Hobj).
    cbn [fst] in Hv. rewrite Hv, Ha.
    rewrite (lookup_app_l _ _ a) by done. rewrite Hobj.
    rewrite list_lookup_middle by done.
    destruct (iadd v fc) as [r|e]; [| done]. cbn [mbind result_bind].
    destruct (Hown o a Ha) as [_ Hwritten].
    destruct Hwritten as [Ha0 Hdistinct]; [by rewrite Hmo |].
    eexists. split; [reflexivity |].
    unfold accumulators_agree. cbn [fst snd objects frame_results empty_frames].
    rewrite length_insert.
    split; [done |]. split; [done |]. split; [done |]. split; [| split].
    + intros o' a' Ha'. destruct (decide (o' = o)) as [-> | Hne].
      * assert (a' = a) as -> by congruence.
        rewrite !list_lookup_insert_eq; [done | lia |].
        rewrite length_app. lia.
      * assert (a' ≠ a) as Hna by (intros ->; by apply (Hdistinct o' Hne)).
        rewrite !list_lookup_insert_ne by done.
        destruct (accumulators_agree_ref _ _ _ _ _ Hagree Ha') as (Hlt' & _).
        rewrite lookup_app_l by done. by apply Hval.
    + rewrite list_lookup_insert_ne by done.
      rewrite lookup_app_l; [done |]. by eapply lookup_lt_Some.
    + exact Hown.
  - (* the first write: rebind the slot *)
    pose proof (lookup_lt_Some _ _ _ Hmo) as Ho.
    eexists. split; [reflexivity |].
    unfold accumulators_agree. cbn [fst snd objects frame_results empty_frames].
    rewrite !length_insert.
    split; [done |]. split; [done |]. split; [done |]. split; [| split].
    + intros o' a' Ha'. destruct (decide (o' = o)) as [-> | Hne].
      * rewrite list_lookup_insert_eq in Ha' by lia. injection Ha' as <-.
        rewrite list_lookup_middle by done. by rewrite list_lookup_insert_eq by lia.
      * rewrite list_lookup_insert_ne in Ha' by done.
        rewrite list_lookup_insert_ne by done.
        destruct (accumulators_agree_ref _ _ _ _ _ Hagree Ha') as (Hlt' & _).
        rewrite lookup_app_l by done. by apply Hval.
    + rewrite lookup_app_l; [done |]. by eapply lookup_lt_Some.
    + intros o' a' Ha'. destruct (decide (o' = o)) as [-> | Hne].
      * rewrite list_lookup_insert_eq in Ha' by lia. injection Ha' as <-.
        rewrite list_lookup_insert_eq by lia. split; [done |]. intros _.
        pose proof (lookup_lt_Some _ _ _ Hzero) as Hz. split; [lia |].
        intros o'' Hne'. rewrite list_lookup_insert_ne by done. intros Ha''.
        destruct (accumulators_agree_ref _ _ _ _ _ Hagree Ha'') as (Hlt'' & _). lia.
      * rewrite list_lookup_insert_ne in Ha' by done.
        rewrite list_lookup_insert_ne by done.
        destruct (Hown o' a' Ha') as [Hfree Hwritten].
        split; [done |]. intros Hw. destruct (Hwritten Hw) as [Ha0 Hdistinct].
        split; [done |]. intros o'' Hne'.
        destruct (decide (o'' = o)) as [-> | Hne''].
        -- rewrite list_lookup_insert_eq by lia. intros [= <-].
           destruct (accumulators_agree_ref _ _ _ _ _ Hagree Ha') as (Hlt' & _). lia.
        -- rewrite list_lookup_insert_ne by done. by apply Hdistinct.
Qed.

(** What the slots hold when they are read through their references. *)
Lemma accumulators_agree_read zero_frame st sh :
  accumulators_agree zero_frame st sh → frames_read sh = st.1.
Proof.
  intros Hagree. pose proof Hagree as (_ & _ & Hlen & _).
  apply list_eq. intros o. unfold frames_read. rewrite list_lookup_fmap.
  destruct (frame_results sh !! o) as [a|] eqn:Ha; cbn.
  - destruct (accumulators_agree_ref _ _ _ _ _ Hagree Ha) as (_ & v & -> & Hobj).
    by rewrite (list_lookup_total_correct _ _ _ Hobj).
  - symmetry. apply lookup_ge_None. apply lookup_ge_None in Ha. lia.
Qed.

(** X16.  The slots of [frame_results] start out as references to one zero
    tensor, and the loops add to slots in place; yet the zero tensor is
    never written to.  Read with shared objects, the loops raise exactly
    when they raise read with values, and otherwise end with the same
    markers and with slots that refer to tensors holding the same values,
    object 0 still being the zero tensor: a slot is rebound to a layer's
    fresh output before anything is added to it. *)
Theorem overlap_add_shared_refines layers input target size_k0 size_i0 size_o0 zero_frame :
  match overlap_add layers input target size_k0 size_i0
          (py_repeat size_o0 zero_frame, py_repeat size_o0 None) with
  | Ok (frs, marks) =>
      ∃ sh, overlap_add_shared layers input target size_k0 size_i0
              (initial_accumulators size_o0 zero_frame) = Ok sh ∧
            frames_read sh = frs ∧
            empty_frames sh = marks ∧
            objects sh !! 0%nat = Some zero_frame
  | Raise e =>
      overlap_add_shared layers input target size_k0 size_i0
        (initial_accumulators size_o0 zero_frame) = Raise e
  end.
Proof.
  unfold overlap_add, overlap_add_shared.
  pose proof (for_each_sim (accumulators_agree zero_frame) (range size_k0)
                (fun i st => for_each (range size_i0)
                               (overlap_add_body layers input target i) st)
                (fun i st => for_each (range size_i0)
                               (overlap_add_body_shared layers input target i) st)) as Hsim.
  specialize (Hsim (fun i s t HR =>
    for_each_sim (accumulators_agree zero_frame) (range size_i0)
      (overlap_add_body layers input target i)
      (overlap_add_body_shared layers input target i)
      (fun j s' t' HR' => overlap_add_body_sim zero_frame layers input target i j s' t' HR')
      s t HR)).
  specialize (Hsim _ _ (accumulators_agree_initial zero_frame size_o0)).
  destruct (for_each (range size_k0) _ _) as [[frs marks]|e]; [| exact Hsim].
  destruct Hsim as (sh & Hrun & Hagree). exists sh. split; [exact Hrun |].
  split; [exact (accumulators_agree_read _ _ _ Hagree) |].
  destruct Hagree as (Hmarks & _ & _ & _ & Hzero & _). done.
Qed.

(** * Operators of one dimension *)

Lemma for_each_skip_or_raise {A S : Type} (xs : list A) (body : A → S → result S) st e :
  (∀ x st, x ∈ xs → body x st = Ok st ∨ body x st = Raise e) →
  for_each xs body st = Ok st ∨ for_each xs body st = Raise e.
Proof.
  intros H. induction xs as [|x xs IH]; [by left |].
  cbn [for_each]. destruct (H x st ltac:(set_solver)) as [-> | ->]; [| by right].
  cbn [mbind result_bind]. apply IH. intros y st' Hy. apply H. set_solver.
Qed.

Lemma for_each_raise_any {A S : Type} (xs : list A) (body : A → S → result S) st e :
  (∀ x st, x ∈ xs → body x st = Ok st ∨ body x st = Raise e) →
  (∃ x, x ∈ xs ∧ ∀ st, body x st = Raise e) →
  for_each xs body st = Raise e.
Proof.
  intros H (x & Hx & Hraise). induction xs as [|y xs IH]; [by apply elem_of_nil in Hx |].
  cbn [for_each]. destruct (H y st ltac:(set_solver)) as [Hy | ->]; [| done].
  rewrite Hy. cbn [mbind result_bind].
  apply elem_of_cons in Hx as [-> | Hx]; [by rewrite Hraise in Hy |].
  apply IH; [| done]. intros z st' Hz. apply H. set_solver.
Qed.

(** When every call of a layer raises [e] and some pair of a kernel
    offset and an input position has a target frame, the loops raise
    [e]. *)
Lemma overlap_add_layers_raise layers input target (k l : nat) st e :
  (∀ i j, (i < k)%nat → (j < l)%nat → call layers i (slice2 j input) = Raise e) →
  (∃ i j, (i < k)%nat ∧ (j < l)%nat ∧ target i j ≠ None) →
  overlap_add layers input target (Z.of_nat k) (Z.of_nat l) st = Raise e.
Proof.
  intros Hcall (i & j & Hi & Hj & Ht). unfold overlap_add, range. rewrite !Nat2Z.id.
  assert (∀ i' j' st', (i' < k)%nat → (j' < l)%nat →
            overlap_add_body layers input target i' j' st' = Ok st'
            ∨ overlap_add_body layers input target i' j' st' = Raise e) as Hbody.
  { intros i' j' st' Hi' Hj'. unfold overlap_add_body.
    destruct (target i' j'); [| by left]. right. cbv zeta. by rewrite Hcall. }
  apply for_each_raise_any.
  - intros i' st' Hi'%elem_of_seq. apply for_each_skip_or_raise.
    intros j' st'' Hj'%elem_of_seq. apply Hbody; lia.
  - exists i. split; [apply elem_of_seq; lia |]. intros st'.
    apply for_each_raise_any.
    + intros j' st'' Hj'%elem_of_seq. apply Hbody; lia.
    + exists j. split; [apply elem_of_seq; lia |]. intros st''.
      unfold overlap_add_body. destruct (target i j); [| done].
      cbv zeta. by rewrite Hcall.
Qed.

(** A 3D primitive rejects an input of two axes. *)
Lemma base_forward_3d_rejects c (b ch : nat) g :
  spatial_dims (prim c) = 3%nat → (0 < b)%nat → (0 < ch)%nat →
  base_forward c (tabulate [b; ch] g) = Raise RuntimeError.
Proof.
  intros Hd Hb Hc. unfold base_forward.
  rewrite tshape_tabulate by (repeat constructor; lia).
  unfold base_accepts. cbv zeta. rewrite Hd. done.
Qed.

Lemma num_dims_1_prim cls f :
  py_index (base_prims cls) (1 - 1 - 1) = Ok f →
  spatial_dims f = 3%nat ∧
  is_transposed f = match cls with ConvNd => false | ConvTransposeNd => true end.
Proof. destruct cls; intros [= <-]; done. Qed.

Lemma singleton_length {A : Type} `{!Inhabited A} (l : list A) :
  length l = 1%nat → l = [l !!! 0%nat].
Proof. destruct l as [|x [|y l]]; cbn [length]; (lia || done). Qed.

(** X17.  With [num_dims = 1] a constructor selects the primitive at index
    [-1] of its tuple, the 3D one, and builds layers with empty kernel
    tuples.  The operator it returns cannot be applied: on every input of
    shape [(b, c, l)] whose leading axis fits the kernel, the first layer
    that is called is given a slice of two axes and the engine raises
    [RuntimeError].  For the transposed class the statement is made for
    [padding[0] < kernel_size[0]], so that some layer is called. *)
Theorem nd_one_dimension_never_applies fuel cls args e (b c l0 : nat) f :
  a_num_dims args = 1 →
  args_ok cls args = true →
  (0 < b)%nat → (0 < c)%nat →
  axis_ok (match cls with ConvNd => false | ConvTransposeNd => true end)
    (a_padding_mode args) (Z.of_nat l0)
    (as_tuple (a_kernel_size args) 1 !!! 0%nat,
     as_tuple (a_stride args) 1 !!! 0%nat,
     as_tuple (a_padding args) 1 !!! 0%nat) = true →
  match cls with
  | ConvNd => a_rank args = 0
  | ConvTransposeNd =>
      as_tuple (a_padding args) 1 !!! 0%nat < as_tuple (a_kernel_size args) 1 !!! 0%nat
  end →
  ∃ self bias conv_layers e',
    nd_init (S fuel) cls args e = (Ok (Nd cls self bias conv_layers), e') ∧
    spatial_dims (conv_f self) = 3%nat ∧
    Forall (fun l => ∃ c, l = Base c ∧ b_kernel_size c = []) conv_layers ∧
    forward (Nd cls self bias conv_layers) (tabulate [b; c; l0] f) = Raise RuntimeError.
Proof.
  intros Hn Hok Hb Hc Hax Hcls.
  destruct (nd_init_succeeds fuel cls args e Hok) as (m & e' & H).
  pose proof H as Hinv. simpl in Hinv. apply nd_init_body_inv in Hinv
    as (f0 & bias & ws & k0 & Hf & -> & Hlk & Hls & Hlp & _ & Hk0 & Hws & _).
  rewrite Hn in *. apply num_dims_1_prim in Hf as [Hd Ht].
  apply py_index_head_lookup in Hk0.
  set (ks := as_tuple (a_kernel_size args) 1) in *.
  set (ss := as_tuple (a_stride args) 1) in *.
  set (ps := as_tuple (a_padding args) 1) in *.
  assert (ks = [ks !!! 0%nat]) as Hks by (apply singleton_length; lia).
  assert (ss = [ss !!! 0%nat]) as Hss by (apply singleton_length; lia).
  assert (ps = [ps !!! 0%nat]) as Hps by (apply singleton_length; lia).
  set (s0 := ss !!! 0%nat) in *. set (p0 := ps !!! 0%nat) in *. subst k0.
  set (k0 := ks !!! 0%nat) in *.
  set (self := store_args args f0) in *.
  assert (0 ≤ a_out_channels args) as Hout.
  { unfold args_ok in Hok. cbv zeta in Hok.
    repeat rewrite andb_true_iff in Hok. lia. }
  assert (kernel_size self = [k0]) as Eks
    by (unfold self; cbn [store_args kernel_size]; rewrite Hn; exact Hks).
  assert (stride self = [s0]) as Ess
    by (unfold self; cbn [store_args stride]; rewrite Hn; exact Hss).
  assert (padding self = [p0]) as Eps
    by (unfold self; cbn [store_args padding]; rewrite Hn; exact Hps).
  exists self, bias, (base_layers self ws), e'. split; [exact H |].
  split; [exact Hd |]. split.
  { unfold base_layers. apply Forall_fmap, Forall_forall. intros w _.
    eexists. split; [reflexivity |]. cbn [layer_of b_kernel_size]. by rewrite Eks. }
  assert (∀ i y, (i < Z.to_nat k0)%nat → (∃ g, y = tabulate [b; c] g) →
            call (forward <$> base_layers self ws) i y = Raise RuntimeError) as Hcall.
  { intros i y Hi [g ->]. rewrite call_base_layers by lia.
    by apply base_forward_3d_rejects. }
  assert (Forall (fun m => (0 < m)%nat) [b; c; l0]) as Hpos.
  { unfold axis_ok in Hax. repeat constructor; try done. destruct cls; lia. }
  cbn [forward]. destruct cls; unfold axis_ok in Hax.
  - unfold ConvNd_forward_body.
    change (rank self) with (a_rank args). rewrite Hcls. cbn [Z.eqb].
    rewrite tshape_tabulate by done.
    replace (py_index (Z.of_nat <$> [b; c; l0]) 2) with (Ok (Z.of_nat l0))
      by (symmetry; by apply (py_index_nat _ 2%nat)).
    cbn [mbind result_bind].
    rewrite Eps, py_index_0. cbn [mbind result_bind].
    change (padding_mode self) with (a_padding_mode args).
    rewrite (F_pad_tabulate _ p0 b c l0 [] f)
      by (done || lia || (intros Hm; rewrite Hm in Hax; lia)).
    cbn [mbind result_bind].
    set (lp := (l0 + 2 * Z.to_nat p0)%nat).
    rewrite !tshape_tabulate by (repeat constructor; lia).
    change (drop 2 (Z.of_nat <$> [b; c; lp])) with [Z.of_nat lp].
    change (length (Z.of_nat <$> [b; c; lp]) <? 2)%nat with false.
    change ((Z.of_nat <$> [b; c; lp]) !!! 0%nat) with (Z.of_nat b).
    change (<[0%nat := 0]> [p0]) with [0].
    rewrite Eks, Ess.
    cbn [mbind result_bind length seq comprehension Z.of_nat].
    rewrite ?py_index_0. cbn [mbind result_bind].
    replace (s0 =? 0) with false by lia. cbn [mbind result_bind].
    rewrite ?py_index_0. cbn [mbind result_bind drop].
    rewrite torch_zeros_Ok by (repeat constructor; (lia || exact Hout)).
    cbn [mbind result_bind].
    rewrite ?py_index_0. cbn [mbind result_bind].
    match goal with
    | |- context [overlap_add ?L ?I ?T _ _ ?S] =>
        pose proof (overlap_add_layers_raise L I T (Z.to_nat k0) lp S RuntimeError) as Hraise
    end.
    rewrite Z2Nat.id in Hraise by lia. rewrite Hraise; [done | |].
    + intros i j Hi Hj. apply Hcall; [done |]. eexists. by apply slice2_tabulate.
    + exists 0%nat, 0%nat. split; [lia |]. split; [unfold lp; lia |].
      assert (ConvNd_target k0 (Z.of_nat lp) (Z.of_nat lp - k0 + 1) s0
                ((Z.of_nat lp + 2 * 0 - k0) / s0 + 1) 0 0 = Some 0%nat) as ->; [| done].
      apply ConvNd_target_Some; [lia |]. split; [lia |].
      assert (0 ≤ (Z.of_nat lp + 2 * 0 - k0) / s0) by (apply Z.div_pos; unfold lp; lia).
      lia.
  - unfold ConvTransposeNd_forward_body.
    rewrite !tshape_tabulate by done.
    change (drop 2 (Z.of_nat <$> [b; c; l0])) with [Z.of_nat l0].
    change (length (Z.of_nat <$> [b; c; l0]) <? 2)%nat with false.
    change ((Z.of_nat <$> [b; c; l0]) !!! 0%nat) with (Z.of_nat b).
    rewrite Eks, Ess, Eps.
    cbn [mbind result_bind length seq comprehension Z.of_nat].
    rewrite ?py_index_0. cbn [mbind result_bind].
    rewrite ?py_index_0. cbn [mbind result_bind drop].
    rewrite torch_zeros_Ok by (repeat constructor; (lia || exact Hout)).
    cbn [mbind result_bind].
    rewrite ?py_index_0. cbn [mbind result_bind].
    match goal with
    | |- context [overlap_add ?L ?I ?T _ _ ?S] =>
        pose proof (overlap_add_layers_raise L I T (Z.to_nat k0) l0 S RuntimeError) as Hraise
    end.
    rewrite Z2Nat.id in Hraise by lia. rewrite Hraise; [done | |].
    + intros i j Hi Hj. apply Hcall; [done |]. eexists. by apply slice2_tabulate.
    + exists (Z.to_nat p0), 0%nat. split; [lia |]. split; [lia |].
      assert (ConvTransposeNd_target k0 p0
                ((Z.of_nat l0 - 1) * s0 - 2 * p0 + (k0 - 1) + 1) (Z.to_nat p0) 0
              = Some 0%nat) as ->; [| done].
      apply ConvTransposeNd_target_Some. unfold convT_out_len in Hax. lia.
Qed.

Lemma nd_one_dimension_never_applies_witness :
  ∃ self bias conv_layers e',
    nd_init 1 ConvTransposeNd (example_args 1 [2]) example_engine
      = (Ok (Nd ConvTransposeNd self bias conv_layers), e') ∧
    spatial_dims (conv_f self) = 3%nat ∧
    forward (Nd ConvTransposeNd self bias conv_layers) (ones [1; 1; 3]%nat)
    = Raise RuntimeError.
Proof.
  destruct (nd_one_dimension_never_applies 0 ConvTransposeNd (example_args 1 [2])
              example_engine 1 1 3 (fun _ => 1)
              eq_refl ltac:(vm_compute; reflexivity) ltac:(lia) ltac:(lia)
              ltac:(vm_compute; reflexivity) ltac:(vm_compute; reflexivity))
    as (self & bias & layers & e' & E & Hd & _ & Hrun).
  exists self, bias, layers, e'. split; [exact E |]. split; [exact Hd | exact Hrun].
Defined.

(** * Four dimensions *)

(** X18.  A constructed [ConvNd] operator computes the cross-correlation over
    all its spatial axes, for every number of dimensions the constructor
    admits, four included, where the engine has no primitive to compare
    with: on every input it accepts, the element at every index of the
    output is the sum that defines the engine's convolution, taken over
    all the axes of the kernel obtained by stacking the layers' weights
    along the leading kernel axis, plus the bias.  The primitive [d] only
    carries the configuration; the sum does not depend on it. *)
Theorem ConvNd_computes_correlation fuel args e self bias conv_layers e' d x sh :
  ConvNd_init fuel args e = (Ok (Nd ConvNd self bias conv_layers), e') →
  is_transposed d = false →
  has_shape sh x = true →
  nd_accepts ConvNd self (Z.of_nat <$> sh) = true →
  ∃ y, forward (Nd ConvNd self bias conv_layers) x = Ok y ∧
       tshape y = nd_out_shape ConvNd self (Z.of_nat <$> sh) ∧
       ∀ idx, in_shape idx (tshape_nat y) →
              tget y idx = base_elem (direct_conv d self bias conv_layers) x idx.
Proof.
  intros Hinit Htr Hx Hacc.
  apply nd_init_inv in Hinit as (self' & bias' & ws & bf & Hm & Hws & Hb & _).
  injection Hm as <- <- ->.
  rewrite (has_shape_eq _ _ Hx). set (f := tget x).
  exists (ConvNd_output self ws bf sh f).
  split; [by apply ConvNd_forward_closed |].
  split; [by apply (nd_output_shape ConvNd) |].
  destruct (to_nat_shape_pos _ (nd_out_shape_pos _ _ _ Hacc)) as [Hpos Hid].
  destruct (accepted_shape _ _ _ Hacc) as (b & c & l0 & sh_in & ->).
  intros idx Hidx. unfold ConvNd_output in *.
  rewrite tshape_nat_tabulate in Hidx by done.
  rewrite tget_tabulate by done.
  unfold nd_out_shape, in_shape in Hidx.
  change (drop 2 (Z.of_nat <$> b :: c :: l0 :: sh_in))
    with (Z.of_nat l0 :: (Z.of_nat <$> sh_in)) in Hidx.
  change ((Z.of_nat <$> b :: c :: l0 :: sh_in) !!! 0%nat) with (Z.of_nat b) in Hidx.
  rewrite out_sizes_cons, !fmap_cons in Hidx.
  inversion Hidx as [|ib ? idx1 ? Hib H1]; subst.
  inversion H1 as [|co ? idx2 ? Hco H2]; subst.
  inversion H2 as [|o ? os ? Ho Hos]; subst.
  rewrite (direct_conv_elem self bias ws d b c l0 sh_in f bf Hacc Hws Hb Htr ib co o os);
    [done | lia | lia |].
  cbv iota in Ho. lia.
Qed.

Lemma ConvNd_computes_correlation_witness :
  ∃ m self bias conv_layers y,
    built (ConvNd_init 1 (example_args 4 [2; 2; 2; 2]) example_engine) = Some m ∧
    m = Nd ConvNd self bias conv_layers ∧
    forward m (ones [1; 1; 3; 3; 3; 3]%nat) = Ok y ∧
    tshape y = [1; 1; 2; 2; 2; 2] ∧
    tget y [0; 0; 1; 0; 1; 1]%nat
    = base_elem (direct_conv Conv3d self bias conv_layers) (ones [1; 1; 3; 3; 3; 3]%nat)
        [0; 0; 1; 0; 1; 1]%nat.
Proof.
  eassert (ConvNd_init 1 (example_args 4 [2; 2; 2; 2]) example_engine
           = (Ok (Nd ConvNd _ _ _), _)) as E
    by (vm_compute; reflexivity).
  destruct (ConvNd_computes_correlation _ _ _ _ _ _ _ Conv3d
              (ones [1; 1; 3; 3; 3; 3]%nat) [1; 1; 3; 3; 3; 3]%nat E eq_refl
              ltac:(vm_compute; reflexivity) ltac:(vm_compute; reflexivity))
    as (y & Hy & Hsh & Hel).
  eexists _, _, _, _, y. split; [unfold built; rewrite E; reflexivity |].
  split; [reflexivity |]. split; [exact Hy |]. split; [exact Hsh |].
  apply Hel.
  unfold tshape in Hsh.
  assert (tshape_nat y = [1; 1; 2; 2; 2; 2]%nat) as ->.
  { apply (inj (fmap Z.of_nat)). exact Hsh. }
  repeat constructor.
Defined.

(** * Errors of the layers *)

Section ConvNd_layers_raise.
Variables (self : attrs) (bias : option tensor) (layers : list (tensor → result tensor)).
Variables (b c l0 : nat) (sh_in : list nat) (f : list nat → Z) (e : exn).

Let mode := padding_mode self.
Let p0 := padding self !!! 0%nat.
Let k0 := kernel_size self !!! 0%nat.
Let s0 := stride self !!! 0%nat.
Let lp := (l0 + 2 * Z.to_nat p0)%nat.
Let inner := out_sizes false (Z.of_nat <$> sh_in) (drop 1 (kernel_size self))
               (drop 1 (stride self)) (drop 1 (padding self)).
Let xp := tabulate (b :: c :: lp :: sh_in) (padded mode p0 l0 f).

Hypothesis top_level : rank self = 0.
Hypothesis input_extents : Forall (fun m => (0 < m)%nat) (b :: c :: l0 :: sh_in).
Hypothesis kernel_length : length (kernel_size self) = S (length sh_in).
Hypothesis stride_length : length (stride self) = S (length sh_in).
Hypothesis padding_length : length (padding self) = S (length sh_in).
Hypothesis padding_nonneg : 0 ≤ p0.
Hypothesis reflect_fits : mode = mode_reflect → p0 < Z.of_nat l0.
Hypothesis stride_pos : 1 ≤ s0.
Hypothesis strides_nonzero : Forall (fun s => s ≠ 0) (stride self).
Hypothesis kernel_fits : 1 ≤ k0 ≤ Z.of_nat lp.
Hypothesis channels_nonneg : 0 ≤ out_channels self.
Hypothesis inner_nonneg : Forall (fun o => 0 ≤ o) inner.
Hypothesis layers_raise : ∀ i j,
  (i < Z.to_nat k0)%nat → (j < lp)%nat → call layers i (slice2 j xp) = Raise e.

Lemma ConvNd_forward_body_layers_raise :
  ConvNd_forward_body self bias layers (tabulate (b :: c :: l0 :: sh_in) f) = Raise e.
Proof.
  unfold ConvNd_forward_body. rewrite top_level. cbn [Z.eqb].
  rewrite tshape_tabulate by done.
  replace (py_index (Z.of_nat <$> b :: c :: l0 :: sh_in) 2) with (Ok (Z.of_nat l0))
    by (symmetry; by apply (py_index_nat _ 2%nat)).
  cbn [mbind result_bind].
  rewrite (py_index_head (padding self)) by lia. cbn [mbind result_bind]. fold p0 mode.
  rewrite F_pad_tabulate by done. cbn [mbind result_bind]. fold lp xp.
  assert (Forall (fun m => (0 < m)%nat) (b :: c :: lp :: sh_in)) as Hpos.
  { inversion input_extents as [|?? Hb H1]; subst. inversion H1 as [|?? Hc H2]; subst.
    inversion H2 as [|?? Hl H3]; subst. repeat constructor; try done. lia. }
  assert (tshape xp = Z.of_nat <$> b :: c :: lp :: sh_in) as Hshape
    by (unfold xp; by rewrite tshape_tabulate).
  rewrite !Hshape.
  change (drop 2 (Z.of_nat <$> b :: c :: lp :: sh_in))
    with (Z.of_nat lp :: (Z.of_nat <$> sh_in)).
  change ((Z.of_nat <$> b :: c :: lp :: sh_in) !!! 0%nat) with (Z.of_nat b).
  assert (length (Z.of_nat lp :: (Z.of_nat <$> sh_in)) = S (length sh_in)) as Hlen_i
    by (cbn [length]; by rewrite length_fmap).
  replace (length (Z.of_nat <$> b :: c :: lp :: sh_in) <? 2)%nat with false
    by (rewrite length_fmap; cbn [length]; lia).
  cbn [mbind result_bind].
  rewrite ConvNd_size_o by (rewrite ?length_insert; (lia || done)).
  cbn [mbind result_bind].
  rewrite ConvNd_size_ons by lia. cbn [mbind result_bind].
  rewrite out_sizes_cons, drop_1_insert_0.
  rewrite lookup_total_insert_0 by lia. fold inner k0 s0.
  rewrite (py_index_0 (conv_out_len (Z.of_nat lp) k0 s0 0) inner).
  cbn [mbind result_bind]. cbn [drop].
  rewrite torch_zeros_Ok.
  2:{ constructor; [lia |]. constructor; [lia |]. exact inner_nonneg. }
  cbn [mbind result_bind].
  rewrite fmap_cons, fmap_cons, Nat2Z.id.
  rewrite (py_index_head (kernel_size self)) by lia. cbn [mbind result_bind]. fold k0.
  rewrite (py_index_0 (Z.of_nat lp)). cbn [mbind result_bind].
  rewrite Hlen_i. cbn [seq]. rewrite fmap_cons.
  rewrite py_index_0. cbn [mbind result_bind].
  rewrite (py_index_head (stride self)) by lia. cbn [mbind result_bind]. fold s0 k0.
  change ((Z.of_nat lp :: (Z.of_nat <$> sh_in)) !!! 0%nat) with (Z.of_nat lp).
  match goal with
  | |- context [overlap_add ?L ?I ?T _ _ ?S] =>
      pose proof (overlap_add_layers_raise L I T (Z.to_nat k0) lp S e) as Hraise
  end.
  rewrite Z2Nat.id in Hraise by lia. rewrite Hraise; [done | exact layers_raise |].
  exists 0%nat, 0%nat. split; [lia |]. split; [lia |].
  assert (ConvNd_target k0 (Z.of_nat lp) (Z.of_nat lp - k0 + 1) s0
            (conv_out_len (Z.of_nat lp) k0 s0 0) 0 0 = Some 0%nat) as ->; [| done].
  apply ConvNd_target_Some; [lia |]. split; [lia |]. unfold conv_out_len.
  assert (0 ≤ (Z.of_nat lp + 2 * 0 - k0) / s0) by (apply Z.div_pos; lia).
  lia.
Qed.
End ConvNd_layers_raise.

Section ConvTransposeNd_layers_raise.
Variables (self : attrs) (bias : option tensor) (layers : list (tensor → result tensor)).
Variables (b c l0 : nat) (sh_in : list nat) (f : list nat → Z) (e : exn).

Let p0 := padding self !!! 0%nat.
Let k0 := kernel_size self !!! 0%nat.
Let s0 := stride self !!! 0%nat.
Let inner := out_sizes true (Z.of_nat <$> sh_in) (drop 1 (kernel_size self))
               (drop 1 (stride self)) (drop 1 (padding self)).
Let n := convT_out_len (Z.of_nat l0) k0 s0 p0.
Let x := tabulate (b :: c :: l0 :: sh_in) f.

Hypothesis input_extents : Forall (fun m => (0 < m)%nat) (b :: c :: l0 :: sh_in).
Hypothesis kernel_length : length (kernel_size self) = S (length sh_in).
Hypothesis stride_length : length (stride self) = S (length sh_in).
Hypothesis padding_length : length (padding self) = S (length sh_in).
Hypothesis padding_within_kernel : 0 ≤ p0 < k0.
Hypothesis frames_pos : 1 ≤ n.
Hypothesis channels_nonneg : 0 ≤ out_channels self.
Hypothesis inner_nonneg : Forall (fun o => 0 ≤ o) inner.
Hypothesis layers_raise : ∀ i j,
  (i < Z.to_nat k0)%nat → (j < l0)%nat → call layers i (slice2 j x) = Raise e.

Lemma ConvTransposeNd_forward_body_layers_raise :
  ConvTransposeNd_forward_body self bias layers x = Raise e.
Proof.
  unfold ConvTransposeNd_forward_body.
  assert (tshape x = Z.of_nat <$> b :: c :: l0 :: sh_in) as Hshape
    by (unfold x; by rewrite tshape_tabulate).
  rewrite !Hshape.
  change (drop 2 (Z.of_nat <$> b :: c :: l0 :: sh_in))
    with (Z.of_nat l0 :: (Z.of_nat <$> sh_in)).
  change ((Z.of_nat <$> b :: c :: l0 :: sh_in) !!! 0%nat) with (Z.of_nat b).
  assert (length (Z.of_nat l0 :: (Z.of_nat <$> sh_in)) = S (length sh_in)) as Hlen_i
    by (cbn [length]; by rewrite length_fmap).
  replace (length (Z.of_nat <$> b :: c :: l0 :: sh_in) <? 2)%nat with false
    by (rewrite length_fmap; cbn [length]; lia).
  cbn [mbind result_bind].
  rewrite ConvTransposeNd_size_o by lia. cbn [mbind result_bind].
  rewrite out_sizes_cons. fold inner k0 s0 p0 n.
  rewrite (py_index_0 n inner). cbn [mbind result_bind]. cbn [drop].
  rewrite torch_zeros_Ok.
  2:{ constructor; [lia |]. constructor; [lia |]. exact inner_nonneg. }
  cbn [mbind result_bind].
  rewrite (py_index_head (kernel_size self)) by lia. cbn [mbind result_bind]. fold k0.
  rewrite (py_index_0 (Z.of_nat l0)). cbn [mbind result_bind].
  rewrite (py_index_head (padding self)) by lia. cbn [mbind result_bind]. fold p0.
  match goal with
  | |- context [overlap_add ?L ?I ?T _ _ ?S] =>
      pose proof (overlap_add_layers_raise L I T (Z.to_nat k0) l0 S e) as Hraise
  end.
  rewrite Z2Nat.id in Hraise by lia. rewrite Hraise; [done | exact layers_raise |].
  inversion input_extents as [|?? _ H1]; subst. inversion H1 as [|?? _ H2]; subst.
  inversion H2 as [|?? Hl _]; subst.
  exists (Z.to_nat p0), 0%nat. split; [lia |]. split; [lia |].
  assert (ConvTransposeNd_target k0 p0 n (Z.to_nat p0) 0 = Some 0%nat) as ->; [| done].
  apply ConvTransposeNd_target_Some. lia.
Qed.
End ConvTransposeNd_layers_raise.

(** A base primitive rejects an input whose channel count is not its
    own. *)
Lemma base_forward_channel_mismatch cv sh g :
  Forall (fun m => (0 < m)%nat) sh →
  (Z.of_nat <$> sh) !!! 1%nat ≠ b_in_channels cv →
  base_forward cv (tabulate sh g) = Raise RuntimeError.
Proof.
  intros Hpos Hne. unfold base_forward. rewrite tshape_tabulate by done.
  replace (base_accepts cv (Z.of_nat <$> sh)) with false; [done |].
  symmetry. apply not_true_is_false. intros Hacc.
  unfold base_accepts in Hacc. cbv zeta in Hacc. split_andb Hacc. lia.
Qed.

(** X19.  The errors of the engine surface unchanged.  A constructed
    operator given an input whose channel count is not [in_channels],
    and which it would accept with the right channel count, raises the
    [RuntimeError] of the first layer it calls.  For the transposed
    class the statement is made for [padding[0] < kernel_size[0]], so
    that some layer is called. *)
Theorem forward_channel_mismatch fuel cls args e self bias conv_layers e'
    (b c l0 : nat) (sh_in : list nat) f :
  nd_init fuel cls args e = (Ok (Nd cls self bias conv_layers), e') →
  nd_accepts cls self
    (Z.of_nat <$> b :: Z.to_nat (in_channels self) :: l0 :: sh_in) = true →
  (0 < c)%nat → Z.of_nat c ≠ in_channels self →
  (cls = ConvTransposeNd → padding self !!! 0%nat < kernel_size self !!! 0%nat) →
  forward (Nd cls self bias conv_layers) (tabulate (b :: c :: l0 :: sh_in) f)
  = Raise RuntimeError.
Proof.
  intros Hinit Hacc Hc Hne Hpk.
  apply nd_init_inv in Hinit as (self' & bias' & ws & bf & Hm & Hws & _).
  injection Hm as <- <- ->.
  destruct (accepted_lengths _ _ _ _ _ _ Hacc) as (Hk & Hs & Hp & Hd & Ht).
  destruct (accepted_channels _ _ _ _ _ _ Hacc)
    as (Hb & _ & _ & Hg & Hig & Hog & Hco & Hr).
  pose proof (accepted_extents _ _ _ _ _ _ Hacc) as Hext.
  pose proof (accepted_inner_pos _ _ _ _ _ _ Hacc) as Hinner.
  pose proof (accepted_axis _ _ _ _ _ _ Hacc 0 ltac:(lia)) as Hax0.
  pose proof (axis_ok_out_pos _ _ _ _ _ _ Hax0) as Hn.
  change ((Z.of_nat <$> l0 :: sh_in) !!! 0%nat) with (Z.of_nat l0) in Hax0, Hn.
  unfold axis_ok in Hax0.
  assert (Forall (fun m => (0 < m)%nat) (b :: c :: l0 :: sh_in)) as Hpos.
  { inversion Hext as [|?? ? H1]; subst. inversion H1 as [|?? ? H2]; subst.
    constructor; [done |]. constructor; [done | exact H2]. }
  assert (Forall (fun m => (0 < m)%nat) (b :: c :: sh_in)) as Hpos_s.
  { inversion Hpos as [|?? ? H1]; subst. inversion H1 as [|?? ? H2]; subst.
    inversion H2 as [|?? ? H3]; subst.
    constructor; [done |]. constructor; [done | exact H3]. }
  assert (∀ i g, (i < Z.to_nat (kernel_size self !!! 0%nat))%nat →
            call (forward <$> base_layers self ws) i (tabulate (b :: c :: sh_in) g)
            = Raise RuntimeError) as Hcall.
  { intros i g Hi. rewrite call_base_layers by lia.
    apply base_forward_channel_mismatch; [done |]. cbn. lia. }
  cbn [forward]. destruct cls.
  - apply ConvNd_forward_body_layers_raise; try (done || lia).
    + by apply Hr.
    + intros Hm. rewrite Hm in Hax0. lia.
    + apply Forall_lookup. intros a s Ha.
      pose proof (lookup_lt_Some _ _ _ Ha) as Hlt.
      pose proof (accepted_axis _ _ _ _ _ _ Hacc a ltac:(lia)) as Hax.
      rewrite (list_lookup_total_correct _ _ _ Ha) in Hax. unfold axis_ok in Hax. lia.
    + eapply Forall_impl; [exact Hinner |]. simpl. lia.
    + intros i j Hi Hj. rewrite slice2_tabulate by done. by apply Hcall.
  - apply ConvTransposeNd_forward_body_layers_raise; try (done || lia).
    + specialize (Hpk eq_refl). lia.
    + eapply Forall_impl; [exact Hinner |]. simpl. lia.
    + intros i j Hi Hj. rewrite slice2_tabulate by done. by apply Hcall.
Qed.

Lemma forward_channel_mismatch_witness :
  ∃ m, built (ConvNd_init 1 strided_args example_engine) = Some m ∧
       forward m (ones [1; 3; 4; 3]%nat) = Raise RuntimeError.
Proof.
  eassert (nd_init 1 ConvNd strided_args example_engine
           = (Ok (Nd ConvNd _ _ _), _)) as E
    by (vm_compute; reflexivity).
  eexists. split; [unfold built, ConvNd_init; rewrite E; reflexivity |].
  apply (forward_channel_mismatch _ _ _ _ _ _ _ _ 1 3 4 [3%nat] (fun _ => 1) E).
  - vm_compute. reflexivity.
  - lia.
  - vm_compute. discriminate.
  - discriminate.
Defined.

(** * Calls on the heap *)

Lemma preserved_refl h : preserved h h.
Proof. by intros r o. Qed.

Lemma preserved_trans h1 h2 h3 : preserved h1 h2 → preserved h2 h3 → preserved h1 h3.
Proof. intros H12 H23 r o Hr. by apply H23, H12. Qed.

Lemma preserved_new h o : preserved h (h ++ [o]).
Proof. intros r o' Hr. rewrite lookup_app_l; [done |]. by eapply lookup_lt_Some. Qed.

Lemma preserved_insert h0 h r o :
  preserved h0 h → (length h0 ≤ r)%nat → preserved h0 (<[r := o]> h).
Proof.
  intros Hp Hr r0 o0 H0. pose proof (lookup_lt_Some _ _ _ H0).
  rewrite list_lookup_insert_ne by lia. by apply Hp.
Qed.

Lemma preserved_length h h' : preserved h h' → (length h ≤ length h')%nat.
Proof.
  intros Hp. destruct (decide (length h ≤ length h')%nat) as [|Hn]; [done |].
  destruct (lookup_lt_is_Some_2 h (length h')) as [o Ho]; [lia |].
  apply Hp in Ho. apply lookup_lt_Some in Ho. lia.
Qed.

Lemma tensor_at_Ok h r t : h !! r = Some (TensorObject t) → tensor_at r h = Ok t.
Proof. unfold tensor_at. by intros ->. Qed.

Lemma sequence_in_Some h r l :
  sequence_in h r = Some l →
  h !! r = Some (TupleObject l) ∨ h !! r = Some (ListObject l).
Proof.
  unfold sequence_in. destruct (h !! r) as [[]|]; intros [= <-]; auto.
Qed.

Lemma tensor_in_Some h r t : tensor_in h r = Some t ↔ h !! r = Some (TensorObject t).
Proof.
  unfold tensor_in. split.
  - destruct (h !! r) as [[]|]; by intros [= <-].
  - by intros ->.
Qed.

Lemma items_at_sequence h r l : sequence_in h r = Some l → items_at r h = Ok l.
Proof. intros [H | H]%sequence_in_Some; unfold items_at; by rewrite H. Qed.

Lemma getitem_sequence h r l i : sequence_in h r = Some l → getitem r i h = py_index l i.
Proof. intros H. unfold getitem. by rewrite (items_at_sequence _ _ _ H). Qed.

Lemma sequence_in_preserved h h' r l :
  preserved h h' → sequence_in h r = Some l → sequence_in h' r = Some l.
Proof.
  intros Hp [H | H]%sequence_in_Some; apply Hp in H; unfold sequence_in; by rewrite H.
Qed.

Lemma tensor_in_preserved h h' r t :
  preserved h h' → tensor_in h r = Some t → tensor_in h' r = Some t.
Proof. intros Hp H%tensor_in_Some. apply tensor_in_Some. by apply Hp. Qed.

Lemma weights_preserved h h' rs ws :
  preserved h h' → mapM (tensor_in h) rs = Some ws → mapM (tensor_in h') rs = Some ws.
Proof.
  intros Hp H. apply mapM_Some. apply mapM_Some in H.
  eapply Forall2_impl; [exact H |]. intros r w. by apply tensor_in_preserved.
Qed.

Lemma operator_at_preserved self h h' m :
  preserved h h' → operator_at self h = Some m → operator_at self h' = Some m.
Proof.
  intros Hp. unfold operator_at. intros H.
  destruct (sequence_in h (i_kernel_size self)) as [ks|] eqn:Hks; [| done].
  destruct (sequence_in h (i_stride self)) as [ss|] eqn:Hss; [| done].
  destruct (sequence_in h (i_padding self)) as [ps|] eqn:Hps; [| done].
  destruct (mapM (tensor_in h) (i_weights self)) as [ws|] eqn:Hws; [| done].
  cbn in H.
  rewrite (sequence_in_preserved _ _ _ _ Hp Hks), (sequence_in_preserved _ _ _ _ Hp Hss),
    (sequence_in_preserved _ _ _ _ Hp Hps), (weights_preserved _ _ _ _ Hp Hws).
  cbn. destruct (i_bias self) as [rb|]; [| done].
  destruct (tensor_in h rb) as [bt|] eqn:Hbt; [| done].
  by rewrite (tensor_in_preserved _ _ _ _ Hp Hbt).
Qed.

Lemma comprehension_ext {A B : Type} (f g : A → result B) (xs : list A) :
  (∀ x, f x = g x) → comprehension f xs = comprehension g xs.
Proof. intros H. induction xs as [|x xs IH]; [done |]. cbn. by rewrite H, IH. Qed.

(** A layer of the operator called through its weight on the heap. *)
Lemma call_at_layers self ws h i v :
  mapM (tensor_in h) (i_weights self) = Some ws →
  call_at self i v h
  = y ← call (forward <$> base_layers (i_attrs self) ws) i v;
    Ok (new (TensorObject y) h).
Proof.
  intros Hws%mapM_Some. unfold call_at, call, base_layers.
  rewrite !list_lookup_fmap.
  destruct (i_weights self !! i) as [r|] eqn:Hr.
  - destruct (Forall2_lookup_l _ _ _ _ _ Hws Hr) as (w & Hw & Hin).
    rewrite Hw. cbn. apply tensor_in_Some in Hin. by rewrite (tensor_at_Ok _ _ _ Hin).
  - apply Forall2_length in Hws. apply lookup_ge_None in Hr.
    rewrite (proj2 (lookup_ge_None ws i)) by lia. done.
Qed.

Lemma frames_agree_at_initial h0 zero_frame size_o0 :
  frames_agree_at (h0 ++ [TensorObject zero_frame]) (length h0)
    (py_repeat size_o0 zero_frame, py_repeat size_o0 None)
    ((py_repeat size_o0 (length h0), py_repeat size_o0 None),
     h0 ++ [TensorObject zero_frame]).
Proof.
  unfold frames_agree_at, py_repeat. cbn [fst snd]. rewrite !length_replicate.
  split; [done |]. split; [done |]. split; [done |]. split; [apply preserved_refl |].
  intros o a Ha. apply lookup_replicate in Ha as [-> Ho]. split; [| split].
  - exists zero_frame. split; [by apply lookup_replicate_2 |].
    by apply list_lookup_middle.
  - done.
  - intros Hw. exfalso. apply Hw. by apply lookup_replicate_2.
Qed.

(** One step of the loops in the two readings. *)
Lemma overlap_add_body_at_sim self ws h1 zero input x target i j st sr :
  h1 !! input = Some (TensorObject x) →
  mapM (tensor_in h1) (i_weights self) = Some ws →
  (zero < length h1)%nat →
  frames_agree_at h1 zero st sr →
  match overlap_add_body (forward <$> base_layers (i_attrs self) ws) x target i j st with
  | Ok st' =>
      ∃ sr', overlap_add_body_at self input target i j sr = Ok sr' ∧
             frames_agree_at h1 zero st' sr'
  | Raise e => overlap_add_body_at self input target i j sr = Raise e
  end.
Proof.
  intros Hin Hws Hz Hagree. unfold overlap_add_body, overlap_add_body_at.
  destruct (target i j) as [o|]; [| eauto].
  destruct sr as [[refs marks'] h]. destruct st as [frs marks].
  pose proof Hagree as (Hmarks & Hlm & Hlen & Hp & Hslots).
  cbn [fst snd] in *. subst marks'.
  rewrite (tensor_at_Ok _ _ _ (Hp _ _ Hin)). cbn [mbind result_bind]. cbv zeta.
  rewrite (call_at_layers self ws h) by by eapply weights_preserved.
  destruct (call _ i (slice2 j x)) as [fc|e]; [| done].
  cbn [mbind result_bind new].
  unfold store_frame, store_frame_at.
  destruct (marks !! o) as [[z|]|] eqn:Hmo; [| | done].
  - (* the slot has been written: add in place *)
    pose proof (lookup_lt_Some _ _ _ Hmo) as Ho.
    destruct (lookup_lt_is_Some_2 refs o ltac:(lia)) as [a Ha].
    destruct (Hslots o a Ha) as ((v & Hv & Hobj) & _ & Hwritten).
    destruct Hwritten as [Hfresh Hdistinct]; [by rewrite Hmo |].
    rewrite Hv, Ha. unfold iadd_at.
    pose proof (lookup_lt_Some _ _ _ Hobj) as Halt.
    rewrite (tensor_at_Ok (h ++ [TensorObject fc]) a v)
      by (rewrite lookup_app_l by done; exact Hobj).
    rewrite (tensor_at_Ok (h ++ [TensorObject fc]) (length h) fc)
      by by apply list_lookup_middle.
    cbn [mbind result_bind].
    destruct (iadd v fc) as [r|e]; [| done]. cbn [mbind result_bind].
    eexists. split; [reflexivity |].
    unfold frames_agree_at. cbn [fst snd]. rewrite length_insert.
    split; [done |]. split; [done |]. split; [done |]. split.
    { apply preserved_insert; [| done].
      eapply preserved_trans; [exact Hp | apply preserved_new]. }
    intros o' a' Ha'. destruct (Hslots o' a' Ha') as ((v' & Hv' & Hobj') & Hfree' & Hwr').
    split; [| split; [done | done]].
    destruct (decide (o' = o)) as [-> | Hne].
    + assert (a' = a) as -> by congruence.
      exists r. split; [apply list_lookup_insert_eq; lia |].
      apply list_lookup_insert_eq. rewrite length_app. lia.
    + assert (a' ≠ a) as Hna by (intros ->; by apply (Hdistinct o' Hne)).
      exists v'. rewrite !list_lookup_insert_ne by done. split; [done |].
      rewrite lookup_app_l; [done |]. by eapply lookup_lt_Some.
  - (* the first write: rebind the slot *)
    pose proof (lookup_lt_Some _ _ _ Hmo) as Ho.
    pose proof (preserved_length _ _ Hp) as Hlh.
    eexists. split; [reflexivity |].
    unfold frames_agree_at. cbn [fst snd]. rewrite !length_insert.
    split; [done |]. split; [done |]. split; [done |]. split.
    { eapply preserved_trans; [exact Hp | apply preserved_new]. }
    intros o' a' Ha'. destruct (decide (o' = o)) as [-> | Hne].
    + rewrite list_lookup_insert_eq in Ha' by lia. injection Ha' as <-.
      rewrite !list_lookup_insert_eq by lia. split; [| split; [done |]].
      * exists fc. split; [done |]. by apply list_lookup_middle.
      * intros _. split; [lia |].
        intros o'' Hne'. rewrite list_lookup_insert_ne by done. intros Ha''.
        destruct (Hslots o'' _ Ha'') as ((v'' & _ & Hobj'') & _).
        apply lookup_lt_Some in Hobj''. lia.
    + rewrite list_lookup_insert_ne in Ha' by done.
      rewrite !list_lookup_insert_ne by done.
      destruct (Hslots o' a' Ha') as ((v' & Hv' & Hobj') & Hfree' & Hwr').
      split; [| split; [done |]].
      * exists v'. split; [done |]. rewrite lookup_app_l; [done |]. by eapply lookup_lt_Some.
      * intros Hw. destruct (Hwr' Hw) as [Hfresh' Hdistinct']. split; [done |].
        intros o'' Hne'. destruct (decide (o'' = o)) as [-> | Hne''].
        -- rewrite list_lookup_insert_eq by lia. intros [= <-].
           apply lookup_lt_Some in Hobj'. lia.
        -- rewrite list_lookup_insert_ne by done. by apply Hdistinct'.
Qed.

(** The two nested loops in the two readings. *)
Lemma overlap_add_at_sim self ws h1 zero input x target size_k0 size_i0 st sr :
  h1 !! input = Some (TensorObject x) →
  mapM (tensor_in h1) (i_weights self) = Some ws →
  (zero < length h1)%nat →
  frames_agree_at h1 zero st sr →
  match overlap_add (forward <$> base_layers (i_attrs self) ws) x target size_k0 size_i0 st
  with
  | Ok st' =>
      ∃ sr', overlap_add_at self input target size_k0 size_i0 sr = Ok sr' ∧
             frames_agree_at h1 zero st' sr'
  | Raise e => overlap_add_at self input target size_k0 size_i0 sr = Raise e
  end.
Proof.
  intros Hin Hws Hz. unfold overlap_add, overlap_add_at.
  apply (for_each_sim (frames_agree_at h1 zero)). intros i s t HR.
  apply (for_each_sim (frames_agree_at h1 zero)); [| done]. intros j s' t' HR'.
  by apply (overlap_add_body_at_sim self ws h1 zero input x).
Qed.

(** Reading the slots through their references. *)
Lemma read_slots (h : heap) refs frs :
  length refs = length frs →
  (∀ o a, refs !! o = Some a → ∃ v, frs !! o = Some v ∧ h !! a = Some (TensorObject v)) →
  comprehension (fun a => tensor_at a h) refs = Ok frs.
Proof.
  revert frs. induction refs as [|a refs IH]; intros frs Hlen Hslots.
  - destruct frs; [done | discriminate].
  - destruct frs as [|v frs]; [discriminate |]. cbn [comprehension].
    destruct (Hslots 0%nat a eq_refl) as (v' & [= <-] & Hobj).
    rewrite (tensor_at_Ok _ _ _ Hobj). cbn [mbind result_bind].
    rewrite (IH frs); [done | by injection Hlen |].
    intros o a' Ha'. exact (Hslots (S o) a' Ha').
Qed.

Lemma frames_agree_at_read h1 zero frs marks refs marks' h :
  frames_agree_at h1 zero (frs, marks) ((refs, marks'), h) →
  comprehension (fun a => tensor_at a h) refs = Ok frs.
Proof.
  intros (_ & _ & Hlen & _ & Hslots). cbn [fst snd] in *.
  apply read_slots; [done |]. intros o a Ha. by destruct (Hslots o a Ha) as [Hv _].
Qed.

Lemma refines_bind {A B A' B' : Type} (R : A → A' → Prop) (S : B → B' → Prop)
    (m : result A) (m' : result A') (k : A → result B) (k' : A' → result B') :
  refines R m m' →
  (∀ a a', R a a' → refines S (k a) (k' a')) →
  refines S (m ≫= k) (m' ≫= k').
Proof.
  unfold refines at 1. intros Hm Hk. destruct m as [a|e].
  - destruct Hm as (a' & -> & HR). cbn [mbind result_bind]. by apply Hk.
  - by rewrite Hm.
Qed.

Lemma refines_same {A B B' : Type} (S : B → B' → Prop)
    (m : result A) (k : A → result B) (k' : A → result B') :
  (∀ a, m = Ok a → refines S (k a) (k' a)) →
  refines S (m ≫= k) (m ≫= k').
Proof. intros Hk. destruct m as [a|e]; [by apply Hk | done]. Qed.

Lemma torch_stack2_at_read h1 zero frs marks refs marks' h :
  frames_agree_at h1 zero (frs, marks) ((refs, marks'), h) →
  torch_stack2_at refs h = res ← torch_stack2 frs; Ok (new (TensorObject res) h).
Proof.
  intros H. unfold torch_stack2_at. by rewrite (frames_agree_at_read _ _ _ _ _ _ _ H).
Qed.

(** The closing bias step in the two readings: only the result is
    written. *)
Lemma add_bias_at_sim self a bias h2 res_ref res h :
  use_bias a = use_bias (i_attrs self) →
  out_channels a = out_channels (i_attrs self) →
  match i_bias self with
  | Some r => ∃ bt, bias = Some bt ∧ h2 !! r = Some (TensorObject bt)
  | None => bias = None
  end →
  preserved h2 h → (length h2 ≤ res_ref)%nat →
  h !! res_ref = Some (TensorObject res) →
  refines (fun y h' => h' !! res_ref = Some (TensorObject y) ∧ preserved h2 h')
    (add_bias a bias res) (add_bias_at self res_ref h).
Proof.
  intros Hub Hout Hbias Hp Hres Hr. unfold add_bias, add_bias_at.
  rewrite Hub, Hout. destruct (use_bias (i_attrs self)); [| by exists h].
  rewrite (tensor_at_Ok _ _ _ Hr). cbn [mbind result_bind].
  destruct (py_index (tshape res) 1) as [channels|e]; [| done]. cbn [mbind result_bind].
  apply (for_each_sim
           (fun y h' => h' !! res_ref = Some (TensorObject y) ∧ preserved h2 h'));
    [| done].
  intros k y h' [Hy Hp']. destruct (Z.of_nat k <? channels); [| done].
  destruct (i_bias self) as [r|]; [| by rewrite Hbias].
  destruct Hbias as (bt & -> & Hbt).
  rewrite (tensor_at_Ok _ _ _ (Hp' _ _ Hbt)). cbn [mbind result_bind].
  destruct (rows bt !! k) as [v|]; [| done].
  rewrite (tensor_at_Ok _ _ _ Hy). cbn [mbind result_bind].
  eexists. split; [reflexivity |]. split.
  - apply list_lookup_insert_eq. by eapply lookup_lt_Some.
  - by apply preserved_insert.
Qed.

(** The sizes computed from the sequences on the heap. *)
Lemma ConvNd_size_o_at (h : heap) rp rk rs pad ks ss (size_i : list Z) xs :
  sequence_in h rp = Some pad → sequence_in h rk = Some ks → sequence_in h rs = Some ss →
  comprehension
    (fun x : nat =>
       si ← py_index size_i (Z.of_nat x);
       p ← getitem rp (Z.of_nat x) h;
       k ← getitem rk (Z.of_nat x) h;
       s ← getitem rs (Z.of_nat x) h;
       if s =? 0 then Raise ZeroDivisionError
       else Ok ((si + 2 * p - k) / s + 1)) xs
  = comprehension
      (fun x : nat =>
         si ← py_index size_i (Z.of_nat x);
         p ← py_index pad (Z.of_nat x);
         k ← py_index ks (Z.of_nat x);
         s ← py_index ss (Z.of_nat x);
         if s =? 0 then Raise ZeroDivisionError
         else Ok ((si + 2 * p - k) / s + 1)) xs.
Proof.
  intros Hp Hk Hs. apply comprehension_ext. intros x.
  by rewrite (getitem_sequence _ _ _ _ Hp), (getitem_sequence _ _ _ _ Hk),
    (getitem_sequence _ _ _ _ Hs).
Qed.

Lemma ConvNd_size_ons_at (h : heap) rk ks (size_i : list Z) xs :
  sequence_in h rk = Some ks →
  comprehension
    (fun x : nat =>
       si ← py_index size_i (Z.of_nat x);
       k ← getitem rk (Z.of_nat x) h;
       Ok (si - k + 1)) xs
  = comprehension
      (fun x : nat =>
         si ← py_index size_i (Z.of_nat x);
         k ← py_index ks (Z.of_nat x);
         Ok (si - k + 1)) xs.
Proof.
  intros Hk. apply comprehension_ext. intros x.
  by rewrite (getitem_sequence _ _ _ _ Hk).
Qed.

Lemma ConvTransposeNd_size_o_at (h : heap) rp rk rs pad ks ss (size_i : list Z) xs :
  sequence_in h rp = Some pad → sequence_in h rk = Some ks → sequence_in h rs = Some ss →
  comprehension
    (fun x : nat =>
       si ← py_index size_i (Z.of_nat x);
       s ← getitem rs (Z.of_nat x) h;
       p ← getitem rp (Z.of_nat x) h;
       k ← getitem rk (Z.of_nat x) h;
       Ok ((si - 1) * s - 2 * p + (k - 1) + 1)) xs
  = comprehension
      (fun x : nat =>
         si ← py_index size_i (Z.of_nat x);
         s ← py_index ss (Z.of_nat x);
         p ← py_index pad (Z.of_nat x);
         k ← py_index ks (Z.of_nat x);
         Ok ((si - 1) * s - 2 * p + (k - 1) + 1)) xs.
Proof.
  intros Hp Hk Hs. apply comprehension_ext. intros x.
  by rewrite (getitem_sequence _ _ _ _ Hs), (getitem_sequence _ _ _ _ Hp),
    (getitem_sequence _ _ _ _ Hk).
Qed.

Lemma sequence_in_new_list (h : heap) l : sequence_in (h ++ [ListObject l]) (length h) = Some l.
Proof. unfold sequence_in. by rewrite list_lookup_middle. Qed.

(** The part of the two [forward] methods from the stacking of the
    frames on, in the two readings. *)
Lemma stack_and_bias_sim self a bias h0 h1 zero frs marks refs marks' h :
  use_bias a = use_bias (i_attrs self) →
  out_channels a = out_channels (i_attrs self) →
  match i_bias self with
  | Some r => ∃ bt, bias = Some bt ∧ h0 !! r = Some (TensorObject bt)
  | None => bias = None
  end →
  preserved h0 h1 →
  frames_agree_at h1 zero (frs, marks) ((refs, marks'), h) →
  refines (fun y rh => rh.2 !! rh.1 = Some (TensorObject y) ∧ preserved h0 rh.2)
    (res ← torch_stack2 frs; add_bias a bias res)
    ('(res, h) ← torch_stack2_at refs h; h ← add_bias_at self res h; Ok (res, h)).
Proof.
  intros Hub Hout Hbias Hp01 Hagree.
  rewrite (torch_stack2_at_read _ _ _ _ _ _ _ Hagree).
  pose proof Hagree as (_ & _ & _ & Hp1 & _). cbn [fst snd] in Hp1.
  destruct (torch_stack2 frs) as [res|e]; [| done]. cbn [mbind result_bind new].
  assert (preserved h0 h) as Hp0 by by eapply preserved_trans.
  pose proof (add_bias_at_sim self a bias h (length h) res (h ++ [TensorObject res])
                Hub Hout) as Hsim.
  unfold refines in Hsim |- *.
  destruct (add_bias a bias res) as [y|e].
  - destruct Hsim as (h' & -> & Hy & Hp');
      [| apply preserved_new | done | by apply list_lookup_middle |].
    { destruct (i_bias self) as [r|]; [| done].
      destruct Hbias as (bt & -> & Hbt). exists bt. split; [done |]. by apply Hp0. }
    cbn [mbind result_bind]. eexists (_, _). split; [reflexivity |]. cbn [fst snd].
    split; [done |]. by eapply preserved_trans.
  - rewrite Hsim; [done | | apply preserved_new | done | by apply list_lookup_middle].
    destruct (i_bias self) as [r|]; [| done].
    destruct Hbias as (bt & -> & Hbt). exists bt. split; [done |]. by apply Hp0.
Qed.

(** [ConvTransposeNd.forward] in the two readings. *)
Lemma ConvTransposeNd_forward_at_sim self h ks ss ps ws bias input x :
  sequence_in h (i_kernel_size self) = Some ks →
  sequence_in h (i_stride self) = Some ss →
  sequence_in h (i_padding self) = Some ps →
  mapM (tensor_in h) (i_weights self) = Some ws →
  match i_bias self with
  | Some r => ∃ bt, bias = Some bt ∧ h !! r = Some (TensorObject bt)
  | None => bias = None
  end →
  h !! input = Some (TensorObject x) →
  refines (fun y rh => rh.2 !! rh.1 = Some (TensorObject y) ∧ preserved h rh.2)
    (ConvTransposeNd_forward_body (with_sequences ks ss ps (i_attrs self)) bias
       (forward <$> base_layers (i_attrs self) ws) x)
    (ConvTransposeNd_forward_at self input h).
Proof.
  intros Hks Hss Hps Hws Hbias Hin.
  unfold ConvTransposeNd_forward_body, ConvTransposeNd_forward_at.
  cbn [with_sequences kernel_size stride padding out_channels].
  rewrite (tensor_at_Ok _ _ _ Hin). cbn [mbind result_bind]. cbv zeta.
  destruct (length (tshape x) <? 2)%nat; [done |]. cbn [mbind result_bind].
  rewrite (ConvTransposeNd_size_o_at h _ _ _ ps ks ss) by done.
  apply refines_same; intros size_o _.
  apply refines_same; intros size_o0 _.
  apply refines_same; intros zero_frame _.
  cbn [new].
  pose proof (preserved_new h (TensorObject zero_frame)) as Hp1.
  rewrite !(getitem_sequence (h ++ [TensorObject zero_frame]) (i_kernel_size self) ks)
    by by eapply sequence_in_preserved.
  rewrite !(getitem_sequence (h ++ [TensorObject zero_frame]) (i_padding self) ps)
    by by eapply sequence_in_preserved.
  apply refines_same; intros size_k0 _.
  apply refines_same; intros size_i0 _.
  apply refines_same; intros padding0 _.
  apply (refines_bind (frames_agree_at (h ++ [TensorObject zero_frame]) (length h))).
  - apply (overlap_add_at_sim self ws _ _ input x).
    + by apply Hp1.
    + by eapply weights_preserved.
    + rewrite length_app. cbn [length]. lia.
    + apply frames_agree_at_initial.
  - intros [frs marks] [[refs marks'] h2] Hagree.
    by apply (stack_and_bias_sim self _ bias h (h ++ [TensorObject zero_frame]) (length h)
                frs marks refs marks' h2).
Qed.

Lemma setitem_head (h : heap) r p l v :
  h !! r = Some (ListObject (p :: l)) →
  setitem r 0 v h = Ok (<[r := ListObject (v :: l)]> h).
Proof. intros H. unfold setitem. rewrite H. reflexivity. Qed.

(** [ConvNd.forward] in the two readings. *)
Lemma ConvNd_forward_at_sim self h ks ss ps ws bias input x :
  sequence_in h (i_kernel_size self) = Some ks →
  sequence_in h (i_stride self) = Some ss →
  sequence_in h (i_padding self) = Some ps →
  mapM (tensor_in h) (i_weights self) = Some ws →
  match i_bias self with
  | Some r => ∃ bt, bias = Some bt ∧ h !! r = Some (TensorObject bt)
  | None => bias = None
  end →
  h !! input = Some (TensorObject x) →
  refines (fun y rh => rh.2 !! rh.1 = Some (TensorObject y) ∧ preserved h rh.2)
    (ConvNd_forward_body (with_sequences ks ss ps (i_attrs self)) bias
       (forward <$> base_layers (i_attrs self) ws) x)
    (ConvNd_forward_at self input h).
Proof.
  intros Hks Hss Hps Hws Hbias Hin.
  unfold ConvNd_forward_body, ConvNd_forward_at.
  cbn [with_sequences kernel_size stride padding out_channels rank padding_mode].
  unfold py_list. rewrite (items_at_sequence _ _ _ Hps). cbn [mbind result_bind new].
  pose proof (preserved_new h (ListObject ps)) as Hpa.
  apply (refines_bind
           (fun (xp : tensor * list Z) (ih : nat * list object) =>
              ih.2 !! ih.1 = Some (TensorObject xp.1) ∧
              sequence_in ih.2 (length h) = Some xp.2 ∧
              preserved h ih.2)).
  - destruct (rank (i_attrs self) =? 0).
    + rewrite (tensor_at_Ok _ _ _ (Hpa _ _ Hin)). cbn [mbind result_bind]. cbv zeta.
      apply refines_same; intros _ _.
      rewrite (getitem_sequence (h ++ [ListObject ps]) (i_padding self) ps)
        by by eapply sequence_in_preserved.
      apply refines_same; intros p0 Hp0.
      destruct ps as [|p ps']; [vm_compute in Hp0; discriminate |].
      rewrite (setitem_head _ (length h) p ps' 0) by by apply list_lookup_middle.
      cbn [mbind result_bind].
      destruct (F_pad (padding_mode (i_attrs self)) p0 x) as [xp|e]; [| done].
      cbn [mbind result_bind new]. eexists (_, _). split; [reflexivity |].
      cbn [fst snd]. rewrite length_insert. split; [| split].
      * apply list_lookup_middle. by rewrite length_insert.
      * unfold sequence_in. rewrite lookup_app_l by (rewrite length_insert, length_app; cbn; lia).
        rewrite list_lookup_insert_eq by (rewrite length_app; cbn; lia). done.
      * eapply preserved_trans; [| apply preserved_new].
        by apply preserved_insert.
    + eexists (_, _). split; [reflexivity |]. cbn [fst snd]. split; [by apply Hpa |].
      split; [apply sequence_in_new_list | done].
  - intros [x1 pad1] [inref h1] (Hin1 & Hpad1 & Hp1). cbn [fst snd] in Hin1, Hpad1, Hp1.
    rewrite (tensor_at_Ok _ _ _ Hin1). cbn [mbind result_bind]. cbv zeta.
    destruct (length (tshape x1) <? 2)%nat; [done |]. cbn [mbind result_bind].
    rewrite (ConvNd_size_o_at h1 _ _ _ pad1 ks ss)
      by (done || by eapply sequence_in_preserved).
    apply refines_same; intros size_o _.
    rewrite (ConvNd_size_ons_at h1 _ ks) by by eapply sequence_in_preserved.
    apply refines_same; intros size_ons _.
    apply refines_same; intros size_o0 _.
    apply refines_same; intros zero_frame _.
    cbn [new].
    pose proof (preserved_new h1 (TensorObject zero_frame)) as Hp2.
    assert (preserved h (h1 ++ [TensorObject zero_frame])) as Hp02
      by by eapply preserved_trans.
    rewrite !(getitem_sequence (h1 ++ [TensorObject zero_frame]) (i_kernel_size self) ks)
      by by eapply sequence_in_preserved.
    rewrite !(getitem_sequence (h1 ++ [TensorObject zero_frame]) (i_stride self) ss)
      by by eapply sequence_in_preserved.
    apply refines_same; intros size_k0 _.
    apply refines_same; intros size_i0 _.
    apply refines_same; intros size_ons0 _.
    apply refines_same; intros stride0 _.
    apply (refines_bind (frames_agree_at (h1 ++ [TensorObject zero_frame]) (length h1))).
    + apply (overlap_add_at_sim self ws _ _ inref x1).
      * by apply Hp2.
      * by eapply weights_preserved.
      * rewrite length_app. cbn [length]. lia.
      * apply frames_agree_at_initial.
    + intros [frs marks] [[refs marks'] h2] Hagree.
      by apply (stack_and_bias_sim self _ bias h (h1 ++ [TensorObject zero_frame])
                  (length h1) frs marks refs marks' h2).
Qed.

(** An operator with base layers laid out on a heap is the operator the
    instance stands for. *)
Lemma operator_at_heap_of cls self bias ws x :
  operator_at (instance_of cls self bias ws) (heap_of self bias ws x)
  = Some (Nd cls self bias (base_layers self ws)) ∧
  heap_of self bias ws x !! 3%nat = Some (TensorObject x).
Proof.
  split; [| done]. unfold operator_at, instance_of.
  cbn [i_kernel_size i_stride i_padding i_weights i_bias i_class i_attrs].
  assert (mapM (tensor_in (heap_of self bias ws x)) (seq 4 (length ws)) = Some ws) as ->.
  { apply mapM_Some. apply Forall2_same_length_lookup. split; [by rewrite length_seq |].
    intros i r w Hr Hw. apply lookup_seq in Hr as [-> Hi].
    apply tensor_in_Some. unfold heap_of.
    rewrite lookup_app_r by (cbn [length]; lia).
    replace (4 + i - length [TupleObject (kernel_size self); TupleObject (stride self);
                             TupleObject (padding self); TensorObject x])%nat
      with i by (cbn [length]; lia).
    rewrite lookup_app_l by by rewrite length_fmap.
    by rewrite list_lookup_fmap, Hw. }
  assert (sequence_in (heap_of self bias ws x) 0 = Some (kernel_size self)) as -> by done.
  assert (sequence_in (heap_of self bias ws x) 1 = Some (stride self)) as -> by done.
  assert (sequence_in (heap_of self bias ws x) 2 = Some (padding self)) as -> by done.
  cbn [mbind option_bind].
  assert (with_sequences (kernel_size self) (stride self) (padding self) self = self) as ->
    by by destruct self.
  destruct bias as [bt|]; [| done].
  assert (tensor_in (heap_of self (Some bt) ws x) (4 + length ws) = Some bt) as ->; [| done].
  apply tensor_in_Some. unfold heap_of.
  rewrite lookup_app_r by (cbn [length]; lia).
  rewrite lookup_app_r by (rewrite length_fmap; cbn [length]; lia).
  rewrite length_fmap.
  replace (4 + length ws - length [TupleObject (kernel_size self); TupleObject (stride self);
                                   TupleObject (padding self); TensorObject x]
           - length ws)%nat
    with 0%nat by (cbn [length]; lia).
  done.
Qed.

(** The assignment [padding[0] = 0] made through a reference the operator
    holds changes the operator when the object is a list; it is the copy
    made by [list(self.padding)] that keeps the call from doing so. *)
Lemma setitem_through_stored_reference :
  let h := [TupleObject [3; 2]; TupleObject [2; 1]; ListObject [1; 1]] in
  let self := {| i_class := ConvNd; i_attrs := store_args strided_args Conv1d;
                 i_kernel_size := 0; i_stride := 1; i_padding := 2;
                 i_bias := None; i_weights := [] |} in
  ∃ m h',
    operator_at self h = Some m ∧
    setitem (i_padding self) 0 0 h = Ok h' ∧
    operator_at self h' ≠ Some m ∧
    ¬ preserved h h'.
Proof.
  eexists _, _. split; [vm_compute; reflexivity |]. split; [vm_compute; reflexivity |].
  split.
  - vm_compute. intros H. injection H. discriminate.
  - intros Hp. specialize (Hp 2%nat _ eq_refl). vm_compute in Hp. discriminate.
Qed.

(** C9.  A call of an operator on a heap of objects returns what
    [forward] returns as a function of the operator and the input (a new
    tensor holding that output, or the same exception), and when it
    returns, every object that was on the heap before the call is still
    there unchanged: the stored padding, which the call copies before it
    zeroes the copy's first item, the other sequences, the bias, the
    weights and the input.  The instance therefore still stands for the
    same operator, and a second call on the same input returns a tensor
    equal to the first. *)
Theorem forward_at_leaves_operator_unchanged self input h m x :
  operator_at self h = Some m →
  h !! input = Some (TensorObject x) →
  match forward m x with
  | Ok y =>
      ∃ r h',
        forward_at self input h = Ok (r, h') ∧
        h' !! r = Some (TensorObject y) ∧
        preserved h h' ∧
        take (length h) h' = h ∧
        operator_at self h' = Some m ∧
        ∃ r2 h2,
          forward_at self input h' = Ok (r2, h2) ∧
          h2 !! r2 = Some (TensorObject y) ∧
          operator_at self h2 = Some m
  | Raise e => forward_at self input h = Raise e
  end.
Proof.
  intros Hop Hin.
  assert (∀ h0, operator_at self h0 = Some m → h0 !! input = Some (TensorObject x) →
          refines (fun y rh => rh.2 !! rh.1 = Some (TensorObject y) ∧ preserved h0 rh.2)
            (forward m x) (forward_at self input h0)) as Hcall.
  { clear h Hop Hin. intros h Hop Hin. unfold operator_at in Hop.
    destruct (sequence_in h (i_kernel_size self)) as [ks|] eqn:Hks; [| done].
    destruct (sequence_in h (i_stride self)) as [ss|] eqn:Hss; [| done].
    destruct (sequence_in h (i_padding self)) as [ps|] eqn:Hps; [| done].
    destruct (mapM (tensor_in h) (i_weights self)) as [ws|] eqn:Hws; [| done].
    cbn [mbind option_bind] in Hop.
    assert (∃ bias,
              m = Nd (i_class self) (with_sequences ks ss ps (i_attrs self)) bias
                    (base_layers (i_attrs self) ws) ∧
              match i_bias self with
              | Some r => ∃ bt, bias = Some bt ∧ h !! r = Some (TensorObject bt)
              | None => bias = None
              end) as (bias & -> & Hbias).
    { destruct (i_bias self) as [r|].
      - destruct (tensor_in h r) as [bt|] eqn:Hbt; [| done]. cbn in Hop.
        injection Hop as <-. eexists. split; [reflexivity |].
        exists bt. split; [done |]. by apply tensor_in_Some.
      - cbn in Hop. injection Hop as <-. by eexists. }
    unfold forward_at. cbn [forward]. destruct (i_class self).
    - by apply ConvNd_forward_at_sim.
    - by apply ConvTransposeNd_forward_at_sim. }
  pose proof (Hcall h Hop Hin) as H1. unfold refines in H1.
  destruct (forward m x) as [y|e] eqn:Hf; [| exact H1].
  destruct H1 as ([r h'] & Hrun & Hy & Hp). cbn [fst snd] in Hy, Hp.
  pose proof (operator_at_preserved _ _ _ _ Hp Hop) as Hop'.
  exists r, h'. split; [exact Hrun |]. split; [exact Hy |]. split; [exact Hp |].
  split; [| split; [exact Hop' |]].
  - apply list_eq. intros i. pose proof (preserved_length _ _ Hp).
    destruct (h !! i) as [o|] eqn:Hi.
    + rewrite lookup_take_lt by by eapply lookup_lt_Some. by apply Hp.
    + apply lookup_ge_None in Hi. apply lookup_ge_None. rewrite length_take. lia.
  - pose proof (Hcall h' Hop' (Hp _ _ Hin)) as H2. unfold refines in H2. rewrite ?Hf in H2.
    destruct H2 as ([r2 h2] & Hrun2 & Hy2 & Hp2). cbn [fst snd] in Hy2, Hp2.
    exists r2, h2. split; [exact Hrun2 |]. split; [exact Hy2 |].
    by eapply operator_at_preserved.
Qed.

Lemma forward_at_leaves_operator_unchanged_witness :
  ∃ self bias conv_layers y r h' r2 h2,
    built (ConvNd_init 1 strided_args example_engine) = Some (Nd ConvNd self bias conv_layers) ∧
    forward (Nd ConvNd self bias conv_layers) strided_input = Ok y ∧
    forward_at (instance_of ConvNd self bias (layer_weights conv_layers)) 3
      (heap_of self bias (layer_weights conv_layers) strided_input) = Ok (r, h') ∧
    h' !! r = Some (TensorObject y) ∧
    h' !! 2%nat = Some (TupleObject [1; 1]) ∧
    h' !! 8%nat = Some (ListObject [0; 1]) ∧
    take 8 h' = heap_of self bias (layer_weights conv_layers) strided_input ∧
    forward_at (instance_of ConvNd self bias (layer_weights conv_layers)) 3 h' = Ok (r2, h2) ∧
    h2 !! r2 = Some (TensorObject y).
Proof.
  eassert (ConvNd_init 1 strided_args example_engine = (Ok (Nd ConvNd _ _ _), _)) as E
    by (vm_compute; reflexivity).
  match type of E with
  | _ = (Ok (Nd _ ?self ?bias ?layers), _) =>
      pose proof (forward_at_leaves_operator_unchanged
                    (instance_of ConvNd self bias (layer_weights layers)) 3
                    (heap_of self bias (layer_weights layers) strided_input)
                    (Nd ConvNd self bias layers) strided_input
                    ltac:(vm_compute; reflexivity) ltac:(vm_compute; reflexivity)) as H;
      exists self, bias, layers
  end.
  destruct (forward _ strided_input) as [y|e] eqn:Hf; [| vm_compute in Hf; discriminate].
  destruct H as (r & h' & Hrun & Hy & Hp & Htake & _ & r2 & h2 & Hrun2 & Hy2 & _).
  exists y, r, h', r2, h2.
  split; [unfold built; rewrite E; reflexivity |]. split; [reflexivity |].
  split; [exact Hrun |]. split; [exact Hy |].
  split; [apply Hp; vm_compute; reflexivity |].
  split; [| split; [exact Htake | split; [exact Hrun2 | exact Hy2]]].
  vm_compute in Hrun. injection Hrun as _ <-. vm_compute. reflexivity.
Defined.
